(* ===== verification/_CoqProject ===== *)
-Q . S2P
Prelude.v
Crc.v
Gf.v
Packet.v
Layout.v
Scm.v
ScmPlus.v
Idm.v
NetIdm.v
Float64.v
R900.v
R900Bcd.v
Search.v
Ring.v
History.v
Signal.v
Register.v
Decode.v
Receiver.v
Update.v
DutyMath.v
DutyMathSpec.v
FloatSpec.v
DutyModel.v
Scheduler.v
DutyDefaults.v
SchedulerSpec.v
SchedulerTotal.v
DutyState.v
DutySnapshot.v
DutyStateSpec.v
DutyRestore.v
DutyRuntime.v
DutyCheckpoint.v
Capture.v
Receive.v
Replay.v
DutyRuntimeSpec.v
ReceiveSpec.v
KernelRing.v
KernelRingSpec.v
Sources.v
SourcesSpec.v
DutyPolicy.v
Protocols.v
ProtocolsSpec.v
ProtocolsTotal.v
ProtocolsCopy.v
Collector.v
CollectorSpec.v
CollectorMeters.v
Flags.v
Device.v
DeviceSpec.v
Startup.v
StartupSpec.v
SingleSpec.v
Native.v
NativeSearch.v
NativeSignal.v
