(* ===== verification/Prelude.v ===== *)
(** * Verification of rtlamr-mod-perf

    The repository is a receiver of utility-meter broadcasts.  A block of raw samples
    becomes magnitudes or powers, a matched filter turns them into decisions, the
    decisions of the last packet length are kept in a ring, every registered preamble
    is searched in it, and the packets found are sliced and given to the parsers of
    their protocol (src/protocol, src/scm, src/scmplus, src/idm, src/netidm, src/r900,
    src/r900bcd).  A duty scheduler (src/internal/dutyscheduler) learns when each meter
    transmits and tells the receiver which blocks it need not decode; the receive loop
    (src/main.go, src/duty_runtime.go) keeps the blocks it sleeps through and replays
    them when it wakes, and checkpoints (src/duty_checkpoint.go) carry what was learned
    over a restart.  Around them: the flags and the construction of the receiver
    (src/flags.go, src/main.go), the sources of samples with the zero-copy ring they share
    with a kernel module (src/receiver_source*.go, src/kernel), the policy file of the
    scheduler, and the separate program that collects the messages into a database
    (src/cmd/rtlamr-collect).  The development translates that code into functions and
    proves what makes it correct.

    ** Conventions

    Go integers are [Z] with the wrap of their width written out ([u8] ... [i64]);
    float64 is the Standard Library's executable IEEE specification ([Float64]).  A
    function that can panic in Go (index or slice out of range, nil map entry) returns
    [option], and [None] is the panic; a Go error is [None] of [New] or a value of the
    error type of [DutyState].  Objects that Go mutates through pointers are threaded
    through the functions; scratch buffers that are reused from call to call are part
    of the state, so that the theorems show what survives in them.  Strings are lists
    of bytes.

    ** Files

    - [Prelude]: integers, byte and bit access, [slice] and [index], FormatUint and
      ParseUint, the list lemmas and tactics shared by all.
    - [Crc] (src/crc/crc.go): the table-driven CRC; it is the bit-serial division, its
      residue accepts exactly its own checksums, and it detects every burst it should.
    - [Gf] (src/r900/gf/gf.go): GF(32) by logarithm tables is a field, and the syndrome
      of the R900 code has its minimum distance.
    - [Packet], [Layout] (src/protocol/parse.go): packets, their text and bytes, and
      fields laid out in transmission order.
    - [Scm], [ScmPlus], [Idm], [NetIdm] (the packages of the same names): parsing
      appends exactly the accepted packets, once each, in order; what is encoded is
      parsed back.
    - [R900], [R900Bcd] (src/r900, src/r900bcd): the symbol quantizers, the
      Reed-Solomon acceptance, the whole way from noisy power samples to the message,
      and the BCD wrapper.
    - [Search] (src/protocol/decode.go, search_platform_generic.go): packing and the
      byte-aligned preamble search find exactly the positions of the preamble; the
      older index-list search finds only true ones.
    - [Ring], [History] (src/protocol/decode.go, power16.go): the ring of decisions, its
      packed mirror, and the sample strips are sliding windows.
    - [Signal] (the same files): magnitudes, the matched filter, the exact 16-bit power
      pipeline.
    - [Native], [NativeSearch], [NativeSignal] (src/protocol/*_arm64.go,
      src/r900/power16_quantize_platform_linux_arm64.go): how the linux/arm64 build detects
      its processor, tests its native leaves at start-up and guards them; behind the guards
      the native search and signal kernels are the portable ones.
    - [Register] (decode.go, power16.go): registration, derived geometry, the choice of
      the fused backend.
    - [Decode] (decode.go, power16.go): [Allocate], [Reset] and [Decode] of the whole
      decoder; [Receiver]: an abstract receiver over one flat window, which the decoder
      refines for every order of Go's map iteration, and the reset theorem.
    - [Update]: record update notation for the scheduler's records.
    - [DutyMath], [DutyModel], [Scheduler], [DutyDefaults] (src/internal/dutyscheduler/
      scheduler.go, defaults.go): the numerical part, one candidate's cadence models, and
      the scheduler with [New], [Advance], [Observe], [ObserveEscape], [PrepareResume].
    - [SchedulerSpec]: the invariant of reachable schedulers; suppression is gated, and
      recovery decodes everything.
    - [DutyState], [DutySnapshot] (state.go, scheduler.go): export, the restores, the
      report and the legacy import; [DutyStateSpec], [DutyRestore]: the round trip of a
      checkpoint, and restarts that fail open.
    - [DutyMathSpec]: when the search for the required observations ends, when it panics.
    - [DutyRuntime] (src/duty_runtime.go): the sample clock, the collar of raw blocks,
      the counters, the estimate of the time to trust, the report, when checkpoints are
      written; [DutyCheckpoint] (src/duty_checkpoint.go): validation and restore of one
      checkpoint, the choice among those of a directory.
    - [FloatSpec], [SchedulerTotal]: facts on rounding, and that no run of the scheduler
      panics or outgrows its limits.
    - [DutyPolicy] (src/duty_policy.go): the policy file, and what it cannot change.
    - [Capture] (src/continuous_capture.go, src/flags.go): the bounded raw capture and
      the message filters over their shared store.
    - [Receive] (src/main.go): processBlock, processDecodedMessages, rebuildDutyDecoder,
      the batches of Run, and its loop beside the select of main.
    - [Replay]: a decoder that starts in the middle of a stream agrees with one that
      heard all of it after the warm-up; [DutyRuntimeSpec]: the collar is the sequence of
      the last blocks, and the exact clock; [ReceiveSpec]: the gated receive loop against
      a receiver that never sleeps; [SingleSpec]: what ends a run.
    - [KernelRing], [KernelRingSpec] (src/kernel, receiver_source_direct_linux.go): the
      slots of the kernel module, its wait queue and the zero-copy source as one transition
      system; the batches are those the device completed, the retained ones are stable, and
      whatever ends a wait wakes it.
    - [Sources], [SourcesSpec] (receiver_source.go, receiver_source_direct_linux.go): the
      stream cut into blocks, and the ring of the reading thread as a queue.
    - [Protocols] (src/main.go, parse.go, the init functions): the six parsers behind one
      interface, newProtocolDecoder, and the copy of the decoder it returns;
      [ProtocolsSpec], [ProtocolsTotal], [ProtocolsCopy]: it never panics, and the copy
      runs as the original, or, for R900 on float samples, does not.
    - [Flags], [Device], [Startup] (src/flags.go, receiver_source_direct_linux.go,
      src/main.go): HandleFlags, the opening of the direct source, NewReceiver;
      [DeviceSpec], [StartupSpec]: the kernel's ring costs nothing, and the receiver is
      what the theorems about runs assume.
    - [Collector] (src/cmd/rtlamr-collect): points, meter map, coalescer, the loop over
      the lines; [CollectorSpec], [CollectorMeters]: what is left out, what is reported once,
      and what is lost.

    ** Groups of theorems

    Each property is marked C1, C2, ... in its doc comment.  The decoder as a refinement,
    its totality, reset and aliasing: C1, C3, C15, C17.  The gated receive loop, its clock
    and its end: C2, C4, C27.  Start of the program and the sources: C5, C6, C20, C38 to
    C40.  Scheduler, policy and checkpoints: C7 to C9, C16, C19, C25, C33, C34.  Searching,
    native kernels and registration: C11 to C13, C37.  Protocols: C10, C18, C22, C28, C31,
    C32.  Codes: C26, C35, C36.  Buffers and signal: C23, C29, C30.  Collector: C14, C21,
    C24.  A property with hypotheses is followed by a witness that applies it to a concrete
    input.

    ** Fuel

    Only the loops that are not a [for] over a range have fuel: the doubling and the
    bisection of [RequiredObservations] have 64 steps each, which C33 proves enough for
    every count of misses but the one for which the Go loop never ends; the loop of the stream source has
    as much as a block has bytes, since every turn reads one, and C39 proves it returns; the
    attempts to open the kernel's ring are the hundred of the code, and trimming and splitting
    of strings has as much as the string has bytes.  ParseUint, FormatUint
    and the other loops are structural.

    ** Parameters

    What is not under src/ is an argument.  So is the machine code of the native kernels:
    the classes [SearchLeaves] and [SignalLeaves] are the assembly routines, and the records
    [search_leaves_lawful] and [signal_leaves_lawful] their contracts, equality with the Go
    routine their self test compares them with on the requests that the guards let through.
    The decoder is proved against the classes [SearchPlatform], [DualPlatform],
    [MagnitudePlatform], [ManchesterPlatform] and [QuantizerPlatform], and both the portable
    code and the guarded native code (C12, C13) are proved to be such instances.  The
    addresses of buffers are arguments, of which the theorems use that different
    allocations are disjoint.  The order in which Go walks a map is an argument, and parsers
    are instances of [ParserOps]; the transcendental functions of package math, and the
    conversion to int64 of a float out of its range (which differs between processors), are the class
    [GoMath]; json.Marshal and sha256 are the class [Fingerprint].  The receive loop asks
    a record [World] for the time, the map walks, and whether the encoder and the writers
    succeed, once per use; checkpoints take the text and the parser of times, the file
    system, the JSON parser, the writer of reports and sort.Slice as arguments, of which
    the theorems use that sort.Slice permutes.  The reader of the stream, the events of
    the device and the kernel, the functions of librtlsdr, the rtl_tcp client, the policy
    file with its JSON decoder and time.ParseDuration, strings.ToLower, and the collector's
    JSON, msgpack, bbolt and InfluxDB libraries are arguments; of the codecs the theorems
    use that they decode what they encode.  Floating-point
    expressions are evaluated operation by operation: the fusing of a product and a sum
    that the Go compiler may do on arm64 is not modelled.

    ** The decoder in place

    [Receive] runs the decoder with the parsers reading its own windows.  The program's
    parsers read through the variable that newProtocolDecoder returned a copy of; C15 proves
    that the runs are the same, except for R900 parsers on float samples, for which
    [returned_copy_loses_r900] shows a run that differs.

    ** Not modelled

    The panic of the confidence bound for [2 ^ 45] misses and more is followed through
    [upperMissBound], [RequiredObservations] and the snapshot, not through the
    qualification of a candidate, where it counts as a failure: only a restored checkpoint
    can name such a count (C7).  Memory that runs out is not modelled.  The power of two of
    a block is taken exactly, not through a float logarithm.

    The instructions of the arm64 kernels (only their contracts are used), the self test of
    the float64 filter (it compares NaN payloads, which the float model does not have), and
    the experiments behind build tags.  Package flag (registration, environment overrides),
    the encoders of messages (encoding/json, encoding/xml, src/csv), logging and profiling,
    the closing of sources and of the receiver behind the cancellation, and in the kernel module probing, mapping
    and the older claim and release calls are input and output, or interfaces of other
    systems.  Text output of the decoder's configuration ([Decoder.Log]), the table of
    src/misc and the float filter of R900 that only tests call are left out. *)

From Stdlib Require Export String Ascii ZArith Lia Btauto.
From stdpp Require Export base option list numbers sets countable gmap.

Open Scope Z_scope.

Create HintDb go.

(** ** Go integers

    A w-bit unsigned integer is a [Z] in [0, 2^w); a signed one is a [Z] in
    [-2^(w-1), 2^(w-1)).  Every operation that can leave the range is followed
    by an explicit wrap. *)

Definition wrap_u (w x : Z) : Z := x mod 2 ^ w.
Definition wrap_s (w x : Z) : Z := (x + 2 ^ (w - 1)) mod 2 ^ w - 2 ^ (w - 1).

Definition u8 (x : Z) : Z := wrap_u 8 x.
Definition u16 (x : Z) : Z := wrap_u 16 x.
Definition u32 (x : Z) : Z := wrap_u 32 x.
Definition u64 (x : Z) : Z := wrap_u 64 x.
Definition i32 (x : Z) : Z := wrap_s 32 x.
Definition i64 (x : Z) : Z := wrap_s 64 x.

Definition is_uint (w x : Z) : Prop := 0 <= x < 2 ^ w.
Abbreviation is_byte := (is_uint 8).
Abbreviation is_bit := (is_uint 1).

Definition max_u64 : Z := 2 ^ 64 - 1.
Definition max_i64 : Z := 2 ^ 63 - 1.

Lemma wrap_u_id w x : is_uint w x -> wrap_u w x = x.
Proof. intros H. apply Z.mod_small, H. Qed.

Lemma wrap_u_range w x : 0 <= w -> is_uint w (wrap_u w x).
Proof. intros H. apply Z.mod_pos_bound. apply Z.pow_pos_nonneg; lia. Qed.

Lemma wrap_s_id w x : 0 < w -> - 2 ^ (w - 1) <= x < 2 ^ (w - 1) -> wrap_s w x = x.
Proof.
  intros Hw H. unfold wrap_s.
  replace (2 ^ w) with (2 * 2 ^ (w - 1)); [rewrite Z.mod_small; lia|].
  rewrite <- Z.pow_succ_r by lia. f_equal. lia.
Qed.

Lemma wrap_s_range w x : 0 < w -> - 2 ^ (w - 1) <= wrap_s w x < 2 ^ (w - 1).
Proof.
  intros Hw. unfold wrap_s.
  assert (2 ^ w = 2 * 2 ^ (w - 1)) as ->.
  { rewrite <- Z.pow_succ_r by lia. f_equal. lia. }
  assert (0 < 2 ^ (w - 1)) by (apply Z.pow_pos_nonneg; lia).
  pose proof (Z.mod_pos_bound (x + 2 ^ (w - 1)) (2 * 2 ^ (w - 1))). lia.
Qed.

Lemma i64_id x : - 2 ^ 63 <= x < 2 ^ 63 -> i64 x = x.
Proof. intros H. apply wrap_s_id; lia. Qed.

Lemma i32_id x : - 2 ^ 31 <= x < 2 ^ 31 -> i32 x = x.
Proof. intros H. apply wrap_s_id; lia. Qed.

#[export] Hint Resolve wrap_u_range wrap_s_range : go.

(** Unfold the ranges and evaluate the constant powers of two in them. *)
Ltac uints :=
  unfold is_uint in *;
  repeat match goal with
  | H : context [2 ^ ?n] |- _ =>
      let p := eval vm_compute in (2 ^ n) in
      match p with Zpos _ => change (2 ^ n) with p in H end
  | |- context [2 ^ ?n] =>
      let p := eval vm_compute in (2 ^ n) in
      match p with Zpos _ => change (2 ^ n) with p end
  end.

(** ** Slices

    Go slices and arrays are lists; [len] is the Go length.  Indexing and
    slicing out of range is a run-time panic, which the models report as
    [None] in the option monad of stdpp. *)

Definition len {A} (l : list A) : Z := Z.of_nat (length l).

Definition index {A} (l : list A) (i : Z) : option A :=
  if 0 <=? i then l !! Z.to_nat i else None.

Definition slice {A} (lo hi : Z) (l : list A) : option (list A) :=
  if (0 <=? lo) && (lo <=? hi) && (hi <=? len l)
  then Some (take (Z.to_nat (hi - lo)) (drop (Z.to_nat lo) l)) else None.

Definition store {A} (l : list A) (i : Z) (x : A) : option (list A) :=
  if (0 <=? i) && (i <? len l) then Some (<[Z.to_nat i := x]> l) else None.

(** [copy(dst, src)]: the common prefix is overwritten. *)
Definition gocopy {A} (dst src : list A) : list A :=
  take (length dst) src ++ drop (length src) dst.

(** [make([]T, n)] for a non-negative [n]. *)
Definition make {A} (n : Z) (x : A) : list A := replicate (Z.to_nat n) x.

Fixpoint foldM {A B} (f : A -> B -> option A) (a : A) (l : list B) : option A :=
  match l with
  | [] => Some a
  | b :: l => match f a b with Some a' => foldM f a' l | None => None end
  end.

Lemma len_nonneg {A} (l : list A) : 0 <= len l.
Proof. unfold len. lia. Qed.

Lemma len_app {A} (l k : list A) : len (l ++ k) = len l + len k.
Proof. unfold len. rewrite length_app. lia. Qed.

Lemma len_cons {A} (x : A) l : len (x :: l) = len l + 1.
Proof. unfold len. simpl. lia. Qed.

Lemma len_make {A} n (x : A) : 0 <= n -> len (make n x) = n.
Proof. intros H. unfold len, make. rewrite length_replicate. lia. Qed.

Lemma length_gocopy {A} (dst src : list A) : length (gocopy dst src) = length dst.
Proof. unfold gocopy. rewrite length_app, length_take, length_drop. lia. Qed.

Lemma gocopy_full {A} (dst src : list A) :
  (length dst <= length src)%nat -> gocopy dst src = take (length dst) src.
Proof. intros H. unfold gocopy. rewrite (drop_ge dst), app_nil_r by lia. done. Qed.

Lemma index_Some {A} (l : list A) i x :
  index l i = Some x <-> 0 <= i /\ l !! Z.to_nat i = Some x.
Proof.
  unfold index. destruct (Z.leb_spec 0 i); split; [done|by intros []|done|].
  intros []. lia.
Qed.

Lemma index_lt {A} (l : list A) i : 0 <= i < len l -> is_Some (index l i).
Proof.
  intros H. unfold index. rewrite (proj2 (Z.leb_le 0 i)) by lia.
  apply lookup_lt_is_Some. unfold len in H. lia.
Qed.

Lemma index_nat {A} (l : list A) n : index l (Z.of_nat n) = l !! n.
Proof. unfold index. rewrite (proj2 (Z.leb_le 0 _)) by lia. by rewrite Nat2Z.id. Qed.

Lemma slice_ok {A} lo hi (l : list A) :
  0 <= lo <= hi -> hi <= len l ->
  slice lo hi l = Some (take (Z.to_nat (hi - lo)) (drop (Z.to_nat lo) l)).
Proof.
  intros H1 H2. unfold slice.
  rewrite !(proj2 (Z.leb_le _ _)) by lia. done.
Qed.

Lemma slice_Some {A} lo hi (l k : list A) :
  slice lo hi l = Some k ->
  0 <= lo <= hi /\ hi <= len l /\ k = take (Z.to_nat (hi - lo)) (drop (Z.to_nat lo) l).
Proof.
  unfold slice. destruct (Z.leb_spec 0 lo), (Z.leb_spec lo hi), (Z.leb_spec hi (len l));
    simpl; intros [= <-]; auto with lia.
Qed.

Lemma slice_prefix {A} n (l : list A) : 0 <= n <= len l -> slice 0 n l = Some (take (Z.to_nat n) l).
Proof. intros H. rewrite slice_ok by lia. by rewrite Z.sub_0_r, drop_0. Qed.

Lemma slice_suffix {A} n (l : list A) : 0 <= n <= len l -> slice n (len l) l = Some (drop (Z.to_nat n) l).
Proof. intros H. rewrite slice_ok by lia. f_equal. apply take_ge. rewrite length_drop. unfold len in *. lia. Qed.

Lemma slice_len {A} lo hi (l k : list A) : slice lo hi l = Some k -> len k = hi - lo.
Proof.
  intros (?&?&->)%slice_Some. unfold len in *. rewrite length_take, length_drop. lia.
Qed.

Lemma store_Some {A} (l : list A) i x l' :
  store l i x = Some l' -> 0 <= i < len l /\ l' = <[Z.to_nat i := x]> l.
Proof.
  unfold store. destruct (Z.leb_spec 0 i), (Z.ltb_spec i (len l)); simpl; intros [= <-]; auto with lia.
Qed.

Lemma index_store_ne {A} (l : list A) i j x l' :
  store l i x = Some l' -> j <> i -> index l' j = index l j.
Proof.
  intros (Hi & ->)%store_Some Hj. unfold index. destruct (Z.leb_spec 0 j); [|done].
  apply list_lookup_insert_ne. lia.
Qed.

Lemma index_store_eq {A} (l : list A) i x l' : store l i x = Some l' -> index l' i = Some x.
Proof.
  intros (Hi & ->)%store_Some. unfold index. rewrite (proj2 (Z.leb_le 0 i)) by lia.
  apply list_lookup_insert_eq. unfold len in Hi. lia.
Qed.

Lemma len_store {A} (l : list A) i x l' : store l i x = Some l' -> len l' = len l.
Proof. intros (Hi & ->)%store_Some. unfold len. by rewrite length_insert. Qed.

Lemma index_range {A} (l : list A) i x : index l i = Some x -> 0 <= i < len l.
Proof. intros [Hi Hx%lookup_lt_Some]%index_Some. unfold len. lia. Qed.

(** Filling the next slot of an array whose tail is still at its initial value. *)
Lemma store_next {A} (l : list A) n i x d :
  i = len l -> (0 < n)%nat ->
  store (l ++ replicate n d) i x = Some ((l ++ [x]) ++ replicate (pred n) d).
Proof.
  intros -> Hn. destruct n as [|n]; [lia|]. unfold store, len.
  rewrite (proj2 (Z.leb_le 0 _)), (proj2 (Z.ltb_lt _ _)) by (rewrite ?length_app, ?length_replicate; lia).
  cbn [andb]. f_equal. rewrite Nat2Z.id, insert_app_r_alt by lia. rewrite Nat.sub_diag. cbn [replicate pred].
  by rewrite <- app_assoc.
Qed.

Lemma foldM_app {A B} (f : A -> B -> option A) a l k :
  foldM f a (l ++ k) = (a' ← foldM f a l; foldM f a' k).
Proof. revert a. induction l as [|b l IH]; intros a; simpl; [done|]. destruct (f a b); [apply IH|done]. Qed.

(** A loop whose body never panics is the pure fold. *)
Lemma foldM_is_Some {A B} (f : A -> B -> option A) (l : list B) : (forall a b, b ∈ l -> is_Some (f a b)) -> forall a, is_Some (foldM f a l).
Proof.
  induction l as [|b l IH]; intros Hf a; [by eexists|]. cbn [foldM]. destruct (Hf a b ltac:(by left)) as [a' ->]. apply IH. intros x y Hy. apply Hf. by right.
Qed.

Lemma foldM_pure {A B} (f : A -> B -> option A) (g : A -> B -> A) (P : A -> Prop) a l :
  P a ->
  (forall a b, P a -> b ∈ l -> f a b = Some (g a b) /\ P (g a b)) ->
  foldM f a l = Some (foldl g a l) /\ P (foldl g a l).
Proof.
  revert a. induction l as [|b l IH]; intros a Ha Hf; simpl; [done|].
  destruct (Hf a b Ha) as [-> HP]; [apply list_elem_of_here|].
  apply IH; [done|]. intros a' b' Ha' Hb'. apply Hf; [done|by apply list_elem_of_further].
Qed.

Lemma Forall_take_drop {A} (P : A -> Prop) l n m :
  Forall P l -> Forall P (take n (drop m l)).
Proof. intros H. by apply Forall_take, Forall_drop. Qed.

Lemma Forall_gocopy {A} (P : A -> Prop) dst src :
  Forall P dst -> Forall P src -> Forall P (gocopy dst src).
Proof. intros H1 H2. apply Forall_app. split; [by apply Forall_take|by apply Forall_drop]. Qed.

(** Ranges of a concrete list, by computation. *)
Definition uintsb (w : Z) (l : list Z) : bool := forallb (fun x => (0 <=? x) && (x <? 2 ^ w)) l.

Lemma uintsb_Forall w l : uintsb w l = true -> Forall (is_uint w) l.
Proof.
  intros H. apply Forall_forall. intros x Hx. unfold uintsb in H. rewrite forallb_forall in H.
  apply list_elem_of_In, H in Hx. apply andb_prop in Hx as [?%Z.leb_le ?%Z.ltb_lt]. by split.
Qed.

Lemma Forall_filter_incl {A} (P Q : A -> Prop) `{!forall x, Decision (Q x)} l :
  Forall P l -> Forall P (filter Q l).
Proof.
  intros HP. apply Forall_forall. intros x [_ Hx]%list_elem_of_filter.
  rewrite Forall_forall in HP. auto.
Qed.

Ltac solve_Forall := repeat (apply Forall_nil_2 || apply Forall_cons_2); try done; try lia.

#[export] Hint Resolve Forall_take_drop Forall_take Forall_drop Forall_gocopy len_nonneg : go.

(** ** Bits and big-endian bytes *)

(** The eight bits of a byte, most significant first. *)
Definition byte_bits (b : Z) : list Z :=
  [Z.land (Z.shiftr b 7) 1; Z.land (Z.shiftr b 6) 1; Z.land (Z.shiftr b 5) 1;
   Z.land (Z.shiftr b 4) 1; Z.land (Z.shiftr b 3) 1; Z.land (Z.shiftr b 2) 1;
   Z.land (Z.shiftr b 1) 1; Z.land (Z.shiftr b 0) 1].

Definition bytes_bits (bs : list Z) : list Z := concat (map byte_bits bs).

(** [digits w l] reads a list of w-bit digits, most significant first. *)
Definition of_digits (w : Z) (l : list Z) : Z := foldl (fun a d => a * 2 ^ w + d) 0 l.
Definition of_bits (l : list Z) : Z := of_digits 1 l.
Definition of_bytes (l : list Z) : Z := of_digits 8 l.

Lemma foldl_digits w a l :
  0 <= w -> foldl (fun a d => a * 2 ^ w + d) a l = a * 2 ^ (w * len l) + of_digits w l.
Proof.
  intros Hw. unfold of_digits. revert a. induction l as [|d l IH]; intros a; simpl.
  - unfold len. simpl. rewrite Z.mul_0_r. lia.
  - rewrite (IH (a * 2 ^ w + d)), (IH (0 * 2 ^ w + d)), len_cons.
    rewrite Z.mul_add_distr_l, Z.mul_1_r, Z.pow_add_r by (pose proof (len_nonneg l); nia).
    ring.
Qed.

Lemma of_digits_app w l k :
  0 <= w -> of_digits w (l ++ k) = of_digits w l * 2 ^ (w * len k) + of_digits w k.
Proof. intros Hw. unfold of_digits at 1. rewrite foldl_app. by apply foldl_digits. Qed.

Lemma of_digits_cons w d l :
  0 <= w -> of_digits w (d :: l) = d * 2 ^ (w * len l) + of_digits w l.
Proof. intros Hw. unfold of_digits at 1. simpl. by rewrite foldl_digits. Qed.

Lemma of_digits_range w l :
  0 <= w -> Forall (is_uint w) l -> 0 <= of_digits w l < 2 ^ (w * len l).
Proof.
  intros Hw. induction 1 as [|d l Hd Hl IH].
  { unfold of_digits, len. simpl. rewrite Z.mul_0_r. lia. }
  rewrite of_digits_cons, len_cons by done. pose proof (len_nonneg l).
  rewrite Z.mul_add_distr_l, Z.mul_1_r, Z.pow_add_r by nia. unfold is_uint in Hd. nia.
Qed.

(** A field cut out of the digits is a field cut out of the number. *)
Lemma of_digits_slice w (l : list Z) lo hi k :
  0 <= w -> Forall (is_uint w) l -> slice lo hi l = Some k ->
  of_digits w k = (of_digits w l / 2 ^ (w * (len l - hi))) mod 2 ^ (w * (hi - lo)).
Proof.
  intros Hw Hl Hs. pose proof (slice_len _ _ _ _ Hs) as Hk.
  apply slice_Some in Hs as (H1 & H2 & Hk').
  set (a := take (Z.to_nat lo) l). set (c := drop (Z.to_nat hi) l).
  assert (l = a ++ k ++ c) as Hcut.
  { subst a c k. replace (Z.to_nat hi) with (Z.to_nat lo + Z.to_nat (hi - lo))%nat by lia.
    by rewrite <- drop_drop, !take_drop. }
  assert (len c = len l - hi) as Hc.
  { subst c. unfold len in *. rewrite length_drop. lia. }
  assert (Forall (is_uint w) k /\ Forall (is_uint w) c) as [Fk Fc].
  { rewrite Hcut, !Forall_app in Hl. by destruct Hl as (_ & ? & ?). }
  rewrite Hcut at 1. rewrite !of_digits_app by done. rewrite len_app, Hk, Hc.
  pose proof (of_digits_range w k Hw Fk) as Rk. rewrite Hk in Rk.
  pose proof (of_digits_range w c Hw Fc) as Rc. rewrite Hc in Rc.
  set (p := 2 ^ (w * (len l - hi))) in *. set (q := 2 ^ (w * (hi - lo))) in *.
  replace (2 ^ (w * (hi - lo + (len l - hi)))) with (q * p)
    by (subst p q; rewrite <- Z.pow_add_r by nia; f_equal; lia).
  replace (of_digits w a * (q * p) + (of_digits w k * p + of_digits w c))
    with (of_digits w c + (of_digits w a * q + of_digits w k) * p) by ring.
  rewrite Z.div_add, Z.div_small, Z.add_0_l by lia.
  rewrite Z.add_comm, Z.mod_add, Z.mod_small by lia. done.
Qed.

Lemma bytes_bits_app a b : bytes_bits (a ++ b) = bytes_bits a ++ bytes_bits b.
Proof. unfold bytes_bits. by rewrite map_app, concat_app. Qed.

Lemma byte_bits_are_bits b : Forall is_bit (byte_bits b).
Proof.
  unfold byte_bits. repeat (constructor; [unfold is_uint; rewrite (Z.land_ones _ 1) by lia;
    apply Z.mod_pos_bound; lia|]). constructor.
Qed.

Lemma bytes_bits_are_bits bs : Forall is_bit (bytes_bits bs).
Proof.
  unfold bytes_bits. induction bs as [|b bs IH]; [constructor|]. cbn [map concat].
  apply Forall_app. split; [apply byte_bits_are_bits|done].
Qed.

Lemma len_bytes_bits bs : len (bytes_bits bs) = 8 * len bs.
Proof.
  unfold bytes_bits. induction bs as [|b bs IH]; [done|].
  cbn [map concat]. rewrite len_app, IH, len_cons. change (len (byte_bits b)) with 8. lia.
Qed.

(** Finite quantification by computation. *)

Lemma forall_range (P : Z -> bool) n :
  forallb P (seqZ 0 n) = true -> forall x, 0 <= x < n -> P x = true.
Proof.
  intros H x Hx. rewrite forallb_forall in H. apply H, list_elem_of_In, elem_of_seqZ. lia.
Qed.

Lemma forall_range2 (P : Z -> Z -> bool) n m :
  forallb (fun x => forallb (P x) (seqZ 0 m)) (seqZ 0 n) = true ->
  forall x y, 0 <= x < n -> 0 <= y < m -> P x y = true.
Proof. intros H x y Hx Hy. apply (forall_range _ m); [|done]. by apply (forall_range _ n H x). Qed.

Lemma of_bits_byte b : is_byte b -> of_bits (byte_bits b) = b.
Proof.
  intros Hb. apply Z.eqb_eq.
  apply (forall_range (fun b => of_bits (byte_bits b) =? b) 256); [vm_compute; done|exact Hb].
Qed.

Lemma of_bits_bytes bs : Forall is_byte bs -> of_bits (bytes_bits bs) = of_bytes bs.
Proof.
  unfold of_bits, of_bytes, bytes_bits.
  induction 1 as [|b bs Hb Hbs IH]; [done|].
  cbn [map concat]. rewrite of_digits_app, of_digits_cons, IH by lia.
  pose proof (of_bits_byte b Hb) as Hbb. unfold of_bits in Hbb. rewrite Hbb.
  fold (bytes_bits bs). by rewrite len_bytes_bits, Z.mul_1_l.
Qed.

#[export] Hint Resolve byte_bits_are_bits bytes_bits_are_bits : go.


(** ** Go strings and [strconv]

    A Go string is its bytes.  [str] turns a literal into them. *)

Definition str (s : string) : list Z :=
  map (fun c => Z.of_N (N_of_ascii c)) (list_ascii_of_string s).

Arguments str _%_string_scope.

(** The text '0'/'1' of a list of bits. *)
Definition bit_chars (l : list Z) : list Z := map (fun b => 48 + b) l.

Inductive parse_error := ErrSyntax | ErrRange.

Definition lower (c : Z) : Z := Z.lor c 32.

Definition digit_val (c : Z) : option Z :=
  if (48 <=? c) && (c <=? 57) then Some (c - 48)
  else if (97 <=? lower c) && (lower c <=? 122) then Some (lower c - 97 + 10)
  else None.

(** The loop of [strconv.ParseUint] for an explicit base and bit size: a bad
    digit gives 0 and a syntax error, an overflow the largest value and a range
    error, whichever comes first in the text. *)
Fixpoint parse_uint_loop (base maxval n : Z) (s : list Z) : Z * option parse_error :=
  match s with
  | [] => (n, None)
  | c :: s =>
      match digit_val c with
      | None => (0, Some ErrSyntax)
      | Some d =>
          if base <=? d then (0, Some ErrSyntax)
          else if max_u64 / base + 1 <=? n then (maxval, Some ErrRange)
          else let m := u64 (n * base) in
               let n1 := u64 (m + d) in
               if (n1 <? m) || (maxval <? n1) then (maxval, Some ErrRange)
               else parse_uint_loop base maxval n1 s
      end
  end.

Definition ParseUint (s : list Z) (base bitSize : Z) : Z * option parse_error :=
  match s with
  | [] => (0, Some ErrSyntax)
  | _ => parse_uint_loop base (2 ^ bitSize - 1) 0 s
  end.

Definition digit_char (d : Z) : Z := if d <? 10 then 48 + d else 87 + d.

(** The digits of [n] in [base], most significant first, in front of [acc];
    sixty-four digits are enough for a uint64 in any base. *)
Fixpoint format_digits (fuel : nat) (base n : Z) (acc : list Z) : list Z :=
  match fuel with
  | O => acc
  | S fuel => if n =? 0 then acc
              else format_digits fuel base (n / base) (digit_char (n mod base) :: acc)
  end.

(** [strconv.FormatUint] *)
Definition FormatUint (n base : Z) : list Z :=
  if n =? 0 then [48] else format_digits 64 base n [].

(** [fmt]'s upper-case hexadecimal, zero padded to a width: [%0wX]. *)
Definition upper (c : Z) : Z := if (97 <=? c) && (c <=? 122) then c - 32 else c.

Definition Hex (width : nat) (n : Z) : list Z :=
  let s := map upper (FormatUint n 16) in replicate (width - length s) 48 ++ s.

Definition zero_x (s : list Z) : list Z := str "0x" ++ s.

Lemma digit_val_char d : 0 <= d < 36 -> digit_val (digit_char d) = Some d.
Proof.
  intros Hd.
  pose proof (forall_range
    (fun d => match digit_val (digit_char d) with Some e => e =? d | None => false end) 36
    ltac:(vm_compute; reflexivity) d Hd) as Hb. cbn beta in Hb.
  destruct (digit_val _); [|done]. f_equal. by apply Z.eqb_eq.
Qed.

Lemma digit_char_range d : 0 <= d < 36 -> is_byte (digit_char d).
Proof. unfold digit_char. uints. destruct (Z.ltb_spec d 10); lia. Qed.

(** One step of the parse when nothing overflows. *)
Lemma parse_uint_loop_step base bits n d s :
  2 <= base <= 36 -> 0 <= bits <= 64 -> 0 <= n -> 0 <= d < base -> n * base + d < 2 ^ bits ->
  parse_uint_loop base (2 ^ bits - 1) n (digit_char d :: s) =
  parse_uint_loop base (2 ^ bits - 1) (n * base + d) s.
Proof.
  intros Hb Hbits Hn Hd Hlt. cbn [parse_uint_loop]. rewrite digit_val_char by lia.
  destruct (Z.leb_spec base d); [lia|].
  assert (2 ^ bits <= 2 ^ 64) as Hpow by (apply Z.pow_le_mono_r; lia).
  assert (n <= max_u64 / base) as Hcut.
  { apply Z.div_le_lower_bound; [lia|]. unfold max_u64. nia. }
  destruct (Z.leb_spec (max_u64 / base + 1) n); [lia|].
  unfold u64. rewrite (wrap_u_id 64 (n * base)) by (unfold is_uint; nia).
  rewrite (wrap_u_id 64 (n * base + d)) by (unfold is_uint; nia).
  destruct (Z.ltb_spec (n * base + d) (n * base)); [lia|].
  destruct (Z.ltb_spec (2 ^ bits - 1) (n * base + d)); [lia|]. done.
Qed.

Lemma parse_uint_loop_digits base bits n (l : list Z) :
  2 <= base <= 36 -> 0 <= bits <= 64 -> 0 <= n ->
  Forall (fun d => 0 <= d < base) l ->
  foldl (fun a d => a * base + d) n l < 2 ^ bits ->
  parse_uint_loop base (2 ^ bits - 1) n (map digit_char l) =
  (foldl (fun a d => a * base + d) n l, None).
Proof.
  intros Hb Hbits Hn Hl. revert n Hn.
  induction Hl as [|d l Hd Hl IH]; intros n Hn Hlt; [done|]. cbn [map foldl] in *.
  assert (forall a, 0 <= a -> a <= foldl (fun a d => a * base + d) a l) as Hmono.
  { clear -Hl Hb. induction Hl as [|d l Hd Hl IH]; intros a Ha; simpl; [lia|].
    specialize (IH (a * base + d)). nia. }
  rewrite parse_uint_loop_step; [|lia|lia|lia|lia|].
  - apply IH; [nia|done].
  - specialize (Hmono (n * base + d)). nia.
Qed.

Lemma bit_chars_digits l : Forall is_bit l -> bit_chars l = map digit_char l.
Proof.
  intros H. unfold bit_chars. apply map_ext_in. intros b Hb. apply list_elem_of_In in Hb.
  rewrite Forall_forall in H. specialize (H b Hb). unfold digit_char.
  destruct (Z.ltb_spec b 10); [done|]. unfold is_uint in H. lia.
Qed.

(** Binary text of at most [bitSize] digits parses to the number it spells. *)
Lemma ParseUint_bits l bits :
  Forall is_bit l -> 0 < len l <= bits -> bits <= 64 ->
  ParseUint (bit_chars l) 2 bits = (of_bits l, None).
Proof.
  intros Hl Hlen Hbits. destruct l as [|b l]; [unfold len in Hlen; simpl in Hlen; lia|].
  rewrite bit_chars_digits by done. unfold ParseUint. cbn [map].
  change (digit_char b :: map digit_char l) with (map digit_char (b :: l)).
  assert (Forall (fun d => 0 <= d < 2) (b :: l)) as Hl2 by exact Hl.
  pose proof (of_digits_range 1 _ ltac:(lia) Hl) as Hr.
  unfold of_bits. unfold of_digits in *. change (2 ^ 1) with 2 in *.
  apply parse_uint_loop_digits; [lia|lia|lia|done|].
  eapply Z.lt_le_trans; [apply Hr|]. apply Z.pow_le_mono_r; lia.
Qed.

(** [format_digits] spells the base-[base] digits of its argument. *)
Lemma format_digits_spec fuel base n acc :
  2 <= base <= 36 -> 0 <= n < base ^ Z.of_nat fuel ->
  exists l, format_digits fuel base n acc = map digit_char l ++ acc /\
            Forall (fun d => 0 <= d < base) l /\
            foldl (fun a d => a * base + d) 0 l = n /\ (0 < n -> l <> []).
Proof.
  intros Hb. revert n acc. induction fuel as [|fuel IH]; intros n acc Hn.
  { simpl in *. exists []. repeat split; [constructor|simpl; lia|lia]. }
  cbn [format_digits]. destruct (Z.eqb_spec n 0) as [->|Hn0].
  { exists []. repeat split; [constructor|lia]. }
  rewrite Nat2Z.inj_succ, Z.pow_succ_r in Hn by lia.
  destruct (IH (n / base) (digit_char (n mod base) :: acc)) as (l & -> & Hl & Hv & _).
  { split; [apply Z.div_pos; lia|]. apply Z.div_lt_upper_bound; lia. }
  exists (l ++ [n mod base]). rewrite map_app, foldl_snoc, Hv, <- app_assoc. repeat split.
  - apply Forall_app. split; [done|]. constructor; [|constructor]. apply Z.mod_pos_bound. lia.
  - pose proof (Z.div_mod n base). lia.
  - intros _. by destruct l.
Qed.

Lemma format_digits_length fuel base n k acc :
  2 <= base -> 0 <= n < base ^ Z.of_nat k -> (length (format_digits fuel base n acc) <= k + length acc)%nat.
Proof.
  intros Hb. revert n k acc. induction fuel as [|fuel IH]; intros n k acc Hn; cbn [format_digits]; [lia|].
  destruct (Z.eqb_spec n 0) as [->|Hn0]; [lia|].
  destruct k as [|k]; [simpl in Hn; lia|]. rewrite Nat2Z.inj_succ, Z.pow_succ_r in Hn by lia.
  etransitivity; [apply (IH (n / base) k)|simpl; lia].
  split; [apply Z.div_pos; lia|]. apply Z.div_lt_upper_bound; lia.
Qed.

(** Parsing what was formatted gives the number back. *)
Lemma ParseUint_FormatUint n base bits :
  2 <= base <= 36 -> 0 < bits <= 64 -> is_uint bits n ->
  ParseUint (FormatUint n base) base bits = (n, None).
Proof.
  intros Hb Hbits Hn. unfold FormatUint.
  assert (2 <= 2 ^ bits) by (change 2 with (2 ^ 1) at 1; apply Z.pow_le_mono_r; lia).
  destruct (Z.eqb_spec n 0) as [->|Hn0].
  { unfold ParseUint. change [48] with (map digit_char [0]).
    rewrite parse_uint_loop_digits; [done|lia|lia|lia|by repeat constructor; lia|simpl; lia]. }
  destruct (format_digits_spec 64 base n []) as (l & -> & Hl & Hv & Hne); [done| |].
  { split; [unfold is_uint in Hn; lia|]. eapply Z.lt_le_trans; [apply Hn|].
    transitivity (2 ^ 64); [apply Z.pow_le_mono_r; lia|]. apply Z.pow_le_mono_l. lia. }
  rewrite app_nil_r. destruct l as [|d l]; [by destruct Hne; [unfold is_uint in Hn; lia|]|].
  unfold ParseUint. cbn [map]. change (digit_char d :: map digit_char l) with (map digit_char (d :: l)).
  rewrite parse_uint_loop_digits; [by rewrite Hv|lia|lia|lia|done|]. rewrite Hv. apply Hn.
Qed.

(** ** Bitwise reasoning *)

Lemma testbit_above w x i : is_uint w x -> w <= i -> Z.testbit x i = false.
Proof.
  intros [H0 H1] Hi. destruct (Z.eq_dec x 0) as [->|]; [apply Z.bits_0|].
  apply Z.bits_above_log2; [done|]. eapply Z.lt_le_trans; [|exact Hi].
  apply Z.log2_lt_pow2; lia.
Qed.

Lemma lxor_range w a b : 0 <= w -> is_uint w a -> is_uint w b -> is_uint w (Z.lxor a b).
Proof.
  intros Hw Ha Hb. rewrite <- (wrap_u_id w a Ha), <- (wrap_u_id w b Hb).
  unfold wrap_u. rewrite <- !Z.land_ones by done.
  replace (Z.lxor _ _) with (Z.lxor a b mod 2 ^ w); [by apply wrap_u_range|].
  apply Z.bits_inj'. intros i Hi.
  rewrite Z.testbit_mod_pow2, !Z.lxor_spec, !Z.land_spec, Z.testbit_ones by lia.
  destruct (Z.leb_spec 0 i), (Z.ltb_spec i w), (Z.testbit a i), (Z.testbit b i); try done; lia.
Qed.

Lemma land_disjoint a b k : 0 <= k -> is_uint k b -> Z.land (Z.shiftl a k) b = 0.
Proof.
  intros Hk Hb. apply Z.bits_inj'. intros i Hi. rewrite Z.land_spec, Z.bits_0, Z.shiftl_spec by done.
  destruct (Z.lt_ge_cases i k); [by rewrite Z.testbit_neg_r by lia|].
  rewrite (testbit_above k b i) by done. apply andb_false_r.
Qed.

Lemma lxor_disjoint_add a b k :
  0 <= k -> is_uint k b -> Z.lxor (Z.shiftl a k) b = a * 2 ^ k + b.
Proof.
  intros Hk Hb. rewrite <- Z.shiftl_mul_pow2 by done. symmetry. by apply Z.add_nocarry_lxor, land_disjoint.
Qed.

Lemma lor_disjoint_add a b k :
  0 <= k -> is_uint k b -> Z.lor (Z.shiftl a k) b = a * 2 ^ k + b.
Proof.
  intros Hk Hb. rewrite <- Z.shiftl_mul_pow2 by done. symmetry. by apply Z.add_nocarry_lor, land_disjoint.
Qed.

#[export] Hint Resolve lxor_range : go.

(** Extensionality on bits, with the bit of each operation written out. *)
Ltac bitwise i :=
  apply Z.bits_inj'; intros i ?;
  unfold u8, u16, u32, u64, wrap_u;
  repeat first
    [ rewrite Z.lxor_spec | rewrite Z.land_spec | rewrite Z.lor_spec | rewrite Z.bits_0
    | rewrite Z.testbit_mod_pow2 by lia | rewrite Z.shiftl_spec by lia
    | rewrite Z.shiftr_spec by lia | rewrite Z.testbit_ones by lia ].

(** ** Sums *)

Definition Zsum (l : list Z) : Z := foldr Z.add 0 l.

Lemma Zsum_range l B : Forall (fun x => 0 <= x <= B) l -> 0 <= Zsum l <= B * len l.
Proof.
  unfold Zsum. induction 1 as [|x l Hx Hl IH]; [unfold len; simpl; lia|]. rewrite len_cons. cbn [foldr]. lia.
Qed.

(** A window of [n] elements slides by adding one and dropping one. *)
Lemma Zsum_slide (l : list Z) k n x y :
  l !! k = Some x -> l !! (k + n)%nat = Some y -> Zsum (take n (drop (S k) l)) = Zsum (take n (drop k l)) + y - x.
Proof.
  intros Hx Hy. rewrite (drop_S _ _ _ Hx). unfold Zsum.
  assert (forall m (t : list Z) z, t !! m = Some z -> foldr Z.add 0 (take (S m) t) = foldr Z.add 0 (take m t) + z) as H.
  { induction m as [|m IH]; intros [|a t] z Hz; try done; cbn in Hz.
    - injection Hz as ->. rewrite firstn_cons, !take_0. cbn. lia.
    - rewrite !firstn_cons. cbn [foldr]. rewrite (IH t z Hz). lia. }
  destruct n as [|n].
  - rewrite Nat.add_0_r in Hy. rewrite Hx in Hy. injection Hy as ->. rewrite !take_0. cbn. lia.
  - rewrite firstn_cons. cbn [foldr]. rewrite (H n (drop (S k) l) y); [lia|]. rewrite lookup_drop, <- Hy. f_equal. lia.
Qed.
