(* ===== verification/Crc.v ===== *)
(** The CRC package (src/crc/crc.go): the table-driven checksum, its bit-serial
    reference, the residue it leaves on a message that carries its own
    checksum, and the errors it detects. *)

From S2P Require Import Prelude.

(** ** The code *)

(** The inner step of [NewTable]: shift one bit out, reduce by the polynomial. *)
Definition crc_shift (poly crc : Z) : Z :=
  if negb (Z.land crc 0x8000 =? 0) then Z.lxor (u16 (Z.shiftl crc 1)) poly
  else u16 (Z.shiftl crc 1).

Definition NewTable (poly : Z) : list Z :=
  map (fun tIdx => Nat.iter 8 (crc_shift poly) (u16 (Z.shiftl (u16 tIdx) 8))) (seqZ 0 256).

Definition checksum_step (table : list Z) (crc v : Z) : option Z :=
  t ← index table (Z.lxor (Z.shiftr crc 8) v);
  Some (Z.lxor (u16 (Z.shiftl crc 8)) t).

(** [Checksum(init, data, table)] *)
Definition Checksum (init : Z) (data : list Z) (table : list Z) : option Z :=
  foldM (checksum_step table) init data.

Record CRC := { Name : list Z; Init : Z; Poly : Z; Residue : Z; tbl : list Z }.

Definition NewCRC (name : list Z) (init poly residue : Z) : CRC :=
  {| Name := name; Init := init; Poly := poly; Residue := residue; tbl := NewTable poly |}.

(** [CRC.Checksum] *)
Definition crc_Checksum (crc : CRC) (data : list Z) : option Z := Checksum (Init crc) data (tbl crc).

(** [CRC.String] *)
Definition crc_String (crc : CRC) : list Z :=
  str "{Name:" ++ Name crc ++ str " Init:" ++ zero_x (Hex 4 (Init crc)) ++
  str " Poly:" ++ zero_x (Hex 4 (Poly crc)) ++ str " Residue:" ++ zero_x (Hex 4 (Residue crc)) ++ str "}".

(** ** The bit-serial reference *)

(** One step of the shift register that divides the message polynomial by
    x^16 + poly, the next message bit entering at the top. *)
Definition ref_bit (poly crc b : Z) : Z :=
  let top := xorb (Z.testbit crc 15) (Z.testbit b 0) in
  Z.lxor (u16 (2 * crc)) (if top then poly else 0).

Definition crc_ref (poly init : Z) (bits : list Z) : Z := foldl (ref_bit poly) init bits.

(** ** The register is linear *)

Section Linear.
Context (poly : Z) (Hpoly : is_uint 16 poly).

Lemma crc_shift_alt c :
  crc_shift poly c = Z.lxor (u16 (2 * c)) (if Z.testbit c 15 then poly else 0).
Proof.
  unfold crc_shift. rewrite (Z.shiftl_mul_pow2 c 1), (Z.mul_comm c) by lia. change (2 ^ 1) with 2.
  assert (Z.land c 0x8000 = if Z.testbit c 15 then 0x8000 else 0) as ->.
  { bitwise i. change 0x8000 with (2 ^ 15). rewrite Z.pow2_bits_eqb by lia.
    destruct (Z.eqb_spec 15 i) as [<-|Hi]; [destruct (Z.testbit c 15)|rewrite andb_false_r]; [done..|].
    destruct (Z.testbit c 15); [|by rewrite Z.bits_0].
    rewrite Z.pow2_bits_eqb by lia. symmetry. by apply Z.eqb_neq. }
  destruct (Z.testbit c 15); [done|]. by rewrite Z.lxor_0_r.
Qed.

Lemma crc_shift_range c : is_uint 16 (crc_shift poly c).
Proof. rewrite crc_shift_alt. apply lxor_range; [lia|by apply wrap_u_range|]. destruct (Z.testbit c 15); [done|by uints]. Qed.

Lemma crc_shift_lxor a b :
  crc_shift poly (Z.lxor a b) = Z.lxor (crc_shift poly a) (crc_shift poly b).
Proof.
  rewrite !crc_shift_alt, Z.lxor_spec.
  assert (u16 (2 * Z.lxor a b) = Z.lxor (u16 (2 * a)) (u16 (2 * b))) as ->.
  { rewrite !(Z.mul_comm 2), <- !(Z.shiftl_mul_pow2 _ 1) by lia. bitwise i.
    btauto. }
  destruct (Z.testbit a 15), (Z.testbit b 15); cbn [xorb];
    rewrite ?Z.lxor_0_r; bitwise i; btauto.
Qed.

Lemma iter_shift_lxor k a b :
  Nat.iter k (crc_shift poly) (Z.lxor a b) =
  Z.lxor (Nat.iter k (crc_shift poly) a) (Nat.iter k (crc_shift poly) b).
Proof. induction k as [|k IH]; [done|]. cbn [Nat.iter nat_rect]. rewrite <- crc_shift_lxor. by f_equal. Qed.

Lemma iter_shift_range k a : is_uint 16 a -> is_uint 16 (Nat.iter k (crc_shift poly) a).
Proof. intros Ha. destruct k; [done|]. apply crc_shift_range. Qed.

Lemma crc_shift_low c : is_uint 15 c -> crc_shift poly c = 2 * c.
Proof.
  intros Hc. rewrite crc_shift_alt, (testbit_above 15 c) by (done || lia).
  rewrite Z.lxor_0_r. apply wrap_u_id. uints. lia.
Qed.

Lemma iter_shift_low k c :
  0 <= c < 2 ^ (16 - Z.of_nat k) -> (k <= 16)%nat -> Nat.iter k (crc_shift poly) c = c * 2 ^ Z.of_nat k.
Proof.
  revert c. induction k as [|k IH]; intros c Hc Hk; [simpl; lia|].
  rewrite Nat.iter_succ_r, crc_shift_low.
  - rewrite IH; [rewrite Nat2Z.inj_succ, Z.pow_succ_r by lia; ring| |lia].
    replace (16 - Z.of_nat k) with (Z.succ (16 - Z.of_nat (S k))) by lia.
    rewrite Z.pow_succ_r by lia. lia.
  - split; [lia|]. eapply Z.lt_le_trans; [apply Hc|]. apply Z.pow_le_mono_r; lia.
Qed.

Lemma ref_bit_shift c b : is_bit b -> ref_bit poly c b = crc_shift poly (Z.lxor c (b * 2 ^ 15)).
Proof.
  intros Hb. assert (b = 0 \/ b = 1) as [->| ->] by (uints; lia).
  - by rewrite Z.mul_0_l, Z.lxor_0_r, crc_shift_alt, <- (xorb_false_r (Z.testbit c 15)).
  - rewrite crc_shift_alt, Z.lxor_spec, Z.mul_1_l, Z.pow2_bits_true by lia. unfold ref_bit.
    f_equal. rewrite !(Z.mul_comm 2), <- !(Z.shiftl_mul_pow2 _ 1) by lia. bitwise i.
    rewrite Z.pow2_bits_eqb by lia. destruct (Z.ltb_spec i 16); [|done].
    destruct (Z.eqb_spec 15 (i - 1)); [lia|]. by rewrite xorb_false_r.
Qed.

(** Up to sixteen message bits can be xored into the register at once. *)
Lemma crc_ref_block w c :
  Forall is_bit w -> (length w <= 16)%nat ->
  crc_ref poly c w =
  Nat.iter (length w) (crc_shift poly) (Z.lxor c (of_bits w * 2 ^ (16 - len w))).
Proof.
  unfold crc_ref. intros Hw. revert c. induction Hw as [|b w Hb Hw IH]; intros c Hlen.
  { simpl. by rewrite Z.lxor_0_r. }
  cbn [length] in *. cbn [foldl]. rewrite IH by lia.
  rewrite Nat.iter_succ_r. f_equal. rewrite ref_bit_shift by done.
  unfold of_bits. rewrite of_digits_cons, len_cons, Z.mul_1_l by lia. fold (of_bits w).
  pose proof (of_digits_range 1 w ltac:(lia) Hw) as Hr. rewrite Z.mul_1_l in Hr. fold (of_bits w) in Hr.
  assert (len w <= 15) as Hl by (unfold len; lia). pose proof (len_nonneg w) as Hl0.
  set (x := of_bits w * 2 ^ (16 - (len w + 1))).
  assert (is_uint 15 x) as Hx.
  { subst x. assert (2 ^ 15 = 2 ^ len w * 2 ^ (16 - (len w + 1))) as E
      by (rewrite <- Z.pow_add_r by lia; f_equal; lia).
    unfold is_uint. rewrite E. pose proof (Z.pow_pos_nonneg 2 (16 - (len w + 1))). nia. }
  assert ((b * 2 ^ len w + of_bits w) * 2 ^ (16 - (len w + 1)) = Z.lxor (b * 2 ^ 15) x) as ->.
  { rewrite <- (Z.shiftl_mul_pow2 b 15), lxor_disjoint_add by (done || lia). subst x.
    rewrite Z.mul_add_distr_r, <- Z.mul_assoc, <- Z.pow_add_r by lia. do 3 f_equal. lia. }
  rewrite <- Z.lxor_assoc, (crc_shift_lxor _ x), (crc_shift_low x) by done. f_equal.
  subst x. replace (16 - len w) with (Z.succ (16 - (len w + 1))) by lia.
  rewrite Z.pow_succ_r by lia. ring.
Qed.

(** No register content but zero is shifted to zero: the generator has a
    constant term. *)
Hypothesis Hodd : Z.odd poly = true.

Lemma crc_shift_kernel c : is_uint 16 c -> crc_shift poly c = 0 -> c = 0.
Proof.
  intros Hc H. rewrite crc_shift_alt in H.
  destruct (Z.testbit c 15) eqn:Ht.
  - assert (Z.testbit (Z.lxor (u16 (2 * c)) poly) 0 = false) as H0 by (by rewrite H, Z.bits_0).
    rewrite Z.lxor_spec in H0. unfold u16, wrap_u in H0.
    rewrite Z.testbit_mod_pow2, Z.testbit_even_0, Z.bit0_odd, Hodd in H0 by lia. done.
  - rewrite Z.lxor_0_r in H. unfold u16, wrap_u in H.
    apply Z.mod_divide in H as [q Hq]; [|done].
    assert (c < 2 ^ 15); [|uints; lia].
    destruct (Z.lt_ge_cases c (2 ^ 15)); [done|].
    assert (Z.testbit c 15 = true); [|congruence].
    rewrite Z.testbit_true by lia. uints. replace (c / 32768) with 1; [done|].
    apply Z.div_unique with (c - 32768); lia.
Qed.

Lemma iter_shift_inj k a b :
  is_uint 16 a -> is_uint 16 b ->
  Nat.iter k (crc_shift poly) a = Nat.iter k (crc_shift poly) b -> a = b.
Proof.
  intros Ha Hb H. apply Z.lxor_eq.
  assert (Nat.iter k (crc_shift poly) (Z.lxor a b) = 0) as H0
    by (rewrite iter_shift_lxor, H; apply Z.lxor_nilpotent).
  assert (is_uint 16 (Z.lxor a b)) as Hr by auto with go lia.
  clear H. revert H0. induction k as [|k IH]; [done|].
  intros H0. apply IH, crc_shift_kernel; [by apply iter_shift_range|done].
Qed.
End Linear.

(** ** The table-driven checksum *)

Lemma NewTable_lookup poly t :
  is_byte t -> index (NewTable poly) t = Some (Nat.iter 8 (crc_shift poly) (t * 2 ^ 8)).
Proof.
  intros Ht. unfold NewTable. apply index_Some. split; [apply Ht|].
  rewrite list_lookup_fmap, lookup_seqZ_lt, Z2Nat.id by (uints; lia). cbn [fmap option_fmap option_map].
  unfold u16 at 2. rewrite Z.add_0_l, (wrap_u_id 16 t) by (uints; lia).
  rewrite Z.shiftl_mul_pow2 by lia. unfold u16. rewrite (wrap_u_id 16 (t * 2 ^ 8)) by (uints; lia). done.
Qed.

Lemma split_word c : is_uint 16 c -> c = Z.lxor (Z.shiftr c 8 * 2 ^ 8) (c mod 2 ^ 8) /\ is_byte (Z.shiftr c 8).
Proof.
  intros Hc. split.
  - rewrite <- Z.shiftl_mul_pow2, lxor_disjoint_add by (lia || by apply wrap_u_range).
    rewrite Z.shiftr_div_pow2 by lia. pose proof (Z.div_mod c (2 ^ 8)). lia.
  - rewrite Z.shiftr_div_pow2 by lia. uints. split; [apply Z.div_pos; lia|].
    apply Z.div_lt_upper_bound; lia.
Qed.

(** One table step is eight register steps. *)
Lemma checksum_step_ref poly c v :
  is_uint 16 poly -> is_uint 16 c -> is_byte v ->
  checksum_step (NewTable poly) c v = Some (crc_ref poly c (byte_bits v)).
Proof.
  intros Hp Hc Hv. destruct (split_word c Hc) as [Hs Hhi]. unfold checksum_step.
  rewrite NewTable_lookup by auto with go lia. cbn [mbind option_bind]. f_equal.
  rewrite crc_ref_block by (auto with go || simpl; lia). rewrite of_bits_byte by done.
  change (len (byte_bits v)) with 8. change (16 - 8) with 8. change (length (byte_bits v)) with 8%nat.
  assert (Z.lxor c (v * 2 ^ 8) = Z.lxor (Z.lxor (Z.shiftr c 8) v * 2 ^ 8) (c mod 2 ^ 8)) as ->.
  { rewrite Hs at 1. rewrite <- !(Z.shiftl_mul_pow2 _ 8), Z.shiftl_lxor by lia.
    rewrite !Z.lxor_assoc. f_equal. apply Z.lxor_comm. }
  rewrite iter_shift_lxor, (iter_shift_low _ 8 (c mod 2 ^ 8)), Z.lxor_comm; [|by apply Z.mod_pos_bound|lia].
  f_equal. unfold u16, wrap_u. rewrite Z.shiftl_mul_pow2 by lia.
  change (Z.of_nat 8) with 8. change (2 ^ 16) with (2 ^ 8 * 2 ^ 8).
  by rewrite Z.mul_mod_distr_r.
Qed.

Lemma crc_ref_range poly c w : is_uint 16 poly -> is_uint 16 c -> is_uint 16 (crc_ref poly c w).
Proof.
  intros Hp. unfold crc_ref. revert c. induction w as [|b w IH]; intros c Hc; [done|].
  cbn [foldl]. apply IH. apply lxor_range; [lia|by apply wrap_u_range|].
  destruct (xorb _ _); [done|by uints].
Qed.

Lemma crc_ref_app poly c w1 w2 : crc_ref poly c (w1 ++ w2) = crc_ref poly (crc_ref poly c w1) w2.
Proof. apply foldl_app. Qed.

Lemma Checksum_spec poly init data :
  is_uint 16 poly -> is_uint 16 init -> Forall is_byte data ->
  Checksum init data (NewTable poly) = Some (crc_ref poly init (bytes_bits data)).
Proof.
  intros Hp Hi Hd. unfold Checksum. revert init Hi.
  induction Hd as [|v data Hv Hd IH]; intros c Hc; [done|]. cbn [foldM].
  rewrite checksum_step_ref by done. rewrite IH by by apply crc_ref_range.
  unfold bytes_bits. cbn [map concat]. by rewrite crc_ref_app.
Qed.

Lemma ref_bit_inj poly b c c' :
  is_uint 16 poly -> Z.odd poly = true -> is_bit b -> is_uint 16 c -> is_uint 16 c' ->
  ref_bit poly c b = ref_bit poly c' b -> c = c'.
Proof.
  intros Hp Ho Hb Hc Hc' H. rewrite !ref_bit_shift in H by done.
  assert (is_uint 16 (b * 2 ^ 15)) as Hw by (uints; lia).
  apply (iter_shift_inj poly Hp Ho 1) in H; [|by apply lxor_range..].
  apply (f_equal (fun x => Z.lxor x (b * 2 ^ 15))) in H.
  by rewrite !Z.lxor_assoc, Z.lxor_nilpotent, !Z.lxor_0_r in H.
Qed.

Lemma crc_ref_inj poly w c c' :
  is_uint 16 poly -> Z.odd poly = true -> Forall is_bit w -> is_uint 16 c -> is_uint 16 c' ->
  crc_ref poly c w = crc_ref poly c' w -> c = c'.
Proof.
  intros Hp Ho Hw. unfold crc_ref. revert c c'.
  induction Hw as [|b w Hb Hw IH]; intros c c' Hc Hc' H; [done|].
  apply (ref_bit_inj poly b); [done..|].
  apply IH; [apply (crc_ref_range poly c [b])|apply (crc_ref_range poly c' [b])|]; done.
Qed.

(** Sixteen bits read into the register: the register differs from its content
    by what the bits spell. *)
Lemma crc_ref_block_inj poly w1 w2 c :
  is_uint 16 poly -> Z.odd poly = true -> Forall is_bit w1 -> Forall is_bit w2 -> is_uint 16 c ->
  length w1 = length w2 -> (length w1 <= 16)%nat ->
  crc_ref poly c w1 = crc_ref poly c w2 -> of_bits w1 = of_bits w2.
Proof.
  intros Hp Ho H1 H2 Hc Hl Hle H. rewrite !crc_ref_block in H by (done || lia).
  assert (len w2 = len w1) as El by (unfold len; lia). rewrite Hl, El in H.
  assert (forall w, Forall is_bit w -> len w = len w1 -> is_uint 16 (of_bits w * 2 ^ (16 - len w1))) as Hr.
  { intros w Hw Hlw. pose proof (of_digits_range 1 w ltac:(lia) Hw) as R.
    rewrite Z.mul_1_l, Hlw in R. fold (of_bits w) in R.
    assert (2 ^ 16 = 2 ^ len w1 * 2 ^ (16 - len w1)) as E.
    { rewrite <- Z.pow_add_r by (unfold len; lia). f_equal. lia. }
    unfold is_uint. rewrite E. pose proof (Z.pow_pos_nonneg 2 (16 - len w1)). unfold len in *. nia. }
  apply iter_shift_inj in H; [|done..|by apply lxor_range; auto|by apply lxor_range; auto].
  apply (f_equal (Z.lxor c)) in H.
  rewrite <- !Z.lxor_assoc, Z.lxor_nilpotent, !Z.lxor_0_l in H.
  apply Z.mul_cancel_r in H; [done|]. apply Z.pow_nonzero; unfold len; lia.
Qed.

Lemma of_bits_inj w1 w2 :
  Forall is_bit w1 -> Forall is_bit w2 -> length w1 = length w2 -> of_bits w1 = of_bits w2 -> w1 = w2.
Proof.
  unfold of_bits. intros H1. revert w2.
  induction H1 as [|b w Hb Hw IH]; intros [|b2 w2] H2 Hl E; try done.
  apply Forall_cons in H2 as [Hb2 Hw2]. injection Hl as Hl.
  rewrite !of_digits_cons in E by lia.
  assert (len w2 = len w) as El by (unfold len; lia). rewrite El in E.
  pose proof (of_digits_range 1 w ltac:(lia) Hw) as R1.
  pose proof (of_digits_range 1 w2 ltac:(lia) Hw2) as R2. rewrite El in R2.
  assert (b = b2) as -> by (uints; nia).
  f_equal. apply IH; [done..|lia].
Qed.

Lemma of_bits_bytes2 h l : is_byte h -> is_byte l -> of_bits (bytes_bits [h; l]) = h * 2 ^ 8 + l.
Proof. intros Hh Hl. rewrite of_bits_bytes by solve_Forall. done. Qed.

(** Feeding a 16-bit trailer leaves the register with the image of the
    difference between the register and the trailer. *)
Lemma crc_trailer poly c h l m :
  is_uint 16 poly -> Z.odd poly = true -> is_uint 16 c -> is_byte h -> is_byte l -> is_uint 16 m ->
  crc_ref poly c (bytes_bits [h; l]) = Nat.iter 16 (crc_shift poly) m <-> h * 2 ^ 8 + l = Z.lxor c m.
Proof.
  intros Hp Ho Hc Hh Hl Hm. rewrite crc_ref_block by (auto with go || (simpl; lia)).
  rewrite of_bits_bytes2 by done. change (len (bytes_bits [h; l])) with 16.
  change (length (bytes_bits [h; l])) with 16%nat. change (2 ^ (16 - 16)) with 1. rewrite Z.mul_1_r.
  assert (is_uint 16 (h * 2 ^ 8 + l)) as Ht by (uints; lia).
  split; intros H.
  - apply iter_shift_inj in H; [|auto with go lia..]. rewrite <- H.
    by rewrite <- Z.lxor_assoc, Z.lxor_nilpotent, Z.lxor_0_l.
  - f_equal. rewrite H. by rewrite <- Z.lxor_assoc, Z.lxor_nilpotent, Z.lxor_0_l.
Qed.

(** The two parameter sets the protocols use. *)
Definition BCH : CRC := NewCRC (str "BCH") 0 0x6F63 0.
Definition CCITT : CRC := NewCRC (str "CCITT") 0xFFFF 0x1021 0x1D0F.

Lemma BCH_spec data :
  Forall is_byte data -> crc_Checksum BCH data = Some (crc_ref 0x6F63 0 (bytes_bits data)).
Proof. intros H. apply Checksum_spec; [by uints..|done]. Qed.

Lemma CCITT_spec data :
  Forall is_byte data -> crc_Checksum CCITT data = Some (crc_ref 0x1021 0xFFFF (bytes_bits data)).
Proof. intros H. apply Checksum_spec; [by uints..|done]. Qed.

(** A message followed by the complement of its checksum leaves the residue. *)
Lemma CCITT_residue data h l :
  Forall is_byte data -> is_byte h -> is_byte l ->
  h * 2 ^ 8 + l = Z.lxor (crc_ref 0x1021 0xFFFF (bytes_bits data)) 0xFFFF ->
  crc_ref 0x1021 0xFFFF (bytes_bits (data ++ [h; l])) = 0x1D0F.
Proof.
  intros Hd Hh Hl E. rewrite bytes_bits_app, crc_ref_app.
  transitivity (Nat.iter 16 (crc_shift 0x1021) 0xFFFF); [|reflexivity].
  apply crc_trailer; [by uints|done|apply crc_ref_range; by uints|done..|by uints|exact E].
Qed.

(** ** Properties *)

(** C35. The table-driven checksum never indexes outside its table and computes
    exactly the bit-serial division of the message, for every 16-bit
    polynomial, initial value and message. *)
Theorem checksum_is_bit_serial (name : list Z) (init poly residue : Z) (data : list Z)
  (Hpoly : is_uint 16 poly) (Hinit : is_uint 16 init) (Hdata : Forall is_byte data) :
  crc_Checksum (NewCRC name init poly residue) data = Some (crc_ref poly init (bytes_bits data)).
Proof. by apply Checksum_spec. Qed.

Lemma checksum_is_bit_serial_witness :
  crc_Checksum (NewCRC (str "CCITT") 0xFFFF 0x1021 0x1D0F) (str "123456789") = Some 0x29B1.
Proof.
  rewrite (checksum_is_bit_serial (str "CCITT") 0xFFFF 0x1021 0x1D0F (str "123456789")).
  - vm_compute. reflexivity.
  - uints. lia.
  - uints. lia.
  - by apply uintsb_Forall.
Defined.

(** What the protocols' acceptance tests mean: an IDM, NetIDM or SCM+ packet
    leaves the CCITT residue exactly when its last two bytes are the complement
    of the checksum of the bytes before them, and an SCM packet leaves zero
    exactly when its last two bytes are the BCH checksum itself. *)
Theorem residue_accepts_own_checksum (data : list Z) (h l : Z)
  (Hdata : Forall is_byte data) (Hh : is_byte h) (Hl : is_byte l) :
  (exists c, crc_Checksum CCITT data = Some c /\
     (crc_Checksum CCITT (data ++ [h; l]) = Some (Residue CCITT) <-> h * 256 + l = Z.lxor c 0xFFFF)) /\
  (exists c, crc_Checksum BCH data = Some c /\
     (crc_Checksum BCH (data ++ [h; l]) = Some (Residue BCH) <-> h * 256 + l = c)).
Proof.
  assert (Forall is_byte (data ++ [h; l])) as Hall by (apply Forall_app; split; solve_Forall).
  split; eexists; rewrite ?CCITT_spec, ?BCH_spec by done; (split; [done|]);
    rewrite bytes_bits_app, crc_ref_app; rewrite (inj_iff Some).
  - change (Residue CCITT) with (Nat.iter 16 (crc_shift 0x1021) 0xFFFF).
    apply crc_trailer; try done; try (by uints). apply crc_ref_range; by uints.
  - change (Residue BCH) with (Nat.iter 16 (crc_shift 0x6F63) 0).
    rewrite crc_trailer, Z.lxor_0_r; try done; try (by uints). apply crc_ref_range; by uints.
Qed.

Lemma residue_accepts_own_checksum_witness :
  crc_Checksum CCITT (str "123456789" ++ [0xD6; 0x4E]) = Some 0x1D0F.
Proof.
  destruct (proj1 (residue_accepts_own_checksum (str "123456789") 0xD6 0x4E
    ltac:(apply uintsb_Forall; reflexivity) ltac:(uints; lia) ltac:(uints; lia)))
    as (c & Hc & Hiff).
  apply Hiff. assert (crc_Checksum CCITT (str "123456789") = Some 0x29B1) as H by (vm_compute; reflexivity).
  rewrite H in Hc. injection Hc as <-. vm_compute. reflexivity.
Defined.

(** C36. Every burst of at most sixteen bits is detected: two messages that differ
    only inside a window of sixteen bits, at any bit offset, never have the same
    checksum, whatever the polynomial with a constant term and the initial value. *)
Theorem checksum_detects_bursts (init poly : Z) (d1 d2 pre w1 w2 post : list Z)
  (Hpoly : is_uint 16 poly) (Hodd : Z.odd poly = true) (Hinit : is_uint 16 init)
  (Hd1 : Forall is_byte d1) (Hd2 : Forall is_byte d2)
  (E1 : bytes_bits d1 = pre ++ w1 ++ post) (E2 : bytes_bits d2 = pre ++ w2 ++ post)
  (Hlen : length w1 = length w2) (Hshort : (length w1 <= 16)%nat) (Hne : w1 <> w2) :
  Checksum init d1 (NewTable poly) <> Checksum init d2 (NewTable poly).
Proof.
  rewrite !Checksum_spec by done. intros [= H]. apply Hne.
  pose proof (bytes_bits_are_bits d1) as B1. pose proof (bytes_bits_are_bits d2) as B2.
  rewrite E1, !crc_ref_app in H. rewrite E1, !Forall_app in B1. destruct B1 as (Bp & Bw1 & Bq).
  rewrite E2, !crc_ref_app in H. rewrite E2, !Forall_app in B2. destruct B2 as (_ & Bw2 & _).
  apply of_bits_inj; [done..|].
  apply (crc_ref_block_inj poly w1 w2 (crc_ref poly init pre)); try done; [by apply crc_ref_range|].
  apply (crc_ref_inj poly post); try done; repeat apply crc_ref_range; done.
Qed.

Lemma checksum_detects_bursts_witness :
  Checksum 0xFFFF [0x12; 0x34; 0x56] (NewTable 0x1021) <> Checksum 0xFFFF [0x12; 0x3B; 0x96] (NewTable 0x1021).
Proof.
  apply (checksum_detects_bursts 0xFFFF 0x1021 [0x12; 0x34; 0x56] [0x12; 0x3B; 0x96]
           [0; 0; 0; 1; 0; 0; 1; 0; 0; 0; 1; 1] [0; 1; 0; 0; 0; 1; 0; 1] [1; 0; 1; 1; 1; 0; 0; 1] [0; 1; 1; 0]).
  - uints. lia.
  - reflexivity.
  - uints. lia.
  - apply uintsb_Forall. reflexivity.
  - apply uintsb_Forall. reflexivity.
  - reflexivity.
  - reflexivity.
  - reflexivity.
  - vm_compute. repeat constructor.
  - discriminate.
Defined.
