(* ===== verification/Gf.v ===== *)
(** Galois field arithmetic (src/r900/gf/gf.go): the construction of the
    exponential and logarithm tables, the field operations, and the Reed-Solomon
    syndrome with the minimum distance it enforces. *)

From S2P Require Import Prelude.

(** ** The code *)

Record Field := { order : Z; log : list Z; exp : list Z }.

(** [nbit]: the loop runs once per significant bit; an int has at most 64. *)
Fixpoint nbit_loop (fuel : nat) (p n : Z) : Z :=
  match fuel with
  | O => n
  | S fuel => if 0 <? p then nbit_loop fuel (Z.shiftr p 1) (n + 1) else n
  end.

Definition nbit (p : Z) : Z := nbit_loop 64 p 0.

(** [polyDiv]: [np] counts down to [nq]. *)
Fixpoint polyDiv_loop (fuel : nat) (p q np nq : Z) : Z :=
  match fuel with
  | O => p
  | S fuel =>
      if nq <=? np then
        let p := if negb (Z.land p (Z.shiftl 1 (np - 1)) =? 0) then Z.lxor p (Z.shiftl q (np - nq)) else p in
        polyDiv_loop fuel p q (np - 1) nq
      else p
  end.

Definition polyDiv (p q : Z) : Z := polyDiv_loop 64 p q (nbit p) (nbit q).

(** [mul]: shift-and-add multiplication, reducing [y] whenever it reaches the
    order. *)
Fixpoint mul_loop (fuel : nat) (z x y order poly : Z) : Z :=
  match fuel with
  | O => z
  | S fuel =>
      if 0 <? x then
        let z := if negb (Z.land x 1 =? 0) then Z.lxor z y else z in
        let y := i64 (Z.shiftl y 1) in
        let y := if negb (Z.land y order =? 0) then Z.lxor y poly else y in
        mul_loop fuel z (Z.shiftr x 1) y order poly
      else z
  end.

Definition mul (x y order poly : Z) : Z := mul_loop 64 0 x y order poly.

Definition reducible (p : Z) : bool :=
  let bound := Z.shiftl 1 (nbit p / 2 + 1) in
  existsb (fun q => polyDiv p q =? 0) (seqZ 2 (bound - 2)).

(** The body of the table-filling loop of [NewField]; the state is the current
    power [x] and the two tables. *)
Definition NewField_step (n poly a : Z) (st : Z * (list Z * list Z)) (i : Z)
  : option (Z * (list Z * list Z)) :=
  let '(x, (lg, ex)) := st in
  if (x =? 1) && negb (i =? 0) then None else
  ex ← store ex i (u8 x);
  ex ← store ex (i + n) (u8 x);
  lg ← store lg x (u8 i);
  Some (mul x a (n + 1) poly, (lg, ex)).

(** The consistency checks that end [NewField]. *)
Definition check_log (f : Field) (j i : Z) : option unit :=
  e ← index (exp f) j; l ← index (log f) e;
  if l =? u8 i then Some () else None.

Definition check_exp (f : Field) (i : Z) : option unit :=
  l ← index (log f) i; e ← index (exp f) l;
  if e =? u8 i then Some () else None.

Definition NewField (ord poly a : Z) : option Field :=
  if (ord <? 0) || (256 <? ord) then None else
  if (poly <? ord) || (Z.shiftl ord 1 <=? poly) || reducible poly then None else
  let n := ord - 1 in
  '(_, (lg, ex)) ← foldM (NewField_step n poly a) (1, (make ord 0, make (Z.shiftl n 1) 0)) (seqZ 0 n);
  lg ← store lg 0 (u8 n);
  let f := {| order := n; log := lg; exp := ex |} in
  _ ← foldM (fun _ i => _ ← check_log f i i; check_log f (i + n) i) () (seqZ 0 n);
  _ ← foldM (fun _ i => check_exp f i) () (seqZ 1 n);
  Some f.

Definition Add (f : Field) (x y : Z) : Z := Z.lxor x y.

Definition Exp (f : Field) (e : Z) : option Z :=
  if e <? 0 then Some 0 else if order f =? 0 then None else index (exp f) (Z.rem e (order f)).

Definition Log (f : Field) (x : Z) : option Z := if x =? 0 then Some (-1) else index (log f) x.

Definition Inv (f : Field) (x : Z) : option Z :=
  if x =? 0 then Some 0 else l ← index (log f) x; index (exp f) (order f - l).

Definition Mul (f : Field) (x y : Z) : option Z :=
  if (x =? 0) || (y =? 0) then Some 0 else
  lx ← index (log f) x; ly ← index (log f) y; index (exp f) (lx + ly).

(** One syndrome: Horner's rule at Exp(offset+idx). *)
Definition Syndrome_at (f : Field) (message : list Z) (offset idx : Z) : option Z :=
  syn ← index message 0;
  rest ← slice 1 (len message) message;
  foldM (fun syn v => e ← Exp f (offset + idx); m ← Mul f syn e; Some (Z.lxor m v)) syn rest.

Definition Syndrome (f : Field) (message : list Z) (paritySymbolCount offset : Z) : option (list Z) :=
  if (offset <? 0) || (order f <? offset) then None else
  if (paritySymbolCount <? 0) || (len message <? paritySymbolCount) then None else
  mapM (Syndrome_at f message offset) (seqZ 0 paritySymbolCount).

(** ** Fields that [NewField] returns *)

(** What the final checks of [NewField] establish. *)
Record field_ok (f : Field) : Prop := {
  fo_pos : 1 <= order f < 256;
  fo_log : forall i j, 0 <= i < order f -> j = i \/ j = i + order f ->
           exists e, index (exp f) j = Some e /\ index (log f) e = Some i;
  fo_exp : forall x, 1 <= x <= order f ->
           exists l, index (log f) x = Some l /\ index (exp f) l = Some x;
  fo_zero : index (log f) 0 = Some (order f);
  fo_one : index (exp f) 0 = Some 1;
  fo_len : len (log f) = order f + 1;
  fo_elen : len (exp f) = 2 * order f;
}.

Lemma foldM_unit_all {B} (g : B -> option unit) l :
  foldM (fun _ b => g b) () l = Some () <-> forall b, b ∈ l -> g b = Some ().
Proof.
  induction l as [|b l IH]; simpl; [split; [|done]; intros _ b Hb; by apply not_elem_of_nil in Hb|].
  split.
  - destruct (g b) as [[]|] eqn:E; [|done]. intros H b' [->|Hb']%elem_of_cons; [done|]. by apply IH.
  - intros H. rewrite (H b) by apply list_elem_of_here. apply IH.
    intros b' Hb'. apply H. by apply list_elem_of_further.
Qed.

(** The filling loop keeps the table lengths, and never touches entry 0 of the
    exponential table after the first round. *)
Lemma NewField_loop n poly a l x lg ex x' lg' ex' :
  0 < n -> Forall (fun i => 0 < i) l ->
  foldM (NewField_step n poly a) (x, (lg, ex)) l = Some (x', (lg', ex')) ->
  len lg' = len lg /\ len ex' = len ex /\ index ex' 0 = index ex 0.
Proof.
  intros Hn. revert x lg ex. induction l as [|i l IH]; intros x lg ex Hl; simpl.
  { by intros [= -> -> ->]. }
  apply Forall_cons in Hl as [Hi Hl].
  destruct ((x =? 1) && negb (i =? 0)); [done|].
  destruct (store ex i _) as [ex1|] eqn:E1; simpl; [|done].
  destruct (store ex1 (i + n) _) as [ex2|] eqn:E2; simpl; [|done].
  destruct (store lg x _) as [lg1|] eqn:E3; simpl; [|done].
  intros H%IH; [|done]. destruct H as (-> & -> & ->).
  rewrite (len_store _ _ _ _ E3), (len_store _ _ _ _ E2), (len_store _ _ _ _ E1), (index_store_ne _ _ 0 _ _ E2), (index_store_ne _ _ 0 _ _ E1) by lia. done.
Qed.

Lemma NewField_ok ord poly a f : NewField ord poly a = Some f -> 2 <= ord -> field_ok f /\ order f = ord - 1.
Proof.
  intros H Hord. unfold NewField in H.
  destruct (Z.ltb_spec ord 0); [lia|]. destruct (Z.ltb_spec 256 ord); [done|]. simpl in H.
  destruct ((poly <? ord) || _ || _); [done|].
  destruct (foldM (NewField_step _ _ _) _ _) as [[x [lg ex]]|] eqn:Eloop; simpl in H; [|done].
  destruct (store lg 0 _) as [lg'|] eqn:Elg; simpl in H; [|done].
  set (f' := {| order := ord - 1; log := lg'; exp := ex |}) in *.
  destruct (foldM _ () (seqZ 0 _)) as [[]|] eqn:Ec1; simpl in H; [|done].
  destruct (foldM _ () (seqZ 1 _)) as [[]|] eqn:Ec2; simpl in H; [|done].
  injection H as <-. split; [|done].
  rewrite foldM_unit_all in Ec1. rewrite foldM_unit_all in Ec2.
  assert (len lg = ord /\ len ex = 2 * (ord - 1) /\ index ex 0 = Some 1) as (Hlg & Hel & Hex).
  { rewrite (seqZ_cons 0 (ord - 1)) in Eloop by lia. cbn [foldM] in Eloop.
    destruct (NewField_step _ _ _ _ 0) as [[x1 [lg1 ex1]]|] eqn:E1; [|done].
    apply NewField_loop in Eloop as (-> & -> & ->); [|lia|].
    2: { apply Forall_forall. intros i Hi%elem_of_seqZ. lia. }
    unfold NewField_step in E1. cbn [Z.eqb andb negb Pos.eqb] in E1.
    destruct (store (make _ _) 0 _) as [ex0|] eqn:Es0; simpl in E1; [|done].
    destruct (store ex0 (0 + (ord - 1)) _) as [ex0'|] eqn:Es1; simpl in E1; [|done].
    destruct (store (make ord 0) 1 _) as [lg0|] eqn:Es2; simpl in E1; [|done].
    injection E1 as _ <- <-.
    rewrite (len_store _ _ _ _ Es2), (len_store _ _ _ _ Es1), (len_store _ _ _ _ Es0), Z.shiftl_mul_pow2, !len_make by lia.
    split; [done|]. split; [lia|].
    rewrite (index_store_ne _ _ 0 _ _ Es1) by lia. by rewrite (index_store_eq _ _ _ _ Es0). }
  assert (forall i, 0 <= i < 256 -> u8 i = i) as U by (intros i Hi; apply wrap_u_id; uints; lia).
  constructor; simpl.
  - lia.
  - intros i j Hi Hj. specialize (Ec1 i ltac:(apply elem_of_seqZ; lia)).
    destruct (check_log f' i i) as [[]|] eqn:C1; simpl in Ec1; [|done].
    assert (check_log f' j i = Some ()) as C by (destruct Hj as [->| ->]; done).
    unfold check_log in C. simpl in C. destruct (index ex j) as [e|]; simpl in C; [|done].
    destruct (index lg' e) as [l|] eqn:El; simpl in C; [|done].
    destruct (Z.eqb_spec l (u8 i)) as [->|]; [|done]. exists e. by rewrite El, U by lia.
  - intros y Hy. specialize (Ec2 y ltac:(apply elem_of_seqZ; lia)).
    unfold check_exp in Ec2. simpl in Ec2. destruct (index lg' y) as [l|]; simpl in Ec2; [|done].
    destruct (index ex l) as [e|] eqn:El; simpl in Ec2; [|done].
    destruct (Z.eqb_spec e (u8 y)) as [->|]; [|done]. exists l. by rewrite El, U by lia.
  - rewrite (index_store_eq _ _ _ _ Elg). by rewrite U by lia.
  - done.
  - rewrite (len_store _ _ _ _ Elg), Hlg. lia.
  - done.
Qed.

(** ** The multiplicative group *)

Section Group.
Context (f : Field) (Hf : field_ok f).

Definition nonzero (x : Z) : Prop := 1 <= x <= order f.

Lemma exp_nonzero i j :
  0 <= i < order f -> j = i \/ j = i + order f ->
  exists e, index (exp f) j = Some e /\ nonzero e /\ index (log f) e = Some i.
Proof using Hf.
  intros Hi Hj. destruct (fo_log f Hf i j Hi Hj) as (e & He & Hl). exists e. split; [done|]. split; [|done].
  pose proof (index_range _ _ _ Hl) as R. rewrite (fo_len f Hf) in R. unfold nonzero.
  assert (e <> 0); [|lia]. intros ->. rewrite (fo_zero f Hf) in Hl. injection Hl. lia.
Qed.

Lemma log_range x l : nonzero x -> index (log f) x = Some l -> index (exp f) l = Some x -> 0 <= l < order f.
Proof using Hf.
  intros Hx Hl He. destruct (Z.lt_ge_cases l (order f)) as [|Hge].
  { apply index_range in He. lia. }
  exfalso. pose proof (fo_pos f Hf). pose proof (index_range _ _ _ He) as R. rewrite (fo_elen f Hf) in R.
  destruct (exp_nonzero (l - order f) l) as (e & He' & _ & Hl'); [lia|right; lia|].
  rewrite He in He'. injection He' as <-. rewrite Hl in Hl'. injection Hl'. lia.
Qed.

Lemma exp_periodic i : 0 <= i < order f -> index (exp f) (i + order f) = index (exp f) i.
Proof using Hf.
  intros Hi. destruct (exp_nonzero i i) as (e & -> & He & Hl); [done|by left|].
  destruct (exp_nonzero i (i + order f)) as (e' & -> & He' & Hl'); [done|by right|].
  destruct (fo_exp f Hf e He) as (l & Hle & Hee). destruct (fo_exp f Hf e' He') as (l' & Hle' & Hee').
  congruence.
Qed.

(** Every nonzero symbol is a power, and its logarithm is the exponent. *)
Lemma nonzero_exp x :
  nonzero x -> exists i, 0 <= i < order f /\ index (log f) x = Some i /\ index (exp f) i = Some x.
Proof using Hf.
  intros Hx. destruct (fo_exp f Hf x Hx) as (l & Hl & He). exists l.
  split; [by apply (log_range x)|done].
Qed.

Lemma exp_mod i :
  0 <= i < 2 * order f -> index (exp f) i = index (exp f) (i mod order f).
Proof using Hf.
  intros Hi. destruct (Z.lt_ge_cases i (order f)); [by rewrite Z.mod_small by lia|].
  replace i with (i - order f + order f) at 1 by lia. rewrite exp_periodic by lia. f_equal.
  apply Z.mod_unique_pos with 1; lia.
Qed.

Lemma Mul_exp x y i j :
  nonzero x -> nonzero y -> index (log f) x = Some i -> index (log f) y = Some j ->
  0 <= i < order f -> 0 <= j < order f ->
  Mul f x y = index (exp f) ((i + j) mod order f).
Proof using Hf.
  intros Hx Hy Hi Hj Ri Rj. unfold Mul. unfold nonzero in *.
  destruct (Z.eqb_spec x 0), (Z.eqb_spec y 0); try lia. simpl. rewrite Hi. simpl. rewrite Hj. simpl.
  apply exp_mod. lia.
Qed.

Lemma exp_total i : 0 <= i < order f -> exists e, index (exp f) i = Some e /\ nonzero e /\ index (log f) e = Some i.
Proof using Hf. intros Hi. apply exp_nonzero; [done|by left]. Qed.

Lemma Mul_nonzero x y : nonzero x -> nonzero y -> exists z, Mul f x y = Some z /\ nonzero z.
Proof using Hf.
  intros Hx Hy. destruct (nonzero_exp x Hx) as (i & Ri & Li & Ei).
  destruct (nonzero_exp y Hy) as (j & Rj & Lj & Ej).
  rewrite (Mul_exp x y i j) by done.
  destruct (exp_total ((i + j) mod order f)) as (z & -> & Hz & _); [apply Z.mod_pos_bound; lia|]. by exists z.
Qed.

Lemma Mul_comm x y : Mul f x y = Mul f y x.
Proof using.
  unfold Mul. rewrite (orb_comm (x =? 0)). destruct (_ || _); [done|].
  destruct (index (log f) x) as [lx|], (index (log f) y) as [ly|]; simpl; [|done..]. by rewrite Z.add_comm.
Qed.

Lemma Mul_assoc x y z xy yz :
  nonzero x -> nonzero y -> nonzero z -> Mul f x y = Some xy -> Mul f y z = Some yz ->
  Mul f xy z = Mul f x yz.
Proof using Hf.
  intros Hx Hy Hz Hxy Hyz. pose proof (fo_pos f Hf).
  destruct (nonzero_exp x Hx) as (i & Ri & Li & Ei). destruct (nonzero_exp y Hy) as (j & Rj & Lj & Ej).
  destruct (nonzero_exp z Hz) as (k & Rk & Lk & Ek).
  rewrite (Mul_exp x y i j) in Hxy by done. rewrite (Mul_exp y z j k) in Hyz by done.
  destruct (exp_total ((i + j) mod order f)) as (e & He & Ne & Le); [apply Z.mod_pos_bound; lia|].
  destruct (exp_total ((j + k) mod order f)) as (g & Hg & Ng & Lg); [apply Z.mod_pos_bound; lia|].
  assert (xy = e) as -> by congruence. assert (yz = g) as -> by congruence.
  rewrite (Mul_exp e z ((i + j) mod order f) k), (Mul_exp x g i ((j + k) mod order f));
    try done; try (apply Z.mod_pos_bound; lia).
  f_equal. rewrite Z.add_mod_idemp_l, Z.add_mod_idemp_r by lia. f_equal. lia.
Qed.

Lemma Mul_one x : nonzero x -> Mul f x 1 = Some x.
Proof using Hf.
  intros Hx. pose proof (fo_pos f Hf). destruct (nonzero_exp x Hx) as (i & Ri & Li & Ei).
  destruct (exp_total 0) as (e & He & Ne & Le); [lia|]. rewrite (fo_one f Hf) in He. injection He as <-.
  rewrite (Mul_exp x 1 i 0) by (done || lia). by rewrite Z.add_0_r, Z.mod_small by lia.
Qed.

Lemma Mul_Inv x : nonzero x -> exists y, Inv f x = Some y /\ nonzero y /\ Mul f x y = Some 1.
Proof using Hf.
  intros Hx. pose proof (fo_pos f Hf). destruct (nonzero_exp x Hx) as (i & Ri & Li & Ei).
  unfold Inv. destruct (Z.eqb_spec x 0); [unfold nonzero in Hx; lia|]. rewrite Li. cbn [mbind option_bind].
  rewrite exp_mod by lia.
  destruct (exp_total ((order f - i) mod order f)) as (y & -> & Ny & Ly); [apply Z.mod_pos_bound; lia|].
  exists y. split; [done|]. split; [done|].
  rewrite (Mul_exp x y i ((order f - i) mod order f)); try done; [|apply Z.mod_pos_bound; lia].
  rewrite Z.add_mod_idemp_r by lia. replace (i + (order f - i)) with (order f) by lia.
  rewrite Z.mod_same by lia. apply fo_one, Hf.
Qed.
End Group.

(** ** The R900 field: order 32, polynomial 37, generator 2 *)

Definition r900_field : Field :=
  Eval vm_compute in
    match NewField 32 37 2 with Some f => f | None => {| order := 0; log := []; exp := [] |} end.

Lemma NewField_r900 : NewField 32 37 2 = Some r900_field.
Proof. vm_compute. reflexivity. Qed.

Abbreviation is_symbol := (is_uint 5).

(** Multiplication as a total function; it never panics on symbols. *)
Definition gmul (x y : Z) : Z := default 0 (Mul r900_field x y).

Definition optZ_eqb (a b : option Z) : bool :=
  match a, b with Some x, Some y => x =? y | None, None => true | _, _ => false end.

Lemma optZ_eqb_eq a b : optZ_eqb a b = true -> a = b.
Proof. destruct a, b; simpl; try done. by intros ->%Z.eqb_eq. Qed.

Lemma Mul_r900 x y :
  is_symbol x -> is_symbol y ->
  Mul r900_field x y = Some (gmul x y) /\ gmul x y = mul x y 32 37 /\ is_symbol (gmul x y).
Proof.
  intros Hx Hy.
  pose proof (forall_range2
    (fun x y => optZ_eqb (Mul r900_field x y) (Some (gmul x y)) && (gmul x y =? mul x y 32 37) &&
                (0 <=? gmul x y) && (gmul x y <? 32)) 32 32
    ltac:(vm_compute; reflexivity) x y Hx Hy) as H. cbn beta in H.
  rewrite !andb_true_iff in H. destruct H as (((H1 & H2) & H3) & H4).
  split; [by apply optZ_eqb_eq|]. split; [by apply Z.eqb_eq|]. uints. lia.
Qed.

Lemma gmul_symbol x y : is_symbol x -> is_symbol y -> is_symbol (gmul x y).
Proof. intros Hx Hy. apply (Mul_r900 x y Hx Hy). Qed.

Lemma lxor_symbol x y : is_symbol x -> is_symbol y -> is_symbol (Z.lxor x y).
Proof. apply lxor_range. lia. Qed.

#[export] Hint Resolve gmul_symbol lxor_symbol : go.

Lemma gmul_zero x y : is_symbol x -> is_symbol y -> gmul x y = 0 -> x = 0 \/ y = 0.
Proof.
  intros Hx Hy H0.
  pose proof (forall_range2 (fun x y => negb (gmul x y =? 0) || (x =? 0) || (y =? 0)) 32 32
    ltac:(vm_compute; reflexivity) x y Hx Hy) as H. cbn beta in H. rewrite H0 in H. simpl in H.
  apply orb_true_iff in H as [H|H]; apply Z.eqb_eq in H; auto.
Qed.

Lemma gmul_0_l y : gmul 0 y = 0.
Proof. done. Qed.

Lemma gmul_comm x y : gmul x y = gmul y x.
Proof. unfold gmul. by rewrite Mul_comm. Qed.

Lemma gmul_1_r x : is_symbol x -> gmul x 1 = x.
Proof.
  intros Hx. apply Z.eqb_eq.
  apply (forall_range (fun x => gmul x 1 =? x) 32); [vm_compute; reflexivity|exact Hx].
Qed.

Lemma gmul_algebra x y z :
  is_symbol x -> is_symbol y -> is_symbol z ->
  gmul (gmul x y) z = gmul x (gmul y z) /\ gmul (Z.lxor x y) z = Z.lxor (gmul x z) (gmul y z).
Proof.
  intros Hx Hy Hz.
  pose proof (forall_range2
    (fun x y => forallb (fun z => (gmul (gmul x y) z =? gmul x (gmul y z)) &&
                                  (gmul (Z.lxor x y) z =? Z.lxor (gmul x z) (gmul y z))) (seqZ 0 32)) 32 32
    ltac:(vm_compute; reflexivity) x y Hx Hy) as H. cbn beta in H.
  pose proof (forall_range _ 32 H z Hz) as Hz'. cbn beta in Hz'.
  apply andb_true_iff in Hz' as [H1%Z.eqb_eq H2%Z.eqb_eq]. done.
Qed.

Lemma gmul_assoc x y z :
  is_symbol x -> is_symbol y -> is_symbol z -> gmul (gmul x y) z = gmul x (gmul y z).
Proof. intros. by apply gmul_algebra. Qed.

Lemma gmul_lxor_l x y z :
  is_symbol x -> is_symbol y -> is_symbol z -> gmul (Z.lxor x y) z = Z.lxor (gmul x z) (gmul y z).
Proof. intros. by apply gmul_algebra. Qed.

Fixpoint gpow (x : Z) (k : nat) : Z := match k with O => 1 | S k => gmul x (gpow x k) end.

Lemma gpow_symbol x k : is_symbol x -> is_symbol (gpow x k).
Proof. intros Hx. induction k; simpl; [by uints|auto with go]. Qed.

#[export] Hint Resolve gpow_symbol : go.

Lemma gpow_nonzero x k : is_symbol x -> x <> 0 -> gpow x k <> 0.
Proof.
  intros Hx H0. induction k as [|k IH]; simpl; [done|]. intros H.
  apply gmul_zero in H as [?|?]; auto with go.
Qed.

Lemma gpow_add x j k : is_symbol x -> gpow x (j + k) = gmul (gpow x j) (gpow x k).
Proof.
  intros Hx. induction j as [|j IH]; simpl.
  - by rewrite gmul_comm, gmul_1_r by auto with go.
  - rewrite IH, gmul_assoc; auto with go.
Qed.

Lemma gpow_mul x j k : is_symbol x -> gpow x (j * k) = gpow (gpow x j) k.
Proof.
  intros Hx. induction k as [|k IH]; [by rewrite Nat.mul_0_r|].
  rewrite Nat.mul_succ_r, Nat.add_comm, gpow_add, IH; auto.
Qed.

(** ** Weighted power sums

    [psum l k] is the sum over the (weight, locator) pairs of [l] of weight
    times locator^k.  Distinct locators and as many consecutive vanishing sums
    as pairs force every weight to zero: the Vandermonde argument, by
    elimination of one locator at a time. *)

Fixpoint psum (l : list (Z * Z)) (k : nat) : Z :=
  match l with [] => 0 | (e, x) :: l => Z.lxor (gmul e (gpow x k)) (psum l k) end.

Definition pairs_ok (l : list (Z * Z)) : Prop :=
  Forall (fun p => is_symbol p.1 /\ is_symbol p.2 /\ p.2 <> 0) l.

Lemma psum_symbol l k : pairs_ok l -> is_symbol (psum l k).
Proof.
  induction 1 as [|[e x] l (He & Hx & _) Hl IH]; simpl in *; [by uints|auto with go].
Qed.

#[export] Hint Resolve psum_symbol : go.

(** Multiply every weight by (locator - x). *)
Definition eliminate (x : Z) (l : list (Z * Z)) : list (Z * Z) :=
  map (fun p => (gmul p.1 (Z.lxor p.2 x), p.2)) l.

Lemma psum_eliminate x l k :
  is_symbol x -> pairs_ok l ->
  psum (eliminate x l) k = Z.lxor (psum l (S k)) (gmul x (psum l k)).
Proof.
  intros Hx. induction 1 as [|[e y] l (He & Hy & _) Hl IH]; simpl in *.
  - by rewrite gmul_comm.
  - rewrite IH. rewrite (gmul_comm x (Z.lxor _ _)), gmul_lxor_l, (gmul_comm (psum l k)) by auto with go.
    rewrite gmul_assoc, (gmul_lxor_l y x), (gmul_comm e) by auto with go.
    rewrite gmul_lxor_l by auto with go.
    rewrite (gmul_comm _ e), (gmul_comm (gmul x _) e).
    rewrite (gmul_comm (gmul e (gpow y k)) x), <- (gmul_assoc x e), (gmul_comm x e), gmul_assoc by auto with go.
    bitwise i. btauto.
Qed.

Lemma eliminate_ok x l : is_symbol x -> pairs_ok l -> pairs_ok (eliminate x l).
Proof.
  intros Hx Hl. unfold pairs_ok, eliminate in *. rewrite Forall_fmap.
  eapply Forall_impl; [exact Hl|]. intros [e y] (He & Hy & H0); simpl in *. auto with go.
Qed.

Lemma vandermonde l b :
  pairs_ok l -> NoDup l.*2 ->
  (forall k, (b <= k < b + length l)%nat -> psum l k = 0) ->
  Forall (fun p => p.1 = 0) l.
Proof.
  remember (length l) as n eqn:Hn. revert l Hn.
  induction n as [|n IH]; intros [|[e x] l] Hn Hok Hnd Hs; try done.
  injection Hn as Hn. apply Forall_cons in Hok as [(He & Hx & Hx0) Hok]; simpl in *.
  apply NoDup_cons in Hnd as [Hni Hnd].
  assert (Forall (fun p => p.1 = 0) l) as Hl.
  { assert (Forall (fun p => p.1 = 0) (eliminate x l)) as Hel.
    { apply IH; [unfold eliminate; by rewrite length_map|by apply eliminate_ok| |].
      - unfold eliminate. rewrite <- list_fmap_compose. exact Hnd.
      - intros k Hk. rewrite psum_eliminate by done.
        pose proof (Hs k ltac:(lia)) as H0. pose proof (Hs (S k) ltac:(lia)) as H1. simpl in H0, H1.
        apply Z.lxor_eq in H0, H1. rewrite <- H0, <- H1.
        rewrite <- (gmul_assoc x e), (gmul_comm x e), gmul_assoc by auto with go. apply Z.lxor_nilpotent. }
    unfold eliminate in Hel. rewrite Forall_fmap in Hel.
    clear -Hel Hok Hni Hx. induction l as [|[e' y] l IHl]; [constructor|].
    apply Forall_cons in Hel as [E Hel], Hok as [(He & Hy & _) Hok]. simpl in *.
    rewrite not_elem_of_cons in Hni. destruct Hni as [Hxy Hni].
    constructor; [|by apply IHl]. simpl.
    apply gmul_zero in E as [?|E%Z.lxor_eq]; auto with go; congruence. }
  constructor; [|done]. simpl.
  specialize (Hs b ltac:(lia)). assert (psum l b = 0) as E.
  { clear -Hl. induction Hl as [|[e y] l E Hl IH]; simpl in *; [done|]. by rewrite E, IH, gmul_0_l. }
  rewrite E, Z.lxor_0_r in Hs. apply gmul_zero in Hs as [?|Hs]; auto with go.
  by apply gpow_nonzero in Hs.
Qed.

(** ** Syndromes are power sums *)

Definition peval (X : Z) (m : list Z) : Z := foldl (fun s v => Z.lxor (gmul s X) v) 0 m.

(** The symbols of a message with their locators, the powers of the generator. *)
Fixpoint locate (m : list Z) : list (Z * Z) :=
  match m with [] => [] | e :: m => (e, gpow 2 (length m)) :: locate m end.

Lemma two_symbol : is_symbol 2.
Proof. by uints. Qed.
#[export] Hint Resolve two_symbol : go.

Lemma foldl_horner X s m :
  is_symbol X -> is_symbol s -> Forall is_symbol m ->
  foldl (fun s v => Z.lxor (gmul s X) v) s m = Z.lxor (gmul s (gpow X (length m))) (peval X m) /\
  is_symbol (peval X m).
Proof.
  intros HX Hs Hm. unfold peval. revert s Hs.
  induction Hm as [|v m Hv Hm IH]; intros s Hs; simpl.
  { rewrite gmul_1_r, Z.lxor_0_r by done. split; [done|by uints]. }
  rewrite gmul_0_l, Z.lxor_0_l. destruct (IH v Hv) as [-> Hp].
  destruct (IH (Z.lxor (gmul s X) v)) as [-> _]; [auto with go|].
  rewrite gmul_lxor_l, <- gmul_assoc, Z.lxor_assoc by auto with go. auto with go.
Qed.

Lemma peval_psum k m : Forall is_symbol m -> peval (gpow 2 k) m = psum (locate m) k.
Proof.
  intros Hm. induction Hm as [|v m Hv Hm IH]; [done|].
  unfold peval. simpl. rewrite gmul_0_l, Z.lxor_0_l.
  destruct (foldl_horner (gpow 2 k) v m) as [-> _]; [auto with go..|].
  rewrite IH. f_equal. f_equal. rewrite <- !gpow_mul by auto with go. by rewrite Nat.mul_comm.
Qed.

Lemma Exp_r900 k : 29 <= k < 34 -> Exp r900_field k = Some (gpow 2 (Z.to_nat k)).
Proof.
  intros Hk. assert (k ∈ seqZ 29 5) as Hin by (apply elem_of_seqZ; lia). apply optZ_eqb_eq.
  assert (forallb (fun k => optZ_eqb (Exp r900_field k) (Some (gpow 2 (Z.to_nat k)))) (seqZ 29 5) = true)
    as H by (vm_compute; reflexivity).
  rewrite forallb_forall in H. by apply H, list_elem_of_In.
Qed.

Lemma Syndrome_at_psum m idx :
  m <> [] -> Forall is_symbol m -> 0 <= idx < 5 ->
  Syndrome_at r900_field m 29 idx = Some (psum (locate m) (29 + Z.to_nat idx)).
Proof.
  intros Hne Hm Hidx. destruct m as [|s m]; [done|]. apply Forall_cons in Hm as [Hs Hm].
  unfold Syndrome_at. cbn [index Z.leb Z.compare lookup list_lookup Z.to_nat mbind option_bind].
  rewrite slice_ok by (rewrite len_cons; pose proof (len_nonneg m); lia).
  change (Z.to_nat 0) with 0%nat. change (Z.to_nat 1) with 1%nat.
  cbn [drop lookup list_lookup mbind option_bind]. rewrite drop_0, len_cons.
  rewrite take_ge by (unfold len; lia).
  set (X := gpow 2 (29 + Z.to_nat idx)).
  destruct (foldM_pure (fun syn v => e ← Exp r900_field (29 + idx); m0 ← Mul r900_field syn e; Some (Z.lxor m0 v))
              (fun syn v => Z.lxor (gmul syn X) v) is_symbol s m Hs) as [-> _].
  { intros a b Ha Hb. rewrite Exp_r900, Z2Nat.inj_add by lia. change (Z.to_nat 29) with 29%nat. fold X.
    cbn [mbind option_bind]. assert (is_symbol X) as HX by (subst X; auto with go).
    destruct (Mul_r900 a X Ha HX) as (-> & _ & Hr). cbn [mbind option_bind].
    rewrite Forall_forall in Hm. auto with go. }
  f_equal. rewrite <- peval_psum by (by constructor). unfold peval. cbn [foldl].
  by rewrite gmul_0_l, Z.lxor_0_l.
Qed.

(** The five syndromes of the R900 parser, in closed form. *)
Lemma Syndrome_r900 m :
  5 <= len m -> Forall is_symbol m ->
  Syndrome r900_field m 5 29 = Some (map (fun k => psum (locate m) k) [29; 30; 31; 32; 33]%nat).
Proof.
  intros Hlen Hm. unfold Syndrome.
  destruct (Z.ltb_spec (len m) 5); [lia|]. cbn [Z.ltb Z.compare orb order r900_field Pos.compare Pos.compare_cont].
  change (seqZ 0 5) with [0; 1; 2; 3; 4]. cbn [mapM].
  assert (m <> []) as Hne by (intros ->; unfold len in Hlen; simpl in Hlen; lia).
  rewrite !Syndrome_at_psum by (done || lia). done.
Qed.

(** ** Minimum distance *)

Definition hamming (a b : list Z) : nat := length (filter (fun p => p.1 <> p.2) (zip a b)).

Definition sxor (a b : list Z) : list Z := zip_with Z.lxor a b.

Lemma psum_filter l k : psum l k = psum (filter (fun p => p.1 <> 0) l) k.
Proof.
  induction l as [|[e x] l IH]; [done|]. rewrite filter_cons. simpl. destruct (decide _) as [He|He].
  - simpl. by rewrite IH.
  - apply dec_stable in He. by rewrite He, gmul_0_l, Z.lxor_0_l.
Qed.

Lemma length_locate m : length (locate m) = length m.
Proof. induction m; simpl; auto. Qed.

Lemma locate_sxor a b k :
  length a = length b -> Forall is_symbol a -> Forall is_symbol b ->
  psum (locate (sxor a b)) k = Z.lxor (psum (locate a) k) (psum (locate b) k).
Proof.
  intros Hl Ha Hb. revert a Ha Hl. induction Hb as [|y b Hy Hb IH]; intros [|x a] Ha Hl; try done.
  apply Forall_cons in Ha as [Hx Ha]. injection Hl as Hl. unfold sxor in *. simpl.
  rewrite IH by done. rewrite length_zip_with_l by lia. rewrite Hl, gmul_lxor_l by auto with go.
  bitwise i. btauto.
Qed.

Lemma locate_ok m : Forall is_symbol m -> pairs_ok (locate m).
Proof.
  unfold pairs_ok. induction 1 as [|e m He Hm IH]; [constructor|]. simpl. constructor; [|done]. simpl.
  split; [done|]. split; [auto with go|]. by apply gpow_nonzero; auto with go.
Qed.

Lemma locate_locators m : (locate m).*2 = map (gpow 2) (rev (seq 0 (length m))).
Proof.
  induction m as [|e m IH]; [done|]. cbn [locate fmap list_fmap snd length]. rewrite seq_S, rev_app_distr. simpl.
  f_equal. exact IH.
Qed.

Lemma locators_NoDup m : (length m <= 31)%nat -> NoDup (locate m).*2.
Proof.
  intros Hm. rewrite locate_locators. apply NoDup_fmap_2_strong; [|apply NoDup_ListNoDup, List.NoDup_rev, seq_NoDup].
  intros i j Hi Hj E. apply list_elem_of_In, in_rev, in_seq in Hi, Hj.
  pose proof (forall_range2 (fun i j => negb (gpow 2 (Z.to_nat i) =? gpow 2 (Z.to_nat j)) || (i =? j)) 31 31
    ltac:(vm_compute; reflexivity) (Z.of_nat i) (Z.of_nat j) ltac:(lia) ltac:(lia)) as H.
  cbn beta in H. rewrite !Nat2Z.id, E, Z.eqb_refl in H. simpl in H. apply Z.eqb_eq in H. lia.
Qed.

Lemma sxor_weights a b :
  length a = length b -> length (filter (fun p => p.1 <> 0) (locate (sxor a b))) = hamming a b.
Proof.
  unfold hamming, sxor. revert b. induction a as [|x a IH]; intros [|y b] Hl; try done. injection Hl as Hl.
  cbn [zip_with locate]. rewrite !filter_cons. simpl.
  destruct (decide (Z.lxor x y <> 0)) as [H|H]; destruct (decide (x <> y)) as [H'|H']; simpl; rewrite IH by done; try done.
  - destruct H. apply dec_stable in H' as ->. apply Z.lxor_nilpotent.
  - destruct H'. apply dec_stable in H. by apply Z.lxor_eq.
Qed.

Lemma sxor_symbols a b : Forall is_symbol a -> Forall is_symbol b -> Forall is_symbol (sxor a b).
Proof.
  intros Ha. unfold sxor. revert b. induction Ha as [|x a Hx Ha IH]; intros [|y b] Hb; try constructor.
  - apply Forall_cons in Hb as [Hy _]. auto with go.
  - apply Forall_cons in Hb as [_ Hb]. by apply IH.
Qed.

(** Two words of at most 31 symbols that differ in at most five places have
    power sums that differ at one of the five exponents. *)
Lemma psum_distance a b :
  length a = length b -> (length a <= 31)%nat -> Forall is_symbol a -> Forall is_symbol b ->
  (hamming a b <= 5)%nat ->
  (forall k, (29 <= k < 34)%nat -> psum (locate a) k = psum (locate b) k) -> a = b.
Proof.
  intros Hl H31 Ha Hb Hd Hs. set (l := filter (fun p => p.1 <> 0) (locate (sxor a b))).
  assert (length (sxor a b) = length a) as Hlx by (unfold sxor; by rewrite length_zip_with_l by lia).
  assert (Forall (fun p => p.1 = 0) l) as Hz.
  { apply vandermonde with 29%nat.
    - apply Forall_filter_incl, locate_ok. by apply sxor_symbols.
    - eapply sublist_NoDup; [|apply fmap_sublist, sublist_filter]. apply locators_NoDup. lia.
    - subst l. rewrite sxor_weights by done. intros k Hk. rewrite <- psum_filter, locate_sxor by done.
      rewrite Hs by lia. apply Z.lxor_nilpotent. }
  assert (l = []) as El.
  { destruct l as [|p l'] eqn:E; [done|]. exfalso. apply Forall_cons in Hz as [Hp _].
    assert (p ∈ l) as Hin by (rewrite E; apply list_elem_of_here). subst l.
    apply list_elem_of_filter in Hin as [? _]. done. }
  pose proof (sxor_weights a b Hl) as Hw. fold l in Hw. rewrite El in Hw. symmetry in Hw.
  clear -Hw Hl. unfold hamming in Hw. apply nil_length_inv in Hw. revert b Hl Hw.
  induction a as [|x a IH]; intros [|y b] Hl Hw; try done. injection Hl as Hl.
  cbn [zip zip_with] in Hw. rewrite filter_cons in Hw. simpl in Hw.
  destruct (decide (x <> y)) as [|Hxy]; [done|]. apply dec_stable in Hxy as ->. f_equal. by apply IH.
Qed.

(** ** Properties *)

(** Whatever order, polynomial and generator [NewField] accepts, the field it
    returns has a correct multiplicative structure: multiplication of nonzero
    symbols never panics, stays nonzero, is commutative and associative with unit
    1, and [Inv] returns the inverse. *)
Theorem NewField_is_field (ord poly a : Z) (f : Field)
  (Hnew : NewField ord poly a = Some f) (Hord : 2 <= ord) :
  forall x y z, 1 <= x < ord -> 1 <= y < ord -> 1 <= z < ord ->
  exists xy yz ix, Mul f x y = Some xy /\ 1 <= xy < ord /\ Mul f y x = Some xy /\
    Mul f y z = Some yz /\ Mul f xy z = Mul f x yz /\ Mul f x 1 = Some x /\
    Inv f x = Some ix /\ 1 <= ix < ord /\ Mul f x ix = Some 1.
Proof.
  destruct (NewField_ok _ _ _ _ Hnew Hord) as [Hf Ho]. intros x y z Hx Hy Hz.
  assert (nonzero f x /\ nonzero f y /\ nonzero f z) as (Nx & Ny & Nz) by (unfold nonzero; lia).
  destruct (Mul_nonzero f Hf x y Nx Ny) as (xy & Exy & Nxy).
  destruct (Mul_nonzero f Hf y z Ny Nz) as (yz & Eyz & Nyz).
  destruct (Mul_Inv f Hf x Nx) as (ix & Eix & Nix & Eone).
  exists xy, yz, ix. unfold nonzero in Nxy, Nix. rewrite Ho in Nxy, Nix.
  rewrite (Mul_comm f y x). rewrite (Mul_assoc f Hf x y z xy yz) by done. rewrite (Mul_one f Hf x Nx).
  repeat split; try done; lia.
Qed.

Lemma NewField_is_field_witness :
  exists f, NewField 32 37 2 = Some f /\ exists ix, Inv f 7 = Some ix /\ Mul f 7 ix = Some 1.
Proof.
  exists r900_field. split; [exact NewField_r900|].
  destruct (NewField_is_field 32 37 2 r900_field NewField_r900 ltac:(lia) 7 7 7
    ltac:(lia) ltac:(lia) ltac:(lia)) as (xy & yz & ix & H).
  exists ix. split; apply H.
Defined.

(** C26. The R900 parity check rejects every corruption of up to five of the 31
    code symbols: two words that both pass the five-syndrome test are equal or
    differ in at least six positions. *)
Theorem Syndrome_minimum_distance (a b : list Z)
  (Ha : len a = 31) (Hb : len b = 31) (Sa : Forall is_symbol a) (Sb : Forall is_symbol b)
  (Pa : Syndrome r900_field a 5 29 = Some [0; 0; 0; 0; 0])
  (Pb : Syndrome r900_field b 5 29 = Some [0; 0; 0; 0; 0]) (Hne : a <> b) :
  (6 <= hamming a b)%nat.
Proof.
  destruct (Nat.le_gt_cases 6 (hamming a b)) as [|Hd]; [done|]. destruct Hne.
  rewrite Syndrome_r900 in Pa, Pb by (done || lia). injection Pa as A0 A1 A2 A3 A4.
  injection Pb as B0 B1 B2 B3 B4. unfold len in *.
  apply psum_distance; try done; try lia. intros k Hk.
  assert (k = 29 \/ k = 30 \/ k = 31 \/ k = 32 \/ k = 33)%nat as Hk' by lia.
  destruct Hk' as [->|[->|[->|[->| ->]]]]; congruence.
Qed.

(** A code word of weight six: the generator polynomial of the code. *)
Definition sample_codeword : list Z := make 25 0 ++ [1; 28; 19; 19; 28; 1].

Lemma Syndrome_minimum_distance_witness : (6 <= hamming (make 31 0%Z) sample_codeword)%nat.
Proof.
  apply Syndrome_minimum_distance.
  - reflexivity.
  - reflexivity.
  - apply uintsb_Forall. reflexivity.
  - apply uintsb_Forall. reflexivity.
  - vm_compute. reflexivity.
  - vm_compute. reflexivity.
  - discriminate.
Defined.
