(* ===== verification/Packet.v ===== *)
(** Packets, messages and the parser registry (src/protocol/parse.go, and the
    [PacketConfig] of src/protocol/decode.go), with the duplicate-suppressing
    packet loop that the byte-oriented parsers share. *)

From S2P Require Import Prelude.

(** ** Data *)

Record PacketConfig := {
  Protocol : list Z; Preamble : list Z; DataRate : Z;
  BlockSize : Z; BlockSize2 : Z; ChipLength : Z; SymbolLength : Z; SampleRate : Z;
  PreambleSymbols : Z; PacketSymbols : Z; PreambleLength : Z; PacketLength : Z;
  BufferLength : Z; CenterFreq : Z }.

(** The composite literals of the parsers name seven fields; the rest are zero. *)
Definition parser_config (protocol preamble : list Z) (centerFreq dataRate chipLength preambleSymbols packetSymbols : Z)
  : PacketConfig :=
  {| Protocol := protocol; Preamble := preamble; DataRate := dataRate;
     BlockSize := 0; BlockSize2 := 0; ChipLength := chipLength; SymbolLength := 0; SampleRate := 0;
     PreambleSymbols := preambleSymbols; PacketSymbols := packetSymbols; PreambleLength := 0; PacketLength := 0;
     BufferLength := 0; CenterFreq := centerFreq |}.

Record Data := { Idx : Z; Bits : list Z; Bytes : list Z }.

(** [newData]: the bytes are copied; the text spells every byte, most
    significant bit first. *)
Definition byte_text (b : Z) : list Z :=
  map (fun shift => u8 (48 + Z.land (Z.shiftr b (shift - 1)) 1)) [8; 7; 6; 5; 4; 3; 2; 1].

Definition newData (data : list Z) (includeBits : bool) : Data :=
  let bytes := gocopy (make (len data) 0) data in
  {| Idx := 0; Bits := if includeBits then concat (map byte_text data) else []; Bytes := bytes |}.

Definition NewData (data : list Z) : Data := newData data true.

(** The bytes at [lo, hi) read as a big-endian number. *)
Definition be (lo hi : Z) (b : list Z) : option Z := w ← slice lo hi b; Some (of_bytes w).

(** [PutUint16] on a fresh two-byte slice. *)
Definition put_uint16 (v : Z) : list Z := [u8 (Z.shiftr v 8); u8 v].

(** A [Message] value is what its methods return. *)
Record Message := {
  MsgType : list Z; MeterID : Z; MeterType : Z; MsgChecksum : list Z; MsgRecord : list (list Z) }.

#[export] Instance Message_eq_dec : EqDecision Message.
Proof. solve_decision. Defined.

Record Digest := { d_MsgType : list Z; d_MeterType : Z; d_MeterID : Z; d_Checksum : list Z }.

#[export] Instance Digest_eq_dec : EqDecision Digest.
Proof. solve_decision. Defined.

Definition NewDigest (msg : Message) : Digest :=
  {| d_MsgType := MsgType msg; d_MeterType := MeterType msg; d_MeterID := MeterID msg;
     d_Checksum := MsgChecksum msg |}.

#[export] Instance Digest_countable : Countable Digest.
Proof.
  refine (inj_countable' (fun d => (d_MsgType d, d_MeterType d, d_MeterID d, d_Checksum d))
    (fun p => {| d_MsgType := p.1.1.1; d_MeterType := p.1.1.2; d_MeterID := p.1.2; d_Checksum := p.2 |}) _).
  by intros [].
Defined.

(** [strconv.FormatInt] in base ten. *)
Definition FormatInt (n : Z) : list Z := if n <? 0 then str "-" ++ FormatUint (- n) 10 else FormatUint n 10.

(** [fmt]'s decimal with a width: [%wd], and with the space flag: [% wd]. *)
Definition Dec (width : nat) (n : Z) : list Z :=
  let s := FormatUint n 10 in replicate (width - length s) 32 ++ s.

Definition DecSpace (width : nat) (n : Z) : list Z :=
  let s := [32] ++ FormatUint n 10 in replicate (width - length s) 32 ++ s.

(** [%02X] of a byte slice. *)
Definition HexBytes (b : list Z) : list Z := concat (map (Hex 2) b).

(** [%d] of an array. *)
Fixpoint dec_items (l : list Z) : list Z :=
  match l with
  | [] => []
  | [x] => FormatUint x 10
  | x :: l => FormatUint x 10 ++ str " " ++ dec_items l
  end.

Definition DecArray (l : list Z) : list Z := str "[" ++ dec_items l ++ str "]".

(** [strings.Join]. *)
Fixpoint Join (elems : list (list Z)) (sep : list Z) : list Z :=
  match elems with
  | [] => []
  | [x] => x
  | x :: l => x ++ sep ++ Join l sep
  end.

(** [LogMessage]; the layouts of package time are a parameter of its text. *)
Section LogMessage.
Context {Time : Type} (RFC3339Nano : Time -> list Z).

Record LogMessage := { lm_Time : Time; lm_Offset : Z; lm_Length : Z; lm_Type : list Z; lm_Message : Message }.

Definition LogMessage_Record (msg : LogMessage) : list (list Z) :=
  [RFC3339Nano (lm_Time msg)] ++ [FormatInt (lm_Offset msg)] ++ [FormatInt (lm_Length msg)] ++
  MsgRecord (lm_Message msg).
End LogMessage.

(** ** Filter chains

    A filter may keep state (the unique filter does), so a filter is a step
    from its state and a message to a verdict and the next state. *)

Record MessageFilter := { filter_state : Type; filter_now : filter_state;
                          Filter : filter_state -> Message -> bool * filter_state }.

Definition apply_filter (f : MessageFilter) (msg : Message) : bool * MessageFilter :=
  let '(ok, st) := Filter f (filter_now f) msg in
  (ok, {| filter_state := filter_state f; filter_now := st; Filter := Filter f |}).

Definition FilterChain := list MessageFilter.

(** [FilterChain.Add] *)
Definition FilterChain_Add (fc : FilterChain) (f : MessageFilter) : FilterChain := fc ++ [f].

(** The loop of [FilterChain.Match] returns at the first refusal: the filters
    behind it do not see the message. *)
Fixpoint match_loop (fc : FilterChain) (msg : Message) : bool * FilterChain :=
  match fc with
  | [] => (true, [])
  | f :: fc =>
      let '(ok, f') := apply_filter f msg in
      if negb ok then (false, f' :: fc)
      else let '(r, fc') := match_loop fc msg in (r, f' :: fc')
  end.

Definition Match (fc : FilterChain) (msg : Message) : bool * FilterChain :=
  if len fc =? 0 then (true, fc) else match_loop fc msg.

(** ** The parser registry *)

Section Registry.
(** What a parser constructor builds from a chip length. *)
Context {Parser : Type}.

Definition NewParserFunc := Z -> Parser.

(** [RegisterParser]: nil constructors and duplicate names panic. *)
Definition RegisterParser (parsers : gmap (list Z) NewParserFunc) (name : list Z) (parserFn : option NewParserFunc)
  : option (gmap (list Z) NewParserFunc) :=
  match parserFn with
  | None => None
  | Some fn => match parsers !! name with Some _ => None | None => Some (<[name := fn]> parsers) end
  end.

(** [NewParser]: an unknown name is an error. *)
Definition NewParser (parsers : gmap (list Z) NewParserFunc) (name : list Z) (symbolLength : Z) : Parser + list Z :=
  match parsers !! name with
  | Some parserFn => inl (parserFn symbolLength)
  | None => inr name
  end.
End Registry.

(** ** Lemmas *)

Lemma byte_text_bits b : byte_text b = bit_chars (byte_bits b).
Proof.
  change (byte_bits b) with (map (fun k => Z.land (Z.shiftr b (k - 1)) 1) [8; 7; 6; 5; 4; 3; 2; 1]).
  unfold byte_text, bit_chars. rewrite map_map. apply map_ext. intros k. apply wrap_u_id.
  rewrite (Z.land_ones _ 1) by lia. pose proof (Z.mod_pos_bound (Z.shiftr b (k - 1)) (2 ^ 1)). uints. lia.
Qed.

Lemma NewData_Bits data : Bits (NewData data) = bit_chars (bytes_bits data).
Proof.
  unfold NewData, newData, bytes_bits, bit_chars. cbn [Bits]. induction data as [|b data IH]; [done|].
  cbn [map concat]. rewrite map_app, IH. f_equal. apply byte_text_bits.
Qed.

Lemma newData_Bytes data b : Bytes (newData data b) = data.
Proof.
  unfold newData. cbn [Bytes]. rewrite gocopy_full; unfold make, len; rewrite length_replicate; [|lia].
  apply take_ge. lia.
Qed.

Lemma len_NewData_Bits data : len (Bits (NewData data)) = 8 * len data.
Proof. rewrite NewData_Bits. unfold bit_chars, len. rewrite length_map. apply len_bytes_bits. Qed.

Lemma gocopy_eq {A} (dst src : list A) : length dst = length src -> gocopy dst src = src.
Proof. intros H. rewrite gocopy_full by lia. apply take_ge. lia. Qed.

(** Text fields of a packet parse to the bits they were made from. *)
Lemma slice_map {A B} (f : A -> B) lo hi l : slice lo hi (map f l) = map f <$> slice lo hi l.
Proof.
  unfold slice. replace (len (map f l)) with (len l) by (unfold len; by rewrite length_map).
  destruct (_ && _); [|done]. cbn [fmap option_fmap option_map]. f_equal.
  rewrite <- firstn_map, <- skipn_map. done.
Qed.

Lemma slice_Forall {A} (P : A -> Prop) lo hi l k : Forall P l -> slice lo hi l = Some k -> Forall P k.
Proof. intros H (?&?&->)%slice_Some. auto with go. Qed.

Lemma slice_slice {A} (l : list A) lo hi lo' hi' :
  0 <= lo' <= hi' -> hi' <= hi - lo -> 0 <= lo -> hi <= len l ->
  (k ← slice lo hi l; slice lo' hi' k) = slice (lo + lo') (lo + hi') l.
Proof.
  intros H1 H2 H3 H4. rewrite slice_ok by lia. cbn [mbind option_bind]. rewrite !slice_ok; try lia.
  - f_equal. replace (lo + hi' - (lo + lo')) with (hi' - lo') by lia.
    replace (Z.to_nat (lo + lo')) with (Z.to_nat lo + Z.to_nat lo')%nat by lia.
    rewrite <- drop_drop, skipn_firstn_comm, take_take. f_equal. lia.
  - unfold len in *. rewrite length_take, length_drop. lia.
Qed.

Lemma slice_app_l {A} (l k : list A) hi : 0 <= hi <= len l -> slice 0 hi (l ++ k) = slice 0 hi l.
Proof.
  intros H. rewrite !slice_ok; rewrite ?len_app; unfold len in *; try lia. f_equal.
  change (Z.to_nat 0) with 0%nat. rewrite !drop_0, take_app_le by lia. done.
Qed.

Lemma slice_mid {A} (a k c : list A) lo hi :
  lo = len a -> hi = len a + len k -> slice lo hi (a ++ k ++ c) = Some k.
Proof.
  intros -> ->. rewrite slice_ok; rewrite ?len_app; unfold len; try lia. f_equal.
  rewrite Nat2Z.id, drop_app_length.
  replace (Z.to_nat _) with (length k) by lia. apply take_app_length.
Qed.

Lemma put_uint16_of_bytes v : is_uint 16 v -> of_bytes (put_uint16 v) = v.
Proof.
  intros Hv. unfold put_uint16, of_bytes, of_digits, u8, wrap_u. cbn [foldl].
  rewrite Z.shiftr_div_pow2 by lia. rewrite (Z.mod_small (v / 2 ^ 8)).
  - pose proof (Z.div_mod v (2 ^ 8)). lia.
  - uints. split; [apply Z.div_pos; lia|apply Z.div_lt_upper_bound; lia].
Qed.

Lemma put_uint16_bytes v : Forall is_byte (put_uint16 v).
Proof. unfold put_uint16. solve_Forall; by apply wrap_u_range. Qed.

(** ** The duplicate-suppressing packet loop

    Every byte-oriented parser copies each packet into one scratch buffer, skips
    contents it has seen in this call, and appends the message of the contents
    it accepts; [key] is the form in which contents are remembered.  [scan_step] is that loop body for an acceptance function over
    the text and the buffer; it is the reference the parsers are proved against. *)

Section Scan.
Context (accept : Data -> option (option Message)).

(** The buffer, the contents seen, the messages. *)
Abbreviation scan_state := (list Z * gset (list Z) * list Message)%type.

Definition scan_step (key : list Z -> list Z) (view : Data -> option (list Z)) (st : scan_state) (pkt : Data) : option scan_state :=
  let '(buf, seen, messages) := st in
  bits ← view pkt;
  let buf := gocopy buf (Bytes pkt) in
  if decide (key buf ∈ seen) then Some (buf, seen, messages) else
  let seen := {[key buf]} ∪ seen in
  r ← accept {| Idx := Idx pkt; Bits := bits; Bytes := buf |};
  match r with
  | None => Some (buf, seen, messages)
  | Some m => Some (buf, seen, messages ++ [m])
  end.
End Scan.

Lemma foldM_ext {A B} (f g : A -> B -> option A) a l :
  (forall a b, f a b = g a b) -> foldM f a l = foldM g a l.
Proof.
  intros H. revert a. induction l as [|b l IH]; intros a; simpl; [done|]. rewrite H.
  destruct (g a b); [apply IH|done].
Qed.

(** The first occurrences of a list, less those in [seen]. *)
Fixpoint distinct (seen : gset (list Z)) (l : list (list Z)) : list (list Z) :=
  match l with
  | [] => []
  | x :: l => if decide (x ∈ seen) then distinct seen l else x :: distinct ({[x]} ∪ seen) l
  end.

Lemma distinct_spec seen l x : x ∈ distinct seen l <-> x ∈ l /\ x ∉ seen.
Proof.
  revert seen. induction l as [|y l IH]; intros seen; cbn [distinct].
  { split; [intros H; by apply not_elem_of_nil in H|intros [H _]; by apply not_elem_of_nil in H]. }
  destruct (decide (y ∈ seen)) as [Hy|Hy].
  - rewrite IH, elem_of_cons. split; [tauto|]. intros [[->|H] Hn]; [done|tauto].
  - rewrite !elem_of_cons, IH. destruct (decide (x = y)) as [->|Hne]; [tauto|].
    assert (x ∉ {[y]} ∪ seen <-> x ∉ seen) as -> by (rewrite elem_of_union, elem_of_singleton; tauto).
    tauto.
Qed.

Lemma distinct_NoDup seen l : NoDup (distinct seen l).
Proof.
  revert seen. induction l as [|y l IH]; intros seen; cbn [distinct]; [constructor|].
  destruct (decide _); [done|]. constructor; [|done]. rewrite distinct_spec, elem_of_union, elem_of_singleton. tauto.
Qed.

(** A packet as the decoder hands it over: its text, when it has one, spells
    its bytes, and there are at least as many bytes as the protocol needs. *)
Definition whole (n : nat) (d : Data) : Prop :=
  (n <= length (Bytes d))%nat /\ Forall is_byte (Bytes d) /\ Bits d = bit_chars (bytes_bits (Bytes d)).

Definition contents (n : nat) (d : Data) : list Z := take n (Bytes d).

Lemma whole_NewData n b : (n <= length b)%nat -> Forall is_byte b -> whole n (NewData b).
Proof. intros Hn Hb. unfold whole. rewrite NewData_Bits. unfold NewData. by rewrite newData_Bytes. Qed.

Lemma contents_NewData n b : length b = n -> contents n (NewData b) = b.
Proof. intros Hn. unfold contents, NewData. rewrite newData_Bytes. apply take_ge. lia. Qed.

Lemma contents_length n d : whole n d -> length (contents n d) = n.
Proof. intros [H _]. unfold contents. rewrite length_take. lia. Qed.

Lemma contents_bytes n d : whole n d -> Forall is_byte (contents n d).
Proof. intros (_ & H & _). by apply Forall_take. Qed.

Lemma bytes_bits_take n l : bytes_bits (take n l) = take (8 * n) (bytes_bits l).
Proof.
  unfold bytes_bits. revert n. induction l as [|b l IH]; intros n; [cbn [map concat]; by rewrite !take_nil|].
  destruct n as [|n]; [done|]. cbn [take map concat]. rewrite IH. replace (8 * S n)%nat with (length (byte_bits b) + 8 * n)%nat by (change (length (byte_bits b)) with 8%nat; lia).
  by rewrite take_app_add.
Qed.

Lemma bytes_bits_drop n l : bytes_bits (drop n l) = drop (8 * n) (bytes_bits l).
Proof.
  unfold bytes_bits. revert n. induction l as [|b l IH]; intros n; [cbn [map concat]; by rewrite !drop_nil|].
  destruct n as [|n]; [done|]. cbn [drop map concat]. rewrite IH.
  replace (8 * S n)%nat with (length (byte_bits b) + 8 * n)%nat by (change (length (byte_bits b)) with 8%nat; lia).
  by rewrite <- drop_drop, drop_app_length.
Qed.

(** The text of the part the protocol looks at. *)
Lemma whole_Bits n d :
  whole n d -> slice 0 (8 * Z.of_nat n) (Bits d) = Some (bit_chars (bytes_bits (contents n d))).
Proof.
  intros (Hn & Hb & ->). pose proof (len_bytes_bits (Bytes d)) as Hl.
  unfold bit_chars at 1. rewrite slice_map, slice_ok by (unfold len in *; lia).
  cbn [fmap option_fmap option_map]. f_equal. unfold contents. rewrite bytes_bits_take.
  change (Z.to_nat 0) with 0%nat. rewrite drop_0. unfold bit_chars. do 2 f_equal. lia.
Qed.

(** The loop over whole packets: if acceptance never panics and depends on the
    contents only, the loop appends the messages of the accepted distinct
    contents, in order of first occurrence. *)
Lemma scan_spec accept key view (msg_of : list Z -> option Message) n buf seen messages pkts :
  length buf = n -> (forall b, length b = n -> key b = b) ->
  Forall (fun d => (n <= length (Bytes d))%nat /\ exists bits, view d = Some bits /\
    accept {| Idx := Idx d; Bits := bits; Bytes := contents n d |} = Some (msg_of (contents n d))) pkts ->
  exists buf' seen', length buf' = n /\
    foldM (scan_step accept key view) (buf, seen, messages) pkts =
    Some (buf', seen', messages ++ omap msg_of (distinct seen (map (contents n) pkts))).
Proof.
  intros Hb Hkey Hp. revert buf seen messages Hb.
  induction Hp as [|d pkts (Hn & bits & Hv & Ha) Hp IH]; intros buf seen messages Hb.
  { exists buf, seen. by rewrite app_nil_r. }
  assert (length (contents n d) = n) as Hl by (unfold contents; rewrite length_take; lia).
  cbn [foldM map distinct scan_step]. rewrite Hv. cbn [mbind option_bind].
  assert (gocopy buf (Bytes d) = contents n d) as -> by (rewrite gocopy_full by lia; by rewrite Hb).
  rewrite Hkey by done. destruct (decide (contents n d ∈ seen)) as [|Hni]; [by apply IH|].
  rewrite Ha. cbn [mbind option_bind omap list_omap]. destruct (msg_of (contents n d)) as [m|]; [|by apply IH].
  destruct (IH (contents n d) ({[contents n d]} ∪ seen) (messages ++ [m]) Hl) as (buf' & seen' & Hb' & ->).
  exists buf', seen'. split; [done|]. by rewrite <- app_assoc.
Qed.
