(* ===== verification/Layout.v ===== *)
(** Fixed-width field layouts: how a packet is put together from fields, the
    reference against which the parsers' field extraction is proved. *)

From S2P Require Import Prelude Crc Packet.

(** The [n] digits of [v] in base 2^w, most significant first. *)
Fixpoint to_digits (w : Z) (n : nat) (v : Z) : list Z :=
  match n with
  | O => []
  | S n => (v / 2 ^ (w * Z.of_nat n)) mod 2 ^ w :: to_digits w n v
  end.

Definition to_bits (n : nat) (v : Z) : list Z := to_digits 1 n v.
Definition to_bytes (n : nat) (v : Z) : list Z := to_digits 8 n v.

(** Bits, eight to a byte. *)
Definition pack (l : list Z) : list Z := to_bytes (length l / 8) (of_bits l).

(** A layout is a list of (number of digits, value) fields. *)
Definition layout := list (nat * Z).

Definition lay (w : Z) (l : layout) : list Z := concat (map (fun f => to_digits w f.1 f.2) l).

Definition lay_width (l : layout) : nat := list_sum (map fst l).

(** The field that occupies exactly the digits [lo, hi). *)
Fixpoint field_at (lo hi : Z) (l : layout) : option Z :=
  match l with
  | [] => None
  | (n, v) :: l =>
      if lo <? Z.of_nat n then if (lo =? 0) && (hi =? Z.of_nat n) then Some v else None
      else field_at (lo - Z.of_nat n) (hi - Z.of_nat n) l
  end.

Lemma length_to_digits w n v : length (to_digits w n v) = n.
Proof. induction n; simpl; congruence. Qed.

Lemma to_digits_Forall w n v : 0 <= w -> Forall (is_uint w) (to_digits w n v).
Proof.
  intros Hw. induction n as [|n IH]; [constructor|]. constructor; [|done].
  apply Z.mod_pos_bound, Z.pow_pos_nonneg; lia.
Qed.

Lemma of_to_digits w n v : 0 <= w -> of_digits w (to_digits w n v) = v mod 2 ^ (w * Z.of_nat n).
Proof.
  intros Hw. induction n as [|n IH].
  { simpl. rewrite Z.mul_0_r, Z.mod_1_r. done. }
  cbn [to_digits]. rewrite of_digits_cons, IH by done. unfold len. rewrite length_to_digits.
  replace (w * Z.of_nat (S n)) with (w * Z.of_nat n + w) by lia.
  rewrite Z.pow_add_r by lia.
  rewrite Z.rem_mul_r; [ring|apply Z.pow_nonzero; lia|apply Z.pow_pos_nonneg; lia].
Qed.

Lemma of_to_digits_id w n v : 0 <= w -> is_uint (w * Z.of_nat n) v -> of_digits w (to_digits w n v) = v.
Proof. intros Hw Hv. rewrite of_to_digits by done. by apply Z.mod_small. Qed.

Lemma of_digits_inj w a b :
  0 <= w -> Forall (is_uint w) a -> Forall (is_uint w) b -> length a = length b ->
  of_digits w a = of_digits w b -> a = b.
Proof.
  intros Hw Ha. revert b. induction Ha as [|x a Hx Ha IH]; intros [|y b] Hb Hl E; try done.
  apply Forall_cons in Hb as [Hy Hb]. injection Hl as Hl.
  rewrite !of_digits_cons in E by done.
  assert (len b = len a) as El by (unfold len; lia). rewrite El in E.
  pose proof (of_digits_range w a Hw Ha) as R1. pose proof (of_digits_range w b Hw Hb) as R2. rewrite El in R2.
  assert (x = y) as -> by nia. f_equal. apply IH; [done..|lia].
Qed.

Lemma to_of_digits w l : 0 <= w -> Forall (is_uint w) l -> to_digits w (length l) (of_digits w l) = l.
Proof.
  intros Hw Hl. apply (of_digits_inj w); [done|by apply to_digits_Forall|done|apply length_to_digits|].
  apply of_to_digits_id; [done|]. apply of_digits_range; done.
Qed.

(** Packing bits into bytes loses nothing. *)
Lemma length_pack l : length (pack l) = (length l / 8)%nat.
Proof. apply length_to_digits. Qed.

Lemma pack_bytes l : Forall is_byte (pack l).
Proof. by apply to_digits_Forall. Qed.

Lemma bytes_bits_pack l : Forall is_bit l -> (length l mod 8 = 0)%nat -> bytes_bits (pack l) = l.
Proof.
  intros Hl H8. pose proof (Nat.div_mod (length l) 8 ltac:(lia)) as Hd.
  assert (length (bytes_bits (pack l)) = length l) as Hlen.
  { pose proof (len_bytes_bits (pack l)) as H. unfold len in H. rewrite length_pack in H. lia. }
  apply (of_digits_inj 1); [lia|apply bytes_bits_are_bits|done|done|].
  change (of_bits (bytes_bits (pack l)) = of_bits l).
  rewrite of_bits_bytes by apply pack_bytes. unfold pack, of_bytes, to_bytes.
  apply of_to_digits_id; [lia|]. pose proof (of_digits_range 1 l ltac:(lia) Hl) as R.
  unfold is_uint, of_bits. unfold len in R. replace (8 * Z.of_nat (length l / 8)) with (1 * Z.of_nat (length l)) by lia.
  done.
Qed.

Lemma pack_bytes_bits l : Forall is_byte l -> pack (bytes_bits l) = l.
Proof.
  intros Hl. unfold pack. rewrite of_bits_bytes by done.
  pose proof (len_bytes_bits l) as E. unfold len in E.
  replace (length (bytes_bits l) / 8)%nat with (length l); [by apply to_of_digits|].
  replace (length (bytes_bits l)) with (length l * 8)%nat by lia. by rewrite Nat.div_mul.
Qed.

Lemma length_lay w l : length (lay w l) = lay_width l.
Proof.
  unfold lay, lay_width. induction l as [|[n v] l IH]; [done|]. simpl.
  by rewrite length_app, length_to_digits, IH.
Qed.

Lemma lay_Forall w l : 0 <= w -> Forall (is_uint w) (lay w l).
Proof.
  intros Hw. unfold lay. induction l as [|[n v] l IH]; [constructor|]. simpl.
  apply Forall_app. split; [by apply to_digits_Forall|done].
Qed.

(** A field cut out of bits is in the range of its width. *)
Lemma of_bits_cut_range bs lo hi : Forall is_bit bs -> 0 <= lo <= hi ->
  is_uint (hi - lo) (of_bits (take (Z.to_nat (hi - lo)) (drop (Z.to_nat lo) bs))).
Proof.
  intros Hb H. pose proof (of_digits_range 1 (take (Z.to_nat (hi - lo)) (drop (Z.to_nat lo) bs)) ltac:(lia)) as R.
  destruct R as [R1 R2]; [auto with go|]. split; [exact R1|]. eapply Z.lt_le_trans; [exact R2|].
  apply Z.pow_le_mono_r; [lia|]. unfold len. rewrite length_take. lia.
Qed.

(** Cutting a field out of a layout. *)
Lemma slice_lay w lo hi l v :
  0 <= lo -> field_at lo hi l = Some v -> slice lo hi (lay w l) = Some (to_digits w (Z.to_nat (hi - lo)) v).
Proof.
  revert lo hi. induction l as [|[n x] l IH]; intros lo hi Hlo H; cbn [field_at] in H; [done|].
  unfold lay. cbn [map concat fst snd]. fold (lay w l).
  destruct (Z.ltb_spec lo (Z.of_nat n)) as [Hlt|Hge].
  - destruct (Z.eqb_spec lo 0) as [->|], (Z.eqb_spec hi (Z.of_nat n)) as [->|]; try done. injection H as ->.
    rewrite Z.sub_0_r, Nat2Z.id. change (to_digits w n v ++ lay w l) with ([] ++ to_digits w n v ++ lay w l).
    apply slice_mid; unfold len; [done|]. by rewrite length_to_digits.
  - apply IH in H; [|lia]. apply slice_Some in H as (H1 & H2 & H3).
    replace (hi - Z.of_nat n - (lo - Z.of_nat n)) with (hi - lo) in H3 by lia.
    rewrite slice_ok; [|lia|].
    + f_equal. rewrite H3 at 1.
      replace (Z.to_nat lo) with (length (to_digits w n x) + Z.to_nat (lo - Z.of_nat n))%nat
        by (rewrite length_to_digits; lia).
      rewrite <- drop_drop, drop_app_length.
      f_equal. 
    + rewrite len_app. unfold len at 1. rewrite length_to_digits. lia.
Qed.

Lemma slice_bit_chars lo hi bits : slice lo hi (bit_chars bits) = bit_chars <$> slice lo hi bits.
Proof. apply slice_map. Qed.

Lemma bit_chars_app a b : bit_chars (a ++ b) = bit_chars a ++ bit_chars b.
Proof. apply map_app. Qed.

Lemma index_of_bytes b i : 0 <= i < len b -> index b i = Some (of_bytes (take 1 (drop (Z.to_nat i) b))).
Proof.
  intros Hi. destruct (index_lt b i Hi) as [x Hx]. rewrite Hx. apply index_Some in Hx as [_ Hx].
  by rewrite (drop_S _ _ _ Hx).
Qed.

(** A text field of a packet whose bits follow a layout. *)
Definition text_field (lo hi w : Z) (bits : list Z) : option Z :=
  s ← slice lo hi bits; Some (fst (ParseUint s 2 w)).

Lemma text_field_bits lo hi w bits k :
  Forall is_bit bits -> slice lo hi bits = Some k -> 0 < hi - lo <= w -> w <= 64 ->
  text_field lo hi w (bit_chars bits) = Some (of_bits k).
Proof.
  intros Hb Hs Hw H64. unfold text_field. rewrite slice_bit_chars, Hs. cbn [fmap option_fmap option_map mbind option_bind].
  rewrite ParseUint_bits; [done| |rewrite (slice_len _ _ _ _ Hs); lia|done].
  by apply (slice_Forall _ _ _ _ _ Hb Hs).
Qed.

Lemma text_field_lay lo hi w l v :
  0 <= lo -> field_at lo hi l = Some v -> 0 < hi - lo <= w -> w <= 64 -> is_uint (hi - lo) v ->
  text_field lo hi w (bit_chars (lay 1 l)) = Some v.
Proof.
  intros Hlo Hf Hw H64 Hv. rewrite (text_field_bits _ _ _ _ (to_digits 1 (Z.to_nat (hi - lo)) v)).
  - f_equal. apply of_to_digits_id; [lia|]. by rewrite Z2Nat.id, Z.mul_1_l by lia.
  - by apply lay_Forall.
  - by apply slice_lay.
  - done.
  - done.
Qed.

Lemma be_lay lo hi l v :
  0 <= lo <= hi -> field_at lo hi l = Some v -> is_uint (8 * (hi - lo)) v -> be lo hi (lay 8 l) = Some v.
Proof.
  intros Hlo Hf Hv. unfold be. rewrite (slice_lay 8 lo hi l v) by (done || lia). cbn [mbind option_bind].
  f_equal. apply of_to_digits_id; [lia|]. by rewrite Z2Nat.id by lia.
Qed.

Lemma index_lay i l v :
  0 <= i -> field_at i (i + 1) l = Some v -> is_byte v -> index (lay 8 l) i = Some v.
Proof.
  intros Hi Hf Hv. apply (slice_lay 8) in Hf; [|done].
  replace (i + 1 - i) with 1 in Hf by lia. apply slice_Some in Hf as (H1 & H2 & H3).
  replace (i + 1 - i) with 1 in H3 by lia. change (Z.to_nat 1) with 1%nat in H3. cbn [to_digits] in H3.
  rewrite Z.mul_0_r, Z.div_1_r, Z.mod_small in H3 by done.
  apply index_Some. split; [done|]. rewrite <- (Nat.add_0_r (Z.to_nat i)), <- lookup_drop.
  destruct (drop (Z.to_nat i) (lay 8 l)) as [|y k]; simpl in H3; [done|]. by injection H3 as <-.
Qed.

(** ** Groups of bits

    The interval loops of IDM and NetIDM read consecutive [w]-bit groups of the
    packet text, from an offset. *)

Definition interval_step (w : Z) (bits : list Z) (st : Z * list Z) (idx : Z) : option (Z * list Z) :=
  let '(offset, intervals) := st in
  interval ← text_field offset (offset + w) w bits;
  intervals ← store intervals idx (u16 interval);
  Some (offset + w, intervals).

(** Group [i] of a bit string, and the first [n] of them. *)
Definition group (w : nat) (bs : list Z) (i : nat) : Z := of_bits (take w (drop (w * i) bs)).
Definition groups (w n : nat) (bs : list Z) : list Z := map (group w bs) (seq 0 n).

Lemma group_range w bs i : Forall is_bit bs -> is_uint (Z.of_nat w) (group w bs i).
Proof.
  intros Hb. pose proof (of_digits_range 1 (take w (drop (w * i) bs)) ltac:(lia)) as R.
  destruct R as [R1 R2]; [auto with go|]. split; [exact R1|]. eapply Z.lt_le_trans; [exact R2|].
  apply Z.pow_le_mono_r; [lia|]. unfold len. rewrite length_take. lia.
Qed.

Lemma group_drop w off bs i : group w (drop off bs) i = of_bits (take w (drop (off + w * i) bs)).
Proof. unfold group. by rewrite drop_drop. Qed.

Lemma group_take w m bs i : (w * i + w <= m)%nat -> group w (take m bs) i = group w bs i.
Proof.
  intros H. unfold group. rewrite skipn_firstn_comm, take_take. do 2 f_equal. lia.
Qed.

Lemma groups_take w n m bs : (w * n <= m)%nat -> groups w n (take m bs) = groups w n bs.
Proof.
  intros H. apply map_ext_in. intros i Hi. apply in_seq in Hi. apply group_take. nia.
Qed.

Lemma groups_S w n bs : groups w (S n) bs = groups w n bs ++ [group w bs n].
Proof. unfold groups. by rewrite seq_S, map_app. Qed.

Lemma length_groups w n bs : length (groups w n bs) = n.
Proof. unfold groups. by rewrite length_map, length_seq. Qed.

(** The loop over the text fills the array with the groups. *)
Lemma interval_loop w off bs total n i :
  Forall is_bit bs -> (0 < w <= 16)%nat -> (i + n = total)%nat -> (off + w * total <= length bs)%nat ->
  foldM (interval_step (Z.of_nat w) (bit_chars bs))
    (Z.of_nat (off + w * i), groups w i (drop off bs) ++ replicate (total - i) 0) (map Z.of_nat (seq i n)) =
  Some (Z.of_nat (off + w * total), groups w total (drop off bs)).
Proof.
  intros Hb Hw Hn Hoff. revert i Hn. induction n as [|n IH]; intros i Hn.
  { replace i with total by lia. cbn [seq map foldM]. by rewrite Nat.sub_diag, app_nil_r. }
  cbn [seq map foldM interval_step].
  rewrite (text_field_bits _ _ _ _ (take w (drop (off + w * i) bs)));
    [|done| |lia|lia].
  2: { rewrite slice_ok by (unfold len; nia). do 3 f_equal; lia. }
  cbn [mbind option_bind]. rewrite <- group_drop.
  unfold u16. rewrite wrap_u_id.
  2: { assert (Forall is_bit (drop off bs)) as Hbd by by apply Forall_drop.
       destruct (group_range w (drop off bs) i Hbd) as [R1 R2]. split; [exact R1|].
       eapply Z.lt_le_trans; [exact R2|]. apply Z.pow_le_mono_r; lia. }
  rewrite store_next by (unfold len; rewrite ?length_groups; lia). cbn [mbind option_bind].
  rewrite <- groups_S. replace (pred (total - i)) with (total - S i)%nat by lia.
  replace (Z.of_nat (off + w * i) + Z.of_nat w) with (Z.of_nat (off + w * S i)) by lia.
  apply IH. lia.
Qed.

Lemma interval_fold w off bs total :
  Forall is_bit bs -> (0 < w <= 16)%nat -> (off + w * total <= length bs)%nat ->
  foldM (interval_step (Z.of_nat w) (bit_chars bs)) (Z.of_nat off, make (Z.of_nat total) 0) (seqZ 0 (Z.of_nat total)) =
  Some (Z.of_nat (off + w * total), groups w total (drop off bs)).
Proof.
  intros Hb Hw Hoff. pose proof (interval_loop w off bs total total 0 Hb Hw eq_refl Hoff) as H.
  rewrite Nat.mul_0_r, Nat.add_0_r, Nat.sub_0_r in H. unfold make, seqZ. rewrite Nat2Z.id.
  assert ((fun i => Z.of_nat i + 0) <$> seq 0 total = map Z.of_nat (seq 0 total)) as ->.
  { apply map_ext. intros i. lia. }
  exact H.
Qed.

Lemma group_S w a bs i : length a = w -> group w (a ++ bs) (S i) = group w bs i.
Proof.
  intros <-. unfold group. replace (length a * S i)%nat with (length a + length a * i)%nat by lia.
  by rewrite <- drop_drop, drop_app_length.
Qed.

(** Groups of concatenated fixed-width numbers. *)
Lemma groups_concat w l r :
  Forall (is_uint (Z.of_nat w)) l -> groups w (length l) (concat (map (to_bits w) l) ++ r) = l.
Proof.
  unfold groups. induction 1 as [|x l Hx Hl IH]; [done|].
  cbn [map concat length seq]. rewrite <- app_assoc. f_equal.
  - unfold group. rewrite Nat.mul_0_r, drop_0, take_app_le, take_ge by (unfold to_bits; rewrite length_to_digits; lia).
    apply of_to_digits_id; [lia|]. by rewrite Z.mul_1_l.
  - rewrite <- seq_shift, map_map. rewrite <- IH at 2. apply map_ext. intros i. apply group_S, length_to_digits.
Qed.

Lemma length_concat_bits w l : length (concat (map (to_bits w) l)) = (w * length l)%nat.
Proof.
  induction l as [|x l IH]; [simpl; lia|]. cbn [map concat length]. unfold to_bits at 1.
  rewrite length_app, length_to_digits, IH. lia.
Qed.

Lemma concat_bits_Forall w l : Forall is_bit (concat (map (to_bits w) l)).
Proof.
  induction l as [|x l IH]; [constructor|]. cbn [map concat]. apply Forall_app. split; [|done].
  by apply to_digits_Forall.
Qed.

(** Bytes cut out of a byte layout. *)
Lemma cut_lay lo n l v :
  field_at (Z.of_nat lo) (Z.of_nat (lo + n)) l = Some v -> take n (drop lo (lay 8 l)) = to_bytes n v.
Proof.
  intros H. apply (slice_lay 8) in H; [|lia]. apply slice_Some in H as (_ & _ & H).
  replace (Z.to_nat (Z.of_nat (lo + n) - Z.of_nat lo)) with n in H by lia. rewrite Nat2Z.id in H. done.
Qed.

Lemma num_lay lo n l v :
  field_at (Z.of_nat lo) (Z.of_nat (lo + n)) l = Some v -> is_uint (8 * Z.of_nat n) v ->
  of_bytes (take n (drop lo (lay 8 l))) = v.
Proof. intros H Hv. rewrite (cut_lay lo n l v H). apply of_to_digits_id; [lia|done]. Qed.

(** A sender appends the complement of the CCITT checksum. *)
Lemma CCITT_complement data v :
  Forall is_byte data -> is_uint 16 v ->
  (exists c, crc_Checksum CCITT data = Some c /\ v = Z.lxor c 0xFFFF) ->
  crc_ref 0x1021 0xFFFF (bytes_bits (data ++ to_bytes 2 v)) = 0x1D0F.
Proof.
  intros Hd Hv (c & Hc & E). rewrite CCITT_spec in Hc by done. apply (inj Some) in Hc.
  pose proof (to_digits_Forall 8 2 v ltac:(lia)) as Hb.
  pose proof (of_to_digits_id 8 2 v ltac:(lia) Hv) as Ev.
  unfold to_bytes. cbn [to_digits] in *. apply Forall_cons in Hb as [Hh Hb]. apply Forall_cons in Hb as [Hl _].
  apply CCITT_residue; [done..|]. rewrite Hc, <- E. exact Ev.
Qed.

(** The serial-number checksum buffer of IDM and NetIDM. *)
Lemma serial_eq (x y : list Z) :
  length x = 4%nat -> length y = 2%nat ->
  take 4 (gocopy (make 6 0) x) ++ gocopy (drop 4 (gocopy (make 6 0) x)) y = x ++ y.
Proof.
  intros Hx Hy. destruct x as [|a [|b [|c [|d [|]]]]]; try done. by destruct y as [|e [|f [|]]].
Qed.
