(* ===== verification/Scm.v ===== *)
(** Standard Consumption Messages (src/scm/scm.go): the parser, the field
    extraction, and the packets they accept. *)

From S2P Require Import Prelude Crc Packet Layout.

(** ** The code *)

Record Parser := { crc : CRC; cfg : PacketConfig; data_Bytes : list Z }.

Definition NewParser (chipLength : Z) : Parser :=
  {| crc := NewCRC (str "BCH") 0 0x6F63 0;
     cfg := parser_config (str "scm") (str "111110010101001100000") 912600155 32768 chipLength 21 96;
     data_Bytes := make (Z.shiftr 96 3) 0 |}.

Record SCM := {
  ID : Z; Type_ : Z; TamperPhy : Z; TamperEnc : Z; Consumption : Z; ChecksumVal : Z }.

Definition NewSCM (data : Data) : option SCM :=
  a ← slice 21 23 (Bits data);
  b ← slice 56 80 (Bits data);
  let ertid := fst (ParseUint (a ++ b) 2 26) in
  erttype ← text_field 26 30 4 (Bits data);
  tamperphy ← text_field 24 26 2 (Bits data);
  tamperenc ← text_field 30 32 2 (Bits data);
  consumption ← text_field 32 56 24 (Bits data);
  checksum ← text_field 80 96 16 (Bits data);
  Some {| ID := u32 ertid; Type_ := u8 erttype; TamperPhy := u8 tamperphy; TamperEnc := u8 tamperenc;
          Consumption := u32 consumption; ChecksumVal := u16 checksum |}.

(** [SCM.Checksum] *)
Definition SCM_Checksum (scm : SCM) : list Z := put_uint16 (ChecksumVal scm).

(** [SCM.Record] *)
Definition SCM_Record (scm : SCM) : list (list Z) :=
  [FormatUint (ID scm) 10] ++ [FormatUint (Type_ scm) 10] ++
  [zero_x (FormatUint (TamperPhy scm) 16)] ++ [zero_x (FormatUint (TamperEnc scm) 16)] ++
  [FormatUint (Consumption scm) 10] ++ [zero_x (FormatUint (ChecksumVal scm) 16)].

(** [SCM.String] *)
Definition SCM_String (scm : SCM) : list Z :=
  str "{ID:" ++ Dec 8 (ID scm) ++ str " Type:" ++ Dec 2 (Type_ scm) ++
  str " Tamper:{Phy:" ++ Hex 2 (TamperPhy scm) ++ str " Enc:" ++ Hex 2 (TamperEnc scm) ++
  str "} Consumption:" ++ Dec 8 (Consumption scm) ++ str " CRC:0x" ++ Hex 4 (ChecksumVal scm) ++ str "}".

(** The methods of the [protocol.Message] interface. *)
Definition SCM_Message (scm : SCM) : Message :=
  {| MsgType := str "SCM"; MeterID := ID scm; MeterType := Type_ scm;
     MsgChecksum := SCM_Checksum scm; MsgRecord := SCM_Record scm |}.

(** The body of the loop of [Parse]: the parser's scratch buffer, the contents
    already seen in this call, the messages. *)
Definition Parse_step (p : Parser) (st : list Z * gset (list Z) * list Message) (pkt : Data)
  : option (list Z * gset (list Z) * list Message) :=
  let '(buf, seen, messages) := st in
  bits ← slice 0 (PacketSymbols (cfg p)) (Bits pkt);
  let buf := gocopy buf (Bytes pkt) in
  if decide (buf ∈ seen) then Some (buf, seen, messages) else
  let seen := {[buf]} ∪ seen in
  body ← slice 2 12 buf;
  sum ← crc_Checksum (crc p) body;
  if negb (sum =? 0) then Some (buf, seen, messages) else
  scm ← NewSCM {| Idx := Idx pkt; Bits := bits; Bytes := buf |};
  if ID scm =? 0 then Some (buf, seen, messages) else
  Some (buf, seen, messages ++ [SCM_Message scm]).

(** [Parse] has a value receiver, but the copies share the scratch buffer. *)
Definition Parse (p : Parser) (pkts : list Data) (messages : list Message) : option (Parser * list Message) :=
  '(buf, _, messages) ← foldM (Parse_step p) (data_Bytes p, ∅, messages) pkts;
  Some ({| crc := crc p; cfg := cfg p; data_Bytes := buf |}, messages).

(** ** The packets *)

Record scm_ok (scm : SCM) : Prop := {
  ok_ID : is_uint 26 (ID scm); ok_Type : is_uint 4 (Type_ scm);
  ok_Phy : is_uint 2 (TamperPhy scm); ok_Enc : is_uint 2 (TamperEnc scm);
  ok_Con : is_uint 24 (Consumption scm); ok_Crc : is_uint 16 (ChecksumVal scm) }.

(** The fields of a packet in transmission order. *)
Definition scm_fields (preamble reserved : Z) (scm : SCM) : layout :=
  [(21%nat, preamble); (2%nat, ID scm / 2 ^ 24); (1%nat, reserved); (2%nat, TamperPhy scm); (4%nat, Type_ scm);
   (2%nat, TamperEnc scm); (24%nat, Consumption scm); (24%nat, ID scm mod 2 ^ 24); (16%nat, ChecksumVal scm)].

Definition scm_packet (preamble reserved : Z) (scm : SCM) : list Z := pack (lay 1 (scm_fields preamble reserved scm)).

(** What a packet means: its bits as a number, cut into fields. *)
Definition scm_of (b : list Z) : SCM :=
  let bits lo hi := of_bits (take (Z.to_nat (hi - lo)) (drop (Z.to_nat lo) (bytes_bits b))) in
  {| ID := bits 21 23 * 2 ^ 24 + bits 56 80; Type_ := bits 26 30; TamperPhy := bits 24 26;
     TamperEnc := bits 30 32; Consumption := bits 32 56; ChecksumVal := bits 80 96 |}.

(** The contents that [Parse] turns into a message. *)
Definition scm_accept (b : list Z) : option Message :=
  if crc_ref 0x6F63 0 (bytes_bits (take 10 (drop 2 b))) =? 0 then
    if ID (scm_of b) =? 0 then None else Some (SCM_Message (scm_of b))
  else None.

(** [NewSCM] on a whole packet never panics and reads [scm_of]. *)
Lemma NewSCM_spec b idx :
  length b = 12%nat ->
  NewSCM {| Idx := idx; Bits := bit_chars (bytes_bits b); Bytes := b |} = Some (scm_of b).
Proof.
  intros Hb. assert (len (bytes_bits b) = 96) as Hl by (rewrite len_bytes_bits; unfold len; lia).
  pose proof (bytes_bits_are_bits b) as Hbits. set (bs := bytes_bits b) in *.
  pose proof (fun lo hi => of_bits_cut_range bs lo hi Hbits) as R.
  unfold NewSCM. cbn [Bits]. rewrite !slice_bit_chars, !slice_ok by lia.
  cbn [fmap option_fmap option_map mbind option_bind]. rewrite <- bit_chars_app.
  rewrite ParseUint_bits; [|apply Forall_app; auto with go|unfold len in *; rewrite length_app, !length_take, !length_drop; lia|lia].
  repeat (erewrite text_field_bits; [|exact Hbits|apply slice_ok; lia|lia|lia]).
  cbn [mbind option_bind fst]. unfold scm_of. fold bs. f_equal.
  pose proof (R 26 30 ltac:(lia)). pose proof (R 24 26 ltac:(lia)). pose proof (R 30 32 ltac:(lia)).
  pose proof (R 32 56 ltac:(lia)). pose proof (R 80 96 ltac:(lia)). pose proof (R 21 23 ltac:(lia)) as R1.
  pose proof (R 56 80 ltac:(lia)) as R2.
  unfold of_bits at 1. rewrite of_digits_app by lia.
  replace (len (take (Z.to_nat (80 - 56)) (drop (Z.to_nat 56) bs))) with 24
    by (unfold len in *; rewrite length_take, length_drop; lia).
  fold (of_bits (take (Z.to_nat (23 - 21)) (drop (Z.to_nat 21) bs))).
  fold (of_bits (take (Z.to_nat (80 - 56)) (drop (Z.to_nat 56) bs))).
  unfold u32, u16, u8. rewrite Z.mul_1_l.
  f_equal; apply wrap_u_id; uints; lia.
Qed.

(** Packing a message's fields and reading them back. *)
Lemma scm_of_packet preamble reserved scm : scm_ok scm -> scm_of (scm_packet preamble reserved scm) = scm.
Proof.
  intros [H1 H2 H3 H4 H5 H6]. unfold scm_of, scm_packet.
  set (l := scm_fields preamble reserved scm).
  assert (Forall is_bit (lay 1 l)) as Hb by by apply lay_Forall.
  assert (length (lay 1 l) = 96%nat) as Hl by (rewrite length_lay; done).
  rewrite bytes_bits_pack by (done || by rewrite Hl).
  assert (forall lo hi v, 0 <= lo <= hi -> field_at lo hi l = Some v -> is_uint (hi - lo) v ->
    of_bits (take (Z.to_nat (hi - lo)) (drop (Z.to_nat lo) (lay 1 l))) = v) as Hf.
  { intros lo hi v Hlo Hv Hr. apply (slice_lay 1) in Hv; [|lia]. apply slice_Some in Hv as (_ & _ & <-).
    apply of_to_digits_id; [lia|]. by rewrite Z2Nat.id, Z.mul_1_l by lia. }
  assert (is_uint 2 (ID scm / 2 ^ 24) /\ is_uint 24 (ID scm mod 2 ^ 24)) as [Ha Hc].
  { split; [|by apply Z.mod_pos_bound]. uints. split; [apply Z.div_pos; lia|]. apply Z.div_lt_upper_bound; lia. }
  rewrite (Hf 21 23 _ ltac:(lia) eq_refl Ha), (Hf 56 80 _ ltac:(lia) eq_refl Hc),
    (Hf 26 30 _ ltac:(lia) eq_refl H2), (Hf 24 26 _ ltac:(lia) eq_refl H3),
    (Hf 30 32 _ ltac:(lia) eq_refl H4), (Hf 32 56 _ ltac:(lia) eq_refl H5), (Hf 80 96 _ ltac:(lia) eq_refl H6).
  destruct scm as [i t ph en co ck]. cbn [ID Type_ TamperPhy TamperEnc Consumption ChecksumVal]. f_equal.
  rewrite Z.mul_comm, <- Z.div_mod by lia. done.
Qed.

Lemma scm_packet_spec preamble reserved scm :
  length (scm_packet preamble reserved scm) = 12%nat /\ Forall is_byte (scm_packet preamble reserved scm).
Proof. unfold scm_packet. rewrite length_pack, length_lay. split; [done|apply pack_bytes]. Qed.

(** The acceptance test in the loop of [Parse]. *)
Definition accept (p : Parser) (d : Data) : option (option Message) :=
  body ← slice 2 12 (Bytes d); sum ← crc_Checksum (crc p) body;
  if negb (sum =? 0) then Some None else
  scm ← NewSCM d; if ID scm =? 0 then Some None else Some (Some (SCM_Message scm)).

Lemma scm_Parse_step_scan p st pkt :
  Parse_step p st pkt = scan_step (accept p) (fun b => b) (fun d => slice 0 (PacketSymbols (cfg p)) (Bits d)) st pkt.
Proof.
  destruct st as [[bf seen] ms]. unfold Parse_step, scan_step, accept.
  destruct (slice 0 _ (Bits pkt)) as [bits|]; [|done]. cbn [mbind option_bind Bytes].
  destruct (decide _); [done|]. destruct (slice 2 12 _) as [body|]; [|done]. cbn [mbind option_bind].
  destruct (crc_Checksum _ body) as [c|]; [|done]. cbn [mbind option_bind].
  destruct (c =? 0); cbn [negb]; [|done]. destruct (NewSCM _) as [scm|]; [|done]. cbn [mbind option_bind].
  by destruct (ID scm =? 0).
Qed.

Lemma scm_accept_spec p b idx :
  crc p = BCH -> length b = 12%nat -> Forall is_byte b ->
  accept p {| Idx := idx; Bits := bit_chars (bytes_bits b); Bytes := b |} = Some (scm_accept b).
Proof.
  intros Hp Hl Hb. unfold accept. cbn [Bytes]. rewrite slice_ok by (unfold len; lia). cbn [mbind option_bind].
  rewrite Hp, BCH_spec by auto with go. cbn [mbind option_bind]. rewrite NewSCM_spec by done.
  unfold scm_accept. change (Z.to_nat (12 - 2)) with 10%nat. change (Z.to_nat 2) with 2%nat.
  destruct (_ =? 0); [|done]. cbn [negb mbind option_bind]. by destruct (ID _ =? 0).
Qed.

Definition parser_with (chipLength : Z) (buf : list Z) : Parser :=
  {| crc := crc (NewParser chipLength); cfg := cfg (NewParser chipLength); data_Bytes := buf |}.

(** The parser on whole packets. *)
Lemma scm_Parse_spec chipLength buf pkts messages :
  length buf = 12%nat -> Forall (whole 12) pkts ->
  exists buf', length buf' = 12%nat /\
    Parse (parser_with chipLength buf) pkts messages =
    Some (parser_with chipLength buf', messages ++ omap scm_accept (distinct ∅ (map (contents 12) pkts))).
Proof.
  intros Hbuf Hp. set (p := parser_with chipLength buf).
  destruct (scan_spec (accept p) (fun b => b) (fun d => slice 0 (PacketSymbols (cfg p)) (Bits d)) scm_accept 12 buf ∅ messages pkts
    Hbuf (fun _ _ => eq_refl)) as (buf' & seen' & Hb' & E).
  { eapply Forall_impl; [exact Hp|]. intros d Hd. split; [apply Hd|]. eexists. split; [by apply (whole_Bits 12)|].
    apply scm_accept_spec; [done|by apply contents_length|by apply contents_bytes]. }
  exists buf'. split; [done|]. unfold Parse. change (data_Bytes p) with buf.
  by rewrite (foldM_ext _ _ _ _ (scm_Parse_step_scan p)), E.
Qed.

(** The last two bytes of a packet are its checksum field. *)
Lemma scm_packet_trailer preamble reserved scm :
  scm_ok scm -> exists h l, is_byte h /\ is_byte l /\ h * 2 ^ 8 + l = ChecksumVal scm /\
    take 10 (drop 2 (scm_packet preamble reserved scm)) = take 8 (drop 2 (scm_packet preamble reserved scm)) ++ [h; l].
Proof.
  intros Hok. destruct (scm_packet_spec preamble reserved scm) as [Hl Hb].
  set (b := scm_packet preamble reserved scm) in *.
  assert (ChecksumVal (scm_of b) = of_bytes (drop 10 b)) as E.
  { cbn [scm_of ChecksumVal]. rewrite <- of_bits_bytes by by apply Forall_drop. done. }
  assert (scm_of b = scm) as Es by by apply scm_of_packet.
  rewrite Es in E. assert (Forall is_byte (drop 10 b)) as Hd by by apply Forall_drop.
  assert (length (drop 10 b) = 2%nat) as H2 by (rewrite length_drop; lia).
  destruct (drop 10 b) as [|h [|l [|]]] eqn:Ed; try done.
  apply Forall_cons in Hd as [Hh Hd]. apply Forall_cons in Hd as [Hlo _].
  exists h, l. split; [done|]. split; [done|]. split; [by rewrite E|].
  rewrite <- Ed, (take_ge (drop 2 b)) by (rewrite length_drop; lia).
  change 10%nat with (2 + 8)%nat at 1. rewrite <- drop_drop. symmetry. apply take_drop.
Qed.

(** ** Properties *)

(** On packets that hold at least twelve bytes and their text, [Parse] never
    panics, leaves the parser usable, and appends exactly one message for each
    distinct packet content whose BCH checksum is right and whose meter id is
    not zero, in order of first occurrence, with the fields of [scm_of]. *)
Theorem scm_Parse_appends_accepted (chipLength : Z) (buf : list Z) (pkts : list Data) (messages : list Message)
  (Hbuf : length buf = 12%nat) (Hpkts : Forall (whole 12) pkts) :
  exists buf', length buf' = 12%nat /\
    Parse (parser_with chipLength buf) pkts messages =
    Some (parser_with chipLength buf', messages ++ omap scm_accept (distinct ∅ (map (contents 12) pkts))).
Proof. by apply scm_Parse_spec. Qed.

(** A packet of meter 17, consumption 1000, with its BCH checksum. *)
Definition sample : SCM :=
  {| ID := 17; Type_ := 4; TamperPhy := 1; TamperEnc := 2; Consumption := 1000; ChecksumVal := 50176 |}.

Definition sample_packet : list Z := scm_packet 0x1F2A60 0 sample.

Lemma scm_Parse_appends_accepted_witness :
  exists buf', Parse (NewParser 72) [NewData sample_packet; NewData sample_packet] [] =
    Some (parser_with 72 buf', [SCM_Message sample]).
Proof.
  destruct (scm_Parse_appends_accepted 72 (make 12 0) [NewData sample_packet; NewData sample_packet] [])
    as (buf' & _ & H).
  - reflexivity.
  - repeat (apply Forall_cons; split); [| |constructor];
      (apply whole_NewData; [vm_compute; lia|apply uintsb_Forall; vm_compute; reflexivity]).
  - exists buf'. etransitivity; [exact H|]. vm_compute. reflexivity.
Defined.

(** C18. Round trip: a message with fields in their ranges and a meter id other
    than zero, sent with its BCH checksum under any preamble, is received as
    exactly that message. *)
Theorem scm_roundtrip (chipLength preamble reserved : Z) (scm : SCM)
  (Hok : scm_ok scm) (Hid : ID scm <> 0)
  (Hcrc : crc_Checksum BCH (take 8 (drop 2 (scm_packet preamble reserved scm))) = Some (ChecksumVal scm)) :
  exists p, Parse (NewParser chipLength) [NewData (scm_packet preamble reserved scm)] [] = Some (p, [SCM_Message scm]).
Proof.
  destruct (scm_packet_spec preamble reserved scm) as [Hl Hb].
  set (b := scm_packet preamble reserved scm) in *.
  destruct (scm_Parse_spec chipLength (make 12 0) [NewData b] []) as (buf' & _ & E).
  - done.
  - apply Forall_cons; split; [|constructor]. by apply whole_NewData; [lia|].
  - eexists. etransitivity; [exact E|]. do 2 f_equal. cbn [map]. rewrite contents_NewData by done.
    cbn [distinct]. rewrite decide_False by set_solver. cbn [omap list_omap app].
    unfold scm_accept. assert (scm_of b = scm) as -> by by apply scm_of_packet.
    destruct (scm_packet_trailer preamble reserved scm Hok) as (h & l & Hh & Hlo & Ec & Et).
    fold b in Et. assert (Forall is_byte (take 8 (drop 2 b))) as H8 by auto with go.
    rewrite BCH_spec in Hcrc by done. apply (inj Some) in Hcrc.
    rewrite Et, bytes_bits_app, crc_ref_app.
    assert (crc_ref 0x6F63 (crc_ref 0x6F63 0 (bytes_bits (take 8 (drop 2 b)))) (bytes_bits [h; l]) =
            Nat.iter 16 (crc_shift 0x6F63) 0) as ->.
    { apply crc_trailer; [by uints|done|apply crc_ref_range; by uints|done..|by uints|].
      rewrite Z.lxor_0_r, Hcrc. exact Ec. }
    change (Nat.iter 16 (crc_shift 0x6F63) 0 =? 0) with true. cbn iota.
    by destruct (Z.eqb_spec (ID scm) 0).
Qed.

Lemma scm_roundtrip_witness :
  exists p, Parse (NewParser 72) [NewData sample_packet] [] = Some (p, [SCM_Message sample]).
Proof.
  apply (scm_roundtrip 72 0x1F2A60 0 sample).
  - constructor; uints; simpl; lia.
  - discriminate.
  - vm_compute. reflexivity.
Defined.
