(* ===== verification/ScmPlus.v ===== *)
(** Standard Consumption Messages Plus (src/scmplus/scmplus.go). *)

From S2P Require Import Prelude Crc Packet Layout.

(** ** The code *)

Record Parser := { crc : CRC; cfg : PacketConfig; data_Bytes : list Z }.

Definition NewParser (chipLength : Z) : Parser :=
  {| crc := NewCRC (str "CCITT") 0xFFFF 0x1021 0x1D0F;
     cfg := parser_config (str "scm+") (str "0001011010100011") 912600155 32768 chipLength 16 (16 * 8);
     data_Bytes := make 16 0 |}.

Record SCM := {
  FrameSync : Z; ProtocolID : Z; EndpointType : Z; EndpointID : Z;
  Consumption : Z; Tamper : Z; PacketCRC : Z }.

(** [binary.Read] into the struct: the fields in order, big endian; with fewer
    than sixteen bytes it is an error that leaves the struct zero. *)
Definition NewSCM (data : Data) : option SCM :=
  let b := Bytes data in
  if len b <? 16 then
    Some {| FrameSync := 0; ProtocolID := 0; EndpointType := 0; EndpointID := 0;
            Consumption := 0; Tamper := 0; PacketCRC := 0 |}
  else
    frameSync ← be 0 2 b; protocolID ← be 2 3 b; endpointType ← be 3 4 b; endpointID ← be 4 8 b;
    consumption ← be 8 12 b; tamper ← be 12 14 b; packetCRC ← be 14 16 b;
    Some {| FrameSync := frameSync; ProtocolID := protocolID; EndpointType := endpointType;
            EndpointID := endpointID; Consumption := consumption; Tamper := tamper; PacketCRC := packetCRC |}.

(** [SCM.Checksum] *)
Definition SCM_Checksum (scm : SCM) : list Z := put_uint16 (PacketCRC scm).

(** [SCM.Record] *)
Definition SCM_Record (scm : SCM) : list (list Z) :=
  [zero_x (FormatUint (FrameSync scm) 16)] ++ [zero_x (FormatUint (ProtocolID scm) 16)] ++
  [zero_x (FormatUint (EndpointType scm) 16)] ++ [FormatUint (EndpointID scm) 10] ++
  [FormatUint (Consumption scm) 10] ++ [zero_x (FormatUint (Tamper scm) 16)] ++
  [zero_x (FormatUint (PacketCRC scm) 16)].

(** [SCM.String] *)
Definition SCM_String (scm : SCM) : list Z :=
  str "{ProtocolID:0x" ++ Hex 2 (ProtocolID scm) ++ str " EndpointType:0x" ++ Hex 2 (EndpointType scm) ++
  str " EndpointID:" ++ Dec 10 (EndpointID scm) ++ str " Consumption:" ++ Dec 10 (Consumption scm) ++
  str " Tamper:0x" ++ Hex 4 (Tamper scm) ++ str " PacketCRC:0x" ++ Hex 4 (PacketCRC scm) ++ str "}".

(** The methods of the [protocol.Message] interface. *)
Definition SCM_Message (scm : SCM) : Message :=
  {| MsgType := str "SCM+"; MeterID := EndpointID scm; MeterType := EndpointType scm;
     MsgChecksum := SCM_Checksum scm; MsgRecord := SCM_Record scm |}.

Definition Parse_step (p : Parser) (st : list Z * gset (list Z) * list Message) (pkt : Data)
  : option (list Z * gset (list Z) * list Message) :=
  let '(buf, seen, messages) := st in
  bits ← slice 0 (PacketSymbols (cfg p)) (Bits pkt);
  let buf := gocopy buf (Bytes pkt) in
  if decide (buf ∈ seen) then Some (buf, seen, messages) else
  let seen := {[buf]} ∪ seen in
  body ← slice 2 (len buf) buf;
  residue ← crc_Checksum (crc p) body;
  if negb (residue =? Residue (crc p)) then Some (buf, seen, messages) else
  scm ← NewSCM {| Idx := Idx pkt; Bits := bits; Bytes := buf |};
  if (EndpointID scm =? 0) || negb (ProtocolID scm =? 0x1E) then Some (buf, seen, messages) else
  Some (buf, seen, messages ++ [SCM_Message scm]).

Definition Parse (p : Parser) (pkts : list Data) (messages : list Message) : option (Parser * list Message) :=
  '(buf, _, messages) ← foldM (Parse_step p) (data_Bytes p, ∅, messages) pkts;
  Some ({| crc := crc p; cfg := cfg p; data_Bytes := buf |}, messages).

(** ** The packets *)

Record scm_ok (scm : SCM) : Prop := {
  ok_sync : is_uint 16 (FrameSync scm); ok_proto : is_byte (ProtocolID scm);
  ok_type : is_byte (EndpointType scm); ok_id : is_uint 32 (EndpointID scm);
  ok_con : is_uint 32 (Consumption scm); ok_tamper : is_uint 16 (Tamper scm); ok_crc : is_uint 16 (PacketCRC scm) }.

Definition scm_fields (scm : SCM) : layout :=
  [(2%nat, FrameSync scm); (1%nat, ProtocolID scm); (1%nat, EndpointType scm); (4%nat, EndpointID scm);
   (4%nat, Consumption scm); (2%nat, Tamper scm); (2%nat, PacketCRC scm)].

Definition scm_packet (scm : SCM) : list Z := lay 8 (scm_fields scm).

(** The meaning of sixteen bytes. *)
Definition scm_of (b : list Z) : SCM :=
  let num lo n := of_bytes (take n (drop lo b)) in
  {| FrameSync := num 0 2; ProtocolID := num 2 1; EndpointType := num 3 1; EndpointID := num 4 4;
     Consumption := num 8 4; Tamper := num 12 2; PacketCRC := num 14 2 |}%nat.

Definition scm_accept (b : list Z) : option Message :=
  if crc_ref 0x1021 0xFFFF (bytes_bits (drop 2 b)) =? 0x1D0F then
    if (EndpointID (scm_of b) =? 0) || negb (ProtocolID (scm_of b) =? 0x1E) then None
    else Some (SCM_Message (scm_of b))
  else None.

Lemma NewSCM_plus_spec b idx bits :
  length b = 16%nat -> NewSCM {| Idx := idx; Bits := bits; Bytes := b |} = Some (scm_of b).
Proof.
  intros Hb. unfold NewSCM. cbn [Bytes]. assert (len b = 16) as Hl by (unfold len; lia).
  rewrite Hl. cbn [Z.ltb Z.compare Pos.compare Pos.compare_cont]. unfold be.
  rewrite !slice_ok by lia. done.
Qed.

Lemma scmp_packet_spec scm :
  length (scm_packet scm) = 16%nat /\ Forall is_byte (scm_packet scm).
Proof. unfold scm_packet. rewrite length_lay. split; [done|by apply lay_Forall]. Qed.

Lemma scmp_of_packet scm : scm_ok scm -> scm_of (scm_packet scm) = scm.
Proof.
  intros [H1 H2 H3 H4 H5 H6 H7]. destruct (scmp_packet_spec scm) as [Hl _].
  pose proof (NewSCM_plus_spec (scm_packet scm) 0 [] Hl) as E. unfold NewSCM in E. cbn [Bytes] in E.
  assert (len (scm_packet scm) = 16) as Hlen by (unfold len; lia).
  rewrite Hlen in E. cbn [Z.ltb Z.compare Pos.compare Pos.compare_cont] in E. unfold scm_packet in E at 1 2 3 4 5 6 7.
  repeat (erewrite be_lay in E; [|lia|reflexivity|done]; cbn [mbind option_bind] in E).
  apply (inj Some) in E. rewrite <- E. by destruct scm.
Qed.

(** ** The parser on whole packets *)

Definition accept (p : Parser) (d : Data) : option (option Message) :=
  body ← slice 2 (len (Bytes d)) (Bytes d); residue ← crc_Checksum (crc p) body;
  if negb (residue =? Residue (crc p)) then Some None else
  scm ← NewSCM d;
  if (EndpointID scm =? 0) || negb (ProtocolID scm =? 0x1E) then Some None else Some (Some (SCM_Message scm)).

Lemma scmp_Parse_step_scan p st pkt :
  Parse_step p st pkt = scan_step (accept p) (fun b => b) (fun d => slice 0 (PacketSymbols (cfg p)) (Bits d)) st pkt.
Proof.
  destruct st as [[bf seen] ms]. unfold Parse_step, scan_step, accept.
  destruct (slice 0 _ (Bits pkt)) as [bits|]; [|done]. cbn [mbind option_bind Bytes].
  destruct (decide _); [done|]. destruct (slice 2 _ _) as [body|]; [|done]. cbn [mbind option_bind].
  destruct (crc_Checksum _ body) as [c|]; [|done]. cbn [mbind option_bind].
  destruct (c =? _); cbn [negb]; [|done]. destruct (NewSCM _) as [scm|]; [|done]. cbn [mbind option_bind].
  by destruct (_ || _).
Qed.

Lemma scmp_accept_spec p b idx bits :
  crc p = CCITT -> length b = 16%nat -> Forall is_byte b ->
  accept p {| Idx := idx; Bits := bits; Bytes := b |} = Some (scm_accept b).
Proof.
  intros Hp Hl Hb. unfold accept. cbn [Bytes]. rewrite slice_ok by (unfold len; lia). cbn [mbind option_bind].
  rewrite take_ge by (rewrite length_drop; unfold len; lia). change (Z.to_nat 2) with 2%nat.
  rewrite Hp, CCITT_spec by by apply Forall_drop. cbn [mbind option_bind]. rewrite NewSCM_plus_spec by done.
  unfold scm_accept. change (Residue CCITT) with 0x1D0F.
  destruct (_ =? 0x1D0F); [|done]. cbn [negb mbind option_bind]. by destruct (_ || _).
Qed.

Definition parser_with (chipLength : Z) (buf : list Z) : Parser :=
  {| crc := crc (NewParser chipLength); cfg := cfg (NewParser chipLength); data_Bytes := buf |}.

Lemma scmp_Parse_spec chipLength buf pkts messages :
  length buf = 16%nat -> Forall (whole 16) pkts ->
  exists buf', length buf' = 16%nat /\
    Parse (parser_with chipLength buf) pkts messages =
    Some (parser_with chipLength buf', messages ++ omap scm_accept (distinct ∅ (map (contents 16) pkts))).
Proof.
  intros Hbuf Hp. set (p := parser_with chipLength buf).
  destruct (scan_spec (accept p) (fun b => b) (fun d => slice 0 (PacketSymbols (cfg p)) (Bits d)) scm_accept 16 buf ∅ messages pkts
    Hbuf (fun _ _ => eq_refl)) as (buf' & seen' & Hb' & E).
  { eapply Forall_impl; [exact Hp|]. intros d Hd. split; [apply Hd|]. eexists. split; [by apply (whole_Bits 16)|].
    apply scmp_accept_spec; [done|by apply contents_length|by apply contents_bytes]. }
  exists buf'. split; [done|]. unfold Parse. change (data_Bytes p) with buf.
  by rewrite (foldM_ext _ _ _ _ (scmp_Parse_step_scan p)), E.
Qed.

(** ** Properties *)

(** On packets that hold at least sixteen bytes and their text, [Parse] never
    panics and appends exactly one message for each distinct packet content that
    leaves the CCITT residue, names protocol 0x1E and has an endpoint id other
    than zero, in order of first occurrence. *)
Theorem scmplus_Parse_appends_accepted (chipLength : Z) (buf : list Z) (pkts : list Data) (messages : list Message)
  (Hbuf : length buf = 16%nat) (Hpkts : Forall (whole 16) pkts) :
  exists buf', length buf' = 16%nat /\
    Parse (parser_with chipLength buf) pkts messages =
    Some (parser_with chipLength buf', messages ++ omap scm_accept (distinct ∅ (map (contents 16) pkts))).
Proof. by apply scmp_Parse_spec. Qed.

Definition sample : SCM :=
  {| FrameSync := 0x16A3; ProtocolID := 0x1E; EndpointType := 0x9C; EndpointID := 70000;
     Consumption := 123456; Tamper := 0x0102; PacketCRC := 43958 |}.

Lemma scmplus_Parse_appends_accepted_witness :
  exists buf', Parse (NewParser 72) [NewData (scm_packet sample); NewData (make 16 0)] [SCM_Message sample] =
    Some (parser_with 72 buf', [SCM_Message sample; SCM_Message sample]).
Proof.
  destruct (scmplus_Parse_appends_accepted 72 (make 16 0) [NewData (scm_packet sample); NewData (make 16 0)]
    [SCM_Message sample]) as (buf' & _ & H).
  - reflexivity.
  - repeat (apply Forall_cons; split); [| |constructor];
      (apply whole_NewData; [vm_compute; lia|apply uintsb_Forall; vm_compute; reflexivity]).
  - exists buf'. etransitivity; [exact H|]. vm_compute. reflexivity.
Defined.

(** C32. Round trip: a message of protocol 0x1E with fields in their ranges and an
    endpoint id other than zero, sent with the complement of the CCITT checksum
    of its bytes after the frame sync, is received as exactly that message. *)
Theorem scmplus_roundtrip (chipLength : Z) (scm : SCM)
  (Hok : scm_ok scm) (Hid : EndpointID scm <> 0) (Hproto : ProtocolID scm = 0x1E)
  (Hcrc : exists c, crc_Checksum CCITT (take 12 (drop 2 (scm_packet scm))) = Some c /\
                    PacketCRC scm = Z.lxor c 0xFFFF) :
  exists p, Parse (NewParser chipLength) [NewData (scm_packet scm)] [] = Some (p, [SCM_Message scm]).
Proof.
  destruct (scmp_packet_spec scm) as [Hl Hb]. set (b := scm_packet scm) in *.
  destruct (scmp_Parse_spec chipLength (make 16 0) [NewData b] []) as (buf' & _ & E).
  - done.
  - apply Forall_cons; split; [|constructor]. by apply whole_NewData; [lia|].
  - eexists. etransitivity; [exact E|]. do 2 f_equal. cbn [map]. rewrite contents_NewData by done.
    cbn [distinct]. rewrite decide_False by set_solver. cbn [omap list_omap app].
    unfold scm_accept. assert (scm_of b = scm) as -> by by apply scmp_of_packet.
    assert (drop 2 b = take 12 (drop 2 b) ++ to_bytes 2 (PacketCRC scm)) as -> by done.
    rewrite CCITT_complement; [|by auto with go|apply Hok|done].
    change (0x1D0F =? 0x1D0F) with true. cbn iota. rewrite Hproto. by destruct (Z.eqb_spec (EndpointID scm) 0).
Qed.

Lemma scmplus_roundtrip_witness :
  exists p, Parse (NewParser 72) [NewData (scm_packet sample)] [] = Some (p, [SCM_Message sample]).
Proof.
  apply (scmplus_roundtrip 72 sample).
  - constructor; uints; simpl; lia.
  - discriminate.
  - reflexivity.
  - eexists. split; [vm_compute; reflexivity|reflexivity].
Defined.
