(* ===== verification/Idm.v ===== *)
(** Interval Data Messages (src/idm/idm.go): the parser, which looks at packet
    bytes only, and the decoding of the nine-bit consumption intervals. *)

From S2P Require Import Prelude Crc Packet Layout.

(** ** The code *)

Record Parser := { crc : CRC; cfg : PacketConfig; data_Bits : list Z; data_Bytes : list Z }.

Definition NewParser (chipLength : Z) : Parser :=
  {| crc := NewCRC (str "CCITT") 0xFFFF 0x1021 0x1D0F;
     cfg := parser_config (str "idm") (str "01010101010101010001011010100011") 912600155 32768 chipLength 32 (92 * 8);
     data_Bits := []; data_Bytes := make 92 0 |}.

Definition Power16Compatible (p : Parser) : bool := true.
Definition PacketBytesOnly (p : Parser) : bool := true.

(** [decodeIntervals]: the inner loop fetches bytes until nine bits are
    available.  At most eight bits are left over, so two rounds are enough. *)
Fixpoint fetch (fuel : nat) (data : list Z) (bits available byteIndex : Z) : option (Z * Z * Z) :=
  if available <? 9 then
    match fuel with
    | O => None
    | S fuel =>
        b ← index data byteIndex;
        fetch fuel data (Z.lor (u32 (Z.shiftl bits 8)) b) (available + 8) (byteIndex + 1)
    end
  else Some (bits, available, byteIndex).

Definition decode_step (data : list Z) (st : Z * Z * Z * list Z) (idx : Z) : option (Z * Z * Z * list Z) :=
  let '(bits, available, byteIndex, intervals) := st in
  '(bits, available, byteIndex) ← fetch 2 data bits available byteIndex;
  let available := available - 9 in
  intervals ← store intervals idx (Z.land (u16 (Z.shiftr bits available)) 0x01ff);
  let bits := if available =? 0 then 0 else Z.land bits (u32 (u32 (Z.shiftl 1 available) - 1)) in
  Some (bits, available, byteIndex, intervals).

Definition decodeIntervals (data : list Z) : option (list Z) :=
  '(_, _, _, intervals) ← foldM (decode_step data) (0, 0, 0, make 47 0) (seqZ 0 47);
  Some intervals.

Record IDM := {
  Preamble : Z; PacketTypeID : Z; PacketLength : Z; HammingCode : Z; ApplicationVersion : Z; ERTType : Z;
  ERTSerialNumber : Z; ConsumptionIntervalCount : Z; ModuleProgrammingState : Z; TamperCounters : list Z;
  AsynchronousCounters : Z; PowerOutageFlags : list Z; LastConsumptionCount : Z;
  DifferentialConsumptionIntervals : list Z; TransmitTimeOffset : Z; SerialNumberCRC : Z; PacketCRC : Z }.

Definition NewIDM (data : Data) : option IDM :=
  let b := Bytes data in
  preamble ← be 0 4 b;
  packetTypeID ← index b 4;
  packetLength ← index b 5;
  hammingCode ← index b 6;
  applicationVersion ← index b 7;
  b8 ← index b 8;
  ertSerialNumber ← be 9 13 b;
  consumptionIntervalCount ← index b 13;
  moduleProgrammingState ← index b 14;
  tamperCounters ← slice 15 21 b;
  asynchronousCounters ← be 21 23 b;
  powerOutageFlags ← slice 23 29 b;
  lastConsumptionCount ← be 29 33 b;
  intervals ← (if decide (Bits data = []) then
                 d ← slice 33 86 b; decodeIntervals d
               else
                 '(_, intervals) ← foldM (interval_step 9 (Bits data)) (264, make 47 0) (seqZ 0 47);
                 Some intervals);
  transmitTimeOffset ← be 86 88 b;
  serialNumberCRC ← be 88 90 b;
  packetCRC ← be 90 92 b;
  Some {| Preamble := preamble; PacketTypeID := packetTypeID; PacketLength := packetLength;
          HammingCode := hammingCode; ApplicationVersion := applicationVersion; ERTType := Z.land b8 0x0F;
          ERTSerialNumber := ertSerialNumber; ConsumptionIntervalCount := consumptionIntervalCount;
          ModuleProgrammingState := moduleProgrammingState; TamperCounters := tamperCounters;
          AsynchronousCounters := asynchronousCounters; PowerOutageFlags := powerOutageFlags;
          LastConsumptionCount := lastConsumptionCount; DifferentialConsumptionIntervals := intervals;
          TransmitTimeOffset := transmitTimeOffset; SerialNumberCRC := serialNumberCRC; PacketCRC := packetCRC |}.

(** [Interval.Record] *)
Definition Interval_Record (interval : list Z) : list (list Z) := map (fun v => FormatUint v 10) interval.

(** [IDM.Checksum] *)
Definition IDM_Checksum (idm : IDM) : list Z := put_uint16 (PacketCRC idm).

(** [IDM.String] *)
Definition IDM_String (idm : IDM) : list Z :=
  let fields :=
    [str "Preamble:0x" ++ Hex 8 (Preamble idm); str "PacketTypeID:0x" ++ Hex 2 (PacketTypeID idm);
     str "PacketLength:0x" ++ Hex 2 (PacketLength idm); str "HammingCode:0x" ++ Hex 2 (HammingCode idm);
     str "ApplicationVersion:0x" ++ Hex 2 (ApplicationVersion idm); str "ERTType:0x" ++ Hex 2 (ERTType idm);
     str "ERTSerialNumber:" ++ DecSpace 10 (ERTSerialNumber idm);
     str "ConsumptionIntervalCount:" ++ FormatUint (ConsumptionIntervalCount idm) 10;
     str "ModuleProgrammingState:0x" ++ Hex 2 (ModuleProgrammingState idm);
     str "TamperCounters:" ++ HexBytes (TamperCounters idm);
     str "AsynchronousCounters:0x" ++ Hex 2 (AsynchronousCounters idm);
     str "PowerOutageFlags:" ++ HexBytes (PowerOutageFlags idm);
     str "LastConsumptionCount:" ++ FormatUint (LastConsumptionCount idm) 10;
     str "DifferentialConsumptionIntervals:" ++ DecArray (DifferentialConsumptionIntervals idm);
     str "TransmitTimeOffset:" ++ FormatUint (TransmitTimeOffset idm) 10;
     str "SerialNumberCRC:0x" ++ Hex 4 (SerialNumberCRC idm); str "PacketCRC:0x" ++ Hex 4 (PacketCRC idm)] in
  str "{" ++ Join fields (str " ") ++ str "}".

(** [IDM.Record] *)
Definition IDM_Record (idm : IDM) : list (list Z) :=
  [zero_x (Hex 8 (Preamble idm))] ++ [zero_x (Hex 2 (PacketTypeID idm))] ++
  [zero_x (Hex 2 (PacketLength idm))] ++ [zero_x (Hex 2 (HammingCode idm))] ++
  [zero_x (Hex 2 (ApplicationVersion idm))] ++ [zero_x (Hex 2 (ERTType idm))] ++
  [FormatUint (ERTSerialNumber idm) 10] ++ [FormatUint (ConsumptionIntervalCount idm) 10] ++
  [zero_x (Hex 2 (ModuleProgrammingState idm))] ++ [HexBytes (TamperCounters idm)] ++
  [zero_x (Hex 2 (AsynchronousCounters idm))] ++ [HexBytes (PowerOutageFlags idm)] ++
  [FormatUint (LastConsumptionCount idm) 10] ++ Interval_Record (DifferentialConsumptionIntervals idm) ++
  [FormatUint (TransmitTimeOffset idm) 10] ++ [zero_x (Hex 4 (SerialNumberCRC idm))] ++
  [zero_x (Hex 4 (PacketCRC idm))].

(** The methods of the [protocol.Message] interface. *)
Definition IDM_Message (idm : IDM) : Message :=
  {| MsgType := str "IDM"; MeterID := ERTSerialNumber idm; MeterType := ERTType idm;
     MsgChecksum := IDM_Checksum idm; MsgRecord := IDM_Record idm |}.

(** The loop of [Parse]: the [seen] map of the parser is emptied first. *)
Definition Parse_step (p : Parser) (st : list Z * gset (list Z) * list Message) (pkt : Data)
  : option (list Z * gset (list Z) * list Message) :=
  let '(buf, seen, messages) := st in
  let buf := gocopy buf (Bytes pkt) in
  let packet := gocopy (make 92 0) buf in
  if decide (packet ∈ seen) then Some (buf, seen, messages) else
  let seen := {[packet]} ∪ seen in
  body ← slice 4 92 buf;
  residue ← crc_Checksum (crc p) body;
  if negb (residue =? Residue (crc p)) then Some (buf, seen, messages) else
  s1 ← slice 9 13 buf;
  s2 ← slice 88 90 buf;
  let serial := gocopy (make 6 0) s1 in
  let serial := take 4 serial ++ gocopy (drop 4 serial) s2 in
  residue ← crc_Checksum (crc p) serial;
  if negb (residue =? Residue (crc p)) then Some (buf, seen, messages) else
  idm ← NewIDM {| Idx := Idx pkt; Bits := data_Bits p; Bytes := buf |};
  if ERTSerialNumber idm =? 0 then Some (buf, seen, messages) else
  Some (buf, seen, messages ++ [IDM_Message idm]).

Definition Parse (p : Parser) (pkts : list Data) (messages : list Message) : option (Parser * list Message) :=
  '(buf, _, messages) ← foldM (Parse_step p) (data_Bytes p, ∅, messages) pkts;
  Some ({| crc := crc p; cfg := cfg p; data_Bits := data_Bits p; data_Bytes := buf |}, messages).

(** ** The intervals *)

(** The reference: the nine-bit groups of the bit string. *)
Abbreviation nine_bits := (group 9).
Definition intervals_of (data : list Z) : list Z := groups 9 47 (bytes_bits data).

(** Appending a byte to a bit window. *)
Lemma of_bits_app_byte bs b : is_byte b -> of_bits (bs ++ byte_bits b) = of_bits bs * 256 + b.
Proof.
  intros Hb. unfold of_bits at 1. rewrite of_digits_app by lia. fold (of_bits bs).
  change (of_digits 1 (byte_bits b)) with (of_bits (byte_bits b)). by rewrite of_bits_byte.
Qed.

Lemma fetch_window data lo k b :
  Forall is_byte data -> (8 * k <= lo + 8)%nat -> (lo <= 8 * k)%nat -> data !! k = Some b ->
  take (8 * S k - lo) (drop lo (bytes_bits data)) = take (8 * k - lo) (drop lo (bytes_bits data)) ++ byte_bits b.
Proof.
  intros Hd H1 H2 Hk.
  assert (take 8 (drop (8 * k) (bytes_bits data)) = byte_bits b) as Hb.
  { rewrite <- bytes_bits_drop. rewrite (drop_S _ _ _ Hk). unfold bytes_bits. cbn [map concat].
    change 8%nat with (length (byte_bits b)). apply take_app_length. }
  replace (8 * S k - lo)%nat with ((8 * k - lo) + 8)%nat by lia.
  rewrite <- Hb, <- (take_take_drop (drop lo (bytes_bits data))), drop_drop.
  by replace (lo + (8 * k - lo))%nat with (8 * k)%nat by lia.
Qed.

(** The bits of byte [k] and before that interval [i] and later still need. *)
Definition window (data : list Z) (i k : nat) : list Z := take (8 * k - 9 * i) (drop (9 * i) (bytes_bits data)).

Lemma window_bits data i k : Forall is_bit (window data i k).
Proof. unfold window. auto with go. Qed.

Lemma window_len data i k :
  (9 * i <= 8 * k)%nat -> (k <= length data)%nat -> len (window data i k) = 8 * Z.of_nat k - 9 * Z.of_nat i.
Proof.
  intros H1 H2. pose proof (len_bytes_bits data). unfold window, len in *. rewrite length_take, length_drop. lia.
Qed.

Lemma window_range data i k n :
  (8 * k <= 9 * i + n)%nat -> (9 * i <= 8 * k)%nat -> (k <= length data)%nat ->
  0 <= of_bits (window data i k) < 2 ^ Z.of_nat n.
Proof.
  intros H1 H2 H3. pose proof (of_digits_range 1 _ ltac:(lia) (window_bits data i k)) as [R1 R2].
  split; [exact R1|]. eapply Z.lt_le_trans; [exact R2|]. apply Z.pow_le_mono_r; [lia|].
  rewrite window_len by done. lia.
Qed.

Section Decode.
Context (data : list Z) (Hd : Forall is_byte data) (Hlen : length data = 53%nat).

Lemma fetch_one fuel i k :
  (i < 47)%nat -> (9 * i <= 8 * k)%nat -> (8 * k <= 9 * i + 8)%nat ->
  fetch (S fuel) data (of_bits (window data i k)) (8 * Z.of_nat k - 9 * Z.of_nat i) (Z.of_nat k) =
  fetch fuel data (of_bits (window data i (S k))) (8 * Z.of_nat (S k) - 9 * Z.of_nat i) (Z.of_nat (S k)).
Proof using Hd Hlen.
  intros Hi H1 H2. cbn [fetch]. destruct (Z.ltb_spec (8 * Z.of_nat k - 9 * Z.of_nat i) 9); [|lia].
  destruct (lookup_lt_is_Some_2 data k) as [b Hb]; [lia|]. rewrite index_nat, Hb. cbn [mbind option_bind].
  assert (is_byte b) as Hbb by (by eapply Forall_lookup_1).
  pose proof (window_range data i k 8 H2 H1 ltac:(lia)) as R. change (Z.of_nat 8) with 8 in R.
  unfold u32. rewrite wrap_u_id by (rewrite Z.shiftl_mul_pow2 by lia; uints; lia).
  rewrite lor_disjoint_add by (done || lia).
  replace (of_bits (window data i (S k))) with (of_bits (window data i k) * 2 ^ 8 + b).
  - f_equal; lia.
  - unfold window at 2. rewrite (fetch_window data (9 * i) k b) by (done || lia). by rewrite of_bits_app_byte.
Qed.

(** The fetch loop ends with at least nine bits, at most seven of them spare. *)
Lemma fetch_spec i k :
  (i < 47)%nat -> (9 * i <= 8 * k)%nat -> (8 * k <= 9 * i + 8)%nat ->
  exists k', (9 * i + 9 <= 8 * k')%nat /\ (8 * k' <= 9 * i + 17)%nat /\ (k' <= 53)%nat /\
    fetch 2 data (of_bits (window data i k)) (8 * Z.of_nat k - 9 * Z.of_nat i) (Z.of_nat k) =
    Some (of_bits (window data i k'), 8 * Z.of_nat k' - 9 * Z.of_nat i, Z.of_nat k').
Proof using Hd Hlen.
  intros Hi H1 H2. rewrite fetch_one by done.
  destruct (Nat.le_gt_cases (9 * i + 9) (8 * S k)) as [Hge|Hlt].
  - exists (S k). split; [done|]. split; [lia|]. split; [lia|]. cbn [fetch].
    destruct (Z.ltb_spec (8 * Z.of_nat (S k) - 9 * Z.of_nat i) 9); [lia|done].
  - exists (S (S k)). split; [lia|]. split; [lia|]. split; [lia|]. rewrite fetch_one by lia. cbn [fetch].
    destruct (Z.ltb_spec (8 * Z.of_nat (S (S k)) - 9 * Z.of_nat i) 9); [lia|done].
Qed.

(** Nine bits leave the window at the top. *)
Lemma window_split i k :
  (9 * i + 9 <= 8 * k)%nat -> (k <= 53)%nat ->
  of_bits (window data i k) =
  nine_bits (bytes_bits data) i * 2 ^ (8 * Z.of_nat k - 9 * Z.of_nat i - 9) + of_bits (window data (S i) k).
Proof using Hlen.
  intros H1 H2. assert (window data i k = take 9 (drop (9 * i) (bytes_bits data)) ++ window data (S i) k) as ->.
  { unfold window. replace (8 * k - 9 * i)%nat with (9 + (8 * k - 9 * S i))%nat by lia.
    rewrite <- take_take_drop, drop_drop. do 3 f_equal. lia. }
  unfold of_bits at 1. rewrite of_digits_app by lia. rewrite window_len by lia.
  unfold group, of_bits. do 3 f_equal. lia.
Qed.

Lemma decode_step_spec i k :
  (i < 47)%nat -> (9 * i <= 8 * k)%nat -> (8 * k <= 9 * i + 8)%nat ->
  exists k', (9 * S i <= 8 * k')%nat /\ (8 * k' <= 9 * S i + 8)%nat /\
    decode_step data (of_bits (window data i k), 8 * Z.of_nat k - 9 * Z.of_nat i, Z.of_nat k,
                      map (nine_bits (bytes_bits data)) (seq 0 i) ++ replicate (47 - i) 0) (Z.of_nat i) =
    Some (of_bits (window data (S i) k'), 8 * Z.of_nat k' - 9 * Z.of_nat (S i), Z.of_nat k',
          map (nine_bits (bytes_bits data)) (seq 0 (S i)) ++ replicate (47 - S i) 0).
Proof using Hd Hlen.
  intros Hi H1 H2. destruct (fetch_spec i k Hi H1 H2) as (k' & K1 & K2 & K3 & E).
  exists k'. split; [lia|]. split; [lia|]. unfold decode_step. rewrite E. cbn [mbind option_bind].
  rewrite (window_split i k' K1 K3). set (av := 8 * Z.of_nat k' - 9 * Z.of_nat i - 9).
  assert (0 <= av <= 8) as Hav by lia.
  pose proof (window_range data (S i) k' (Z.to_nat av) ltac:(lia) ltac:(lia) ltac:(lia)) as Rw.
  rewrite Z2Nat.id in Rw by lia. set (w := of_bits (window data (S i) k')) in *.
  assert (0 <= nine_bits (bytes_bits data) i < 2 ^ 9) as Rn.
  { apply (group_range 9). auto with go. }
  set (v := nine_bits (bytes_bits data) i) in *.
  assert (0 < 2 ^ av) by (apply Z.pow_pos_nonneg; lia).
  rewrite Z.shiftr_div_pow2, Z.div_add_l, Z.div_small, Z.add_0_r by lia.
  unfold u16. rewrite (wrap_u_id 16 v) by (uints; lia).
  change 0x1ff with (Z.ones 9). rewrite Z.land_ones, (Z.mod_small v) by lia.
  rewrite store_next by (rewrite ?length_map, ?length_seq; unfold len; rewrite ?length_map, ?length_seq; lia).
  cbn [mbind option_bind]. rewrite seq_S, map_app. cbn [map Nat.add].
  replace (pred (47 - i)) with (47 - S i)%nat by lia.
  assert (2 ^ av <= 2 ^ 8) as Hp by (apply Z.pow_le_mono_r; lia).
  rewrite Z.shiftl_1_l. unfold u32. rewrite (wrap_u_id 32 (2 ^ av)), wrap_u_id by (uints; lia).
  replace (2 ^ av - 1) with (Z.ones av) by (rewrite Z.ones_equiv; lia). rewrite Z.land_ones by lia.
  rewrite Z.add_comm, Z.mod_add, (Z.mod_small w) by lia.
  replace (8 * Z.of_nat k' - 9 * Z.of_nat (S i)) with av by lia.
  destruct (Z.eqb_spec av 0) as [E0|]; [|done]. rewrite E0 in Rw. change (2 ^ 0) with 1 in Rw.
  by replace w with 0 by lia.
Qed.

Lemma decode_loop n i k :
  (i + n = 47)%nat -> (9 * i <= 8 * k)%nat -> (8 * k <= 9 * i + 8)%nat ->
  exists b a k', foldM (decode_step data)
    (of_bits (window data i k), 8 * Z.of_nat k - 9 * Z.of_nat i, Z.of_nat k,
     map (nine_bits (bytes_bits data)) (seq 0 i) ++ replicate (47 - i) 0) (map Z.of_nat (seq i n)) =
    Some (b, a, k', intervals_of data).
Proof using Hd Hlen.
  revert i k. induction n as [|n IH]; intros i k Hn H1 H2.
  { replace i with 47%nat by lia. do 3 eexists. cbn [seq map foldM]. by rewrite app_nil_r. }
  cbn [seq map foldM]. destruct (decode_step_spec i k) as (k' & K1 & K2 & ->); [lia..|].
  apply IH; lia.
Qed.

Lemma decodeIntervals_spec : decodeIntervals data = Some (intervals_of data).
Proof using Hd Hlen.
  unfold decodeIntervals. change (seqZ 0 47) with (map Z.of_nat (seq 0 47)).
  destruct (decode_loop 47 0 0) as (b & a & k & E); [lia..|].
  change (foldM (decode_step data) (0, 0, 0, make 47 0) (map Z.of_nat (seq 0 47)) = Some (b, a, k, intervals_of data)) in E.
  by rewrite E.
Qed.
End Decode.

(** ** The packets *)

(** The meaning of ninety-two bytes. *)
Definition idm_of (b : list Z) : IDM :=
  let bytes lo n := take n (drop lo b) in
  let num lo n := of_bytes (bytes lo n) in
  {| Preamble := num 0 4; PacketTypeID := num 4 1; PacketLength := num 5 1; HammingCode := num 6 1;
     ApplicationVersion := num 7 1; ERTType := num 8 1 mod 16; ERTSerialNumber := num 9 4;
     ConsumptionIntervalCount := num 13 1; ModuleProgrammingState := num 14 1; TamperCounters := bytes 15 6;
     AsynchronousCounters := num 21 2; PowerOutageFlags := bytes 23 6; LastConsumptionCount := num 29 4;
     DifferentialConsumptionIntervals := intervals_of (bytes 33 53);
     TransmitTimeOffset := num 86 2; SerialNumberCRC := num 88 2; PacketCRC := num 90 2 |}%nat.

(** The two checks of [Parse] and the id. *)
Definition idm_accept (b : list Z) : option Message :=
  if (crc_ref 0x1021 0xFFFF (bytes_bits (drop 4 b)) =? 0x1D0F) &&
     (crc_ref 0x1021 0xFFFF (bytes_bits (take 4 (drop 9 b) ++ take 2 (drop 88 b))) =? 0x1D0F)
  then if ERTSerialNumber (idm_of b) =? 0 then None else Some (IDM_Message (idm_of b))
  else None.

(** Both branches of the interval decoding read the same groups, so [NewIDM]
    gives the same message with and without the packet's text. *)
Lemma NewIDM_spec b idx bits :
  length b = 92%nat -> Forall is_byte b -> bits = [] \/ bits = bit_chars (bytes_bits b) ->
  NewIDM {| Idx := idx; Bits := bits; Bytes := b |} = Some (idm_of b).
Proof.
  intros Hl Hb Hbits. assert (len b = 92) as Hlen by (unfold len; lia).
  assert ((if decide (bits = []) then d ← slice 33 86 b; decodeIntervals d
           else '(_, intervals) ← foldM (interval_step 9 bits) (264, make 47 0) (seqZ 0 47); Some intervals) =
          Some (intervals_of (take 53 (drop 33 b)))) as Hint.
  { destruct (decide (bits = [])) as [E|E].
    - rewrite slice_ok by lia. cbn [mbind option_bind]. apply decodeIntervals_spec; [auto with go|].
      rewrite length_take, length_drop. lia.
    - destruct Hbits as [?| ->]; [done|].
      pose proof (interval_fold 9 264 (bytes_bits b) 47 ltac:(auto with go) ltac:(lia)) as F.
      pose proof (len_bytes_bits b) as Hbl. unfold len in Hbl.
      change (Z.of_nat 9) with 9 in F. change (Z.of_nat 264) with 264 in F. change (Z.of_nat 47) with 47 in F.
      rewrite F by lia. cbn [mbind option_bind]. unfold intervals_of. f_equal.
      rewrite bytes_bits_take, bytes_bits_drop. by rewrite groups_take by lia. }
  unfold NewIDM. cbn [Bytes Bits]. rewrite Hint. unfold be. rewrite !slice_ok by lia.
  rewrite !index_of_bytes by lia.
  cbn [mbind option_bind]. change 0x0F with (Z.ones 4).
  rewrite Z.land_ones by lia. done.
Qed.

Record idm_ok (idm : IDM) : Prop := {
  ok_pre : is_uint 32 (Preamble idm); ok_ptid : is_byte (PacketTypeID idm); ok_plen : is_byte (PacketLength idm);
  ok_ham : is_byte (HammingCode idm); ok_app : is_byte (ApplicationVersion idm); ok_ert : is_uint 4 (ERTType idm);
  ok_ser : is_uint 32 (ERTSerialNumber idm); ok_cic : is_byte (ConsumptionIntervalCount idm);
  ok_mps : is_byte (ModuleProgrammingState idm);
  ok_tc : Forall is_byte (TamperCounters idm) /\ length (TamperCounters idm) = 6%nat;
  ok_async : is_uint 16 (AsynchronousCounters idm);
  ok_pof : Forall is_byte (PowerOutageFlags idm) /\ length (PowerOutageFlags idm) = 6%nat;
  ok_lcc : is_uint 32 (LastConsumptionCount idm);
  ok_int : Forall (is_uint 9) (DifferentialConsumptionIntervals idm) /\
           length (DifferentialConsumptionIntervals idm) = 47%nat;
  ok_tto : is_uint 16 (TransmitTimeOffset idm); ok_scrc : is_uint 16 (SerialNumberCRC idm);
  ok_pcrc : is_uint 16 (PacketCRC idm) }.

(** The fields in transmission order; [hi] fills the unused half of the type
    byte and [spare] the bit after the intervals. *)
Definition interval_bits (idm : IDM) (spare : Z) : list Z :=
  concat (map (to_bits 9) (DifferentialConsumptionIntervals idm)) ++ [spare].

Definition idm_fields (hi spare : Z) (idm : IDM) : layout :=
  [(4%nat, Preamble idm); (1%nat, PacketTypeID idm); (1%nat, PacketLength idm); (1%nat, HammingCode idm);
   (1%nat, ApplicationVersion idm); (1%nat, hi * 16 + ERTType idm); (4%nat, ERTSerialNumber idm);
   (1%nat, ConsumptionIntervalCount idm); (1%nat, ModuleProgrammingState idm); (6%nat, of_bytes (TamperCounters idm));
   (2%nat, AsynchronousCounters idm); (6%nat, of_bytes (PowerOutageFlags idm)); (4%nat, LastConsumptionCount idm);
   (53%nat, of_bits (interval_bits idm spare)); (2%nat, TransmitTimeOffset idm); (2%nat, SerialNumberCRC idm);
   (2%nat, PacketCRC idm)].

Definition idm_packet (hi spare : Z) (idm : IDM) : list Z := lay 8 (idm_fields hi spare idm).

Lemma idm_packet_spec hi spare idm :
  length (idm_packet hi spare idm) = 92%nat /\ Forall is_byte (idm_packet hi spare idm).
Proof. unfold idm_packet. rewrite length_lay. split; [done|by apply lay_Forall]. Qed.

Lemma intervals_of_packet spare idm :
  idm_ok idm -> is_bit spare ->
  intervals_of (to_bytes 53 (of_bits (interval_bits idm spare))) = DifferentialConsumptionIntervals idm.
Proof.
  intros Hok Hs. destruct (ok_int _ Hok) as [Hi Hl].
  assert (length (interval_bits idm spare) = 424%nat) as Hlen
    by (unfold interval_bits; rewrite length_app, length_concat_bits, Hl; done).
  assert (Forall is_bit (interval_bits idm spare)) as Hb
    by (apply Forall_app; split; [apply concat_bits_Forall|by constructor]).
  pose proof (bytes_bits_pack _ Hb ltac:(by rewrite Hlen)) as E. unfold pack in E. rewrite Hlen in E.
  change (424 / 8)%nat with 53%nat in E. unfold intervals_of. rewrite E. unfold interval_bits.
  rewrite <- Hl. by apply groups_concat.
Qed.

Lemma idm_of_packet hi spare idm :
  idm_ok idm -> is_uint 4 hi -> is_bit spare -> idm_of (idm_packet hi spare idm) = idm.
Proof.
  intros Hok Hh Hs. unfold idm_of, idm_packet. set (l := idm_fields hi spare idm).
  pose proof (fun lo n v => num_lay lo n l v) as N. pose proof (fun lo n v => cut_lay lo n l v) as C.
  rewrite (N 0%nat 4%nat _ eq_refl (ok_pre _ Hok)), (N 4%nat 1%nat _ eq_refl (ok_ptid _ Hok)),
    (N 5%nat 1%nat _ eq_refl (ok_plen _ Hok)), (N 6%nat 1%nat _ eq_refl (ok_ham _ Hok)),
    (N 7%nat 1%nat _ eq_refl (ok_app _ Hok)), (N 9%nat 4%nat _ eq_refl (ok_ser _ Hok)),
    (N 13%nat 1%nat _ eq_refl (ok_cic _ Hok)), (N 14%nat 1%nat _ eq_refl (ok_mps _ Hok)),
    (N 21%nat 2%nat _ eq_refl (ok_async _ Hok)), (N 29%nat 4%nat _ eq_refl (ok_lcc _ Hok)),
    (N 86%nat 2%nat _ eq_refl (ok_tto _ Hok)), (N 88%nat 2%nat _ eq_refl (ok_scrc _ Hok)),
    (N 90%nat 2%nat _ eq_refl (ok_pcrc _ Hok)), (C 15%nat 6%nat _ eq_refl), (C 23%nat 6%nat _ eq_refl),
    (C 33%nat 53%nat _ eq_refl), intervals_of_packet by done.
  pose proof (ok_ert _ Hok) as He. rewrite (N 8%nat 1%nat _ eq_refl) by (uints; lia).
  rewrite Z.add_comm, Z.mod_add, Z.mod_small by (uints; lia).
  destruct (ok_tc _ Hok) as [T1 T2], (ok_pof _ Hok) as [P1 P2]. unfold to_bytes, of_bytes.
  rewrite <- T2 at 1. rewrite <- P2 at 1. rewrite !to_of_digits by done. by destruct idm.
Qed.

(** ** The parser on whole packets *)

Definition accept (p : Parser) (d : Data) : option (option Message) :=
  body ← slice 4 92 (Bytes d); residue ← crc_Checksum (crc p) body;
  if negb (residue =? Residue (crc p)) then Some None else
  s1 ← slice 9 13 (Bytes d); s2 ← slice 88 90 (Bytes d);
  let serial := gocopy (make 6 0) s1 in
  residue ← crc_Checksum (crc p) (take 4 serial ++ gocopy (drop 4 serial) s2);
  if negb (residue =? Residue (crc p)) then Some None else
  idm ← NewIDM d; if ERTSerialNumber idm =? 0 then Some None else Some (Some (IDM_Message idm)).

Lemma idm_Parse_step_scan p st pkt :
  Parse_step p st pkt = scan_step (accept p) (gocopy (make 92 0)) (fun d => Some (data_Bits p)) st pkt.
Proof.
  destruct st as [[bf seen] ms]. unfold Parse_step, scan_step, accept. cbn [mbind option_bind Bytes].
  destruct (decide _); [done|]. destruct (slice 4 _ _) as [body|]; [|done]. cbn [mbind option_bind].
  destruct (crc_Checksum _ body) as [c|]; [|done]. cbn [mbind option_bind].
  destruct (c =? _); cbn [negb]; [|done].
  destruct (slice 9 _ _) as [s1|]; [|done]. cbn [mbind option_bind].
  destruct (slice 88 _ _) as [s2|]; [|done]. cbn [mbind option_bind].
  destruct (crc_Checksum _ (_ ++ _)) as [c'|]; [|done]. cbn [mbind option_bind].
  destruct (c' =? _); cbn [negb]; [|done]. destruct (NewIDM _) as [idm|]; [|done]. cbn [mbind option_bind].
  by destruct (_ =? 0).
Qed.

Lemma idm_accept_spec p b idx bits :
  crc p = CCITT -> length b = 92%nat -> Forall is_byte b -> bits = [] \/ bits = bit_chars (bytes_bits b) ->
  accept p {| Idx := idx; Bits := bits; Bytes := b |} = Some (idm_accept b).
Proof.
  intros Hp Hl Hb Hbits. unfold accept. cbn [Bytes]. rewrite !slice_ok by (unfold len; lia). cbn [mbind option_bind].
  change (Z.to_nat 4) with 4%nat. change (Z.to_nat (92 - 4)) with 88%nat.
  rewrite (take_ge (drop 4 b)) by (rewrite length_drop; lia). rewrite Hp, (CCITT_spec (drop 4 b)) by by apply Forall_drop. cbn [mbind option_bind].
  change (Z.to_nat (13 - 9)) with 4%nat. change (Z.to_nat (90 - 88)) with 2%nat.
  change (Z.to_nat 9) with 9%nat. change (Z.to_nat 88) with 88%nat.
  rewrite serial_eq by (rewrite length_take, length_drop; lia).
  rewrite CCITT_spec by (apply Forall_app; auto with go). cbn [mbind option_bind].
  rewrite NewIDM_spec by done. unfold idm_accept. change (Residue CCITT) with 0x1D0F.
  destruct (_ =? 0x1D0F); [|done]. cbn [negb andb mbind option_bind].
  destruct (_ =? 0x1D0F); [|done]. cbn [negb mbind option_bind]. by destruct (_ =? 0).
Qed.

Definition parser_with (chipLength : Z) (buf : list Z) : Parser :=
  {| crc := crc (NewParser chipLength); cfg := cfg (NewParser chipLength); data_Bits := []; data_Bytes := buf |}.

(** The parser needs the packet bytes only. *)
Definition whole_bytes (n : nat) (d : Data) : Prop := (n <= length (Bytes d))%nat /\ Forall is_byte (Bytes d).

Lemma idm_Parse_spec chipLength buf pkts messages :
  length buf = 92%nat -> Forall (whole_bytes 92) pkts ->
  exists buf', length buf' = 92%nat /\
    Parse (parser_with chipLength buf) pkts messages =
    Some (parser_with chipLength buf', messages ++ omap idm_accept (distinct ∅ (map (contents 92) pkts))).
Proof.
  intros Hbuf Hp. set (p := parser_with chipLength buf).
  destruct (scan_spec (accept p) (gocopy (make 92 0)) (fun d => Some (data_Bits p)) idm_accept 92 buf ∅ messages pkts
    Hbuf) as (buf' & seen' & Hb' & E).
  { intros b Hb. by apply gocopy_eq. }
  { eapply Forall_impl; [exact Hp|]. intros d [Hn Hd]. split; [done|]. eexists. split; [done|].
    apply idm_accept_spec; [done| |by apply Forall_take|by left]. unfold contents. rewrite length_take. lia. }
  exists buf'. split; [done|]. unfold Parse. change (data_Bytes p) with buf.
  by rewrite (foldM_ext _ _ _ _ (idm_Parse_step_scan p)), E.
Qed.

(** ** Properties *)

(** The interval decoder that reads packet bytes and the one that reads the
    packet text agree: on every 92-byte packet [NewIDM] returns, with and without
    the text, the same message, whose intervals are the 47 consecutive nine-bit
    groups of bytes 33 to 85. *)
Theorem NewIDM_text_free (b : list Z) (Hlen : length b = 92%nat) (Hb : Forall is_byte b) :
  NewIDM (newData b false) = NewIDM (newData b true) /\
  exists idm, NewIDM (newData b true) = Some idm /\
    DifferentialConsumptionIntervals idm = groups 9 47 (bytes_bits (take 53 (drop 33 b))).
Proof.
  assert (forall t, newData b t = {| Idx := 0; Bits := if t then bit_chars (bytes_bits b) else []; Bytes := b |}) as E.
  { intros t. pose proof (newData_Bytes b t) as Hy. pose proof (NewData_Bits b) as Hx. unfold NewData in Hx.
    unfold newData in *. cbn [Bits Bytes] in *. rewrite Hy. by destruct t; [rewrite Hx|]. }
  rewrite !E, !NewIDM_spec by auto. split; [done|]. by eexists.
Qed.

(** [Parse] looks at packet bytes only.  On packets of at least 92 bytes it
    never panics and appends exactly one message for each distinct packet content
    whose packet checksum and serial-number checksum leave the CCITT residue and
    whose serial number is not zero, in order of first occurrence. *)
Theorem idm_Parse_appends_accepted (chipLength : Z) (buf : list Z) (pkts : list Data) (messages : list Message)
  (Hbuf : length buf = 92%nat) (Hpkts : Forall (whole_bytes 92) pkts) :
  exists buf', length buf' = 92%nat /\
    Parse (parser_with chipLength buf) pkts messages =
    Some (parser_with chipLength buf', messages ++ omap idm_accept (distinct ∅ (map (contents 92) pkts))).
Proof. by apply idm_Parse_spec. Qed.

(** A packet with increasing intervals. *)
Definition sample : IDM :=
  {| Preamble := 0x555516A3; PacketTypeID := 0x1C; PacketLength := 0x5C; HammingCode := 0xC6;
     ApplicationVersion := 4; ERTType := 7; ERTSerialNumber := 40000000; ConsumptionIntervalCount := 200;
     ModuleProgrammingState := 0xBC; TamperCounters := [1; 2; 3; 4; 5; 6]; AsynchronousCounters := 0x0102;
     PowerOutageFlags := [6; 5; 4; 3; 2; 1]; LastConsumptionCount := 1234567;
     DifferentialConsumptionIntervals := map (fun i => i * 10) (seqZ 0 47); TransmitTimeOffset := 999;
     SerialNumberCRC := 33320; PacketCRC := 34838 |}.

Lemma sample_ok : idm_ok sample.
Proof. constructor; repeat split; try (apply uintsb_Forall; vm_compute; reflexivity); uints; simpl; lia. Qed.

Lemma NewIDM_text_free_witness :
  exists idm, NewIDM (NewData (idm_packet 3 1 sample)) = Some idm /\
    DifferentialConsumptionIntervals idm = map (fun i => i * 10) (seqZ 0 47).
Proof.
  destruct (NewIDM_text_free (idm_packet 3 1 sample)) as [_ (idm & E & H)].
  - reflexivity.
  - apply uintsb_Forall. vm_compute. reflexivity.
  - exists idm. split; [exact E|]. rewrite H. vm_compute. reflexivity.
Defined.

Lemma idm_Parse_appends_accepted_witness :
  exists buf', Parse (NewParser 72) [newData (make 92 0) false; newData (idm_packet 3 1 sample) false] [] =
    Some (parser_with 72 buf', [IDM_Message sample]).
Proof.
  destruct (idm_Parse_appends_accepted 72 (make 92 0)
    [newData (make 92 0) false; newData (idm_packet 3 1 sample) false] []) as (buf' & _ & H).
  - reflexivity.
  - repeat (apply Forall_cons; split); [| |constructor];
      (split; [vm_compute; lia|apply uintsb_Forall; vm_compute; reflexivity]).
  - exists buf'. etransitivity; [exact H|]. vm_compute. reflexivity.
Defined.

(** C22. Round trip: an interval message with fields in their ranges and a serial
    number other than zero, sent with the complements of the two CCITT checksums,
    is received as exactly that message, whatever the unused bits are. *)
Theorem idm_roundtrip (chipLength hi spare : Z) (idm : IDM)
  (Hok : idm_ok idm) (Hhi : is_uint 4 hi) (Hspare : is_bit spare) (Hid : ERTSerialNumber idm <> 0)
  (Hserial : exists c, crc_Checksum CCITT (to_bytes 4 (ERTSerialNumber idm)) = Some c /\
                       SerialNumberCRC idm = Z.lxor c 0xFFFF)
  (Hpacket : exists c, crc_Checksum CCITT (take 86 (drop 4 (idm_packet hi spare idm))) = Some c /\
                       PacketCRC idm = Z.lxor c 0xFFFF) :
  exists p, Parse (NewParser chipLength) [newData (idm_packet hi spare idm) false] [] = Some (p, [IDM_Message idm]).
Proof.
  destruct (idm_packet_spec hi spare idm) as [Hl Hb]. set (b := idm_packet hi spare idm) in *.
  destruct (idm_Parse_spec chipLength (make 92 0) [newData b false] []) as (buf' & _ & E).
  - done.
  - apply Forall_cons; split; [|constructor]. split; rewrite newData_Bytes; [lia|done].
  - eexists. etransitivity; [exact E|]. do 2 f_equal. cbn [map]. unfold contents. rewrite newData_Bytes, take_ge by lia.
    cbn [distinct]. rewrite decide_False by set_solver. cbn [omap list_omap app].
    unfold idm_accept. assert (idm_of b = idm) as -> by by apply idm_of_packet.
    assert (drop 4 b = take 86 (drop 4 b) ++ to_bytes 2 (PacketCRC idm)) as -> by done.
    assert (take 4 (drop 9 b) ++ take 2 (drop 88 b) =
            to_bytes 4 (ERTSerialNumber idm) ++ to_bytes 2 (SerialNumberCRC idm)) as -> by done.
    rewrite (CCITT_complement (take 86 _)); [|by auto with go|apply Hok|done].
    rewrite CCITT_complement; [|by apply to_digits_Forall|apply Hok|done].
    change (0x1D0F =? 0x1D0F) with true. cbn [andb]. by destruct (Z.eqb_spec (ERTSerialNumber idm) 0).
Qed.

Lemma idm_roundtrip_witness :
  exists p, Parse (NewParser 72) [newData (idm_packet 3 1 sample) false] [] = Some (p, [IDM_Message sample]).
Proof.
  apply (idm_roundtrip 72 3 1 sample sample_ok).
  - uints. lia.
  - uints. lia.
  - discriminate.
  - eexists. split; [vm_compute; reflexivity|reflexivity].
  - eexists. split; [vm_compute; reflexivity|reflexivity].
Defined.
