(* ===== verification/NetIdm.v ===== *)
(** Net-metering Interval Data Messages (src/netidm/netidm.go). *)

From S2P Require Import Prelude Crc Packet Layout.

(** ** The code *)

(** [NewPacketConfig]: a configuration without a protocol name. *)
Definition NewPacketConfig (chipLength : Z) : PacketConfig :=
  parser_config [] (str "01010101010101010001011010100011") 912600155 32768 chipLength 32 (92 * 8).

Record Parser := { crc : CRC; cfg : PacketConfig; data_Bytes : list Z }.

Definition NewParser (chipLength : Z) : Parser :=
  {| crc := NewCRC (str "CCITT") 0xFFFF 0x1021 0x1D0F;
     cfg := parser_config (str "netidm") (str "01010101010101010001011010100011") 912600155 32768 chipLength 32 (92 * 8);
     data_Bytes := make 92 0 |}.

Record NetIDM := {
  Preamble : Z; ProtocolID : Z; PacketLength : Z; HammingCode : Z; ApplicationVersion : Z; ERTType : Z;
  ERTSerialNumber : Z; ConsumptionIntervalCount : Z; ProgrammingState : Z;
  LastGeneration : Z; LastConsumption : Z; LastConsumptionNet : Z;
  DifferentialConsumptionIntervals : list Z; TransmitTimeOffset : Z; SerialNumberCRC : Z; PacketCRC : Z }.

(** Three bytes shifted together. *)
Definition three_bytes (b : list Z) (i : Z) : option Z :=
  x ← index b i; y ← index b (i + 1); z ← index b (i + 2);
  Some (Z.lor (Z.lor (u32 (Z.shiftl x 16)) (u32 (Z.shiftl y 8))) z).

Definition NewNetIDM (data : Data) : option NetIDM :=
  let b := Bytes data in
  preamble ← be 0 4 b;
  protocolID ← index b 4;
  packetLength ← index b 5;
  hammingCode ← index b 6;
  applicationVersion ← index b 7;
  b8 ← index b 8;
  ertSerialNumber ← be 9 13 b;
  consumptionIntervalCount ← index b 13;
  programmingState ← index b 14;
  lastConsumption ← three_bytes b 25;
  lastGeneration ← three_bytes b 28;
  lastConsumptionNet ← be 34 38 b;
  '(_, intervals) ← foldM (interval_step 14 (Bits data)) (Z.shiftl 38 3, make 27 0) (seqZ 0 27);
  transmitTimeOffset ← be 86 88 b;
  serialNumberCRC ← be 88 90 b;
  packetCRC ← be 90 92 b;
  Some {| Preamble := preamble; ProtocolID := protocolID; PacketLength := packetLength;
          HammingCode := hammingCode; ApplicationVersion := applicationVersion; ERTType := Z.land b8 0x0F;
          ERTSerialNumber := ertSerialNumber; ConsumptionIntervalCount := consumptionIntervalCount;
          ProgrammingState := programmingState; LastGeneration := lastGeneration;
          LastConsumption := lastConsumption; LastConsumptionNet := lastConsumptionNet;
          DifferentialConsumptionIntervals := intervals;
          TransmitTimeOffset := transmitTimeOffset; SerialNumberCRC := serialNumberCRC; PacketCRC := packetCRC |}.

(** [Interval.Record] *)
Definition Interval_Record (interval : list Z) : list (list Z) := map (fun v => FormatUint v 10) interval.

(** [NetIDM.Checksum] *)
Definition NetIDM_Checksum (netidm : NetIDM) : list Z := put_uint16 (PacketCRC netidm).

(** [NetIDM.String] *)
Definition NetIDM_String (m : NetIDM) : list Z :=
  let fields :=
    [str "Preamble:0x" ++ Hex 8 (Preamble m); str "ProtocolID:0x" ++ Hex 2 (ProtocolID m);
     str "PacketLength:0x" ++ Hex 2 (PacketLength m); str "HammingCode:0x" ++ Hex 2 (HammingCode m);
     str "ApplicationVersion:0x" ++ Hex 2 (ApplicationVersion m); str "ERTType:0x" ++ Hex 2 (ERTType m);
     str "ERTSerialNumber:" ++ DecSpace 10 (ERTSerialNumber m);
     str "ConsumptionIntervalCount:" ++ FormatUint (ConsumptionIntervalCount m) 10;
     str "ProgrammingState:0x" ++ Hex 2 (ProgrammingState m);
     str "LastGeneration:" ++ FormatUint (LastGeneration m) 10;
     str "LastConsumption:" ++ FormatUint (LastConsumption m) 10;
     str "LastConsumptionNet:" ++ FormatUint (LastConsumptionNet m) 10;
     str "DifferentialConsumptionIntervals:" ++ DecArray (DifferentialConsumptionIntervals m);
     str "TransmitTimeOffset:" ++ FormatUint (TransmitTimeOffset m) 10;
     str "SerialNumberCRC:0x" ++ Hex 4 (SerialNumberCRC m); str "PacketCRC:0x" ++ Hex 4 (PacketCRC m)] in
  str "{" ++ Join fields (str " ") ++ str "}".

(** [NetIDM.Record] *)
Definition NetIDM_Record (m : NetIDM) : list (list Z) :=
  [zero_x (Hex 8 (Preamble m))] ++ [zero_x (Hex 2 (ProtocolID m))] ++
  [zero_x (Hex 2 (PacketLength m))] ++ [zero_x (Hex 2 (HammingCode m))] ++
  [zero_x (Hex 2 (ApplicationVersion m))] ++ [zero_x (Hex 2 (ERTType m))] ++
  [FormatUint (ERTSerialNumber m) 10] ++ [FormatUint (ConsumptionIntervalCount m) 10] ++
  [zero_x (Hex 2 (ProgrammingState m))] ++ [FormatUint (LastGeneration m) 10] ++
  [FormatUint (LastConsumption m) 10] ++ [FormatUint (LastConsumptionNet m) 10] ++
  Interval_Record (DifferentialConsumptionIntervals m) ++
  [FormatUint (TransmitTimeOffset m) 10] ++ [zero_x (Hex 4 (SerialNumberCRC m))] ++
  [zero_x (Hex 4 (PacketCRC m))].

(** The methods of the [protocol.Message] interface. *)
Definition NetIDM_Message (m : NetIDM) : Message :=
  {| MsgType := str "NetIDM"; MeterID := ERTSerialNumber m; MeterType := ERTType m;
     MsgChecksum := NetIDM_Checksum m; MsgRecord := NetIDM_Record m |}.

Definition Parse_step (p : Parser) (st : list Z * gset (list Z) * list Message) (pkt : Data)
  : option (list Z * gset (list Z) * list Message) :=
  let '(buf, seen, messages) := st in
  bits ← slice 0 (PacketSymbols (cfg p)) (Bits pkt);
  let buf := gocopy buf (Bytes pkt) in
  if decide (buf ∈ seen) then Some (buf, seen, messages) else
  let seen := {[buf]} ∪ seen in
  body ← slice 4 92 buf;
  residue ← crc_Checksum (crc p) body;
  if negb (residue =? Residue (crc p)) then Some (buf, seen, messages) else
  s1 ← slice 9 13 buf;
  s2 ← slice 88 90 buf;
  let serial := gocopy (make 6 0) s1 in
  let serial := take 4 serial ++ gocopy (drop 4 serial) s2 in
  residue ← crc_Checksum (crc p) serial;
  if negb (residue =? Residue (crc p)) then Some (buf, seen, messages) else
  netidm ← NewNetIDM {| Idx := Idx pkt; Bits := bits; Bytes := buf |};
  if ERTSerialNumber netidm =? 0 then Some (buf, seen, messages) else
  Some (buf, seen, messages ++ [NetIDM_Message netidm]).

Definition Parse (p : Parser) (pkts : list Data) (messages : list Message) : option (Parser * list Message) :=
  '(buf, _, messages) ← foldM (Parse_step p) (data_Bytes p, ∅, messages) pkts;
  Some ({| crc := crc p; cfg := cfg p; data_Bytes := buf |}, messages).

(** ** The packets *)

(** The meaning of ninety-two bytes. *)
Definition netidm_of (b : list Z) : NetIDM :=
  let num lo n := of_bytes (take n (drop lo b)) in
  {| Preamble := num 0 4; ProtocolID := num 4 1; PacketLength := num 5 1; HammingCode := num 6 1;
     ApplicationVersion := num 7 1; ERTType := num 8 1 mod 16; ERTSerialNumber := num 9 4;
     ConsumptionIntervalCount := num 13 1; ProgrammingState := num 14 1;
     LastGeneration := num 28 3; LastConsumption := num 25 3; LastConsumptionNet := num 34 4;
     DifferentialConsumptionIntervals := groups 14 27 (bytes_bits (take 48 (drop 38 b)));
     TransmitTimeOffset := num 86 2; SerialNumberCRC := num 88 2; PacketCRC := num 90 2 |}%nat.

Definition netidm_accept (b : list Z) : option Message :=
  if (crc_ref 0x1021 0xFFFF (bytes_bits (drop 4 b)) =? 0x1D0F) &&
     (crc_ref 0x1021 0xFFFF (bytes_bits (take 4 (drop 9 b) ++ take 2 (drop 88 b))) =? 0x1D0F)
  then if ERTSerialNumber (netidm_of b) =? 0 then None else Some (NetIDM_Message (netidm_of b))
  else None.

Lemma three_bytes_spec b i :
  Forall is_byte b -> 0 <= i -> i + 3 <= len b -> three_bytes b i = Some (of_bytes (take 3 (drop (Z.to_nat i) b))).
Proof.
  intros Hb Hi Hl. unfold three_bytes.
  destruct (index_lt b i ltac:(lia)) as [x Hx], (index_lt b (i + 1) ltac:(lia)) as [y Hy],
    (index_lt b (i + 2) ltac:(lia)) as [z Hz].
  rewrite Hx, Hy, Hz. cbn [mbind option_bind].
  apply index_Some in Hx as [_ Hx], Hy as [_ Hy], Hz as [_ Hz].
  assert (is_byte x /\ is_byte y /\ is_byte z) as (Rx & Ry & Rz) by (split; [|split]; by eapply Forall_lookup_1).
  rewrite (drop_S _ _ _ Hx). replace (S (Z.to_nat i)) with (Z.to_nat (i + 1)) by lia.
  rewrite (drop_S _ _ _ Hy). replace (S (Z.to_nat (i + 1))) with (Z.to_nat (i + 2)) by lia.
  rewrite (drop_S _ _ _ Hz). cbn [take]. unfold of_bytes, of_digits. cbn [foldl]. f_equal.
  unfold u32. rewrite !wrap_u_id by (rewrite Z.shiftl_mul_pow2 by lia; uints; lia).
  rewrite <- Z.lor_assoc, (lor_disjoint_add y z 8), lor_disjoint_add by (lia || done || (uints; lia)). rewrite take_0. cbn [foldl]. ring.
Qed.

Lemma NewNetIDM_spec b idx :
  length b = 92%nat -> Forall is_byte b ->
  NewNetIDM {| Idx := idx; Bits := bit_chars (bytes_bits b); Bytes := b |} = Some (netidm_of b).
Proof.
  intros Hl Hb. assert (len b = 92) as Hlen by (unfold len; lia).
  pose proof (interval_fold 14 304 (bytes_bits b) 27 ltac:(auto with go) ltac:(lia)) as F.
  pose proof (len_bytes_bits b) as Hbl. unfold len in Hbl. specialize (F ltac:(lia)).
  change (Z.of_nat 14) with 14 in F. change (Z.of_nat 304) with (Z.shiftl 38 3) in F. change (Z.of_nat 27) with 27 in F.
  unfold NewNetIDM. cbn [Bytes Bits]. rewrite F, !three_bytes_spec by (done || lia). unfold be.
  rewrite !slice_ok by lia. rewrite !index_of_bytes by lia.
  cbn [mbind option_bind]. change 0x0F with (Z.ones 4). rewrite Z.land_ones by lia.
  unfold netidm_of. rewrite bytes_bits_take, bytes_bits_drop, groups_take by lia. done.
Qed.

Record netidm_ok (m : NetIDM) : Prop := {
  ok_pre : is_uint 32 (Preamble m); ok_pid : is_byte (ProtocolID m); ok_plen : is_byte (PacketLength m);
  ok_ham : is_byte (HammingCode m); ok_app : is_byte (ApplicationVersion m); ok_ert : is_uint 4 (ERTType m);
  ok_ser : is_uint 32 (ERTSerialNumber m); ok_cic : is_byte (ConsumptionIntervalCount m);
  ok_ps : is_byte (ProgrammingState m); ok_gen : is_uint 24 (LastGeneration m);
  ok_con : is_uint 24 (LastConsumption m); ok_net : is_uint 32 (LastConsumptionNet m);
  ok_int : Forall (is_uint 14) (DifferentialConsumptionIntervals m) /\
           length (DifferentialConsumptionIntervals m) = 27%nat;
  ok_tto : is_uint 16 (TransmitTimeOffset m); ok_scrc : is_uint 16 (SerialNumberCRC m);
  ok_pcrc : is_uint 16 (PacketCRC m) }.

(** The fields in transmission order; [hi], [gap1], [gap2] and [spare] fill the
    parts of the packet that the parser does not look at. *)
Definition interval_bits (m : NetIDM) (spare : Z) : list Z :=
  concat (map (to_bits 14) (DifferentialConsumptionIntervals m)) ++ to_bits 6 spare.

Definition netidm_fields (hi gap1 gap2 spare : Z) (m : NetIDM) : layout :=
  [(4%nat, Preamble m); (1%nat, ProtocolID m); (1%nat, PacketLength m); (1%nat, HammingCode m);
   (1%nat, ApplicationVersion m); (1%nat, hi * 16 + ERTType m); (4%nat, ERTSerialNumber m);
   (1%nat, ConsumptionIntervalCount m); (1%nat, ProgrammingState m); (10%nat, gap1);
   (3%nat, LastConsumption m); (3%nat, LastGeneration m); (3%nat, gap2); (4%nat, LastConsumptionNet m);
   (48%nat, of_bits (interval_bits m spare)); (2%nat, TransmitTimeOffset m); (2%nat, SerialNumberCRC m);
   (2%nat, PacketCRC m)].

Definition netidm_packet (hi gap1 gap2 spare : Z) (m : NetIDM) : list Z := lay 8 (netidm_fields hi gap1 gap2 spare m).

Lemma netidm_packet_spec hi gap1 gap2 spare m :
  length (netidm_packet hi gap1 gap2 spare m) = 92%nat /\ Forall is_byte (netidm_packet hi gap1 gap2 spare m).
Proof. unfold netidm_packet. rewrite length_lay. split; [done|by apply lay_Forall]. Qed.

Lemma net_intervals_of_packet spare m :
  netidm_ok m ->
  groups 14 27 (bytes_bits (to_bytes 48 (of_bits (interval_bits m spare)))) = DifferentialConsumptionIntervals m.
Proof.
  intros Hok. destruct (ok_int _ Hok) as [Hi Hl].
  assert (length (interval_bits m spare) = 384%nat) as Hlen
    by (unfold interval_bits; rewrite length_app, length_concat_bits, Hl; done).
  assert (Forall is_bit (interval_bits m spare)) as Hb
    by (apply Forall_app; split; [apply concat_bits_Forall|by apply to_digits_Forall]).
  pose proof (bytes_bits_pack _ Hb ltac:(by rewrite Hlen)) as E. unfold pack in E. rewrite Hlen in E.
  change (384 / 8)%nat with 48%nat in E. rewrite E. unfold interval_bits.
  rewrite <- Hl. by apply groups_concat.
Qed.

Lemma netidm_of_packet hi gap1 gap2 spare m :
  netidm_ok m -> is_uint 4 hi -> netidm_of (netidm_packet hi gap1 gap2 spare m) = m.
Proof.
  intros Hok Hh. unfold netidm_of, netidm_packet. set (l := netidm_fields hi gap1 gap2 spare m).
  pose proof (fun lo n v => num_lay lo n l v) as N. pose proof (fun lo n v => cut_lay lo n l v) as C.
  rewrite (N 0%nat 4%nat _ eq_refl (ok_pre _ Hok)), (N 4%nat 1%nat _ eq_refl (ok_pid _ Hok)),
    (N 5%nat 1%nat _ eq_refl (ok_plen _ Hok)), (N 6%nat 1%nat _ eq_refl (ok_ham _ Hok)),
    (N 7%nat 1%nat _ eq_refl (ok_app _ Hok)), (N 9%nat 4%nat _ eq_refl (ok_ser _ Hok)),
    (N 13%nat 1%nat _ eq_refl (ok_cic _ Hok)), (N 14%nat 1%nat _ eq_refl (ok_ps _ Hok)),
    (N 25%nat 3%nat _ eq_refl (ok_con _ Hok)), (N 28%nat 3%nat _ eq_refl (ok_gen _ Hok)),
    (N 34%nat 4%nat _ eq_refl (ok_net _ Hok)),
    (N 86%nat 2%nat _ eq_refl (ok_tto _ Hok)), (N 88%nat 2%nat _ eq_refl (ok_scrc _ Hok)),
    (N 90%nat 2%nat _ eq_refl (ok_pcrc _ Hok)),
    (C 38%nat 48%nat _ eq_refl), net_intervals_of_packet by done.
  pose proof (ok_ert _ Hok) as He. rewrite (N 8%nat 1%nat _ eq_refl) by (uints; lia).
  rewrite Z.add_comm, Z.mod_add, Z.mod_small by (uints; lia). by destruct m.
Qed.

(** ** The parser on whole packets *)

Definition accept (p : Parser) (d : Data) : option (option Message) :=
  body ← slice 4 92 (Bytes d); residue ← crc_Checksum (crc p) body;
  if negb (residue =? Residue (crc p)) then Some None else
  s1 ← slice 9 13 (Bytes d); s2 ← slice 88 90 (Bytes d);
  let serial := gocopy (make 6 0) s1 in
  residue ← crc_Checksum (crc p) (take 4 serial ++ gocopy (drop 4 serial) s2);
  if negb (residue =? Residue (crc p)) then Some None else
  netidm ← NewNetIDM d; if ERTSerialNumber netidm =? 0 then Some None else Some (Some (NetIDM_Message netidm)).

Lemma netidm_Parse_step_scan p st pkt :
  Parse_step p st pkt = scan_step (accept p) (fun b => b) (fun d => slice 0 (PacketSymbols (cfg p)) (Bits d)) st pkt.
Proof.
  destruct st as [[bf seen] ms]. unfold Parse_step, scan_step, accept.
  destruct (slice 0 _ (Bits pkt)) as [bits|]; [|done]. cbn [mbind option_bind Bytes].
  destruct (decide _); [done|]. destruct (slice 4 _ _) as [body|]; [|done]. cbn [mbind option_bind].
  destruct (crc_Checksum _ body) as [c|]; [|done]. cbn [mbind option_bind].
  destruct (c =? _); cbn [negb]; [|done].
  destruct (slice 9 _ _) as [s1|]; [|done]. cbn [mbind option_bind].
  destruct (slice 88 _ _) as [s2|]; [|done]. cbn [mbind option_bind].
  destruct (crc_Checksum _ (_ ++ _)) as [c'|]; [|done]. cbn [mbind option_bind].
  destruct (c' =? _); cbn [negb]; [|done]. destruct (NewNetIDM _) as [netidm|]; [|done]. cbn [mbind option_bind].
  by destruct (_ =? 0).
Qed.

Lemma netidm_accept_spec p b idx :
  crc p = CCITT -> length b = 92%nat -> Forall is_byte b ->
  accept p {| Idx := idx; Bits := bit_chars (bytes_bits b); Bytes := b |} = Some (netidm_accept b).
Proof.
  intros Hp Hl Hb. unfold accept. cbn [Bytes]. rewrite !slice_ok by (unfold len; lia). cbn [mbind option_bind].
  change (Z.to_nat 4) with 4%nat. change (Z.to_nat (92 - 4)) with 88%nat.
  rewrite (take_ge (drop 4 b)) by (rewrite length_drop; lia). rewrite Hp, (CCITT_spec (drop 4 b)) by by apply Forall_drop. cbn [mbind option_bind].
  change (Z.to_nat (13 - 9)) with 4%nat. change (Z.to_nat (90 - 88)) with 2%nat.
  change (Z.to_nat 9) with 9%nat. change (Z.to_nat 88) with 88%nat.
  rewrite serial_eq by (rewrite length_take, length_drop; lia).
  rewrite CCITT_spec by (apply Forall_app; auto with go). cbn [mbind option_bind].
  rewrite NewNetIDM_spec by done. unfold netidm_accept. change (Residue CCITT) with 0x1D0F.
  destruct (_ =? 0x1D0F); [|done]. cbn [negb andb mbind option_bind].
  destruct (_ =? 0x1D0F); [|done]. cbn [negb mbind option_bind]. by destruct (_ =? 0).
Qed.

Definition parser_with (chipLength : Z) (buf : list Z) : Parser :=
  {| crc := crc (NewParser chipLength); cfg := cfg (NewParser chipLength); data_Bytes := buf |}.

Lemma netidm_Parse_spec chipLength buf pkts messages :
  length buf = 92%nat -> Forall (whole 92) pkts ->
  exists buf', length buf' = 92%nat /\
    Parse (parser_with chipLength buf) pkts messages =
    Some (parser_with chipLength buf', messages ++ omap netidm_accept (distinct ∅ (map (contents 92) pkts))).
Proof.
  intros Hbuf Hp. set (p := parser_with chipLength buf).
  destruct (scan_spec (accept p) (fun b => b) (fun d => slice 0 (PacketSymbols (cfg p)) (Bits d)) netidm_accept 92 buf ∅ messages pkts
    Hbuf) as (buf' & seen' & Hb' & E).
  { done. }
  { eapply Forall_impl; [exact Hp|]. intros d Hd. split; [apply Hd|]. eexists. split; [by apply (whole_Bits 92)|].
    apply netidm_accept_spec; [done|by apply contents_length|by apply contents_bytes]. }
  exists buf'. split; [done|]. unfold Parse. change (data_Bytes p) with buf.
  by rewrite (foldM_ext _ _ _ _ (netidm_Parse_step_scan p)), E.
Qed.

(** ** Properties *)

Definition sample : NetIDM :=
  {| Preamble := 0x555516A3; ProtocolID := 0x1C; PacketLength := 0x5C; HammingCode := 0xC6;
     ApplicationVersion := 4; ERTType := 8; ERTSerialNumber := 50000000; ConsumptionIntervalCount := 100;
     ProgrammingState := 0xBC; LastGeneration := 4321; LastConsumption := 54321; LastConsumptionNet := 4000000000;
     DifferentialConsumptionIntervals := map (fun i => i * 500) (seqZ 0 27); TransmitTimeOffset := 77;
     SerialNumberCRC := 12429; PacketCRC := 25816 |}.

Lemma net_sample_ok : netidm_ok sample.
Proof. constructor; repeat split; try (apply uintsb_Forall; vm_compute; reflexivity); uints; simpl; lia. Qed.

(** On packets that hold at least 92 bytes and their text, [Parse] never
    panics and appends exactly one message for each distinct packet content whose
    packet and serial-number checksums leave the CCITT residue and whose serial
    number is not zero, in order of first occurrence. *)
Theorem netidm_Parse_appends_accepted (chipLength : Z) (buf : list Z) (pkts : list Data) (messages : list Message)
  (Hbuf : length buf = 92%nat) (Hpkts : Forall (whole 92) pkts) :
  exists buf', length buf' = 92%nat /\
    Parse (parser_with chipLength buf) pkts messages =
    Some (parser_with chipLength buf', messages ++ omap netidm_accept (distinct ∅ (map (contents 92) pkts))).
Proof. by apply netidm_Parse_spec. Qed.

Lemma netidm_Parse_appends_accepted_witness :
  exists buf', Parse (NewParser 72) [NewData (netidm_packet 3 9 8 1 sample); NewData (make 92 0)] [] =
    Some (parser_with 72 buf', [NetIDM_Message sample]).
Proof.
  destruct (netidm_Parse_appends_accepted 72 (make 92 0)
    [NewData (netidm_packet 3 9 8 1 sample); NewData (make 92 0)] []) as (buf' & _ & H).
  - reflexivity.
  - repeat (apply Forall_cons; split); [| |constructor];
      (apply whole_NewData; [vm_compute; lia|apply uintsb_Forall; vm_compute; reflexivity]).
  - exists buf'. etransitivity; [exact H|]. vm_compute. reflexivity.
Defined.

(** C31. Round trip: a net-metering message with fields in their ranges and a
    serial number other than zero, sent with the complements of the two CCITT
    checksums, is received as exactly that message, whatever the unused bits are. *)
Theorem netidm_roundtrip (chipLength hi gap1 gap2 spare : Z) (m : NetIDM)
  (Hok : netidm_ok m) (Hhi : is_uint 4 hi) (Hid : ERTSerialNumber m <> 0)
  (Hserial : exists c, crc_Checksum CCITT (to_bytes 4 (ERTSerialNumber m)) = Some c /\
                       SerialNumberCRC m = Z.lxor c 0xFFFF)
  (Hpacket : exists c, crc_Checksum CCITT (take 86 (drop 4 (netidm_packet hi gap1 gap2 spare m))) = Some c /\
                       PacketCRC m = Z.lxor c 0xFFFF) :
  exists p, Parse (NewParser chipLength) [NewData (netidm_packet hi gap1 gap2 spare m)] [] =
            Some (p, [NetIDM_Message m]).
Proof.
  destruct (netidm_packet_spec hi gap1 gap2 spare m) as [Hl Hb]. set (b := netidm_packet hi gap1 gap2 spare m) in *.
  destruct (netidm_Parse_spec chipLength (make 92 0) [NewData b] []) as (buf' & _ & E).
  - done.
  - apply Forall_cons; split; [|constructor]. by apply whole_NewData; [lia|].
  - eexists. etransitivity; [exact E|]. do 2 f_equal. cbn [map]. rewrite contents_NewData by done.
    cbn [distinct]. rewrite decide_False by set_solver. cbn [omap list_omap app].
    unfold netidm_accept. assert (netidm_of b = m) as -> by by apply netidm_of_packet.
    assert (drop 4 b = take 86 (drop 4 b) ++ to_bytes 2 (PacketCRC m)) as -> by done.
    assert (take 4 (drop 9 b) ++ take 2 (drop 88 b) =
            to_bytes 4 (ERTSerialNumber m) ++ to_bytes 2 (SerialNumberCRC m)) as -> by done.
    rewrite (CCITT_complement (take 86 _)); [|by auto with go|apply Hok|done].
    rewrite CCITT_complement; [|by apply to_digits_Forall|apply Hok|done].
    change (0x1D0F =? 0x1D0F) with true. cbn [andb]. by destruct (Z.eqb_spec (ERTSerialNumber m) 0).
Qed.

Lemma netidm_roundtrip_witness :
  exists p, Parse (NewParser 72) [NewData (netidm_packet 3 9 8 1 sample)] [] = Some (p, [NetIDM_Message sample]).
Proof.
  apply (netidm_roundtrip 72 3 9 8 1 sample net_sample_ok).
  - uints. lia.
  - discriminate.
  - eexists. split; [vm_compute; reflexivity|reflexivity].
  - eexists. split; [vm_compute; reflexivity|reflexivity].
Defined.
