(* ===== verification/Float64.v ===== *)
(** IEEE 754 binary64 arithmetic as Go's float64 uses it: the Standard Library's
    executable specification, at precision 53 and exponent bound 1024. *)

From S2P Require Import Prelude.
From Stdlib Require Export SpecFloat.

Definition f64 : Type := spec_float.

Definition fadd : f64 -> f64 -> f64 := SFadd 53 1024.
Definition fsub : f64 -> f64 -> f64 := SFsub 53 1024.
Definition fmul : f64 -> f64 -> f64 := SFmul 53 1024.
Definition fdiv : f64 -> f64 -> f64 := SFdiv 53 1024.
Definition fabs : f64 -> f64 := SFabs.
Definition flt : f64 -> f64 -> bool := SFltb.
Definition fgt (x y : f64) : bool := SFltb y x.
Definition fle : f64 -> f64 -> bool := SFleb.
Definition fzero : f64 := S754_zero false.

(** [float64(n)] for an integer, and the dyadic literal m * 2^e. *)
Definition fof (m e : Z) : f64 := binary_normalize 53 1024 m e false.
Definition f64_of_int (n : Z) : f64 := fof n 0.

(** [math.Float64bits(f) >> 63] *)
Definition sign_bit (x : f64) : Z :=
  match x with
  | S754_zero s | S754_infinity s | S754_finite s _ _ => if s then 1 else 0
  | S754_nan => 0
  end.
