(* ===== verification/R900.v ===== *)
(** R900 messages (src/r900/r900.go and src/r900/power16_quantize.go): the six
    symbol quantizer on both sample representations, the candidate loop with its
    Reed-Solomon check, and the message layout. *)

From S2P Require Import Prelude Float64 Gf Packet Layout.

(** ** Quantization *)

Definition power16Abs (value : Z) : Z := if value <? 0 then i32 (- value) else value.

Definition quantizePower16Symbol (v0 v1 v2 : Z) : Z :=
  let '(symbol, selected, maximum) := (0, v0, power16Abs v0) in
  let '(symbol, selected, maximum) :=
    let candidate := power16Abs v1 in
    if maximum <? candidate then (1, v1, candidate) else (symbol, selected, maximum) in
  let '(symbol, selected) :=
    let candidate := power16Abs v2 in
    if maximum <? candidate then (2, v2) else (symbol, selected) in
  if 0 <? selected then u8 (symbol + 3) else symbol.

Definition quantizeSymbol (v0 v1 v2 : f64) : Z :=
  let '(symbol, selected, max) := (0, v0, fabs v0) in
  let '(symbol, selected, max) :=
    let abs := fabs v1 in
    if fgt abs max then (1, v1, abs) else (symbol, selected, max) in
  let '(symbol, selected) :=
    if fgt (fabs v2) max then (2, v2) else (symbol, selected) in
  if fgt selected fzero then u8 (symbol + 3) else symbol.

(** The chip sums of [quantizePower16WindowGo], in int32. *)
Definition chip_sum (signal : list Z) (start chipLength : Z) : option Z :=
  foldM (fun acc offset => s ← index signal (start + offset); Some (i32 (acc + i32 s))) 0 (seqZ 0 chipLength).

Definition quantizePower16WindowGo (signal : list Z) (chipLength : Z) : option Z :=
  chip0 ← chip_sum signal (0 * chipLength) chipLength;
  chip1 ← chip_sum signal (1 * chipLength) chipLength;
  chip2 ← chip_sum signal (2 * chipLength) chipLength;
  chip3 ← chip_sum signal (3 * chipLength) chipLength;
  let v0 := i32 (i32 (i32 (chip0 + chip1) - chip2) - chip3) in
  let v1 := i32 (i32 (i32 (chip0 - chip1) + chip2) - chip3) in
  let v2 := i32 (i32 (i32 (chip0 - chip1) - chip2) + chip3) in
  Some (quantizePower16Symbol v0 v1 v2).

(** The process-wide quantizer selection; [run] is machine code, which the
    start-up self-test compares with the Go routine before it is made available. *)
Record power16R900Platform := {
  q_implementation : list Z; q_fallbackReason : list Z; q_midr : list Z; q_asimd : bool; q_genuineA72 : bool; q_selfTestPassed : bool;
  q_killSwitch : bool; q_killSwitchName : list Z; nativeAvailable : bool; run : list Z -> option Z }.

Class QuantizerPlatform := {
  power16R900CurrentPlatform : power16R900Platform;
  run_agrees : forall signal, nativeAvailable power16R900CurrentPlatform = true -> 72 * 4 <= len signal ->
    run power16R900CurrentPlatform signal = quantizePower16WindowGo signal 72 }.

(** The platform of every build but linux/arm64. *)
Definition power16R900PortablePlatform : power16R900Platform :=
  {| q_implementation := str "go-power16-r900"; q_fallbackReason := str "unsupported-platform"; q_midr := []; q_asimd := false;
     q_genuineA72 := false; q_selfTestPassed := false; q_killSwitch := false; q_killSwitchName := []; nativeAvailable := false;
     run := fun _ => None |}.

Definition portable_quantizer : QuantizerPlatform.
Proof. refine {| power16R900CurrentPlatform := power16R900PortablePlatform |}. done. Defined.

Definition quantizePower16Window `{QuantizerPlatform} (signal : list Z) (chipLength : Z) : option Z :=
  let platform := power16R900CurrentPlatform in
  if (chipLength =? 72) && (72 * 4 <=? len signal) && nativeAvailable platform then run platform signal
  else quantizePower16WindowGo signal chipLength.

(** ** The parser *)

(** What the parser uses of its decoder. *)
Record DecoderView := { d_Cfg : PacketConfig; d_SignalWindow : Z -> Z -> option (list f64) }.

Record Parser := {
  Decoder : option DecoderView; cfg : PacketConfig; field : Field; rsBuf : list Z;
  powerHistory : option (Z -> Z -> option (list Z)); seen : gset (list Z); candidateIdx : list Z; once : bool }.

Definition NewParser (chipLength : Z) : option Parser :=
  f ← NewField 32 37 2;
  Some {| Decoder := None;
          cfg := parser_config (str "r900") (str "00000000000000001110010101100100") 912380000 32768 chipLength 32 116;
          field := f; rsBuf := make 31 0; powerHistory := None; seen := ∅; candidateIdx := []; once := false |}.

Definition SetDecoder (p : Parser) (d : DecoderView) : Parser :=
  {| Decoder := Some d; cfg := cfg p; field := field p; rsBuf := rsBuf p; powerHistory := powerHistory p;
     seen := seen p; candidateIdx := candidateIdx p; once := once p |}.

Definition SignalHistoryOverlap (p : Parser) : Z := ChipLength (cfg p) * 4.

Definition Power16Compatible (p : Parser) : bool := true.

Definition SetPower16History (p : Parser) (history : option (Z -> Z -> option (list Z))) : Parser :=
  {| Decoder := Decoder p; cfg := cfg p; field := field p; rsBuf := rsBuf p; powerHistory := history;
     seen := seen p; candidateIdx := candidateIdx p; once := once p |}.

Section Quantize.
Context `{QuantizerPlatform}.

Definition quantizePower16At (p : Parser) (history : Z -> Z -> option (list Z)) (idx : Z) : option Z :=
  let chipLength := ChipLength (cfg p) in
  signal ← history idx (chipLength * 4);
  quantizePower16Window signal chipLength.

Definition quantizeSignalAt (p : Parser) (idx : Z) : option Z :=
  match powerHistory p with
  | Some history => quantizePower16At p history idx
  | None =>
      d ← Decoder p;
      let chipLength := ChipLength (cfg p) in
      signal ← d_SignalWindow d idx (chipLength * 4);
      let add lo hi sum := w ← slice lo hi signal; Some (foldl fadd sum w) in
      sum ← add 0 chipLength fzero;
      let c1 := fmul sum (f64_of_int 2) in
      sum ← add chipLength (chipLength * 2) sum;
      let c2 := fmul sum (f64_of_int 2) in
      sum ← add (chipLength * 2) (chipLength * 3) sum;
      let c3 := fmul sum (f64_of_int 2) in
      sum ← add (chipLength * 3) (chipLength * 4) sum;
      let c4 := sum in
      let v0 := fsub c2 c4 in
      let v1 := fsub (fadd (fsub c1 c2) c3) c4 in
      let v2 := fadd (fsub c1 c3) c4 in
      Some (quantizeSymbol v0 v1 v2)
  end.

(** The loop over the 21 symbols of a candidate. *)
Definition symbol_step (p : Parser) (chipLength : Z) (st : Z * bool * list Z) (idx : Z) : option (Z * bool * list Z) :=
  let '(qIdx, badSymbol, symbols) := st in
  first ← quantizeSignalAt p qIdx;
  second ← quantizeSignalAt p (qIdx + chipLength * 4);
  let symbol := u8 (u8 (first * 6) + second) in
  let badSymbol := if 31 <? symbol then true else badSymbol in
  symbols ← store symbols idx symbol;
  Some (qIdx + chipLength * 8, badSymbol, symbols).

Record R900 := {
  ID : Z; Unkn1 : Z; NoUse : Z; BackFlow : Z; Consumption : Z; Unkn3 : Z; Leak : Z; LeakNow : Z; checksum : list Z }.

(** [r900FromSymbols]: sixty bits in a uint64, twenty in a uint32. *)
Definition r900FromSymbols (symbols : list Z) : option R900 :=
  s ← slice 0 12 symbols;
  let high := foldl (fun high symbol => Z.lor (u64 (Z.shiftl high 5)) symbol) 0 s in
  s ← slice 12 16 symbols;
  let low := foldl (fun low symbol => Z.lor (u32 (Z.shiftl low 5)) symbol) 0 s in
  c ← slice 16 (len symbols) symbols;
  Some {| ID := u32 (Z.shiftr high 28); Unkn1 := u8 (Z.shiftr high 20);
          NoUse := Z.land (u8 (Z.shiftr high 14)) 0x3f; BackFlow := Z.land (u8 (Z.shiftr high 12)) 0x03;
          Consumption := Z.lor (u32 (Z.shiftl (u32 (Z.land high 0x0fff)) 12)) (Z.shiftr low 8);
          Unkn3 := Z.land (u8 (Z.shiftr low 6)) 0x03; Leak := Z.land (u8 (Z.shiftr low 2)) 0x0f;
          LeakNow := Z.land (u8 low) 0x03; checksum := gocopy (make 5 0) c |}.

(** [R900.Checksum] *)
Definition R900_Checksum (r900 : R900) : list Z := checksum r900.

(** [R900.Record] *)
Definition R900_Record (r900 : R900) : list (list Z) :=
  [FormatUint (ID r900) 10] ++ [FormatUint (Unkn1 r900) 10] ++ [FormatUint (NoUse r900) 10] ++
  [FormatUint (BackFlow r900) 10] ++ [FormatUint (Consumption r900) 10] ++ [FormatUint (Unkn3 r900) 10] ++
  [FormatUint (Leak r900) 10] ++ [FormatUint (LeakNow r900) 10].

(** [R900.String] *)
Definition R900_String (r900 : R900) : list Z :=
  str "{ID:" ++ Dec 10 (ID r900) ++ str " Unkn1:0x" ++ Hex 2 (Unkn1 r900) ++ str " NoUse:" ++ Dec 2 (NoUse r900) ++
  str " BackFlow:" ++ Dec 1 (BackFlow r900) ++ str " Consumption:" ++ Dec 8 (Consumption r900) ++
  str " Unkn3:0x" ++ Hex 2 (Unkn3 r900) ++ str " Leak:" ++ Dec 2 (Leak r900) ++
  str " LeakNow:" ++ Dec 1 (LeakNow r900) ++ str "}".

(** The methods of the [protocol.Message] interface. *)
Definition R900_Message (r900 : R900) : Message :=
  {| MsgType := str "R900"; MeterID := ID r900; MeterType := Unkn1 r900;
     MsgChecksum := R900_Checksum r900; MsgRecord := R900_Record r900 |}.

(** The dynamic types an interface value can have here: the wrapper package's
    messages embed an [R900]. *)
Inductive AnyMessage := AnR900 (m : R900) | AnR900BCD (m : R900) | AnOther (m : Message).

(** One round of the candidate loop: [None] for the parsed message when the
    candidate is skipped.  The state is [rsBuf] and [seen]. *)
Definition candidate_step (p : Parser) (st : list Z * gset (list Z)) (candidateIdx : Z)
  : option (list Z * gset (list Z) * option R900) :=
  let '(rsBuf, seen) := st in
  let chipLength := ChipLength (cfg p) in
  let payloadIdx := candidateIdx + PreambleLength (cfg p) - SymbolLength (cfg p) in
  '(_, badSymbol, symbols) ← foldM (symbol_step p chipLength) (payloadIdx, false, make 21 0) (seqZ 0 21);
  if badSymbol : bool then Some (rsBuf, seen, None) else
  if decide (symbols ∈ seen) then Some (rsBuf, seen, None) else
  let seen := {[symbols]} ∪ seen in
  s ← slice 0 16 symbols;
  let rsBuf := gocopy rsBuf s in
  t ← slice 16 (len symbols) symbols;
  let rsBuf := take 26 rsBuf ++ gocopy (drop 26 rsBuf) t in
  syndromes ← Syndrome (field p) rsBuf 5 29;
  s0 ← index syndromes 0; s1 ← index syndromes 1; s2 ← index syndromes 2; s3 ← index syndromes 3;
  s4 ← index syndromes 4;
  if negb (Z.lor (Z.lor (Z.lor (Z.lor s0 s1) s2) s3) s4 =? 0) then Some (rsBuf, seen, None) else
  m ← r900FromSymbols symbols;
  Some (rsBuf, seen, Some m).

(** The candidate loop stops at the first index beyond the block. *)
Fixpoint candidate_loop (p : Parser) (rsBuf : list Z) (seen : gset (list Z)) (indices : list Z) (messages : list AnyMessage)
  : option (list Z * gset (list Z) * list AnyMessage) :=
  match indices with
  | [] => Some (rsBuf, seen, messages)
  | candidateIdx :: indices =>
      if BlockSize (cfg p) <? candidateIdx then Some (rsBuf, seen, messages) else
      '(rsBuf, seen, m) ← candidate_step p (rsBuf, seen) candidateIdx;
      candidate_loop p rsBuf seen indices (match m with None => messages | Some m => messages ++ [AnR900 m] end)
  end.

(** The effect of [p.once.Do]: the first call takes over the decoder's
    configuration. *)
Definition once_Do (p : Parser) : option Parser :=
  if once p then Some p else
  d ← Decoder p;
  Some {| Decoder := Decoder p; cfg := d_Cfg d; field := field p; rsBuf := rsBuf p; powerHistory := powerHistory p;
          seen := seen p; candidateIdx := candidateIdx p; once := true |}.

Definition ParseCandidateIndices (p : Parser) (indices : list Z) (messages : list AnyMessage)
  : option (Parser * list AnyMessage) :=
  p ← once_Do p;
  '(rs, sn, messages) ← candidate_loop p (rsBuf p) ∅ indices messages;
  Some ({| Decoder := Decoder p; cfg := cfg p; field := field p; rsBuf := rs; powerHistory := powerHistory p;
           seen := sn; candidateIdx := candidateIdx p; once := once p |}, messages).

Definition Parse (p : Parser) (pkts : list Data) (messages : list AnyMessage)
  : option (Parser * list AnyMessage) :=
  let p := {| Decoder := Decoder p; cfg := cfg p; field := field p; rsBuf := rsBuf p; powerHistory := powerHistory p;
              seen := seen p; candidateIdx := map Idx pkts; once := once p |} in
  ParseCandidateIndices p (candidateIdx p) messages.
End Quantize.

(** ** The quantizer *)

(** The three correlations of four chip sums, and the symbol they select: the
    first of the largest magnitude, in the upper half if it is positive. *)
Definition ref_symbol (v0 v1 v2 : Z) : Z :=
  if (Z.abs v1 <=? Z.abs v0) && (Z.abs v2 <=? Z.abs v0) then (if 0 <? v0 then 3 else 0)
  else if Z.abs v2 <=? Z.abs v1 then (if 0 <? v1 then 4 else 1)
  else (if 0 <? v2 then 5 else 2).

Definition chip (signal : list Z) (chipLength k : nat) : Z := Zsum (take chipLength (drop (k * chipLength) signal)).

Definition ref_window (signal : list Z) (chipLength : nat) : Z :=
  let c k := chip signal chipLength k in
  ref_symbol (c 0%nat + c 1%nat - c 2%nat - c 3%nat) (c 0%nat - c 1%nat + c 2%nat - c 3%nat)
             (c 0%nat - c 1%nat - c 2%nat + c 3%nat).

Lemma quantizePower16Symbol_spec v0 v1 v2 :
  - 2 ^ 31 < v0 < 2 ^ 31 -> - 2 ^ 31 < v1 < 2 ^ 31 -> - 2 ^ 31 < v2 < 2 ^ 31 ->
  quantizePower16Symbol v0 v1 v2 = ref_symbol v0 v1 v2.
Proof.
  intros H0 H1 H2. assert (forall v, - 2 ^ 31 < v < 2 ^ 31 -> power16Abs v = Z.abs v) as Habs.
  { intros v Hv. unfold power16Abs. destruct (Z.ltb_spec v 0); [rewrite i32_id|]; lia. }
  unfold quantizePower16Symbol, ref_symbol. rewrite !Habs by done.
  rewrite !(Z.leb_antisym). destruct (Z.ltb_spec (Z.abs v0) (Z.abs v1)), (Z.ltb_spec (Z.abs v0) (Z.abs v2)),
    (Z.ltb_spec (Z.abs v1) (Z.abs v2)); cbn [negb andb]; try lia;
    repeat match goal with |- context [0 <? ?v] => destruct (Z.ltb_spec 0 v) end; done.
Qed.

Lemma chip_sum_loop signal B base n acc k :
  Forall (fun x => 0 <= x <= B) signal -> 0 <= base -> base + Z.of_nat (k + n) <= len signal ->
  0 <= acc -> B < 2 ^ 31 -> acc + B * Z.of_nat n < 2 ^ 31 ->
  foldM (fun acc offset => s ← index signal (base + offset); Some (i32 (acc + i32 s))) acc (map Z.of_nat (seq k n)) =
  Some (acc + Zsum (take n (drop (Z.to_nat base + k) signal))).
Proof.
  intros HB Hbase. revert acc k. induction n as [|n IH]; intros acc k Hlen Hacc HB2 Hsum.
  { cbn [seq map foldM]. rewrite take_0. unfold Zsum. simpl. f_equal. lia. }
  cbn [seq map foldM]. destruct (index_lt signal (base + Z.of_nat k)) as [s Hs]; [lia|]. rewrite Hs.
  cbn [mbind option_bind]. apply index_Some in Hs as [_ Hs].
  replace (Z.to_nat (base + Z.of_nat k)) with (Z.to_nat base + k)%nat in Hs by lia.
  assert (0 <= s <= B) as Rs. { rewrite Forall_lookup in HB. exact (HB _ _ Hs). }
  rewrite (i32_id s), i32_id by nia. rewrite IH by nia.
  rewrite (drop_S _ _ _ Hs), <- Nat.add_succ_r. unfold Zsum. rewrite firstn_cons. cbn [foldr]. f_equal. lia.
Qed.

(** The integer quantizer is exact: for sixteen-bit samples the int32 chip sums
    and correlations never wrap. *)
Lemma quantizePower16WindowGo_spec signal n B :
  Forall (fun x => 0 <= x <= B) signal -> 4 * Z.of_nat n <= len signal ->
  B < 2 ^ 31 -> 4 * (B * Z.of_nat n) < 2 ^ 31 ->
  quantizePower16WindowGo signal (Z.of_nat n) = Some (ref_window signal n).
Proof.
  intros HB Hlen HB2 Hsum.
  assert (forall k, (k < 4)%nat -> chip_sum signal (Z.of_nat k * Z.of_nat n) (Z.of_nat n) = Some (chip signal n k)) as Hc.
  { intros k Hk. unfold chip_sum, seqZ. rewrite Nat2Z.id.
    assert ((fun i => Z.of_nat i + 0) <$> seq 0 n = map Z.of_nat (seq 0 n)) as -> by (apply map_ext; lia).
    rewrite (chip_sum_loop signal B) by (done || nia). rewrite Z.add_0_l, Nat.add_0_r. unfold chip.
    do 4 f_equal. lia. }
  assert (forall k, 0 <= chip signal n k <= B * Z.of_nat n) as Rc.
  { intros k. unfold chip. pose proof (Zsum_range (take n (drop (k * n) signal)) B ltac:(auto with go)) as R.
    assert (len (take n (drop (k * n) signal)) <= Z.of_nat n) by (unfold len; rewrite length_take; lia).
    assert (0 <= B \/ signal = []) as [|E] by (destruct signal; [by right|left; apply Forall_cons in HB as [? _]; lia]).
    - nia.
    - rewrite E in *. rewrite drop_nil, take_nil in *. unfold len in Hlen. simpl in *. nia. }
  unfold quantizePower16WindowGo.
  change 0 with (Z.of_nat 0) at 1. change 1 with (Z.of_nat 1). change 2 with (Z.of_nat 2). change 3 with (Z.of_nat 3).
  rewrite (Hc 0%nat ltac:(lia)), (Hc 1%nat ltac:(lia)), (Hc 2%nat ltac:(lia)), (Hc 3%nat ltac:(lia)).
  cbn [mbind option_bind]. pose proof (Rc 0%nat). pose proof (Rc 1%nat). pose proof (Rc 2%nat). pose proof (Rc 3%nat).
  repeat match goal with |- context [i32 ?x] =>
    lazymatch x with context [i32 _] => fail | _ => rewrite (i32_id x) by lia end end.
  rewrite quantizePower16Symbol_spec by lia. done.
Qed.

(** ** The six waveforms *)

(** Symbol [d]'s chips: [true] is the high level. *)
Definition kernel (d : Z) : list bool :=
  if d =? 0 then [false; false; true; true] else if d =? 1 then [false; true; false; true]
  else if d =? 2 then [false; true; true; false] else if d =? 3 then [true; true; false; false]
  else if d =? 4 then [true; false; true; false] else [true; false; false; true].

Definition level (hi lo : Z) (b : bool) : Z := if b then hi else lo.

(** Every sample of the window is within [e] of the level of its chip. *)
Definition carries (signal : list Z) (n : nat) (d hi lo e : Z) : Prop :=
  forall k b, kernel d !! k = Some b ->
    Forall (fun x => level hi lo b - e <= x <= level hi lo b + e) (take n (drop (k * n) signal)).

Lemma Zsum_near l a e :
  Forall (fun x => a - e <= x <= a + e) l -> (a - e) * len l <= Zsum l <= (a + e) * len l.
Proof.
  unfold Zsum. induction 1 as [|x l Hx Hl IH]; [unfold len; simpl; lia|]. rewrite len_cons. cbn [foldr]. lia.
Qed.

Lemma chip_near signal n d hi lo e k b :
  carries signal n d hi lo e -> kernel d !! k = Some b -> (S k * n <= length signal)%nat ->
  (level hi lo b - e) * Z.of_nat n <= chip signal n k <= (level hi lo b + e) * Z.of_nat n.
Proof.
  intros Hc Hk Hl. pose proof (Zsum_near _ _ _ (Hc k b Hk)) as H. unfold chip.
  replace (len (take n (drop (k * n) signal))) with (Z.of_nat n) in H; [done|].
  unfold len. rewrite length_take, length_drop. lia.
Qed.

Lemma ref_window_carries signal n d hi lo e :
  0 <= d < 6 -> (0 < n)%nat -> (4 * n <= length signal)%nat -> 0 <= e -> 4 * e < hi - lo ->
  carries signal n d hi lo e -> ref_window signal n = d.
Proof.
  intros Hd Hn Hl He Hm Hc.
  assert (forall k b, kernel d !! k = Some b -> (k < 4)%nat ->
    (level hi lo b - e) * Z.of_nat n <= chip signal n k <= (level hi lo b + e) * Z.of_nat n) as H
    by (intros k b Hk H4; eapply chip_near; [exact Hc|exact Hk|nia]).
  assert (0 < Z.of_nat n) as Hnz by lia. generalize dependent (Z.of_nat n). intros N H HN.
  assert (exists b0 b1 b2 b3, kernel d = [b0; b1; b2; b3]) as (b0 & b1 & b2 & b3 & Ek).
  { unfold kernel. repeat case_match; by do 4 eexists. }
  pose proof (H 0%nat b0 ltac:(by rewrite Ek) ltac:(lia)) as C0.
  pose proof (H 1%nat b1 ltac:(by rewrite Ek) ltac:(lia)) as C1.
  pose proof (H 2%nat b2 ltac:(by rewrite Ek) ltac:(lia)) as C2.
  pose proof (H 3%nat b3 ltac:(by rewrite Ek) ltac:(lia)) as C3. clear H Hc.
  unfold ref_window. set (c0 := chip signal n 0) in *. set (c1 := chip signal n 1) in *.
  set (c2 := chip signal n 2) in *. set (c3 := chip signal n 3) in *. clearbody c0 c1 c2 c3.
  rewrite !Z.mul_sub_distr_r, !Z.mul_add_distr_r in *.
  assert (4 * (e * N) < hi * N - lo * N /\ 0 <= e * N) as [M1 M2] by nia.
  assert (d = 0 \/ d = 1 \/ d = 2 \/ d = 3 \/ d = 4 \/ d = 5) as Hcases by lia.
  unfold ref_symbol.
  destruct Hcases as [->|[->|[->|[->|[->| ->]]]]]; cbn in Ek; injection Ek as <- <- <- <-; cbn [level] in *;
    set (hN := hi * N) in *; set (lN := lo * N) in *; set (eN := e * N) in *; clearbody hN lN eN;
    repeat match goal with
    | |- context [Z.abs ?a <=? Z.abs ?b] => destruct (Z.leb_spec (Z.abs a) (Z.abs b)); try lia; cbn [andb]
    | |- context [0 <? ?v] => destruct (Z.ltb_spec 0 v); try lia
    end; lia.
Qed.

(** ** The message layout *)

(** The 80 payload bits as one number, and the message they spell. *)
Definition payload_number (m : R900) : Z :=
  ((((((ID m * 2 ^ 8 + Unkn1 m) * 2 ^ 6 + NoUse m) * 2 ^ 2 + BackFlow m) * 2 ^ 24 + Consumption m) * 2 ^ 2
    + Unkn3 m) * 2 ^ 4 + Leak m) * 2 ^ 2 + LeakNow m.

Definition r900_of (symbols : list Z) : R900 :=
  let N := of_digits 5 (take 16 symbols) in
  {| ID := N / 2 ^ 48; Unkn1 := N / 2 ^ 40 mod 2 ^ 8; NoUse := N / 2 ^ 34 mod 2 ^ 6;
     BackFlow := N / 2 ^ 32 mod 2 ^ 2; Consumption := N / 2 ^ 8 mod 2 ^ 24; Unkn3 := N / 2 ^ 6 mod 2 ^ 2;
     Leak := N / 2 ^ 2 mod 2 ^ 4; LeakNow := N mod 2 ^ 2; checksum := drop 16 symbols |}.

Lemma foldl_lor_digits (w : Z) l :
  Forall is_symbol l -> 5 * len l <= w ->
  foldl (fun a s => Z.lor (wrap_u w (Z.shiftl a 5)) s) 0 l = of_digits 5 l.
Proof.
  induction l as [|s l IH] using rev_ind; [done|]. intros [Hl [Hs _]%Forall_cons]%Forall_app Hw.
  rewrite len_app in Hw. change (len [s]) with 1 in Hw. rewrite foldl_app. cbn [foldl].
  rewrite IH by (done || lia). unfold of_digits at 2. rewrite foldl_app. cbn [foldl]. fold (of_digits 5 l).
  pose proof (of_digits_range 5 l ltac:(lia) Hl) as R.
  rewrite wrap_u_id; [apply lor_disjoint_add; [lia|done]|].
  rewrite Z.shiftl_mul_pow2 by lia. unfold is_uint. split; [lia|].
  apply Z.lt_le_trans with (2 ^ (5 * len l) * 2 ^ 5); [nia|].
  rewrite <- Z.pow_add_r by (pose proof (len_nonneg l); lia). apply Z.pow_le_mono_r; lia.
Qed.

(** Division and remainder by powers of two, one inside the other. *)
Lemma div_div_pow N a b : 0 <= a -> 0 <= b -> N / 2 ^ a / 2 ^ b = N / 2 ^ (a + b).
Proof.
  intros Ha Hb. rewrite Z.pow_add_r by lia. apply Z.div_div; [apply Z.pow_nonzero; lia|].
  apply Z.pow_pos_nonneg; lia.
Qed.

Lemma mod_mod_pow N a b : 0 <= b <= a -> (N mod 2 ^ a) mod 2 ^ b = N mod 2 ^ b.
Proof.
  intros H. apply Z.bits_inj'. intros i Hi. rewrite !Z.testbit_mod_pow2 by lia.
  destruct (Z.ltb_spec i b), (Z.ltb_spec i a); try done; lia.
Qed.

Lemma mod_div_pow N a b : 0 <= b <= a -> (N mod 2 ^ a) / 2 ^ b = (N / 2 ^ b) mod 2 ^ (a - b).
Proof.
  intros H. rewrite <- !Z.shiftr_div_pow2 by lia. apply Z.bits_inj'. intros i Hi.
  rewrite Z.shiftr_spec, !Z.testbit_mod_pow2, Z.shiftr_spec by lia.
  destruct (Z.ltb_spec (i + b) a), (Z.ltb_spec i (a - b)); try done; lia.
Qed.

Lemma r900FromSymbols_spec symbols :
  length symbols = 21%nat -> Forall is_symbol symbols ->
  r900FromSymbols symbols = Some (r900_of symbols).
Proof.
  intros Hl Hs. assert (len symbols = 21) as Hlen by (unfold len; lia).
  unfold r900FromSymbols. rewrite !slice_ok by lia. cbn [mbind option_bind]. rewrite Hlen.
  change (Z.to_nat (12 - 0)) with 12%nat. change (Z.to_nat 0) with 0%nat. change (Z.to_nat (16 - 12)) with 4%nat.
  change (Z.to_nat 12) with 12%nat. change (Z.to_nat (21 - 16)) with 5%nat. change (Z.to_nat 16) with 16%nat.
  rewrite drop_0. unfold u64, u32, u8.
  assert (len (take 12 symbols) = 12 /\ len (take 4 (drop 12 symbols)) = 4) as [L12 L4]
    by (unfold len; rewrite !length_take, length_drop; lia).
  rewrite !foldl_lor_digits by first [solve [auto with go] | rewrite ?L12, ?L4; lia].
  set (high := of_digits 5 (take 12 symbols)). set (low := of_digits 5 (take 4 (drop 12 symbols))).
  assert (0 <= high < 2 ^ 60) as Rh.
  { pose proof (of_digits_range 5 (take 12 symbols) ltac:(lia) ltac:(auto with go)) as R. by rewrite L12 in R. }
  assert (0 <= low < 2 ^ 20) as Rl.
  { pose proof (of_digits_range 5 (take 4 (drop 12 symbols)) ltac:(lia) ltac:(auto with go)) as R. by rewrite L4 in R. }
  assert (of_digits 5 (take 16 symbols) = high * 2 ^ 20 + low) as EN.
  { change 16%nat with (12 + 4)%nat. rewrite <- take_take_drop, of_digits_app by lia. by rewrite L4. }
  unfold r900_of. rewrite EN. f_equal.
  assert (forall k, 20 <= k -> (high * 2 ^ 20 + low) / 2 ^ k = high / 2 ^ (k - 20)) as Hhi.
  { intros k Hk. replace k with (20 + (k - 20)) at 1 by lia. rewrite <- div_div_pow by lia.
    by rewrite Z.div_add_l, (Z.div_small low), Z.add_0_r by lia. }
  assert (forall k w, 0 <= k -> 0 <= w -> k + w <= 20 ->
    (high * 2 ^ 20 + low) / 2 ^ k mod 2 ^ w = low / 2 ^ k mod 2 ^ w) as Hlo.
  { intros k w Hk Hw Hkw. replace w with (20 - k - (20 - k - w)) by lia.
    rewrite <- (mod_mod_pow _ (20 - k)) by lia. rewrite <- mod_div_pow by lia.
    rewrite Z.add_comm, Z.mod_add, (Z.mod_small low) by lia. done. }
  unfold wrap_u.
  change 0x3f with (Z.ones 6). change 0x03 with (Z.ones 2). change 0x0f with (Z.ones 4). change 0x0fff with (Z.ones 12).
  rewrite !Z.land_ones, !Z.shiftr_div_pow2, !mod_mod_pow by lia.
  assert (is_uint 32 (high / 2 ^ 28)) as R32.
  { uints. split; [apply Z.div_pos; lia|apply Z.div_lt_upper_bound; lia]. }
  f_equal.
  - rewrite Hhi by lia. by apply Z.mod_small.
  - by rewrite Hhi by lia.
  - by rewrite Hhi by lia.
  - by rewrite Hhi by lia.
  - pose proof (Z.mod_pos_bound high (2 ^ 12) ltac:(lia)) as R12.
    rewrite (Z.mod_small (high mod 2 ^ 12)) by lia.
    rewrite Z.shiftl_mul_pow2, Z.mod_small by lia. rewrite <- Z.shiftl_mul_pow2 by lia.
    rewrite lor_disjoint_add; [|lia|uints; split; [apply Z.div_pos; lia|apply Z.div_lt_upper_bound; lia]].
    replace 24 with (32 - 8) by lia. rewrite <- mod_div_pow by lia.
    replace (high * 2 ^ 20 + low) with (((high mod 2 ^ 12) * 2 ^ 20 + low) + high / 2 ^ 12 * 2 ^ 32)
      by (rewrite (Z.div_mod high (2 ^ 12)) at 3 by lia; uints; ring).
    rewrite Z.mod_add, (Z.mod_small (high mod 2 ^ 12 * 2 ^ 20 + low)) by (uints; lia).
    replace ((high mod 2 ^ 12) * 2 ^ 20 + low) with (((high mod 2 ^ 12) * 2 ^ 12) * 2 ^ 8 + low) by (uints; ring).
    by rewrite Z.div_add_l by lia.
  - by rewrite mod_mod_pow, Hlo by lia.
  - by rewrite mod_mod_pow, Hlo by lia.
  - pose proof (Hlo 0 2 ltac:(lia) ltac:(lia) ltac:(lia)) as E. change (2 ^ 0) with 1 in E.
    rewrite !Z.div_1_r in E. by rewrite mod_mod_pow, E by lia.
  - rewrite take_ge by (rewrite length_drop; lia). apply gocopy_eq. rewrite length_drop. simpl. lia.
Qed.

(** ** The candidate loop *)

(** The 21 symbols of 42 quantizer decisions. *)
Definition symbols_of (d : nat -> Z) : list Z := map (fun i => 6 * d (2 * i)%nat + d (2 * i + 1)%nat) (seq 0 21).

(** The code word of 21 received symbols: ten symbols of the length-31 code are
    not transmitted. *)
Definition codeword (symbols : list Z) : list Z := take 16 symbols ++ make 10 0 ++ drop 16 symbols.

(** The symbol vectors that become messages. *)
Definition r900_accept (symbols : list Z) : option AnyMessage :=
  if forallb (fun s => s <=? 31) symbols &&
     bool_decide (Syndrome r900_field (codeword symbols) 5 29 = Some [0; 0; 0; 0; 0])
  then Some (AnR900 (r900_of symbols)) else None.

(** The buffer of the parity check between two candidates. *)
Definition rs_ok (rsBuf : list Z) : Prop := exists a b, rsBuf = a ++ make 10 0 ++ b /\ length a = 16%nat /\ length b = 5%nat.

Lemma rs_load rsBuf a b :
  rs_ok rsBuf -> length a = 16%nat -> length b = 5%nat ->
  take 26 (gocopy rsBuf a) ++ gocopy (drop 26 (gocopy rsBuf a)) b = a ++ make 10 0 ++ b.
Proof.
  intros (a0 & b0 & -> & Ha0 & Hb0) Ha Hb.
  assert (gocopy (a0 ++ make 10 0 ++ b0) a = (a ++ make 10 0) ++ b0) as ->.
  { unfold gocopy. rewrite take_ge by (rewrite length_app; lia). rewrite <- app_assoc. f_equal.
    rewrite drop_app_ge, Ha, Ha0 by lia. by rewrite Nat.sub_diag, drop_0. }
  assert (length (a ++ make 10 0) = 26%nat) as H26 by (rewrite length_app, Ha; done).
  rewrite take_app_le, take_ge, drop_app_ge, H26, Nat.sub_diag, drop_0 by lia.
  rewrite gocopy_eq by lia. by rewrite <- app_assoc.
Qed.

Section Candidates.
Context `{QuantizerPlatform} (p : Parser).

(** The 42 decisions of a candidate. *)
Definition decided (c : Z) (d : nat -> Z) : Prop :=
  forall i, (i < 42)%nat ->
    quantizeSignalAt p (c + PreambleLength (cfg p) - SymbolLength (cfg p) + ChipLength (cfg p) * 4 * Z.of_nat i) = Some (d i) /\
    0 <= d i < 6.

Ltac offsets :=
  rewrite ?Nat2Z.inj_add, ?Nat2Z.inj_mul, ?Nat2Z.inj_succ; change (Z.of_nat 2) with 2; change (Z.of_nat 1) with 1; ring.

Lemma symbol_loop base d n k :
  (forall i, (i < 42)%nat -> quantizeSignalAt p (base + ChipLength (cfg p) * 4 * Z.of_nat i) = Some (d i) /\ 0 <= d i < 6) ->
  (k + n = 21)%nat ->
  foldM (symbol_step p (ChipLength (cfg p)))
    (base + ChipLength (cfg p) * 8 * Z.of_nat k, negb (forallb (fun s => s <=? 31) (take k (symbols_of d))),
     take k (symbols_of d) ++ replicate n 0) (map Z.of_nat (seq k n)) =
  Some (base + ChipLength (cfg p) * 8 * 21, negb (forallb (fun s => s <=? 31) (symbols_of d)), symbols_of d).
Proof.
  intros Hd. assert (length (symbols_of d) = 21%nat) as Hl by done.
  revert k. induction n as [|n IH]; intros k Hk.
  { assert (k = 21%nat) as -> by lia. cbn [seq map foldM]. rewrite take_ge by lia. by rewrite app_nil_r. }
  cbn [seq map foldM symbol_step].
  destruct (Hd (2 * k)%nat ltac:(lia)) as [E1 R1], (Hd (2 * k + 1)%nat ltac:(lia)) as [E2 R2].
  replace (base + ChipLength (cfg p) * 8 * Z.of_nat k) with (base + ChipLength (cfg p) * 4 * Z.of_nat (2 * k)) by offsets.
  rewrite E1. cbn [mbind option_bind].
  replace (base + ChipLength (cfg p) * 4 * Z.of_nat (2 * k) + ChipLength (cfg p) * 4)
    with (base + ChipLength (cfg p) * 4 * Z.of_nat (2 * k + 1)) by offsets.
  rewrite E2. cbn [mbind option_bind]. unfold u8. rewrite (wrap_u_id 8 (d (2 * k)%nat * 6)), wrap_u_id by (uints; lia).
  set (s := d (2 * k)%nat * 6 + d (2 * k + 1)%nat).
  assert (symbols_of d !! k = Some s) as Hs.
  { unfold symbols_of. rewrite list_lookup_fmap, lookup_seq_lt by lia. cbn [fmap option_fmap option_map Nat.add]. f_equal. subst s. ring. }
  rewrite store_next by (unfold len; rewrite ?length_take; lia). cbn [mbind option_bind pred].
  rewrite <- (take_S_r _ _ _ Hs).
  replace (if 31 <? s then true else negb (forallb (fun s => s <=? 31) (take k (symbols_of d))))
    with (negb (forallb (fun s => s <=? 31) (take (S k) (symbols_of d)))).
  2: { rewrite (take_S_r _ _ _ Hs), forallb_app. cbn [forallb]. rewrite andb_true_r, Z.leb_antisym.
       by destruct (31 <? s); cbn [negb]; [rewrite andb_false_r|rewrite andb_true_r]. }
  replace (base + ChipLength (cfg p) * 4 * Z.of_nat (2 * k) + ChipLength (cfg p) * 8)
    with (base + ChipLength (cfg p) * 8 * Z.of_nat (S k)) by offsets.
  apply IH. lia.
Qed.

Lemma symbols_of_range c d : decided c d -> Forall (fun s => 0 <= s) (symbols_of d).
Proof.
  intros Hd. unfold symbols_of. apply Forall_fmap, Forall_forall. intros i Hi%elem_of_seq. cbn [compose].
  pose proof (Hd (2 * i)%nat ltac:(lia)) as [_ ?]. pose proof (Hd (2 * i + 1)%nat ltac:(lia)) as [_ ?]. lia.
Qed.

Lemma or_zero a b : Z.lor a b = 0 <-> a = 0 /\ b = 0.
Proof using. apply Z.lor_eq_0_iff. Qed.

(** What one candidate does. *)
Lemma candidate_step_spec c d rs sn :
  field p = r900_field -> rs_ok rs -> decided c d ->
  exists rs' sn', rs_ok rs' /\
    (forall x, forallb (fun s => s <=? 31) x = true -> x ∈ sn' <-> x = symbols_of d \/ x ∈ sn) /\
    candidate_step p (rs, sn) c =
    Some (rs', sn', if decide (symbols_of d ∈ sn) then None
                    else match r900_accept (symbols_of d) with Some (AnR900 m) => Some m | _ => None end).
Proof.
  intros Hf Hrs Hd. pose proof (symbols_of_range c d Hd) as Hpos. unfold candidate_step.
  pose proof (symbol_loop _ d 21 0 Hd eq_refl) as E. rewrite Z.mul_0_r, Z.add_0_r in E.
  change (map Z.of_nat (seq 0 21)) with (seqZ 0 21) in E.
  rewrite take_0 in E. cbn [app forallb negb] in E. change (replicate 21 0) with (make 21 0) in E.
  rewrite E. cbn [mbind option_bind]. clear E. set (x := symbols_of d) in *.
  assert (length x = 21%nat) as Hx by done. clearbody x.
  unfold r900_accept. destruct (forallb _ x) eqn:Hgood; cbn [negb andb].
  2: { exists rs, sn. split; [done|]. split; [|by destruct (decide (x ∈ sn))].
       intros y Hy. split; [auto|]. intros [->|]; [congruence|done]. }
  destruct (decide (x ∈ sn)) as [Hin|Hin].
  { exists rs, sn. split; [done|]. split; [|done]. intros y _. split; [auto|]. by intros [->|]. }
  rewrite !slice_ok by (unfold len; lia). cbn [mbind option_bind].
  replace (Z.to_nat (len x - 16)) with 5%nat by (unfold len; lia).
  change (Z.to_nat (16 - 0)) with 16%nat. change (Z.to_nat 0) with 0%nat. change (Z.to_nat 16) with 16%nat.
  rewrite drop_0, (take_ge (drop 16 x)) by (rewrite length_drop; lia).
  rewrite rs_load by (done || rewrite ?length_take, ?length_drop; lia).
  fold (codeword x). rewrite Hf.
  assert (Forall is_symbol x) as Hsym.
  { apply Forall_forall. intros y Hy. rewrite forallb_forall in Hgood. rewrite Forall_forall in Hpos.
    pose proof (Hpos y Hy). pose proof (Hgood y ltac:(by apply list_elem_of_In)) as Hle.
    apply Z.leb_le in Hle. uints. lia. }
  assert (Forall is_symbol (codeword x)) as Hcw.
  { unfold codeword. rewrite !Forall_app. split; [by apply Forall_take|]. split; [|by apply Forall_drop].
    apply uintsb_Forall. reflexivity. }
  assert (length (codeword x) = 31%nat) as Hlcw
    by (unfold codeword; rewrite !length_app, length_take, length_drop, Hx; done).
  rewrite Syndrome_r900 by (done || unfold len; lia). cbn [mbind option_bind map].
  set (s0 := psum _ 29). set (s1 := psum _ 30). set (s2 := psum _ 31). set (s3 := psum _ 32). set (s4 := psum _ 33).
  change (index [s0; s1; s2; s3; s4] 0) with (Some s0). change (index [s0; s1; s2; s3; s4] 1) with (Some s1).
  change (index [s0; s1; s2; s3; s4] 2) with (Some s2). change (index [s0; s1; s2; s3; s4] 3) with (Some s3).
  change (index [s0; s1; s2; s3; s4] 4) with (Some s4). cbn [mbind option_bind].
  exists (codeword x), ({[x]} ∪ sn). split; [|split].
  - exists (take 16 x), (drop 16 x). rewrite length_take, length_drop, Hx. done.
  - intros y _. rewrite elem_of_union, elem_of_singleton. done.
  - destruct (bool_decide_reflect (Some [s0; s1; s2; s3; s4] = Some [0; 0; 0; 0; 0])) as [E|E].
    + injection E as -> -> -> -> ->. cbn [Z.lor Z.eqb negb]. by rewrite r900FromSymbols_spec.
    + destruct (Z.eqb_spec (Z.lor (Z.lor (Z.lor (Z.lor s0 s1) s2) s3) s4) 0) as [E0|]; [|done].
      rewrite !or_zero in E0. destruct E0 as [[[[-> ->] ->] ->] ->]. done.
Qed.

(** The indices the loop looks at. *)
Fixpoint in_block (indices : list Z) : list Z :=
  match indices with
  | [] => []
  | c :: indices => if BlockSize (cfg p) <? c then [] else c :: in_block indices
  end.

Lemma candidate_loop_spec (d : Z -> nat -> Z) rs sn spec indices messages :
  field p = r900_field -> rs_ok rs -> Forall (fun c => decided c (d c)) (in_block indices) ->
  (forall x, forallb (fun s => s <=? 31) x = true -> x ∈ sn <-> x ∈ spec) ->
  exists rs' sn', rs_ok rs' /\
    candidate_loop p rs sn indices messages =
    Some (rs', sn', messages ++ omap r900_accept (distinct spec (map (fun c => symbols_of (d c)) (in_block indices)))).
Proof.
  intros Hf. revert rs sn spec messages.
  induction indices as [|c indices IH]; intros rs sn spec messages Hrs Hd Hsn; cbn [candidate_loop in_block] in *.
  { exists rs, sn. by rewrite app_nil_r. }
  destruct (BlockSize (cfg p) <? c). { exists rs, sn. by rewrite app_nil_r. }
  apply Forall_cons in Hd as [Hc Hd].
  destruct (candidate_step_spec c (d c) rs sn Hf Hrs Hc) as (rs1 & sn1 & Hrs1 & Hsn1 & ->).
  cbn [mbind option_bind map distinct]. set (x := symbols_of (d c)) in *.
  destruct (forallb (fun s => s <=? 31) x) eqn:Hgood.
  - destruct (decide (x ∈ sn)) as [Hin|Hin].
    + rewrite decide_True by by apply Hsn. apply IH; [done..|]. intros y Hy. rewrite Hsn1, Hsn by done.
      split; [|by right]. intros [->|]; [by apply Hsn|done].
    + rewrite decide_False by by rewrite <- Hsn. cbn [omap list_omap].
      assert (forall y, forallb (fun s => s <=? 31) y = true -> y ∈ sn1 <-> y ∈ {[x]} ∪ spec) as Hsn'.
      { intros y Hy. rewrite Hsn1, Hsn, elem_of_union, elem_of_singleton by done. done. }
      destruct (r900_accept x) as [[m|m|m]|] eqn:Er; try (unfold r900_accept in Er; by destruct (_ && _)).
      * destruct (IH rs1 sn1 _ (messages ++ [AnR900 m]) Hrs1 Hd Hsn') as (rs' & sn' & Hrs' & E).
        exists rs', sn'. split; [done|]. by rewrite E, <- app_assoc.
      * by apply IH.
  - assert (r900_accept x = None) as Ex by (unfold r900_accept; by rewrite Hgood).
    rewrite Ex. replace (match (if decide (x ∈ sn) then None else None) with Some m => messages ++ [AnR900 m] | None => messages end)
      with messages by by destruct (decide (x ∈ sn)).
    destruct (decide (x ∈ spec)) as [Hin|Hin].
    + apply IH; [done..|]. intros y Hy. rewrite Hsn1, Hsn by done. split; [|by right]. by intros [->|].
    + cbn [omap list_omap]. rewrite Ex. apply IH; [done..|]. intros y Hy.
      rewrite Hsn1, Hsn, elem_of_union, elem_of_singleton by done. done.
Qed.
End Candidates.

(** ** Decisions are symbols digits *)

Lemma quantizePower16Symbol_range v0 v1 v2 : 0 <= quantizePower16Symbol v0 v1 v2 < 6.
Proof.
  unfold quantizePower16Symbol.
  repeat (cbv beta iota zeta; match goal with |- context [if ?b then _ else _] => destruct b end); split; vm_compute; congruence.
Qed.

Lemma quantizeSymbol_range v0 v1 v2 : 0 <= quantizeSymbol v0 v1 v2 < 6.
Proof.
  unfold quantizeSymbol.
  repeat (cbv beta iota zeta; match goal with |- context [if ?b then _ else _] => destruct b end); split; vm_compute; congruence.
Qed.

Lemma quantizePower16WindowGo_range signal n v : quantizePower16WindowGo signal n = Some v -> 0 <= v < 6.
Proof.
  unfold quantizePower16WindowGo. intros H. do 4 apply bind_Some in H as (? & _ & H).
  injection H as <-. apply quantizePower16Symbol_range.
Qed.

Lemma chip_sum_total signal start n : 0 <= start -> start + n <= len signal -> is_Some (chip_sum signal start n).
Proof.
  intros Hs Hl. apply foldM_is_Some. intros acc i Hi%elem_of_seqZ. destruct (index_lt signal (start + i) ltac:(lia)) as [x ->]. by eexists.
Qed.

Lemma quantizePower16WindowGo_total signal n : 0 <= n -> 4 * n <= len signal -> is_Some (quantizePower16WindowGo signal n).
Proof.
  intros Hn Hl. unfold quantizePower16WindowGo.
  destruct (chip_sum_total signal (0 * n) n ltac:(lia) ltac:(lia)) as [c0 ->], (chip_sum_total signal (1 * n) n ltac:(lia) ltac:(lia)) as [c1 ->],
    (chip_sum_total signal (2 * n) n ltac:(lia) ltac:(lia)) as [c2 ->], (chip_sum_total signal (3 * n) n ltac:(lia) ltac:(lia)) as [c3 ->]. by eexists.
Qed.

Lemma quantizePower16Window_Go `{QuantizerPlatform} signal n :
  quantizePower16Window signal n = quantizePower16WindowGo signal n.
Proof.
  unfold quantizePower16Window. destruct (Z.eqb_spec n 72) as [->|]; [|done].
  destruct (Z.leb_spec (72 * 4) (len signal)); [|done]. cbn [andb].
  destruct (nativeAvailable _) eqn:E; [|done]. by apply run_agrees.
Qed.

Lemma quantizeSignalAt_range `{QuantizerPlatform} p idx v : quantizeSignalAt p idx = Some v -> 0 <= v < 6.
Proof.
  unfold quantizeSignalAt, quantizePower16At. destruct (powerHistory p) as [h|].
  - destruct (h _ _) as [s|]; cbn [mbind option_bind]; [|done]. rewrite quantizePower16Window_Go.
    apply quantizePower16WindowGo_range.
  - destruct (Decoder p) as [d|]; cbn [mbind option_bind]; [|done].
    intros H0. apply bind_Some in H0 as (s & _ & H0). do 4 apply bind_Some in H0 as (? & _ & H0).
    injection H0 as <-. apply quantizeSymbol_range.
Qed.

(** Decision [i] of candidate [c]. *)
Definition position (p : Parser) (c : Z) (i : nat) : Z :=
  c + PreambleLength (cfg p) - SymbolLength (cfg p) + ChipLength (cfg p) * 4 * Z.of_nat i.

Definition decision `{QuantizerPlatform} (p : Parser) (c : Z) (i : nat) : Z :=
  default 0 (quantizeSignalAt p (position p c i)).

Definition with_scratch (p : Parser) (rs : list Z) (sn : gset (list Z)) : Parser :=
  {| Decoder := Decoder p; cfg := cfg p; field := field p; rsBuf := rs; powerHistory := powerHistory p;
     seen := sn; candidateIdx := candidateIdx p; once := once p |}.

Lemma ParseCandidateIndices_spec `{QuantizerPlatform} p p1 indices messages :
  once_Do p = Some p1 -> field p1 = r900_field -> rs_ok (rsBuf p1) ->
  Forall (fun c => forall i, (i < 42)%nat -> is_Some (quantizeSignalAt p1 (position p1 c i))) (in_block p1 indices) ->
  exists rs sn, rs_ok rs /\
    ParseCandidateIndices p indices messages =
    Some (with_scratch p1 rs sn,
          messages ++ omap r900_accept (distinct ∅ (map (fun c => symbols_of (decision p1 c)) (in_block p1 indices)))).
Proof.
  intros Ho Hf Hrs Hw. unfold ParseCandidateIndices. rewrite Ho. cbn [mbind option_bind].
  destruct (candidate_loop_spec p1 (decision p1) (rsBuf p1) ∅ ∅ indices messages Hf Hrs) as (rs & sn & Hrs' & E).
  - eapply Forall_impl; [exact Hw|]. intros c Hc i Hi. unfold decision, position in *.
    destruct (Hc i Hi) as [v Hv]. rewrite Hv. cbn. split; [done|]. by eapply quantizeSignalAt_range.
  - done.
  - exists rs, sn. split; [done|]. by rewrite E.
Qed.

(** ** Transmission *)

Record r900_ok (m : R900) : Prop := {
  ok_ID : is_uint 32 (ID m); ok_Unkn1 : is_uint 8 (Unkn1 m); ok_NoUse : is_uint 6 (NoUse m);
  ok_BackFlow : is_uint 2 (BackFlow m); ok_Con : is_uint 24 (Consumption m); ok_Unkn3 : is_uint 2 (Unkn3 m);
  ok_Leak : is_uint 4 (Leak m); ok_LeakNow : is_uint 2 (LeakNow m);
  ok_sum : length (checksum m) = 5%nat /\ Forall is_symbol (checksum m) }.

(** The 21 symbols of a message: 80 payload bits, then the five check symbols. *)
Definition symbols_to_send (m : R900) : list Z := to_digits 5 16 (payload_number m) ++ checksum m.

Lemma fields_of_number i u n b c u3 l ln :
  is_uint 32 i -> is_uint 8 u -> is_uint 6 n -> is_uint 2 b -> is_uint 24 c -> is_uint 2 u3 -> is_uint 4 l -> is_uint 2 ln ->
  let N := ((((((i * 2 ^ 8 + u) * 2 ^ 6 + n) * 2 ^ 2 + b) * 2 ^ 24 + c) * 2 ^ 2 + u3) * 2 ^ 4 + l) * 2 ^ 2 + ln in
  N / 2 ^ 48 = i /\ N / 2 ^ 40 mod 2 ^ 8 = u /\ N / 2 ^ 34 mod 2 ^ 6 = n /\ N / 2 ^ 32 mod 2 ^ 2 = b /\
  N / 2 ^ 8 mod 2 ^ 24 = c /\ N / 2 ^ 6 mod 2 ^ 2 = u3 /\ N / 2 ^ 2 mod 2 ^ 4 = l /\ N mod 2 ^ 2 = ln.
Proof.
  intros Hi Hu Hn Hb Hc Hu3 Hl Hln N.
  assert (forall q r k, is_uint k r -> 0 <= k -> (q * 2 ^ k + r) / 2 ^ k = q /\ (q * 2 ^ k + r) mod 2 ^ k = r) as D.
  { intros q r k Hr Hk. assert (0 < 2 ^ k) by (apply Z.pow_pos_nonneg; lia).
    split; [rewrite Z.div_add_l, Z.div_small by (unfold is_uint in Hr; lia); lia|].
    rewrite Z.add_comm, Z.mod_add, Z.mod_small by (unfold is_uint in Hr; lia). done. }
  assert (forall k j kj, kj = k + j -> 0 <= k -> 0 <= j -> N / 2 ^ kj = N / 2 ^ k / 2 ^ j) as S
    by (intros k j kj ->; intros; by rewrite div_div_pow).
  rewrite (S 40 8 48), (S 34 6 40), (S 32 2 34), (S 8 24 32), (S 6 2 8), (S 2 4 6) by lia. subst N.
  destruct (D (((((((i * 2 ^ 8 + u) * 2 ^ 6 + n) * 2 ^ 2 + b) * 2 ^ 24 + c) * 2 ^ 2 + u3) * 2 ^ 4 + l)) ln 2 Hln) as [-> ->]; [lia|].
  destruct (D ((((((i * 2 ^ 8 + u) * 2 ^ 6 + n) * 2 ^ 2 + b) * 2 ^ 24 + c) * 2 ^ 2 + u3)) l 4 Hl) as [-> ->]; [lia|].
  destruct (D (((((i * 2 ^ 8 + u) * 2 ^ 6 + n) * 2 ^ 2 + b) * 2 ^ 24 + c)) u3 2 Hu3) as [-> ->]; [lia|].
  destruct (D ((((i * 2 ^ 8 + u) * 2 ^ 6 + n) * 2 ^ 2 + b)) c 24 Hc) as [-> ->]; [lia|].
  destruct (D (((i * 2 ^ 8 + u) * 2 ^ 6 + n)) b 2 Hb) as [-> ->]; [lia|].
  destruct (D ((i * 2 ^ 8 + u)) n 6 Hn) as [-> ->]; [lia|].
  destruct (D i u 8 Hu) as [-> ->]; [lia|]. done.
Qed.

Lemma payload_range m : r900_ok m -> is_uint 80 (payload_number m).
Proof. intros []. unfold payload_number. uints. lia. Qed.

Lemma r900_of_sent m : r900_ok m -> r900_of (symbols_to_send m) = m.
Proof.
  intros Hok. pose proof (payload_range m Hok) as HN. unfold r900_of, symbols_to_send.
  rewrite take_app_le, take_ge, drop_app_ge by (rewrite length_to_digits; lia).
  rewrite length_to_digits, Nat.sub_diag, drop_0, of_to_digits_id by (lia || exact HN).
  pose proof (fields_of_number (ID m) (Unkn1 m) (NoUse m) (BackFlow m) (Consumption m) (Unkn3 m) (Leak m) (LeakNow m))
    as F. fold (payload_number m) in F. destruct F as (E1 & E2 & E3 & E4 & E5 & E6 & E7 & E8); [apply Hok..|].
  rewrite E1, E2, E3, E4, E5, E6, E7, E8. by destruct m.
Qed.

(** The base-six digits of symbols. *)
Definition sent_digit (symbols : list Z) (i : nat) : Z :=
  let s := nth (i / 2) symbols 0 in if Nat.even i then s / 6 else s mod 6.

Lemma sent_digit_range symbols i : Forall is_symbol symbols -> 0 <= sent_digit symbols i < 6.
Proof.
  intros Hs. unfold sent_digit. assert (0 <= nth (i / 2) symbols 0 < 32) as R.
  { destruct (nth_in_or_default (i / 2) symbols 0) as [Hin| ->]; [|lia].
    rewrite Forall_forall in Hs. apply list_elem_of_In, Hs in Hin. by uints. }
  destruct (Nat.even i); [|by apply Z.mod_pos_bound].
  split; [apply Z.div_pos; lia|]. apply Z.div_lt_upper_bound; lia.
Qed.

Lemma symbols_of_sent symbols : length symbols = 21%nat -> symbols_of (sent_digit symbols) = symbols.
Proof.
  intros Hl. apply (list_eq_same_length _ _ 21); [done|done|]. intros i x y Hi Hx Hy.
  unfold symbols_of in Hx. rewrite list_lookup_fmap, lookup_seq_lt in Hx by lia. injection Hx as <-.
  unfold sent_digit. replace (i + (i + 0))%nat with (2 * i)%nat by lia.
  assert (Nat.even (2 * i) = true) as -> by (apply Nat.even_spec; by exists i).
  assert (Nat.even (2 * i + 1) = false) as -> by (by rewrite Nat.add_1_r, Nat.even_succ, Nat.odd_mul, andb_false_l).
  rewrite (Nat.mul_comm 2 i), Nat.div_mul, Nat.div_add_l, Nat.add_0_r by lia.
  rewrite (nth_lookup_Some _ _ _ _ Hy). pose proof (Z.div_mod y 6). lia.
Qed.

(** ** Properties *)

(** The integer quantizer recognises all six waveforms with a noise margin:
    if every sample of a window of 16-bit samples is within [e] of its chip's
    level and the levels are more than [4 e] apart, the decision is the symbol
    that was sent, for every chip length up to 8191 (no int32 sum wraps) and
    whatever backend the process selected. *)
Theorem quantizer_noise_margin `{QuantizerPlatform} (signal : list Z) (n : nat) (d hi lo e : Z)
  (Hsamples : Forall (is_uint 16) signal) (Hn : 0 < Z.of_nat n <= 8191) (Hlen : (4 * n <= length signal)%nat)
  (Hd : 0 <= d < 6) (He : 0 <= e) (Hmargin : 4 * e < hi - lo) (Hcarries : carries signal n d hi lo e) :
  quantizePower16Window signal (Z.of_nat n) = Some d.
Proof.
  rewrite quantizePower16Window_Go, (quantizePower16WindowGo_spec signal n 65535);
    [|eapply Forall_impl; [exact Hsamples|]; intros x Hx; uints; lia|unfold len; lia|lia|lia].
  f_equal. apply (ref_window_carries signal n d hi lo e); (done || lia).
Qed.

(** A checker for [carries] on concrete samples. *)
Definition carriesb (signal : list Z) (n : nat) (d hi lo e : Z) : bool :=
  forallb (fun k => match kernel d !! k with
    | Some b => forallb (fun x => (level hi lo b - e <=? x) && (x <=? level hi lo b + e)) (take n (drop (k * n) signal))
    | None => true end) (seq 0 4).

Lemma carriesb_carries signal n d hi lo e : carriesb signal n d hi lo e = true -> carries signal n d hi lo e.
Proof.
  intros Hb k b Hk. unfold carriesb in Hb. rewrite forallb_forall in Hb.
  assert (k < 4)%nat as Hk4.
  { apply lookup_lt_Some in Hk. unfold kernel in Hk. repeat case_match; exact Hk. }
  specialize (Hb k ltac:(apply in_seq; lia)). rewrite Hk, forallb_forall in Hb.
  apply Forall_forall. intros x Hx. apply list_elem_of_In, Hb, andb_prop in Hx as [?%Z.leb_le ?%Z.leb_le]. lia.
Qed.

Lemma quantizer_noise_margin_witness :
  @quantizePower16Window portable_quantizer [310; 290; 12; 0; 305; 300; 7; 3] 2 = Some 4.
Proof.
  apply (@quantizer_noise_margin portable_quantizer [310; 290; 12; 0; 305; 300; 7; 3] 2 4 300 5 10).
  - apply uintsb_Forall. reflexivity.
  - lia.
  - simpl. lia.
  - lia.
  - lia.
  - lia.
  - apply carriesb_carries. reflexivity.
Defined.

(** C28. [ParseCandidateIndices] never panics when the sample history serves every
    window it asks for, keeps the parity buffer well formed for the next call,
    and appends exactly one message for each distinct vector of 21 five-bit
    symbols that is a Reed-Solomon code word, in order of first occurrence, for
    the candidates up to the first one beyond the block. *)
Theorem r900_appends_codewords `{QuantizerPlatform} (p p1 : Parser) (indices : list Z) (messages : list AnyMessage)
  (Honce : once_Do p = Some p1) (Hfield : field p1 = r900_field) (Hrs : rs_ok (rsBuf p1))
  (Hwindows : Forall (fun c => forall i, (i < 42)%nat -> is_Some (quantizeSignalAt p1 (position p1 c i)))
                     (in_block p1 indices)) :
  exists rs sn, rs_ok rs /\
    ParseCandidateIndices p indices messages =
    Some (with_scratch p1 rs sn,
          messages ++ omap r900_accept (distinct ∅ (map (fun c => symbols_of (decision p1 c)) (in_block p1 indices)))).
Proof. by apply ParseCandidateIndices_spec. Qed.

(** A message and its samples at one sample per chip. *)
Definition sample : R900 := r900_of [3; 1; 4; 1; 5; 9; 2; 6; 5; 3; 5; 8; 9; 7; 9; 3; 31; 30; 16; 9; 24].

Definition sample_signal : list Z :=
  concat (map (fun i => map (level 900 10) (kernel (sent_digit (symbols_to_send sample) i))) (seq 0 42)).

Definition sample_parser : Parser :=
  {| Decoder := None;
     cfg := {| Protocol := []; Preamble := []; DataRate := 0; BlockSize := 64; BlockSize2 := 0; ChipLength := 1;
               SymbolLength := 2; SampleRate := 0; PreambleSymbols := 1; PacketSymbols := 0; PreambleLength := 2;
               PacketLength := 0; BufferLength := 0; CenterFreq := 0 |};
     field := r900_field; rsBuf := make 31 0;
     powerHistory := Some (fun idx length => slice idx (idx + length) sample_signal);
     seen := ∅; candidateIdx := []; once := true |}.

Lemma make_rs_ok : rs_ok (make 31 0).
Proof. exists (make 16 0), (make 5 0). done. Qed.

Lemma r900_appends_codewords_witness :
  exists rs sn, @ParseCandidateIndices portable_quantizer sample_parser [0; 0; 70; 0] [] =
    Some (with_scratch sample_parser rs sn, [AnR900 sample]).
Proof.
  destruct (@r900_appends_codewords portable_quantizer sample_parser sample_parser [0; 0; 70; 0] [])
    as (rs & sn & _ & E).
  - reflexivity.
  - reflexivity.
  - exact make_rs_ok.
  - change (in_block sample_parser [0; 0; 70; 0]) with [0; 0].
    assert (forall i, (i < 42)%nat -> is_Some (@quantizeSignalAt portable_quantizer sample_parser (position sample_parser 0 i))) as Hw.
    { intros i Hi. apply list_elem_of_In with (l := seq 0 42) || idtac.
      assert (forallb (fun i => match @quantizeSignalAt portable_quantizer sample_parser (position sample_parser 0 i)
        with Some _ => true | None => false end) (seq 0 42) = true) as Hb by (vm_compute; reflexivity).
      rewrite forallb_forall in Hb. specialize (Hb i ltac:(apply in_seq; lia)). by destruct (quantizeSignalAt _ _). }
    solve_Forall.
  - exists rs, sn. etransitivity; [exact E|]. vm_compute. reflexivity.
Defined.

(** C10. End to end: when the power samples after a preamble carry, within the
    noise margin, the 42 base-six digits of a message's payload and of check
    symbols that make it a code word, the parser returns exactly that message. *)
Theorem r900_receives `{QuantizerPlatform} (p p1 : Parser) (samples : list Z) (n : nat) (c hi lo e : Z) (m : R900)
  (Honce : once_Do p = Some p1) (Hfield : field p1 = r900_field) (Hrs : rs_ok (rsBuf p1))
  (Hhistory : powerHistory p1 = Some (fun idx length => slice idx (idx + length) samples))
  (Hchip : ChipLength (cfg p1) = Z.of_nat n) (Hn : 0 < Z.of_nat n <= 8191)
  (Hsamples : Forall (is_uint 16) samples)
  (Hblock : c <= BlockSize (cfg p1)) (Hstart : 0 <= position p1 c 0) (Hend : position p1 c 42 <= len samples)
  (Hm : r900_ok m) (Hcode : Syndrome r900_field (codeword (symbols_to_send m)) 5 29 = Some [0; 0; 0; 0; 0])
  (He : 0 <= e) (Hmargin : 4 * e < hi - lo)
  (Hsignal : forall i, (i < 42)%nat ->
     carries (drop (Z.to_nat (position p1 c i)) samples) n (sent_digit (symbols_to_send m) i) hi lo e) :
  exists p', ParseCandidateIndices p [c] [] = Some (p', [AnR900 m]).
Proof.
  set (x := symbols_to_send m) in *.
  assert (length x = 21%nat) as Hx by (unfold x, symbols_to_send; rewrite length_app, length_to_digits, (proj1 (ok_sum m Hm)); done).
  assert (Forall is_symbol x) as Hsym.
  { unfold x, symbols_to_send. apply Forall_app. split; [by apply to_digits_Forall|apply Hm]. }
  assert (forall i, (i < 42)%nat -> quantizeSignalAt p1 (position p1 c i) = Some (sent_digit x i)) as Hq.
  { intros i Hi. unfold quantizeSignalAt. rewrite Hhistory. unfold quantizePower16At. rewrite Hchip.
    assert (0 <= position p1 c i /\ position p1 c i + Z.of_nat n * 4 <= position p1 c 42) as [P1 P2].
    { unfold position in *. rewrite Hchip in *. nia. }
    rewrite slice_ok by lia. cbn [mbind option_bind].
    replace (Z.to_nat (position p1 c i + Z.of_nat n * 4 - position p1 c i)) with (4 * n)%nat by lia.
    set (w := drop (Z.to_nat (position p1 c i)) samples).
    assert (4 * n <= length w)%nat as Hw by (unfold w, len in *; rewrite length_drop; lia).
    rewrite quantizePower16Window_Go, (quantizePower16WindowGo_spec (take (4 * n) w) n 65535).
    - f_equal. apply (ref_window_carries _ n _ hi lo e); [by apply sent_digit_range|lia|rewrite length_take; lia|done|done|].
      intros k b Hk. assert (k < 4)%nat as Hk4.
      { apply lookup_lt_Some in Hk. unfold kernel in Hk. repeat case_match; exact Hk. }
      rewrite skipn_firstn_comm, take_take, Nat.min_l by nia. exact (Hsignal i Hi k b Hk).
    - apply Forall_take, Forall_drop. eapply Forall_impl; [exact Hsamples|]. intros y Hy. uints. lia.
    - unfold len. rewrite length_take. lia.
    - lia.
    - lia. }
  assert (in_block p1 [c] = [c]) as Hin by (cbn [in_block]; by destruct (Z.ltb_spec (BlockSize (cfg p1)) c); [lia|]).
  destruct (ParseCandidateIndices_spec p p1 [c] [] Honce Hfield Hrs) as (rs & sn & _ & E).
  { rewrite Hin. constructor; [|constructor]. intros i Hi. rewrite (Hq i Hi). by eexists. }
  eexists. etransitivity; [exact E|]. do 2 f_equal. rewrite Hin. cbn [map distinct].
  assert (symbols_of (decision p1 c) = x) as ->.
  { rewrite <- (symbols_of_sent x) by done. unfold symbols_of. apply map_ext_in. intros i Hi%in_seq.
    unfold decision. rewrite !Hq by lia. done. }
  rewrite decide_False by set_solver. cbn [omap list_omap app]. unfold r900_accept.
  replace (forallb (fun s => s <=? 31) x) with true.
  2: { symmetry. apply forallb_forall. intros y Hy%list_elem_of_In. rewrite Forall_forall in Hsym.
       specialize (Hsym y Hy). apply Z.leb_le. uints. lia. }
  rewrite bool_decide_true by done. cbn [andb]. unfold x. by rewrite r900_of_sent.
Qed.

Lemma r900_receives_witness :
  exists p', @ParseCandidateIndices portable_quantizer sample_parser [0] [] = Some (p', [AnR900 sample]).
Proof.
  apply (@r900_receives portable_quantizer sample_parser sample_parser sample_signal 1 0 900 10 0 sample).
  - reflexivity.
  - reflexivity.
  - exact make_rs_ok.
  - reflexivity.
  - reflexivity.
  - lia.
  - apply uintsb_Forall. vm_compute. reflexivity.
  - simpl. lia.
  - vm_compute. congruence.
  - vm_compute. congruence.
  - constructor; try (split; vm_compute; congruence). split; [reflexivity|apply uintsb_Forall; vm_compute; reflexivity].
  - vm_compute. reflexivity.
  - lia.
  - lia.
  - intros i Hi. apply carriesb_carries.
    assert (forallb (fun i => carriesb (drop (Z.to_nat (position sample_parser 0 i)) sample_signal) 1
      (sent_digit (symbols_to_send sample) i) 900 10 0) (seq 0 42) = true) as Hb by (vm_compute; reflexivity).
    rewrite forallb_forall in Hb. apply Hb, in_seq. lia.
Defined.
