(* ===== verification/R900Bcd.v ===== *)
(** R900 messages with binary-coded decimal consumption (src/r900bcd/r900bcd.go):
    the wrapper that lets the R900 parser work and rewrites its new messages. *)

From S2P Require Import Prelude Float64 Gf Packet Layout R900.

(** ** The code *)

Record Parser := { inner : R900.Parser }.

Definition NewParser (chipLength : Z) : option Parser :=
  p ← R900.NewParser chipLength; Some {| inner := p |}.

(** The capabilities of the wrapped parser. *)
Definition SignalHistoryOverlap (p : Parser) : Z := R900.SignalHistoryOverlap (inner p).
Definition Power16Compatible (p : Parser) : bool := R900.Power16Compatible (inner p).
Definition SetPower16History (p : Parser) (history : option (Z -> Z -> option (list Z))) : Parser :=
  {| inner := R900.SetPower16History (inner p) history |}.

(** The hexadecimal text of the consumption read as decimal. *)
Definition from_bcd (r : R900) : R900 :=
  let hex := FormatUint (Consumption r) 16 in
  let '(consumption, _) := ParseUint hex 10 32 in
  {| ID := ID r; Unkn1 := Unkn1 r; NoUse := NoUse r; BackFlow := BackFlow r; Consumption := u32 consumption;
     Unkn3 := Unkn3 r; Leak := Leak r; LeakNow := LeakNow r; checksum := checksum r |}.

(** [R900BCD] embeds the message; only the type name differs. *)
Definition R900BCD_Message (r : R900) : Message :=
  {| MsgType := str "R900BCD"; MeterID := ID r; MeterType := Unkn1 r;
     MsgChecksum := R900_Checksum r; MsgRecord := R900_Record r |}.

(** The type assertion panics on any other message. *)
Definition rewrite_step (messages : list AnyMessage) (idx : Z) : option (list AnyMessage) :=
  m ← index messages idx;
  match m with
  | AnR900 r => store messages idx (AnR900BCD (from_bcd r))
  | _ => None
  end.

Definition Parse `{QuantizerPlatform} (p : Parser) (pkts : list Data) (messages : list AnyMessage)
  : option (Parser * list AnyMessage) :=
  let start := len messages in
  '(q, messages) ← R900.Parse (inner p) pkts messages;
  messages ← foldM rewrite_step messages (seqZ start (len messages - start));
  Some ({| inner := q |}, messages).

(** ** Binary-coded decimal *)

Definition nibbles (c : Z) : list Z := to_digits 4 8 c.

(** The number the nibbles spell in base ten, if they are decimal digits. *)
Definition bcd_value (c : Z) : Z :=
  if forallb (fun d => d <? 10) (nibbles c) then foldl (fun a d => a * 10 + d) 0 (nibbles c) else 0.

(** A decimal number as nibbles. *)
Fixpoint to_bcd (n : nat) (v : Z) : Z :=
  match n with O => 0 | S n => to_bcd n (v / 10) * 16 + v mod 10 end.

Lemma foldl_zeros base n l : foldl (fun a d => a * base + d) 0 (replicate n 0 ++ l) = foldl (fun a d => a * base + d) 0 l.
Proof. rewrite foldl_app. f_equal. induction n as [|n IH]; [done|]. simpl. by rewrite Z.mul_0_l. Qed.

Lemma FormatUint_hex c :
  0 < c -> is_uint 32 c -> exists l k, FormatUint c 16 = map digit_char l /\ l <> [] /\
    Forall (fun d => 0 <= d < 16) l /\ nibbles c = replicate k 0 ++ l.
Proof.
  intros H0 Hc. unfold FormatUint. destruct (Z.eqb_spec c 0); [lia|].
  destruct (format_digits_spec 64 16 c []) as (l & E & Hl & Hv & Hne); [lia| |].
  { split; [lia|]. eapply Z.lt_le_trans; [apply Hc|]. vm_compute. congruence. }
  rewrite app_nil_r in E. pose proof (format_digits_length 64 16 c 8 [] ltac:(lia)) as Hlen.
  rewrite E, length_map in Hlen. simpl in Hlen. specialize (Hlen ltac:(uints; lia)).
  exists l, (8 - length l)%nat. rewrite E. split; [done|]. split; [auto|]. split; [done|].
  apply (of_digits_inj 4); [lia|by apply to_digits_Forall| | |].
  - apply Forall_app. split; [|exact Hl]. by apply Forall_replicate.
  - unfold nibbles. rewrite length_to_digits, length_app, length_replicate. lia.
  - unfold nibbles. rewrite of_to_digits_id by (lia || exact Hc). symmetry. unfold of_digits.
    change (2 ^ 4) with 16. rewrite foldl_zeros. exact Hv.
Qed.

Lemma decimal_le_hex l a b :
  Forall (fun d => 0 <= d < 16) l -> 0 <= a <= b ->
  0 <= foldl (fun a d => a * 10 + d) a l <= foldl (fun a d => a * 16 + d) b l.
Proof.
  intros Hl. revert a b. induction Hl as [|d l Hd Hl IH]; intros a b Hab; simpl; [lia|]. apply IH. lia.
Qed.

Lemma hex_grows l a : Forall (fun d => 0 <= d < 16) l -> 0 <= a -> a <= foldl (fun a d => a * 16 + d) a l.
Proof.
  intros Hl. revert a. induction Hl as [|d l Hd Hl IH]; intros a Ha; simpl; [lia|].
  specialize (IH (a * 16 + d) ltac:(lia)). lia.
Qed.

(** A non-decimal digit makes the parse fail with value zero: the digits before
    it cannot overflow, being no larger in decimal than in hexadecimal. *)
Lemma parse_bad_digit l a b :
  Forall (fun d => 0 <= d < 16) l -> forallb (fun d => d <? 10) l = false -> 0 <= a <= b ->
  foldl (fun a d => a * 16 + d) b l < 2 ^ 32 ->
  parse_uint_loop 10 (2 ^ 32 - 1) a (map digit_char l) = (0, Some ErrSyntax).
Proof.
  intros Hl. revert a b. induction Hl as [|d l Hd Hl IH]; intros a b Hf Hab Hlt; [done|].
  cbn [map forallb foldl] in *. destruct (Z.ltb_spec d 10) as [Hd10|Hd10].
  - pose proof (hex_grows l (b * 16 + d) Hl ltac:(lia)).
    rewrite parse_uint_loop_step by lia. apply (IH _ (b * 16 + d)); [done|lia|done].
  - cbn [parse_uint_loop]. rewrite digit_val_char by lia. by destruct (Z.leb_spec 10 d); [|lia].
Qed.

Lemma from_bcd_Consumption r : is_uint 32 (Consumption r) -> Consumption (from_bcd r) = bcd_value (Consumption r).
Proof.
  intros Hc. unfold from_bcd. set (c := Consumption r) in *.
  destruct (ParseUint (FormatUint c 16) 10 32) as [v e] eqn:E. cbn [Consumption].
  destruct (Z.eq_dec c 0) as [E0|Hne]. { rewrite E0 in *. vm_compute in E. injection E as <- _. reflexivity. }
  destruct (FormatUint_hex c) as (l & k & Ef & Hnil & Hl & Hn); [uints; lia|done|]. rewrite Ef in E.
  unfold bcd_value. rewrite Hn, forallb_app, foldl_zeros.
  assert (forall j, forallb (fun d => d <? 10) (replicate j 0) = true) as Hz by (intros j; by induction j).
  rewrite Hz. cbn [andb].
  unfold ParseUint in E. destruct l as [|d l]; [done|]. cbn [map] in E.
  change (digit_char d :: map digit_char l) with (map digit_char (d :: l)) in E.
  assert (foldl (fun a d => a * 16 + d) 0 (d :: l) = c) as Hv.
  { pose proof (of_to_digits_id 4 8 c ltac:(lia) Hc) as H. fold (nibbles c) in H. rewrite Hn in H. unfold of_digits in H.
    change (2 ^ 4) with 16 in H. by rewrite foldl_zeros in H. }
  destruct (forallb (fun d => d <? 10) (d :: l)) eqn:Hdec.
  - pose proof (decimal_le_hex (d :: l) 0 0 Hl ltac:(lia)) as Hle. rewrite Hv in Hle.
    assert (Forall (fun d => 0 <= d < 10) (d :: l)) as Hl10.
    { apply Forall_forall. intros x Hx. rewrite Forall_forall in Hl. specialize (Hl x Hx).
      rewrite forallb_forall in Hdec. specialize (Hdec x ltac:(by apply list_elem_of_In)). lia. }
    rewrite parse_uint_loop_digits in E; [|lia|lia|lia|done|uints; lia]. injection E as <- _.
    apply wrap_u_id. uints. lia.
  - rewrite (parse_bad_digit (d :: l) 0 0) in E; [|done|done|lia|rewrite Hv; apply Hc]. by injection E as <- _.
Qed.

Lemma to_digits_snoc w n v : 0 <= w -> to_digits w (S n) v = to_digits w n (v / 2 ^ w) ++ [v mod 2 ^ w].
Proof.
  intros Hw. revert v. induction n as [|n IH]; intros v.
  { cbn [to_digits app]. by rewrite Z.mul_0_r, Z.div_1_r. }
  cbn [to_digits] in *. rewrite <- app_comm_cons, <- IH. cbn [to_digits]. f_equal.
  rewrite div_div_pow by lia. do 3 f_equal. lia.
Qed.

Lemma nibbles_to_bcd n v :
  0 <= v < 10 ^ Z.of_nat n ->
  forallb (fun d => d <? 10) (to_digits 4 n (to_bcd n v)) = true /\
  foldl (fun a d => a * 10 + d) 0 (to_digits 4 n (to_bcd n v)) = v.
Proof.
  revert v. induction n as [|n IH]; intros v Hv; [simpl in *; split; [done|lia]|].
  rewrite Nat2Z.inj_succ, Z.pow_succ_r in Hv by lia.
  rewrite to_digits_snoc by lia. cbn [to_bcd]. change (2 ^ 4) with 16.
  pose proof (Z.mod_pos_bound v 10 ltac:(lia)).
  rewrite Z.div_add_l, (Z.div_small (v mod 10) 16), Z.add_0_r by lia.
  rewrite Z.add_comm, Z.mod_add, (Z.mod_small (v mod 10) 16) by lia.
  destruct (IH (v / 10)) as [E1 E2].
  { split; [apply Z.div_pos; lia|apply Z.div_lt_upper_bound; lia]. }
  rewrite forallb_app, foldl_app, E1, E2. cbn [forallb foldl andb]. split.
  - rewrite andb_true_r. apply Z.ltb_lt. lia.
  - pose proof (Z.div_mod v 10). lia.
Qed.

Lemma to_bcd_range n v : 0 <= to_bcd n v < 16 ^ Z.of_nat n.
Proof.
  revert v. induction n as [|n IH]; intros v; cbn [to_bcd]; [simpl; lia|].
  rewrite Nat2Z.inj_succ, Z.pow_succ_r by lia. specialize (IH (v / 10)). pose proof (Z.mod_pos_bound v 10). lia.
Qed.

(** ** The wrapper *)

Lemma candidate_loop_R900 `{QuantizerPlatform} p rs sn indices messages rs' sn' ms :
  candidate_loop p rs sn indices messages = Some (rs', sn', ms) -> exists new, ms = messages ++ map AnR900 new.
Proof.
  revert rs sn messages. induction indices as [|c indices IH]; intros rs sn messages; cbn [candidate_loop].
  { intros [= <- <- <-]. exists []. by rewrite app_nil_r. }
  destruct (BlockSize (cfg p) <? c). { intros [= <- <- <-]. exists []. by rewrite app_nil_r. }
  destruct (candidate_step p (rs, sn) c) as [[[rs1 sn1] [m|]]|]; cbn [mbind option_bind]; [| |done].
  - intros (new & ->)%IH. exists (m :: new). by rewrite <- app_assoc.
  - apply IH.
Qed.

Lemma Parse_R900 `{QuantizerPlatform} p pkts messages q ms :
  R900.Parse p pkts messages = Some (q, ms) -> exists new, ms = messages ++ map AnR900 new.
Proof.
  unfold R900.Parse, ParseCandidateIndices. intros E. apply bind_Some in E as (p1 & _ & E).
  apply bind_Some in E as ([[rs sn] ms1] & E1 & E). injection E as _ <-. by eapply candidate_loop_R900.
Qed.

Lemma rewrite_loop messages new done_ :
  foldM rewrite_step (messages ++ map (fun r => AnR900BCD (from_bcd r)) done_ ++ map AnR900 new)
    (map Z.of_nat (seq (length messages + length done_) (length new))) =
  Some (messages ++ map (fun r => AnR900BCD (from_bcd r)) (done_ ++ new)).
Proof.
  revert done_. induction new as [|r new IH]; intros dn; [cbn; by rewrite !app_nil_r|].
  cbn [length seq map foldM]. unfold rewrite_step at 1.
  set (pre := messages ++ map (fun r => AnR900BCD (from_bcd r)) dn).
  assert (length pre = (length messages + length dn)%nat) as Hp by (unfold pre; by rewrite length_app, length_map).
  rewrite app_assoc. fold pre. rewrite index_nat, lookup_app_r, Hp, Nat.sub_diag by lia.
  cbn [lookup list_lookup mbind option_bind]. unfold store.
  rewrite (proj2 (Z.leb_le 0 _)), (proj2 (Z.ltb_lt _ _)) by (unfold len; rewrite ?length_app, ?Hp; simpl; lia).
  cbn [andb]. rewrite Nat2Z.id, <- Hp, insert_app_r_alt, Nat.sub_diag by lia. cbn [insert list_insert].
  specialize (IH (dn ++ [r])). rewrite length_app, map_app in IH. cbn [length map] in IH.
  rewrite <- !app_assoc in IH. cbn [app] in IH. unfold pre. rewrite length_app, length_map, <- app_assoc.
  replace (S (length messages + length dn)) with (length messages + (length dn + 1))%nat by lia.
  exact IH.
Qed.

Lemma bcd_Parse_spec `{QuantizerPlatform} p pkts messages q ms :
  R900.Parse (inner p) pkts messages = Some (q, ms) ->
  exists new, ms = messages ++ map AnR900 new /\
    Parse p pkts messages = Some ({| inner := q |}, messages ++ map (fun r => AnR900BCD (from_bcd r)) new).
Proof.
  intros E. destruct (Parse_R900 _ _ _ _ _ E) as (new & ->). exists new. split; [done|].
  unfold Parse. rewrite E. cbn [mbind option_bind].
  pose proof (rewrite_loop messages new []) as L. cbn [map app length] in L. rewrite Nat.add_0_r in L.
  assert (seqZ (len messages) (len (messages ++ map AnR900 new) - len messages) =
          map Z.of_nat (seq (length messages) (length new))) as ->; [|by rewrite L].
  rewrite len_app. unfold len. rewrite length_map.
  replace (Z.of_nat (length messages) + Z.of_nat (length new) - Z.of_nat (length messages)) with (Z.of_nat (length new)) by lia.
  unfold seqZ. rewrite Nat2Z.id. generalize (length messages). generalize (length new). clear.
  intros n m. apply (list_eq_same_length _ _ n); rewrite ?length_fmap, ?length_map, ?length_seq; try done.
  intros i x y Hi Hx Hy. rewrite list_lookup_fmap, lookup_seq_lt in Hx, Hy by lia. simpl in Hx, Hy.
  injection Hx as <-. injection Hy as <-. lia.
Qed.

(** ** Properties *)

(** The wrapper returns what the R900 parser returns, with each new message,
    in place, rewritten: the same message whose consumption is the decimal
    number its hexadecimal digits spell, or zero if one of them is not a
    decimal digit.  Messages that were already there are untouched. *)
Theorem r900bcd_rewrites_new_messages `{QuantizerPlatform} (p : Parser) (pkts : list Data)
  (messages ms : list AnyMessage) (q : R900.Parser) (Hinner : R900.Parse (inner p) pkts messages = Some (q, ms)) :
  exists new, ms = messages ++ map AnR900 new /\
    Parse p pkts messages = Some ({| inner := q |}, messages ++ map (fun r => AnR900BCD (from_bcd r)) new) /\
    forall r, r ∈ new -> is_uint 32 (Consumption r) ->
      Consumption (from_bcd r) = bcd_value (Consumption r) /\ ID (from_bcd r) = ID r /\
      Unkn1 (from_bcd r) = Unkn1 r /\ checksum (from_bcd r) = checksum r.
Proof.
  destruct (bcd_Parse_spec p pkts messages q ms Hinner) as (new & E1 & E2). exists new.
  split; [done|]. split; [done|]. intros r _ Hc. split; [by apply from_bcd_Consumption|].
  unfold from_bcd. by destruct (ParseUint _ _ _).
Qed.

(** Round trip: a consumption of up to eight decimal digits sent as
    binary-coded decimal is received as itself. *)
Theorem bcd_roundtrip (r : R900) (v : Z)
  (Hv : 0 <= v < 10 ^ 8) (Hsent : Consumption r = to_bcd 8 v) : Consumption (from_bcd r) = v.
Proof.
  pose proof (to_bcd_range 8 v) as R. rewrite from_bcd_Consumption, Hsent by (rewrite Hsent; exact R).
  unfold bcd_value, nibbles. by destruct (nibbles_to_bcd 8 v Hv) as [-> ->].
Qed.

Lemma bcd_roundtrip_witness :
  Consumption (from_bcd {| ID := 1; Unkn1 := 0; NoUse := 0; BackFlow := 0; Consumption := 0x123456; Unkn3 := 0;
                           Leak := 0; LeakNow := 0; checksum := [] |}) = 123456.
Proof. apply bcd_roundtrip; [lia|vm_compute; reflexivity]. Defined.

Lemma r900bcd_rewrites_new_messages_witness :
  exists q new, @Parse portable_quantizer {| inner := sample_parser |} [newData [] true] [AnR900 sample] =
    Some (q, AnR900 sample :: new) /\ length new = 1%nat.
Proof.
  destruct (@R900.Parse portable_quantizer sample_parser [newData [] true] [AnR900 sample]) as [[q ms]|] eqn:E.
  - destruct (@r900bcd_rewrites_new_messages portable_quantizer {| inner := sample_parser |} [newData [] true]
      [AnR900 sample] ms q E) as (new & E1 & E2 & _).
    exists {| inner := q |}, (map (fun r => AnR900BCD (from_bcd r)) new). split; [exact E2|].
    assert (length ms = 2%nat) as Hl.
    { assert (exists q', @R900.Parse portable_quantizer sample_parser [newData [] true] [AnR900 sample] =
        Some (q', [AnR900 sample; AnR900 sample])) as (q' & E') by (eexists; vm_compute; reflexivity).
      rewrite E in E'. injection E' as _ ->. reflexivity. }
    rewrite E1 in Hl. rewrite length_app, !length_map in *. simpl in Hl. lia.
  - vm_compute in E. discriminate.
Defined.
