(* ===== verification/Search.v ===== *)
(** The packed preamble search of src/protocol/decode.go and its platform
    interface (src/protocol/search_platform_generic.go): bit packing, the
    byte-aligned search that tests eight phases at once, the portable routines
    the platform code is compared with, and the index-list search for symbol
    lengths that are not a multiple of eight. *)

From Stdlib Require Import Sorted.
From S2P Require Import Prelude Packet Layout.

(** ** Packing *)

(** One byte of [packQuantized]: eight decisions loaded as a little-endian word
    and gathered by one multiplication. *)
Definition pack_byte (src : list Z) (byteIdx : Z) : option Z :=
  let srcIdx := Z.shiftl byteIdx 3 in
  w ← slice srcIdx (srcIdx + 8) src;
  let decisions := of_bytes (rev w) in
  Some (u8 (Z.shiftr (u64 (decisions * 0x8040201008040201)) 56)).

(** [packQuantized] fills a destination of [n] bytes. *)
Definition packQuantized (n : Z) (src : list Z) : option (list Z) := mapM (pack_byte src) (seqZ 0 n).

(** [packQuantizedRing] *)
Definition packQuantizedRing (n : Z) (src : list Z) (start : Z) : option (list Z) :=
  if start =? 0 then packQuantized n src else
  let bitsNeeded := Z.shiftl n 3 in
  let bitsBeforeWrap := len src - start in
  if bitsNeeded <=? bitsBeforeWrap then
    s ← slice start (start + bitsNeeded) src; packQuantized n s
  else
    let firstBytes := Z.shiftr bitsBeforeWrap 3 in
    if (firstBytes <? 0) || (n <? firstBytes) then None else
    s ← slice start (len src) src; a ← packQuantized firstBytes s;
    s ← slice 0 (bitsNeeded - bitsBeforeWrap) src; b ← packQuantized (n - firstBytes) s;
    Some (a ++ b).

(** ** Candidate masks *)

(** [(pBit ^ 1) * 0xff] in a byte. *)
Definition bit_mask (pBit : Z) : Z := u8 (Z.lxor pBit 1 * 0xff).

(** [bits.LeadingZeros8] *)
Definition LeadingZeros8 (x : Z) : Z := if x =? 0 then 8 else 7 - Z.log2 x.

(** The loop that turns a candidate mask into indices: at most eight rounds. *)
Fixpoint expand (fuel : nat) (qByte candidates : Z) (sIdxA : list Z) : list Z :=
  match fuel with
  | O => sIdxA
  | S fuel =>
      if candidates =? 0 then sIdxA else
      let phase := LeadingZeros8 candidates in
      expand fuel qByte (Z.ldiff candidates (u8 (Z.shiftr 0x80 phase))) (sIdxA ++ [Z.shiftl qByte 3 + phase])
  end.

(** [expandAlignedCandidates] *)
Fixpoint expand_masks (qByte : Z) (candidateMasks : list Z) (sIdxA : list Z) : list Z :=
  match candidateMasks with
  | [] => sIdxA
  | candidates :: rest => expand_masks (qByte + 1) rest (expand 8 qByte candidates sIdxA)
  end.

Definition expandAlignedCandidates (candidateMasks : list Z) (sIdxA : list Z) : list Z :=
  expand_masks 0 candidateMasks sIdxA.

(** The loop over the rest of the preamble, left as soon as no phase matches. *)
Fixpoint match_rest (packed : list Z) (qByte symLenByte pIdx : Z) (preamble : list Z) (candidates : Z) : option Z :=
  match preamble with
  | [] => Some candidates
  | pBit :: preamble =>
      signal ← index packed (qByte + pIdx * symLenByte);
      let candidates := Z.land candidates (Z.lxor signal (bit_mask pBit)) in
      if candidates =? 0 then Some candidates
      else match_rest packed qByte symLenByte (pIdx + 1) preamble candidates
  end.

(** [finishAlignedCandidates] *)
Fixpoint finish_masks (packed preamble : list Z) (symLenByte qByte : Z) (candidateMasks sIdxA : list Z) : option (list Z) :=
  match candidateMasks with
  | [] => Some sIdxA
  | candidates :: rest =>
      c ← (if negb (candidates =? 0) then
             tail ← slice 4 (len preamble) preamble; match_rest packed qByte symLenByte 4 tail candidates
           else Some candidates);
      finish_masks packed preamble symLenByte (qByte + 1) rest (expand 8 qByte c sIdxA)
  end.

Definition finishAlignedCandidates (packed preamble : list Z) (symLenByte : Z) (candidateMasks sIdxA : list Z)
  : option (list Z) := finish_masks packed preamble symLenByte 0 candidateMasks sIdxA.

(** The conjunction of the first four symbols. *)
Definition first_four (packed : list Z) (symLenByte : Z) (masks : list Z) (qByte : Z) : option Z :=
  m0 ← index masks 0; m1 ← index masks 1; m2 ← index masks 2; m3 ← index masks 3;
  s0 ← index packed qByte; s1 ← index packed (qByte + symLenByte);
  s2 ← index packed (qByte + symLenByte * 2); s3 ← index packed (qByte + symLenByte * 3);
  Some (Z.land (Z.land (Z.land (Z.lxor s0 m0) (Z.lxor s1 m1)) (Z.lxor s2 m2)) (Z.lxor s3 m3)).

Definition searchAlignedCandidates4Go (count : Z) (packed : list Z) (symLenByte : Z) (masks : list Z) : option (list Z) :=
  if count =? 0 then Some [] else
  _ ← index packed (count - 1 + symLenByte * 3);
  mapM (first_four packed symLenByte masks) (seqZ 0 count).

(** The inner loop of the 32-symbol routine: no early exit. *)
Definition all_symbols (packed : list Z) (qByte symLenByte : Z) (masks : list Z) : option Z :=
  foldM (fun candidates '(pIdx, mask) =>
           signal ← index packed (qByte + pIdx * symLenByte); Some (Z.land candidates (Z.lxor signal mask)))
    0xff (zip (seqZ 0 (len masks)) masks).

Definition searchAlignedCandidates32Go (count : Z) (packed : list Z) (symLenByte : Z) (masks : list Z) : option (list Z) :=
  if count =? 0 then Some [] else
  if negb (len masks =? 32) then None else
  _ ← index packed (count - 1 + symLenByte * (len masks - 1));
  mapM (fun qByte => all_symbols packed qByte symLenByte masks) (seqZ 0 count).

(** ** The platform interface

    What a build provides: whether its native leaves may be used, and the leaves.
    A leaf that reports that it served the request returns what the portable
    search returns. *)

Definition generic_step (packed preamble : list Z) (symLenByte : Z) (sIdxA : list Z) (qByte : Z) : option (list Z) :=
  candidates ← all_symbols packed qByte symLenByte (map bit_mask preamble);
  Some (expand 8 qByte candidates sIdxA).

(** [searchPackedByteAlignedGeneric] *)
Definition searchPackedByteAlignedGeneric (blockSize : Z) (packed preamble : list Z) (symLenByte : Z) : option (list Z) :=
  foldM (generic_step packed preamble symLenByte) [] (seqZ 0 (Z.shiftr blockSize 3)).

Class SearchPlatform := {
  searchAlignedCandidates4Available : bool;
  searchAlignedCandidates4Platform : Z -> list Z -> Z -> list Z -> option (list Z);
  searchAlignedCandidates4FixedPlatform : list Z -> Z -> list Z -> Z -> list Z * bool;
  searchAlignedCandidates32Platform : Z -> list Z -> Z -> list Z -> option (list Z);
  searchAlignedCandidates32FixedPlatform : list Z -> Z -> list Z -> Z -> list Z * bool;
  platform4_agrees : forall count packed symLenByte masks,
    searchAlignedCandidates4Available = true -> 0 <= count -> Z.land count 15 = 0 -> 0 < symLenByte ->
    count + symLenByte * 3 <= len packed -> len masks = 4 ->
    searchAlignedCandidates4Platform count packed symLenByte masks =
    searchAlignedCandidates4Go count packed symLenByte masks;
  platform32_agrees : forall count packed symLenByte masks,
    searchAlignedCandidates4Available = true -> 0 <= count -> Z.land count 15 = 0 -> 0 < symLenByte ->
    count + symLenByte * 31 <= len packed -> len masks = 32 ->
    searchAlignedCandidates32Platform count packed symLenByte masks =
    (m ← searchAlignedCandidates32Go count packed symLenByte masks; Some (expandAlignedCandidates m []));
  fixed4_agrees : forall preamble count packed symLenByte indices,
    searchAlignedCandidates4FixedPlatform preamble count packed symLenByte = (indices, true) ->
    Forall is_byte packed -> Forall is_bit preamble -> 0 < symLenByte ->
    0 <= count -> count + symLenByte * (len preamble - 1) <= len packed ->
    searchPackedByteAlignedGeneric (8 * count) packed preamble symLenByte = Some indices;
  fixed32_agrees : forall preamble count packed symLenByte indices,
    searchAlignedCandidates32FixedPlatform preamble count packed symLenByte = (indices, true) ->
    Forall is_byte packed -> Forall is_bit preamble -> 0 < symLenByte ->
    0 <= count -> count + symLenByte * (len preamble - 1) <= len packed ->
    searchPackedByteAlignedGeneric (8 * count) packed preamble symLenByte = Some indices }.

(** The build without native leaves. *)
Definition generic_platform : SearchPlatform.
Proof.
  refine {| searchAlignedCandidates4Available := false;
            searchAlignedCandidates4Platform := fun _ _ _ _ => None;
            searchAlignedCandidates4FixedPlatform := fun _ _ _ _ => ([], false);
            searchAlignedCandidates32Platform := fun _ _ _ _ => None;
            searchAlignedCandidates32FixedPlatform := fun _ _ _ _ => ([], false) |}; done.
Defined.

(** ** The search *)

(** The portable loop of [searchPackedByteAligned]. *)
Definition aligned_step (packed preamble : list Z) (symLenByte : Z) (masks sIdxA : list Z) (qByte : Z) : option (list Z) :=
  candidates ← first_four packed symLenByte masks qByte;
  candidates ← (if negb (candidates =? 0) then
                  tail ← slice 4 (len preamble) preamble; match_rest packed qByte symLenByte 4 tail candidates
                else Some candidates);
  Some (expand 8 qByte candidates sIdxA).

Definition searchPackedByteAligned `{SearchPlatform} (blockSize symbolLength : Z) (packed preamble : list Z)
  : option (list Z) :=
  let symLenByte := Z.shiftr symbolLength 3 in
  if len preamble <? 4 then searchPackedByteAlignedGeneric blockSize packed preamble symLenByte else
  let blockBytes := Z.shiftr blockSize 3 in
  let fixed32 :=
    if (len preamble =? 32) && (Z.land blockBytes 15 =? 0)
    then searchAlignedCandidates32FixedPlatform preamble blockBytes packed symLenByte else ([], false) in
  if fixed32.2 then Some fixed32.1 else
  if (len preamble =? 32) && (Z.land blockBytes 15 =? 0) && searchAlignedCandidates4Available then
    searchAlignedCandidates32Platform blockBytes packed symLenByte (map bit_mask preamble) else
  let fixed4 :=
    if ((len preamble =? 16) || (len preamble =? 21)) && (Z.land blockBytes 63 =? 0)
    then searchAlignedCandidates4FixedPlatform preamble blockBytes packed symLenByte else ([], false) in
  if fixed4.2 then Some fixed4.1 else
  let masks := map bit_mask (take 4 preamble) in
  if (Z.land blockBytes 15 =? 0) && searchAlignedCandidates4Available then
    candidateMasks ← searchAlignedCandidates4Platform blockBytes packed symLenByte masks;
    finishAlignedCandidates packed preamble symLenByte candidateMasks []
  else foldM (aligned_step packed preamble symLenByte masks) [] (seqZ 0 blockBytes).

(** [searchPassByte] and [searchPassRing]: the indices kept. *)
Fixpoint searchPassByte (pBit : Z) (sig a : list Z) : option (list Z) :=
  match a with
  | [] => Some []
  | qIdx :: a =>
      s ← index sig qIdx; b ← searchPassByte pBit sig a;
      Some (if negb (s =? pBit) then qIdx :: b else b)
  end.

Fixpoint searchPass (pBit : Z) (sig a : list Z) : option (list Z) :=
  match a with
  | [] => Some []
  | qIdx :: a =>
      s ← index sig qIdx; b ← searchPass pBit sig a;
      Some (if s =? pBit then qIdx :: b else b)
  end.

Definition searchPassRing (pBit : Z) (sig : list Z) (start : Z) (a : list Z) : option (list Z) :=
  let start := if len sig <=? start then start - len sig else start in
  (fix loop a :=
     match a with
     | [] => Some []
     | qIdx :: a =>
         let idx := start + qIdx in
         let idx := if len sig <=? idx then idx - len sig else idx in
         s ← index sig idx; b ← loop a;
         Some (if s =? pBit then qIdx :: b else b)
     end) a.

(** The byte passes of [searchPackedLegacy]; [None] inside is "no index left".
    The pass over the first symbol replaces the index list, which is the
    caller's scratch list [sIdxA] before. *)
Definition legacy_bytes (blockSize : Z) (packed : list Z) (symLenByte : Z) (st : option (list Z)) (e : Z * Z)
  : option (option (list Z)) :=
  let '(pIdx, pBit) := e in
  match st with
  | None => Some None
  | Some sIdxA =>
      let pBit := bit_mask pBit in
      if pIdx =? 0 then
        s ← slice 0 (Z.shiftr blockSize 3) packed;
        Some (Some (map fst (filter (fun '(_, b) => b <> pBit) (zip (seqZ 0 (len s)) s))))
      else
        s ← slice (pIdx * symLenByte) (len packed) packed;
        sIdxA ← searchPassByte pBit s sIdxA;
        Some (if len sIdxA =? 0 then None else Some sIdxA)
  end.

Definition legacy_samples (quantized : list Z) (quantizedStart symLen : Z) (st : option (list Z)) (e : Z * Z)
  : option (option (list Z)) :=
  let '(pIdx, pBit) := e in
  match st with
  | None => Some None
  | Some sIdxA =>
      sIdxA ← searchPassRing pBit quantized (quantizedStart + pIdx * symLen) sIdxA;
      Some (if len sIdxA =? 0 then None else Some sIdxA)
  end.

Definition searchPackedLegacy (blockSize symbolLength : Z) (packed quantized : list Z) (quantizedStart : Z)
  (preamble sIdxA : list Z) : option (list Z) :=
  let symLenByte := Z.shiftr symbolLength 3 in
  let enum := zip (seqZ 0 (len preamble)) preamble in
  bytes ← foldM (legacy_bytes blockSize packed symLenByte) (Some sIdxA) enum;
  match bytes with
  | None => Some []
  | Some sIdxA =>
      let sIdxB := concat (map (fun qIdx => map (fun idx => Z.shiftl qIdx 3 + idx) (seqZ 0 8)) sIdxA) in
      r ← foldM (legacy_samples quantized quantizedStart symbolLength) (Some sIdxB) enum;
      Some (default [] r)
  end.

(** [searchPacked] *)
Definition searchPacked `{SearchPlatform} (blockSize symbolLength : Z) (packed quantized : list Z) (quantizedStart : Z)
  (preamble sIdxA : list Z) : option (list Z) :=
  if Z.land symbolLength 7 =? 0 then searchPackedByteAligned blockSize symbolLength packed preamble
  else searchPackedLegacy blockSize symbolLength packed quantized quantizedStart preamble sIdxA.

(** [Search] *)
Definition Search `{SearchPlatform} (blockSize symbolLength packedLen : Z) (quantized : list Z) (quantizedStart : Z)
  (preamble sIdxA : list Z) : option (list Z) :=
  packed ← packQuantizedRing packedLen quantized quantizedStart;
  searchPacked blockSize symbolLength packed quantized quantizedStart preamble sIdxA.

(** ** The reference: positions at which every symbol of the preamble is there *)

Fixpoint preamble_at (bits : list Z) (symLen q : Z) (preamble : list Z) : bool :=
  match preamble with
  | [] => true
  | p :: preamble =>
      match index bits q with Some b => b =? p | None => false end && preamble_at bits symLen (q + symLen) preamble
  end.

Definition matches (bits : list Z) (symLen n : Z) (preamble : list Z) : list Z :=
  filter (fun q => preamble_at bits symLen q preamble = true) (seqZ 0 n).

(** ** Packing is what it says *)

Lemma pack_eight (w : list Z) :
  length w = 8%nat -> Forall is_bit w ->
  u8 (Z.shiftr (u64 (of_bytes (rev w) * 0x8040201008040201)) 56) = of_bits w.
Proof.
  intros Hl Hb.
  pose proof (forall_range (fun v => u8 (Z.shiftr (u64 (of_bytes (rev (to_bits 8 v)) * 0x8040201008040201)) 56) =? v) 256
    ltac:(vm_compute; reflexivity) (of_bits w)) as H.
  pose proof (of_digits_range 1 w ltac:(lia) Hb) as R. unfold len in R. rewrite Hl in R.
  specialize (H R). apply Z.eqb_eq in H.
  assert (to_bits 8 (of_bits w) = w) as Ew by (unfold to_bits; rewrite <- Hl at 1; by apply to_of_digits).
  by rewrite Ew in H.
Qed.

(** [packQuantized] packs the first [8 n] decisions. *)
Lemma packQuantized_spec n src :
  Forall is_bit src -> (8 * n <= length src)%nat ->
  exists packed, packQuantized (Z.of_nat n) src = Some packed /\ length packed = n /\
    Forall is_byte packed /\ bytes_bits packed = take (8 * n) src.
Proof.
  intros Hb Hn. exists (map (fun i => of_bits (take 8 (drop (8 * i) src))) (seq 0 n)).
  assert (Forall is_byte (map (fun i => of_bits (take 8 (drop (8 * i) src))) (seq 0 n))) as Hbytes.
  { apply Forall_fmap, Forall_forall. intros i _. apply (group_range 8). done. }
  split; [|split; [by rewrite length_map, length_seq|split; [done|]]].
  - unfold packQuantized, seqZ. rewrite Nat2Z.id. apply mapM_Some.
    assert (forall k, (k <= n)%nat -> Forall2 (fun x y => pack_byte src x = Some y) ((fun i => Z.of_nat i + 0) <$> seq 0 k)
              (map (fun i => of_bits (take 8 (drop (8 * i) src))) (seq 0 k))) as H; [|by apply H].
    intros k Hk. induction k as [|k IH]; [constructor|].
    rewrite seq_S, fmap_app, map_app. apply Forall2_app; [apply IH; lia|]. constructor; [|constructor].
    rewrite Z.add_0_r, Nat.add_0_l. unfold pack_byte. rewrite Z.shiftl_mul_pow2 by lia.
    change (2 ^ 3) with 8. rewrite slice_ok by (unfold len; lia). cbn [mbind option_bind].
    replace (Z.to_nat (Z.of_nat k * 8 + 8 - Z.of_nat k * 8)) with 8%nat by lia.
    replace (Z.to_nat (Z.of_nat k * 8)) with (8 * k)%nat by lia.
    rewrite pack_eight; [done|rewrite length_take, length_drop; lia|auto with go].
  - unfold bytes_bits. assert (forall k, (k <= n)%nat ->
      concat (map byte_bits (map (fun i => of_bits (take 8 (drop (8 * i) src))) (seq 0 k))) = take (8 * k) src) as H.
    { induction k as [|k IH]; intros Hk; [done|]. rewrite seq_S, !map_app, concat_app, IH by lia.
      cbn [map concat Nat.add]. rewrite app_nil_r. replace (8 * S k)%nat with (8 * k + 8)%nat by lia.
      rewrite <- take_take_drop. f_equal. apply (of_digits_inj 1); [lia|apply byte_bits_are_bits|auto with go| |].
      - rewrite length_take, length_drop. change (length (byte_bits _)) with 8%nat. lia.
      - change (of_bits (byte_bits (of_bits (take 8 (drop (8 * k) src)))) = of_bits (take 8 (drop (8 * k) src))).
        apply of_bits_byte, (group_range 8). done. }
    by apply H.
Qed.

(** A ring read from its start. *)
Definition ring {A} (start : nat) (l : list A) : list A := drop start l ++ take start l.

Lemma length_ring {A} start (l : list A) : length (ring start l) = length l.
Proof. unfold ring. rewrite length_app, length_drop, length_take. lia. Qed.

Lemma ring_Forall {A} (P : A -> Prop) start l : Forall P l -> Forall P (ring start l).
Proof. intros H. apply Forall_app. auto with go. Qed.

(** [packQuantizedRing] packs the logical ring, in one or two pieces. *)
Lemma packQuantizedRing_spec n src start :
  Forall is_bit src -> (8 * n <= length src)%nat -> (start <= length src)%nat ->
  (length src mod 8 = 0)%nat -> (start mod 8 = 0)%nat ->
  exists packed, packQuantizedRing (Z.of_nat n) src (Z.of_nat start) = Some packed /\ length packed = n /\
    Forall is_byte packed /\ bytes_bits packed = take (8 * n) (ring start src).
Proof.
  intros Hb Hn Hs H8 Hs8. unfold packQuantizedRing, ring.
  destruct (Z.eqb_spec (Z.of_nat start) 0) as [E|E].
  { replace start with 0%nat by lia. rewrite drop_0, take_0, app_nil_r. by apply packQuantized_spec. }
  rewrite Z.shiftl_mul_pow2 by lia. change (2 ^ 3) with 8.
  destruct (Z.leb_spec (Z.of_nat n * 8) (len src - Z.of_nat start)) as [Hle|Hgt].
  - unfold len in Hle. rewrite slice_ok by (unfold len; lia). cbn [mbind option_bind].
    replace (Z.to_nat (Z.of_nat start + Z.of_nat n * 8 - Z.of_nat start)) with (8 * n)%nat by lia. rewrite Nat2Z.id.
    destruct (packQuantized_spec n (take (8 * n) (drop start src))) as (pk & E1 & E2 & E3 & E4);
      [auto with go|rewrite length_take, length_drop; lia|].
    exists pk. split; [done|]. split; [done|]. split; [done|]. rewrite E4, take_take, Nat.min_id.
    by rewrite take_app_le by (rewrite length_drop; lia).
  - set (k := ((length src - start) / 8)%nat).
    assert (length src - start = 8 * k)%nat as Hk.
    { apply Nat.Div0.mod_divides in H8 as [a Ha], Hs8 as [b Hb2]. subst k.
      replace (length src - start)%nat with ((a - b) * 8)%nat by lia. rewrite Nat.div_mul by lia. lia. }
    assert (len src - Z.of_nat start = 8 * Z.of_nat k) as HkZ by (unfold len; lia). rewrite HkZ.
    rewrite Z.shiftr_div_pow2 by lia. change (2 ^ 3) with 8.
    replace (8 * Z.of_nat k / 8) with (Z.of_nat k) by (rewrite Z.mul_comm, Z.div_mul; lia).
    destruct (Z.ltb_spec (Z.of_nat k) 0), (Z.ltb_spec (Z.of_nat n) (Z.of_nat k)); try lia. cbn [orb].
    rewrite !slice_ok by (unfold len in *; lia). cbn [mbind option_bind].
    change (Z.to_nat 0) with 0%nat. rewrite drop_0, Z.sub_0_r, Nat2Z.id.
    rewrite (take_ge (drop start src)) by (rewrite length_drop; unfold len in *; lia).
    destruct (packQuantized_spec k (drop start src)) as (pa & -> & A2 & A3 & A4); [auto with go|rewrite length_drop; lia|].
    cbn [mbind option_bind].
    replace (Z.of_nat n - Z.of_nat k) with (Z.of_nat (n - k)) by lia.
    replace (Z.to_nat (Z.of_nat n * 8 - 8 * Z.of_nat k)) with (8 * (n - k))%nat by lia.
    destruct (packQuantized_spec (n - k) (take (8 * (n - k)) src)) as (pb & -> & B2 & B3 & B4);
      [auto with go|rewrite length_take; lia|]. cbn [mbind option_bind].
    exists (pa ++ pb). split; [done|]. split; [rewrite length_app; lia|]. split; [by apply Forall_app|].
    unfold bytes_bits in *. rewrite map_app, concat_app, A4, B4, take_take, Nat.min_id.
    rewrite (take_ge (drop start src)) by (rewrite length_drop; lia).
    rewrite take_app_ge by (rewrite length_drop; lia). rewrite length_drop, take_take. do 2 f_equal. lia.
Qed.

(** ** Masks and indices *)

(** The phases of a candidate mask, in sample order. *)
Definition phases (c : Z) : list Z := filter (fun j => Z.testbit c (7 - j) = true) (seqZ 0 8).

Fixpoint collect (fuel : nat) (candidates : Z) : list Z :=
  match fuel with
  | O => []
  | S fuel => if candidates =? 0 then [] else
              let phase := LeadingZeros8 candidates in
              phase :: collect fuel (Z.ldiff candidates (u8 (Z.shiftr 0x80 phase)))
  end.

Lemma expand_spec q c acc : is_byte c -> expand 8 q c acc = acc ++ map (fun j => 8 * q + j) (phases c).
Proof.
  intros Hc.
  assert (forall fuel c acc, expand fuel q c acc = acc ++ map (fun j => 8 * q + j) (collect fuel c)) as E.
  { induction fuel as [|fuel IH]; intros c' acc'; cbn [expand collect]; [by rewrite app_nil_r|].
    destruct (c' =? 0); [by rewrite app_nil_r|]. rewrite IH. cbn [map]. rewrite Z.shiftl_mul_pow2 by lia.
    rewrite <- app_assoc. cbn [app]. do 3 f_equal. lia. }
  rewrite E. do 2 f_equal.
  assert (forallb (fun c => bool_decide (collect 8 c = phases c)) (seqZ 0 256) = true) as Hall by (vm_compute; reflexivity).
  pose proof (forall_range _ 256 Hall c Hc) as H. by apply bool_decide_eq_true in H.
Qed.

Lemma byte_bits_testbit b : byte_bits b = map (fun k => Z.b2z (Z.testbit b k)) [7; 6; 5; 4; 3; 2; 1; 0].
Proof.
  change (byte_bits b) with (map (fun k => Z.land (Z.shiftr b k) 1) [7; 6; 5; 4; 3; 2; 1; 0]).
  apply map_ext_in. intros k Hk. assert (0 <= k) by (simpl in Hk; lia).
  rewrite (Z.land_ones _ 1), <- Z.bit0_mod, Z.shiftr_spec by lia. done.
Qed.

(** Bit [j] of byte [k]. *)
Lemma bytes_bits_at packed k j b :
  packed !! k = Some b -> 0 <= j < 8 -> index (bytes_bits packed) (8 * Z.of_nat k + j) = Some (Z.b2z (Z.testbit b (7 - j))).
Proof.
  intros Hk Hj. apply index_Some. split; [lia|].
  replace (Z.to_nat (8 * Z.of_nat k + j)) with (8 * k + Z.to_nat j)%nat by lia.
  rewrite <- lookup_drop, <- bytes_bits_drop, (drop_S _ _ _ Hk). unfold bytes_bits. cbn [map concat].
  rewrite lookup_app_l by (simpl; lia).
  assert (j = 0 \/ j = 1 \/ j = 2 \/ j = 3 \/ j = 4 \/ j = 5 \/ j = 6 \/ j = 7) as Hc by lia.
  rewrite byte_bits_testbit. destruct Hc as [->|[->|[->|[->|[->|[->|[->| ->]]]]]]]; reflexivity.
Qed.

Lemma bit_mask_test p s j : is_bit p -> is_byte s -> 0 <= j < 8 ->
  Z.testbit (Z.lxor s (bit_mask p)) (7 - j) = (Z.b2z (Z.testbit s (7 - j)) =? p).
Proof.
  intros Hp Hs Hj. assert (p = 0 \/ p = 1) as [->| ->] by (uints; lia); rewrite Z.lxor_spec.
  - change (bit_mask 0) with (Z.ones 8). rewrite Z.testbit_ones_nonneg by lia.
    destruct (Z.ltb_spec (7 - j) 8); [|lia]. by destruct (Z.testbit s (7 - j)).
  - change (bit_mask 1) with 0. rewrite Z.bits_0, xorb_false_r. by destruct (Z.testbit s (7 - j)).
Qed.

Lemma bit_mask_byte p : is_byte (bit_mask p).
Proof. by apply wrap_u_range. Qed.

Lemma land_byte a b : is_byte a -> is_byte b -> is_byte (Z.land a b).
Proof.
  intros Ha Hb. rewrite <- (wrap_u_id 8 a Ha). unfold wrap_u. rewrite <- Z.land_ones by lia.
  rewrite <- Z.land_assoc, Z.land_comm, <- Z.land_assoc, (Z.land_comm b a), Z.land_comm, Z.land_ones by lia.
  by apply wrap_u_range.
Qed.

(** What a mask means: phase by phase, a set of matching positions. *)
Definition means (bits : list Z) (symLen base : Z) (preamble : list Z) (c : Z) : Prop :=
  is_byte c /\ forall j, 0 <= j < 8 -> Z.testbit c (7 - j) = preamble_at bits symLen (base + j) preamble.

Lemma preamble_at_app bits symLen q a b :
  preamble_at bits symLen q (a ++ b) = preamble_at bits symLen q a && preamble_at bits symLen (q + symLen * len a) b.
Proof.
  revert q. induction a as [|p a IH]; intros q; cbn [app preamble_at].
  { change (len (@nil Z)) with 0. by rewrite Z.mul_0_r, Z.add_0_r. }
  rewrite IH, andb_assoc, len_cons. do 2 f_equal. ring.
Qed.

Section Masks.
Context (packed : list Z) (Hpacked : Forall is_byte packed) (symLenByte : Z) (Hsym : 0 < symLenByte).

Abbreviation bits := (bytes_bits packed).

(** One more symbol. *)
Lemma means_step q done_ p c :
  is_bit p -> 0 <= q -> q + len done_ * symLenByte < len packed -> means bits (8 * symLenByte) (8 * q) done_ c ->
  exists s, index packed (q + len done_ * symLenByte) = Some s /\
    means bits (8 * symLenByte) (8 * q) (done_ ++ [p]) (Z.land c (Z.lxor s (bit_mask p))).
Proof using Hpacked Hsym.
  intros Hp Hq Hlt [Hc Hm]. pose proof (len_nonneg done_).
  destruct (index_lt packed (q + len done_ * symLenByte)) as [s Hs]; [nia|]. exists s. split; [done|].
  apply index_Some in Hs as [_ Hs]. assert (is_byte s) as Hsb by (by eapply Forall_lookup_1).
  split; [apply land_byte; [done|]; apply lxor_range; [lia|done|apply bit_mask_byte]|].
  intros j Hj. rewrite Z.land_spec, Hm, preamble_at_app by done. f_equal. cbn [preamble_at].
  rewrite bit_mask_test, andb_true_r by done.
  replace (8 * q + j + 8 * symLenByte * len done_) with (8 * Z.of_nat (Z.to_nat (q + len done_ * symLenByte)) + j) by nia.
  by rewrite (bytes_bits_at _ _ _ s Hs Hj).
Qed.

Lemma means_zero base preamble rest c :
  means bits (8 * symLenByte) base preamble c -> c = 0 -> means bits (8 * symLenByte) base (preamble ++ rest) 0.
Proof using.
  intros [_ Hm] ->. split; [by uints|]. intros j Hj. rewrite preamble_at_app, <- Hm, Z.bits_0 by done. done.
Qed.

Lemma match_rest_spec q done_ rest c :
  Forall is_bit rest -> 0 <= q -> q + (len done_ + len rest - 1) * symLenByte < len packed ->
  means bits (8 * symLenByte) (8 * q) done_ c ->
  exists c', match_rest packed q symLenByte (len done_) rest c = Some c' /\
    means bits (8 * symLenByte) (8 * q) (done_ ++ rest) c'.
Proof using Hpacked Hsym.
  intros Hr Hq. revert done_ c. induction Hr as [|p rest Hp Hr IH]; intros dn c Hlt Hm; cbn [match_rest].
  { exists c. by rewrite app_nil_r. }
  rewrite len_cons in Hlt. pose proof (len_nonneg rest). pose proof (len_nonneg dn).
  destruct (means_step q dn p c Hp Hq ltac:(nia) Hm) as (s & -> & Hm'). cbn [mbind option_bind].
  destruct (Z.eqb_spec (Z.land c (Z.lxor s (bit_mask p))) 0) as [E|E].
  - exists 0. split; [by rewrite E|]. replace (dn ++ p :: rest) with ((dn ++ [p]) ++ rest) by by rewrite <- app_assoc.
    by eapply means_zero.
  - destruct (IH (dn ++ [p]) _ ltac:(rewrite len_app; change (len [p]) with 1; lia) Hm') as (c' & E' & Hc').
    rewrite len_app in E'. change (len [p]) with 1 in E'. exists c'. split; [exact E'|]. by rewrite <- app_assoc in Hc'.
Qed.

Lemma all_symbols_spec q preamble :
  Forall is_bit preamble -> 0 <= q -> q + (len preamble - 1) * symLenByte < len packed ->
  exists c, all_symbols packed q symLenByte (map bit_mask preamble) = Some c /\
    means bits (8 * symLenByte) (8 * q) preamble c.
Proof using Hpacked Hsym.
  intros Hp Hq. unfold all_symbols.
  assert (forall n done_ c, (length preamble = length done_ + n)%nat -> take (length done_) preamble = done_ ->
    q + (len preamble - 1) * symLenByte < len packed -> means bits (8 * symLenByte) (8 * q) done_ c ->
    exists c', foldM (fun candidates '(pIdx, mask) =>
        signal ← index packed (q + pIdx * symLenByte); Some (Z.land candidates (Z.lxor signal mask)))
      c (zip (map Z.of_nat (seq (length done_) n)) (map bit_mask (drop (length done_) preamble))) = Some c' /\
      means bits (8 * symLenByte) (8 * q) preamble c') as H.
  { induction n as [|n IH]; intros dn c Hl Hd Hlt Hm.
    - exists c. split; [done|]. rewrite take_ge in Hd by lia. by rewrite Hd.
    - destruct (lookup_lt_is_Some_2 preamble (length dn)) as [p Hpk]; [lia|].
      rewrite (drop_S _ _ _ Hpk). cbn [seq map zip zip_with foldM].
      assert (is_bit p) as Hpb by (by eapply Forall_lookup_1).
      destruct (means_step q dn p c Hpb Hq) as (s & Hs & Hm'); [unfold len in *; nia|done|].
      change (Z.of_nat (length dn)) with (len dn). rewrite Hs. cbn [mbind option_bind].
      destruct (IH (dn ++ [p]) _ ltac:(rewrite length_app; simpl; lia)
        ltac:(rewrite length_app, Nat.add_1_r, (take_S_r _ _ _ Hpk), Hd; done) Hlt Hm') as (c' & E & Hc').
      exists c'. split; [|done]. rewrite length_app, Nat.add_1_r in E. exact E. }
  intros Hlt. destruct (H (length preamble) [] 0xff) as (c & E & Hc); [done|done|done| |].
  - split; [by uints|]. intros j Hj. change 0xff with (Z.ones 8). rewrite Z.testbit_ones_nonneg by lia.
    destruct (Z.ltb_spec (7 - j) 8); [done|lia].
  - exists c. split; [|done]. rewrite drop_0 in E. unfold len. rewrite length_map. unfold seqZ. rewrite Nat2Z.id.
    assert ((fun i => Z.of_nat i + 0) <$> seq 0 (length preamble) = map Z.of_nat (seq 0 (length preamble))) as ->
      by (apply map_ext; lia). exact E.
Qed.

Lemma first_four_spec q p0 p1 p2 p3 :
  is_bit p0 -> is_bit p1 -> is_bit p2 -> is_bit p3 -> 0 <= q -> q + symLenByte * 3 < len packed ->
  exists c, first_four packed symLenByte (map bit_mask [p0; p1; p2; p3]) q = Some c /\
    means bits (8 * symLenByte) (8 * q) [p0; p1; p2; p3] c.
Proof using Hpacked Hsym.
  intros H0 H1 H2 H3 Hq Hlt.
  destruct (all_symbols_spec q [p0; p1; p2; p3]) as (c & E & Hc); [solve_Forall|done|change (len [p0; p1; p2; p3]) with 4; lia|].
  exists c. split; [|done]. unfold all_symbols, first_four in *. cbn [map] in *.
  change (seqZ 0 (len [bit_mask p0; bit_mask p1; bit_mask p2; bit_mask p3])) with [0; 1; 2; 3] in E.
  cbn [zip zip_with foldM] in E.
  change (index [bit_mask p0; bit_mask p1; bit_mask p2; bit_mask p3] 0) with (Some (bit_mask p0)).
  change (index [bit_mask p0; bit_mask p1; bit_mask p2; bit_mask p3] 1) with (Some (bit_mask p1)).
  change (index [bit_mask p0; bit_mask p1; bit_mask p2; bit_mask p3] 2) with (Some (bit_mask p2)).
  change (index [bit_mask p0; bit_mask p1; bit_mask p2; bit_mask p3] 3) with (Some (bit_mask p3)).
  cbn [mbind option_bind].
  rewrite Z.mul_0_l, Z.add_0_r, Z.mul_1_l, !(Z.mul_comm _ symLenByte) in E.
  destruct (index packed q) as [s0|] eqn:E0; cbn [mbind option_bind] in *; [|done].
  destruct (index packed (q + symLenByte)) as [s1|]; cbn [mbind option_bind] in *; [|done].
  destruct (index packed (q + symLenByte * 2)) as [s2|]; cbn [mbind option_bind] in *; [|done].
  destruct (index packed (q + symLenByte * 3)) as [s3|]; cbn [mbind option_bind] in *; [|done].
  rewrite <- E. do 4 f_equal. change 0xff with (Z.ones 8). rewrite Z.land_comm, Z.land_ones by lia.
  symmetry. apply Z.mod_small. apply index_Some in E0 as [_ E0].
  apply lxor_range; [lia|by eapply Forall_lookup_1|apply bit_mask_byte].
Qed.
End Masks.

(** ** Blocks of eight positions *)

Definition block (bits : list Z) (symLen : Z) (preamble : list Z) (q : Z) : list Z :=
  map (fun j => 8 * q + j) (filter (fun j => preamble_at bits symLen (8 * q + j) preamble = true) (seqZ 0 8)).

Lemma filter_map_eq {A B} (f : A -> B) (P : B -> bool) (l : list A) :
  filter (fun x => P x = true) (map f l) = map f (filter (fun x => P (f x) = true) l).
Proof.
  induction l as [|x l IH]; [done|]. cbn [map]. rewrite !filter_cons.
  destruct (decide (P (f x) = true)) as [E|E]; cbn [map]; by rewrite IH.
Qed.

Lemma matches_blocks bits symLen preamble n :
  matches bits symLen (8 * Z.of_nat n) preamble = concat (map (block bits symLen preamble) (map Z.of_nat (seq 0 n))).
Proof.
  unfold matches. induction n as [|n IH]; [done|].
  replace (8 * Z.of_nat (S n)) with (8 * Z.of_nat n + 8) by lia. rewrite seqZ_app, filter_app, IH by lia.
  rewrite seq_S, !map_app, concat_app. f_equal. cbn [map concat]. rewrite app_nil_r. unfold block.
  cbn [Nat.add].
  rewrite <- (filter_map_eq (fun j => 8 * Z.of_nat n + j) (fun q => preamble_at bits symLen q preamble)). f_equal. unfold seqZ. rewrite map_map.
  apply map_ext. intros i. lia.
Qed.

Lemma filter_ext_in' {A} (P Q : A -> bool) (l : list A) :
  (forall x, x ∈ l -> P x = Q x) -> filter (fun x => P x = true) l = filter (fun x => Q x = true) l.
Proof.
  induction l as [|x l IH]; intros H; [done|]. rewrite !filter_cons, IH by (intros y Hy; apply H; by apply list_elem_of_further).
  rewrite (H x) by apply list_elem_of_here. done.
Qed.

Lemma expand_block bits symLen q preamble c acc :
  means bits symLen (8 * q) preamble c -> expand 8 q c acc = acc ++ block bits symLen preamble q.
Proof.
  intros [Hc Hm]. rewrite expand_spec by done. unfold block, phases. do 2 f_equal.
  apply filter_ext_in'. intros j Hj. rewrite elem_of_seqZ in Hj. by rewrite Hm by lia.
Qed.

Lemma foldM_blocks (step : list Z -> Z -> option (list Z)) (blk : Z -> list Z) n k acc :
  (forall acc i, (k <= i < k + n)%nat -> step acc (Z.of_nat i) = Some (acc ++ blk (Z.of_nat i))) ->
  foldM step acc (map Z.of_nat (seq k n)) = Some (acc ++ concat (map blk (map Z.of_nat (seq k n)))).
Proof.
  revert k acc. induction n as [|n IH]; intros k acc H; cbn [seq map foldM concat]; [by rewrite app_nil_r|].
  rewrite H by lia. rewrite IH by (intros; apply H; lia). by rewrite <- app_assoc.
Qed.

Lemma seqZ_nat n : seqZ 0 (Z.of_nat n) = map Z.of_nat (seq 0 n).
Proof. unfold seqZ. rewrite Nat2Z.id. apply map_ext. lia. Qed.

Section Correct.
Context (packed : list Z) (Hpacked : Forall is_byte packed) (s : Z) (Hs : 0 < s) (n : nat).
Context (preamble : list Z) (Hp : Forall is_bit preamble).
Context (Hlen : Z.of_nat n + s * (len preamble - 1) <= len packed).

Abbreviation bits := (bytes_bits packed).

Lemma generic_correct :
  searchPackedByteAlignedGeneric (8 * Z.of_nat n) packed preamble s = Some (matches bits (8 * s) (8 * Z.of_nat n) preamble).
Proof using Hpacked Hs Hp Hlen.
  unfold searchPackedByteAlignedGeneric. rewrite Z.shiftr_div_pow2 by lia. change (2 ^ 3) with 8.
  replace (8 * Z.of_nat n / 8) with (Z.of_nat n) by (rewrite Z.mul_comm, Z.div_mul; lia).
  rewrite seqZ_nat, matches_blocks.
  rewrite (foldM_blocks _ (block bits (8 * s) preamble)); [done|]. intros acc i Hi. unfold generic_step.
  destruct (all_symbols_spec packed Hpacked s Hs (Z.of_nat i) preamble Hp) as (c & -> & Hc); [lia|nia|].
  cbn [mbind option_bind]. by rewrite (expand_block _ _ _ _ _ _ Hc).
Qed.

(** From the masks of the first four symbols to the whole preamble. *)
Lemma rest_correct p0 p1 p2 p3 tail q c acc :
  preamble = [p0; p1; p2; p3] ++ tail -> 0 <= q < Z.of_nat n ->
  means bits (8 * s) (8 * q) [p0; p1; p2; p3] c ->
  (c' ← (if negb (c =? 0) then t ← slice 4 (len preamble) preamble; match_rest packed q s 4 t c else Some c);
   Some (expand 8 q c' acc)) = Some (acc ++ block bits (8 * s) preamble q).
Proof using Hpacked Hs Hp Hlen.
  intros Ep Hq Hc. destruct (Z.eqb_spec c 0) as [E|E]; cbn [negb mbind option_bind].
  - f_equal. apply expand_block. rewrite E, Ep. eapply means_zero; [exact Hc|done].
  - rewrite slice_ok by (rewrite Ep, len_app; pose proof (len_nonneg tail); change (len [p0; p1; p2; p3]) with 4; lia).
    cbn [mbind option_bind].
    assert (drop (Z.to_nat 4) preamble = tail) as -> by (rewrite Ep; done).
    rewrite take_ge by (rewrite Ep, len_app; unfold len; simpl; lia).
    assert (Forall is_bit tail) as Ht by (rewrite Ep in Hp; by apply Forall_app in Hp as [_ ?]).
    rewrite Ep, len_app in Hlen. change (len [p0; p1; p2; p3]) with 4 in Hlen.
    destruct (match_rest_spec packed Hpacked s Hs q [p0; p1; p2; p3] tail c Ht) as (c' & Em & Hc'); [lia| |done|].
    { change (len [p0; p1; p2; p3]) with 4. nia. }
    change (len [p0; p1; p2; p3]) with 4 in Em. rewrite Em. cbn [mbind option_bind]. f_equal.
    rewrite Ep. by apply expand_block.
Qed.

Lemma search4_correct p0 p1 p2 p3 tail k m :
  preamble = [p0; p1; p2; p3] ++ tail -> (k + m = n)%nat ->
  exists masks, mapM (first_four packed s (map bit_mask [p0; p1; p2; p3])) (map Z.of_nat (seq k m)) = Some masks /\
    forall acc, finish_masks packed preamble s (Z.of_nat k) masks acc =
                Some (acc ++ concat (map (block bits (8 * s) preamble) (map Z.of_nat (seq k m)))).
Proof using Hpacked Hs Hp Hlen.
  intros Ep. revert k. induction m as [|m IH]; intros k Hk.
  { exists []. split; [done|]. intros acc. cbn. by rewrite app_nil_r. }
  pose proof Hp as Hp4. rewrite Ep in Hp4. do 4 (apply Forall_cons in Hp4 as [? Hp4]).
  assert (4 <= len preamble) as H4 by (rewrite Ep, len_app; pose proof (len_nonneg tail); change (len [p0; p1; p2; p3]) with 4; lia).
  destruct (first_four_spec packed Hpacked s Hs (Z.of_nat k) p0 p1 p2 p3) as (c & Ec & Hc); [done..|lia|nia|].
  destruct (IH (S k) ltac:(lia)) as (masks & Em & Hm). exists (c :: masks). split.
  - change (map Z.of_nat (seq k (S m))) with (Z.of_nat k :: map Z.of_nat (seq (S k) m)). cbn [mapM].
    rewrite Ec. cbn [mbind option_bind]. by rewrite Em.
  - intros acc. cbn [finish_masks seq map concat].
    pose proof (rest_correct p0 p1 p2 p3 tail (Z.of_nat k) c acc Ep ltac:(lia) Hc) as R.
    apply bind_Some in R as (c2 & -> & R). cbn [mbind option_bind]. apply (inj Some) in R. rewrite R.
    replace (Z.of_nat k + 1) with (Z.of_nat (S k)) by lia. rewrite Hm. by rewrite <- app_assoc.
Qed.

Lemma aligned_correct p0 p1 p2 p3 tail :
  preamble = [p0; p1; p2; p3] ++ tail ->
  foldM (aligned_step packed preamble s (map bit_mask [p0; p1; p2; p3])) [] (seqZ 0 (Z.of_nat n)) =
  Some (matches bits (8 * s) (8 * Z.of_nat n) preamble).
Proof using Hpacked Hs Hp Hlen.
  intros Ep. rewrite seqZ_nat, matches_blocks.
  rewrite (foldM_blocks _ (block bits (8 * s) preamble)); [done|]. intros acc i Hi. unfold aligned_step.
  pose proof Hp as Hp4. rewrite Ep in Hp4. do 4 (apply Forall_cons in Hp4 as [? Hp4]).
  assert (4 <= len preamble) as H4 by (rewrite Ep, len_app; pose proof (len_nonneg tail); change (len [p0; p1; p2; p3]) with 4; lia).
  destruct (first_four_spec packed Hpacked s Hs (Z.of_nat i) p0 p1 p2 p3) as (c & -> & Hc); [done..|lia|nia|].
  cbn [mbind option_bind]. apply (rest_correct p0 p1 p2 p3 tail); [done|lia|done].
Qed.

(** The 32-symbol routine, expanded. *)
Lemma search32_correct :
  len preamble = 32 ->
  (m ← searchAlignedCandidates32Go (Z.of_nat n) packed s (map bit_mask preamble); Some (expandAlignedCandidates m [])) =
  Some (matches bits (8 * s) (8 * Z.of_nat n) preamble).
Proof using Hpacked Hs Hp Hlen.
  intros H32. unfold searchAlignedCandidates32Go. destruct (Z.eqb_spec (Z.of_nat n) 0) as [E|E].
  { rewrite E. done. }
  replace (len (map bit_mask preamble)) with 32 by (unfold len in *; by rewrite length_map). cbn [negb Z.eqb Pos.eqb].
  destruct (index_lt packed (Z.of_nat n - 1 + s * (32 - 1))) as [x ->]; [nia|]. cbn [mbind option_bind].
  rewrite seqZ_nat, matches_blocks. unfold expandAlignedCandidates.
  assert (forall m k, (k + m = n)%nat -> exists masks,
    mapM (fun qByte => all_symbols packed qByte s (map bit_mask preamble)) (map Z.of_nat (seq k m)) = Some masks /\
    forall acc, expand_masks (Z.of_nat k) masks acc =
                acc ++ concat (map (block bits (8 * s) preamble) (map Z.of_nat (seq k m)))) as H.
  { induction m as [|m IH]; intros k Hk.
    { exists []. split; [done|]. intros acc. cbn. by rewrite app_nil_r. }
    destruct (all_symbols_spec packed Hpacked s Hs (Z.of_nat k) preamble Hp) as (c & Ec & Hc); [lia|nia|].
    destruct (IH (S k) ltac:(lia)) as (masks & Em & Hm). exists (c :: masks). split.
    - cbn [seq map mapM]. rewrite Ec. cbn [mbind option_bind]. by rewrite Em.
    - intros acc. cbn [expand_masks seq map concat]. rewrite (expand_block _ _ _ _ _ _ Hc).
      replace (Z.of_nat k + 1) with (Z.of_nat (S k)) by lia. rewrite Hm. by rewrite <- app_assoc. }
  destruct (H n 0%nat eq_refl) as (masks & -> & Hm). cbn [mbind option_bind]. f_equal. apply (Hm []).
Qed.

Lemma split_four : 4 <= len preamble ->
  exists p0 p1 p2 p3 tail, preamble = [p0; p1; p2; p3] ++ tail /\ take 4 preamble = [p0; p1; p2; p3].
Proof using.
  clear. intros H4. destruct preamble as [|p0 [|p1 [|p2 [|p3 tail]]]]; try (unfold len in H4; simpl in H4; lia).
  by exists p0, p1, p2, p3, tail.
Qed.

(** The four-symbol masks, finished. *)
Lemma finish4_correct :
  4 <= len preamble ->
  (m ← searchAlignedCandidates4Go (Z.of_nat n) packed s (map bit_mask (take 4 preamble));
   finishAlignedCandidates packed preamble s m []) = Some (matches bits (8 * s) (8 * Z.of_nat n) preamble).
Proof using Hpacked Hs Hp Hlen.
  intros H4. destruct (split_four H4) as (p0 & p1 & p2 & p3 & tail & Ep & ->).
  unfold searchAlignedCandidates4Go. destruct (Z.eqb_spec (Z.of_nat n) 0) as [E|E].
  { rewrite E. done. }
  destruct (index_lt packed (Z.of_nat n - 1 + s * 3)) as [x ->]; [nia|]. cbn [mbind option_bind].
  rewrite seqZ_nat, matches_blocks.
  destruct (search4_correct p0 p1 p2 p3 tail 0 n Ep eq_refl) as (masks & -> & Hm). cbn [mbind option_bind].
  unfold finishAlignedCandidates. apply (Hm []).
Qed.

(** The branches behind the fixed leaves: the four-symbol prefilter, native or
    portable. *)
Lemma prefilter_correct `{SearchPlatform} :
  4 <= len preamble ->
  (if (Z.land (Z.of_nat n) 15 =? 0) && searchAlignedCandidates4Available then
     candidateMasks ← searchAlignedCandidates4Platform (Z.of_nat n) packed s (map bit_mask (take 4 preamble));
     finishAlignedCandidates packed preamble s candidateMasks []
   else foldM (aligned_step packed preamble s (map bit_mask (take 4 preamble))) [] (seqZ 0 (Z.of_nat n))) =
  Some (matches bits (8 * s) (8 * Z.of_nat n) preamble).
Proof using Hpacked Hs Hp Hlen.
  intros H4. pose proof (finish4_correct H4) as Hfinish. destruct (split_four H4) as (p0 & p1 & p2 & p3 & tail & Ep & E4).
  rewrite E4 in *. destruct (Z.land (Z.of_nat n) 15 =? 0) eqn:H15; cbn [andb]; [|by apply aligned_correct with tail].
  destruct searchAlignedCandidates4Available eqn:Ha; [|by apply aligned_correct with tail].
  apply Z.eqb_eq in H15. by rewrite platform4_agrees by (done || lia || nia).
Qed.

Lemma byte_aligned_correct `{SearchPlatform} :
  searchPackedByteAligned (8 * Z.of_nat n) (8 * s) packed preamble =
  Some (matches bits (8 * s) (8 * Z.of_nat n) preamble).
Proof using Hpacked Hs Hp Hlen.
  unfold searchPackedByteAligned. rewrite !Z.shiftr_div_pow2 by lia. change (2 ^ 3) with 8.
  replace (8 * Z.of_nat n / 8) with (Z.of_nat n) by (rewrite Z.mul_comm, Z.div_mul; lia).
  replace (8 * s / 8) with s by (rewrite Z.mul_comm, Z.div_mul; lia).
  destruct (Z.ltb_spec (len preamble) 4) as [|H4]; [apply generic_correct|].
  pose proof (prefilter_correct H4) as Hpre.
  destruct (if (len preamble =? 32) && (Z.land (Z.of_nat n) 15 =? 0)
            then searchAlignedCandidates32FixedPlatform preamble (Z.of_nat n) packed s else ([], false))
    as [idx [|]] eqn:Ef; cbn [fst snd].
  { revert Ef. destruct (_ && (Z.land (Z.of_nat n) 15 =? 0)); [intros Ef|done]. rewrite <- (fixed32_agrees _ _ _ _ _ Ef) by (done || lia || nia). apply generic_correct. }
  destruct ((len preamble =? 32) && (Z.land (Z.of_nat n) 15 =? 0) && searchAlignedCandidates4Available) eqn:E32.
  { apply andb_prop in E32 as [[H32%Z.eqb_eq H15%Z.eqb_eq]%andb_prop Ha].
    rewrite platform32_agrees; [by apply search32_correct|done|lia|done|done|nia|].
    unfold len in *. by rewrite length_map. }
  destruct (if ((len preamble =? 16) || (len preamble =? 21)) && (Z.land (Z.of_nat n) 63 =? 0)
            then searchAlignedCandidates4FixedPlatform preamble (Z.of_nat n) packed s else ([], false))
    as [idx4 [|]] eqn:Ef4; cbn [fst snd]; [|exact Hpre].
  revert Ef4. destruct (_ && (Z.land (Z.of_nat n) 63 =? 0)); [intros Ef4|done]. rewrite <- (fixed4_agrees _ _ _ _ _ Ef4) by (done || lia || nia). apply generic_correct.
Qed.
End Correct.

(** ** The index-list search *)

(** The byte prefilter of the index-list search: every byte at the truncated
    symbol offsets has some sample that matches its symbol. *)
Fixpoint byte_prefilter (packed : list Z) (symLenByte qByte : Z) (preamble : list Z) : bool :=
  match preamble with
  | [] => true
  | p :: preamble =>
      match index packed qByte with Some b => negb (b =? bit_mask p) | None => false end &&
      byte_prefilter packed symLenByte (qByte + symLenByte) preamble
  end.

Lemma byte_prefilter_snoc packed s q a p :
  byte_prefilter packed s q (a ++ [p]) =
  byte_prefilter packed s q a && match index packed (q + s * len a) with Some b => negb (b =? bit_mask p) | None => false end.
Proof.
  revert q. induction a as [|x a IH]; intros q; cbn [app byte_prefilter].
  { change (len (@nil Z)) with 0. by rewrite Z.mul_0_r, Z.add_0_r, andb_true_r. }
  rewrite IH, andb_assoc, len_cons. by replace (q + s * (len a + 1)) with (q + s + s * len a) by ring.
Qed.

Lemma searchPassByte_filter p sig (a : list Z) :
  Forall (fun q => 0 <= q < len sig) a ->
  searchPassByte p sig a = Some (filter (fun q => match index sig q with Some b => negb (b =? p) | None => false end = true) a).
Proof.
  induction 1 as [|q a Hq Ha IH]; [done|]. cbn [searchPassByte]. destruct (index_lt sig q Hq) as [b Hb].
  rewrite Hb, IH. cbn [mbind option_bind]. rewrite filter_cons, Hb. by destruct (b =? p).
Qed.

Lemma searchPassRing_filter p sig start off (a : list Z) :
  (start < length sig)%nat -> 0 <= off < len sig -> Forall (fun q => 0 <= q /\ off + q < len sig) a ->
  searchPassRing p sig (Z.of_nat start + off) a =
  Some (filter (fun q => match index (ring start sig) (q + off) with Some b => b =? p | None => false end = true) a).
Proof.
  intros Hs Hoff Ha. unfold searchPassRing. unfold len in *.
  assert (forall q, 0 <= q -> off + q < Z.of_nat (length sig) ->
    index sig (let idx := (if Z.of_nat (length sig) <=? Z.of_nat start + off then Z.of_nat start + off - Z.of_nat (length sig)
                           else Z.of_nat start + off) + q in
               if Z.of_nat (length sig) <=? idx then idx - Z.of_nat (length sig) else idx) = index (ring start sig) (q + off)) as Hi.
  { intros q Hq1 Hq2. unfold ring, index. cbv zeta.
    destruct (Z.leb_spec (Z.of_nat (length sig)) (Z.of_nat start + off));
      match goal with |- context [Z.of_nat (length sig) <=? ?i] => destruct (Z.leb_spec (Z.of_nat (length sig)) i) end;
      rewrite !(proj2 (Z.leb_le 0 _)) by lia; try lia.
    - rewrite lookup_app_r, length_drop, lookup_take_lt by (rewrite ?length_drop; lia). f_equal. lia.
    - rewrite lookup_app_r, length_drop, lookup_take_lt by (rewrite ?length_drop; lia). f_equal. lia.
    - rewrite lookup_app_l, lookup_drop by (rewrite ?length_drop; lia). f_equal. lia. }
  induction Ha as [|q a [Hq1 Hq2] Ha IH]; [done|]. rewrite filter_cons. specialize (Hi q Hq1 Hq2). cbv zeta in Hi |- *.
  rewrite Hi. destruct (index_lt (ring start sig) (q + off)) as [b Hb]; [unfold len; rewrite length_ring; lia|].
  rewrite Hb. cbn [mbind option_bind]. cbv zeta in IH. rewrite IH. cbn [mbind option_bind]. by destruct (b =? p).
Qed.

Lemma filter_filter_b {A} (P Q : A -> bool) (l : list A) :
  filter (fun x => Q x = true) (filter (fun x => P x = true) l) = filter (fun x => P x && Q x = true) l.
Proof.
  induction l as [|x l IH]; [done|]. rewrite !filter_cons. destruct (P x) eqn:E; cbn [andb].
  - destruct (decide (true = true)); [|done]. rewrite filter_cons. by destruct (decide (Q x = true)); rewrite IH.
  - destruct (decide (false = true)); [done|]. exact IH.
Qed.

Lemma first_pass packed m n :
  (n <= length packed)%nat ->
  map fst (filter (fun '(_, b) => b <> m) (zip (map Z.of_nat (seq 0 n)) (take n packed))) =
  filter (fun q => match index packed q with Some b => negb (b =? m) | None => false end = true) (map Z.of_nat (seq 0 n)).
Proof.
  induction n as [|n IH]; intros Hn; [by rewrite take_0|].
  destruct (lookup_lt_is_Some_2 packed n) as [b Hb]; [lia|].
  rewrite (take_S_r _ _ _ Hb), seq_S, map_app, zip_with_app by (rewrite length_map, length_seq, length_take; lia).
  rewrite !filter_app, map_app, IH by lia. f_equal. cbn [map Nat.add zip_with].
  rewrite !filter_cons, index_nat, Hb. destruct (Z.eqb_spec b m) as [->|Hne].
  - rewrite decide_False by tauto. by rewrite decide_False by done.
  - rewrite decide_True by done. by rewrite decide_True by done.
Qed.

Lemma legacy_bytes_None blockSize packed s enum :
  foldM (legacy_bytes blockSize packed s) None enum = Some None.
Proof. induction enum as [|[i p] enum IH]; [done|exact IH]. Qed.

Lemma legacy_samples_None quantized start symLen enum :
  foldM (legacy_samples quantized start symLen) None enum = Some None.
Proof. induction enum as [|[i p] enum IH]; [done|exact IH]. Qed.

Lemma filter_nil_and {A} (P Q : A -> bool) (l : list A) :
  filter (fun x => P x = true) l = [] -> filter (fun x => P x && Q x = true) l = [].
Proof. intros H. by rewrite <- filter_filter_b, H. Qed.

Section Legacy.
Context (packed quantized : list Z) (start nb : nat) (s symLen : Z).
Context (Hstart : (start < length quantized)%nat) (Hs : 0 <= s) (Hsym : 0 <= symLen).

Lemma legacy_bytes_loop dn rest :
  dn <> [] -> Z.of_nat nb + s * (len dn + len rest - 1) <= len packed ->
  exists r, foldM (legacy_bytes (8 * Z.of_nat nb) packed s)
      (Some (filter (fun q => byte_prefilter packed s q dn = true) (map Z.of_nat (seq 0 nb))))
      (zip (map Z.of_nat (seq (length dn) (length rest))) rest) = Some r /\
    default [] r = filter (fun q => byte_prefilter packed s q (dn ++ rest) = true) (map Z.of_nat (seq 0 nb)).
Proof using Hs Hstart Hsym.
  revert dn. induction rest as [|p rest IH]; intros dn Hdn Hl.
  { eexists. split; [reflexivity|]. by rewrite app_nil_r. }
  rewrite len_cons in Hl. pose proof (len_nonneg rest).
  assert (0 < len dn) by (destruct dn; [done|rewrite len_cons; pose proof (len_nonneg dn); lia]).
  cbn [length seq map zip zip_with foldM legacy_bytes].
  destruct (Z.eqb_spec (Z.of_nat (length dn)) 0); [unfold len in *; lia|]. change (Z.of_nat (length dn)) with (len dn).
  rewrite slice_ok by nia. cbn [mbind option_bind].
  rewrite take_ge by (rewrite length_drop; unfold len; lia).
  rewrite searchPassByte_filter.
  2: { apply Forall_forall. intros q [_ (i & -> & Hi%elem_of_seq)%list_elem_of_fmap]%list_elem_of_filter.
       unfold len in *. rewrite length_drop. nia. }
  cbn [mbind option_bind]. rewrite filter_filter_b.
  assert (filter (fun x => byte_prefilter packed s x dn &&
            match index (drop (Z.to_nat (len dn * s)) packed) x with Some b => negb (b =? bit_mask p) | None => false end = true)
            (map Z.of_nat (seq 0 nb)) =
          filter (fun q => byte_prefilter packed s q (dn ++ [p]) = true) (map Z.of_nat (seq 0 nb))) as ->.
  { apply filter_ext_in'. intros q (i & -> & Hi%elem_of_seq)%list_elem_of_fmap. rewrite byte_prefilter_snoc. f_equal.
    replace (index (drop (Z.to_nat (len dn * s)) packed) (Z.of_nat i)) with (index packed (Z.of_nat i + s * len dn)); [done|].
    unfold index. rewrite !(proj2 (Z.leb_le 0 _)) by nia. rewrite lookup_drop. f_equal. nia. }
  set (l := filter _ _). destruct (Z.eqb_spec (len l) 0) as [E|E].
  - rewrite legacy_bytes_None. exists None. split; [done|]. cbn [default].
    assert (l = []) as El by (destruct l; [done|rewrite len_cons in E; pose proof (len_nonneg l); lia]).
    symmetry. clear -El Hs. subst l.
    replace (filter (fun q => byte_prefilter packed s q (dn ++ p :: rest) = true) (map Z.of_nat (seq 0 nb)))
      with (filter (fun q => byte_prefilter packed s q (dn ++ [p]) &&
              byte_prefilter packed s (q + s * len (dn ++ [p])) rest = true) (map Z.of_nat (seq 0 nb))).
    + by apply filter_nil_and.
    + apply filter_ext_in'. intros q _. replace (dn ++ p :: rest) with ((dn ++ [p]) ++ rest) by by rewrite <- app_assoc.
      generalize (dn ++ [p]). clear. intros a. revert q. induction a as [|x a IH]; intros q; cbn [app byte_prefilter andb].
      { change (len (@nil Z)) with 0. by rewrite Z.mul_0_r, Z.add_0_r. }
      rewrite <- andb_assoc. f_equal. rewrite <- IH, len_cons. do 2 f_equal. ring.
  - destruct (IH (dn ++ [p])) as (r & E1 & E2); [by destruct dn|rewrite len_app; change (len [p]) with 1; lia|].
    exists r. rewrite length_app, Nat.add_1_r in E1. split; [exact E1|]. by rewrite <- app_assoc in E2.
Qed.

Lemma legacy_samples_loop (a : list Z) dn rest :
  Forall (fun q => 0 <= q /\ q + symLen * (len dn + len rest - 1) < len quantized) a ->
  exists r, foldM (legacy_samples quantized (Z.of_nat start) symLen)
      (Some (filter (fun q => preamble_at (ring start quantized) symLen q dn = true) a))
      (zip (map Z.of_nat (seq (length dn) (length rest))) rest) = Some r /\
    default [] r = filter (fun q => preamble_at (ring start quantized) symLen q (dn ++ rest) = true) a.
Proof using Hs Hstart Hsym.
  revert dn. induction rest as [|p rest IH]; intros dn Hl.
  { eexists. split; [reflexivity|]. by rewrite app_nil_r. }
  pose proof (len_nonneg rest). pose proof (len_nonneg dn).
  cbn [length seq map zip zip_with foldM legacy_samples]. change (Z.of_nat (length dn)) with (len dn).
  destruct (decide (a = [])) as [->|Ha].
  { exists None. split; [|done]. cbn. unfold searchPassRing. cbn. by rewrite legacy_samples_None. }
  assert (0 <= len dn * symLen < len quantized) as Hoff.
  { destruct a as [|q a]; [done|]. apply Forall_cons in Hl as [Hq _]. rewrite len_cons in Hq. nia. }
  rewrite searchPassRing_filter; [|done|done|].
  2: { apply Forall_filter_incl. eapply Forall_impl; [exact Hl|]. intros q. rewrite len_cons. nia. }
  cbn [mbind option_bind]. rewrite filter_filter_b.
  assert (filter (fun x => preamble_at (ring start quantized) symLen x dn &&
            match index (ring start quantized) (x + len dn * symLen) with Some b => b =? p | None => false end = true) a =
          filter (fun q => preamble_at (ring start quantized) symLen q (dn ++ [p]) = true) a) as ->.
  { apply filter_ext_in'. intros q _. rewrite preamble_at_app. cbn [preamble_at]. rewrite andb_true_r.
    by rewrite (Z.mul_comm symLen). }
  set (l := filter _ _). destruct (Z.eqb_spec (len l) 0) as [E|E].
  - rewrite legacy_samples_None. exists None. split; [done|]. cbn [default].
    assert (l = []) as El by (destruct l; [done|rewrite len_cons in E; pose proof (len_nonneg l); lia]).
    symmetry. subst l.
    replace (filter (fun q => preamble_at (ring start quantized) symLen q (dn ++ p :: rest) = true) a)
      with (filter (fun q => preamble_at (ring start quantized) symLen q (dn ++ [p]) &&
              preamble_at (ring start quantized) symLen (q + symLen * len (dn ++ [p])) rest = true) a).
    + by apply filter_nil_and.
    + apply filter_ext_in'. intros q _. rewrite <- preamble_at_app. by rewrite <- app_assoc.
  - destruct (IH (dn ++ [p])) as (r & E1 & E2).
    { eapply Forall_impl; [exact Hl|]. intros q. rewrite len_app, len_cons. change (len [p]) with 1.
      intros [? ?]. split; [done|]. by replace (len dn + 1 + len rest - 1) with (len dn + (len rest + 1) - 1) by lia. }
    exists r. rewrite length_app, Nat.add_1_r in E1. split; [exact E1|]. by rewrite <- app_assoc in E2.
Qed.

Lemma expand_bytes (P : Z -> bool) n :
  concat (map (fun qIdx => map (fun idx => Z.shiftl qIdx 3 + idx) (seqZ 0 8)) (filter (fun q => P q = true) (map Z.of_nat (seq 0 n)))) =
  filter (fun q => P (q / 8) = true) (seqZ 0 (8 * Z.of_nat n)).
Proof using.
  clear. induction n as [|n IH]; [done|].
  replace (8 * Z.of_nat (S n)) with (8 * Z.of_nat n + 8) by lia. rewrite seqZ_app, filter_app, <- IH by lia.
  rewrite seq_S, map_app, filter_app, map_app, concat_app. f_equal. cbn [map Nat.add]. rewrite Z.add_0_l.
  assert (seqZ (8 * Z.of_nat n) 8 = map (fun idx => Z.shiftl (Z.of_nat n) 3 + idx) (seqZ 0 8)) as ->.
  { unfold seqZ. rewrite map_map. apply map_ext. intros i. rewrite Z.shiftl_mul_pow2; lia. }
  rewrite filter_map_eq, filter_cons, filter_nil.
  rewrite (filter_ext_in' _ (fun _ => P (Z.of_nat n))).
  2: { intros j Hj%elem_of_seqZ. rewrite Z.shiftl_mul_pow2, Z.div_add_l, Z.div_small, Z.add_0_r by lia. done. }
  destruct (P (Z.of_nat n)); [|done]. destruct (decide (true = true)); [|done]. cbn [map concat]. by rewrite app_nil_r.
Qed.

Lemma legacy_correct preamble sIdxA :
  s = symLen / 8 -> preamble <> [] -> Z.of_nat nb + s * (len preamble - 1) <= len packed ->
  8 * Z.of_nat nb - 1 + symLen * (len preamble - 1) < len quantized ->
  searchPackedLegacy (8 * Z.of_nat nb) symLen packed quantized (Z.of_nat start) preamble sIdxA =
  Some (filter (fun q => byte_prefilter packed s (q / 8) preamble && preamble_at (ring start quantized) symLen q preamble = true)
          (seqZ 0 (8 * Z.of_nat nb))).
Proof using Hstart Hs Hsym.
  intros Es Hne Hp Hq. unfold searchPackedLegacy. rewrite Z.shiftr_div_pow2 by lia. change (2 ^ 3) with 8. rewrite <- Es.
  unfold len at 1 2. rewrite seqZ_nat.
  assert (exists r, foldM (legacy_bytes (8 * Z.of_nat nb) packed s) (Some sIdxA)
            (zip (map Z.of_nat (seq 0 (length preamble))) preamble) = Some r /\
          default [] r = filter (fun q => byte_prefilter packed s q preamble = true) (map Z.of_nat (seq 0 nb))) as (r & -> & Er).
  { destruct preamble as [|p rest]; [done|]. cbn [length seq map zip zip_with foldM legacy_bytes].
    change (Z.of_nat 0 =? 0) with true. cbn iota. rewrite Z.shiftr_div_pow2 by lia. change (2 ^ 3) with 8.
    replace (8 * Z.of_nat nb / 8) with (Z.of_nat nb) by (rewrite Z.mul_comm, Z.div_mul; lia).
    rewrite len_cons in Hp. pose proof (len_nonneg rest).
    rewrite slice_ok by nia. cbn [mbind option_bind]. change (Z.to_nat 0) with 0%nat.
    rewrite drop_0, Z.sub_0_r, Nat2Z.id.
    replace (len (take nb packed)) with (Z.of_nat nb) by (unfold len in *; rewrite length_take; nia).
    rewrite seqZ_nat, first_pass by (unfold len in *; nia).
    destruct (legacy_bytes_loop [p] rest) as (r & E1 & E2); [done|change (len [p]) with 1; nia|].
    exists r. split; [|exact E2]. etransitivity; [|exact E1]. do 2 f_equal.
    apply filter_ext_in'. intros q _. cbn [byte_prefilter]. by rewrite andb_true_r. }
  cbn [mbind option_bind].
  rewrite <- (filter_filter_b (fun q => byte_prefilter packed s (q / 8) preamble)
                              (fun q => preamble_at (ring start quantized) symLen q preamble)).
  destruct r as [a|]; cbn [default id] in Er.
  2: { f_equal. rewrite <- (expand_bytes (fun q => byte_prefilter packed s q preamble)), <- Er. done. }
  rewrite Er, (expand_bytes (fun q => byte_prefilter packed s q preamble)).
  set (a' := filter _ (seqZ 0 _)).
  destruct (legacy_samples_loop a' [] preamble) as (r & E1 & E2).
  { apply Forall_filter_incl, Forall_forall. intros q Hq'%elem_of_seqZ. change (len (@nil Z)) with 0. nia. }
  cbn [preamble_at app length] in E1, E2.
  assert (filter (fun _ : Z => true = true) a' = a') as Ea.
  { clear. induction a' as [|x l IH]; [done|]. rewrite filter_cons. by rewrite decide_True, IH. }
  rewrite Ea in E1. rewrite E1. cbn [mbind option_bind]. by rewrite E2.
Qed.
End Legacy.

(** ** Properties *)

Lemma preamble_at_lookup bits symLen q preamble :
  0 <= q -> 0 <= symLen ->
  preamble_at bits symLen q preamble = true <->
  forall i p, preamble !! i = Some p -> bits !! Z.to_nat (q + symLen * Z.of_nat i) = Some p.
Proof.
  revert q. induction preamble as [|x preamble IH]; intros q Hq Hs; cbn [preamble_at].
  { split; [by intros _ i p Hi|done]. }
  rewrite andb_true_iff, IH by lia. unfold index. rewrite (proj2 (Z.leb_le 0 q)) by lia. split.
  - intros [Hx H] [|i] p Hi; cbn in Hi.
    + injection Hi as ->. rewrite Z.mul_0_r, Z.add_0_r.
      destruct (bits !! Z.to_nat q) as [b|]; [|done]. by apply Z.eqb_eq in Hx as ->.
    + rewrite <- (H i p Hi). f_equal. lia.
  - intros H. split.
    + pose proof (H 0%nat x eq_refl) as H0. rewrite Z.mul_0_r, Z.add_0_r in H0. rewrite H0. apply Z.eqb_refl.
    + intros i p Hi. rewrite <- (H (S i) p Hi). f_equal. lia.
Qed.

Lemma preamble_at_take m bits symLen q preamble :
  0 <= q -> 0 <= symLen -> q + symLen * (len preamble - 1) < Z.of_nat m ->
  preamble_at (take m bits) symLen q preamble = preamble_at bits symLen q preamble.
Proof.
  revert q. induction preamble as [|x preamble IH]; intros q Hq Hs Hm; [done|]. cbn [preamble_at].
  rewrite len_cons in Hm. pose proof (len_nonneg preamble).
  assert (index (take m bits) q = index bits q) as ->.
  { unfold index. rewrite (proj2 (Z.leb_le 0 q)) by lia. apply lookup_take_lt. nia. }
  destruct preamble as [|y preamble]; [done|]. rewrite IH; [done|lia|done|]. lia.
Qed.

Lemma filter_seqZ_sorted (P : Z -> bool) n : StronglySorted Z.lt (filter (fun q => P q = true) (seqZ 0 n)).
Proof.
  unfold seqZ. generalize (Z.to_nat n). clear n. intros n.
  assert (forall k m, StronglySorted Z.lt (filter (fun q => P q = true) ((fun i => Z.of_nat i + 0) <$> seq k m))) as H; [|apply H].
  intros k m. revert k. induction m as [|m IH]; intros k; [constructor|]. cbn [seq fmap list_fmap]. rewrite filter_cons.
  destruct (decide _); [|apply IH]. constructor; [apply IH|]. apply Forall_forall.
  intros x [_ (i & -> & Hi%elem_of_seq)%list_elem_of_fmap]%list_elem_of_filter. lia.
Qed.

(** A preamble that is there passes the byte prefilter. *)
Lemma prefilter_of_match packed n s q preamble :
  Forall is_byte packed -> 0 < s -> Forall is_bit preamble -> 0 <= q < 8 * Z.of_nat n ->
  Z.of_nat n + s * (len preamble - 1) <= len packed ->
  preamble_at (bytes_bits packed) (8 * s) q preamble = true -> byte_prefilter packed s (q / 8) preamble = true.
Proof.
  intros Hb Hs Hp Hq. assert (0 <= q / 8) as Hd by (apply Z.div_pos; lia). revert n q Hq Hd.
  induction Hp as [|p preamble Hpb Hp IH]; intros n q Hq Hd Hl Hat; [done|]. cbn [preamble_at byte_prefilter] in *.
  rewrite len_cons in Hl. pose proof (len_nonneg preamble).
  apply andb_prop in Hat as [H1 H2]. pose proof (Z.div_mod q 8 ltac:(lia)) as Eq.
  pose proof (Z.mod_pos_bound q 8 ltac:(lia)) as Rq.
  assert (q / 8 < Z.of_nat n) by (apply Z.div_lt_upper_bound; lia).
  destruct (index_lt packed (q / 8)) as [b Hbq]; [nia|]. rewrite Hbq. apply index_Some in Hbq as [_ Hbq].
  assert (is_byte b) as Hbb by (by eapply Forall_lookup_1). apply andb_true_intro. split.
  - destruct (Z.eqb_spec b (bit_mask p)) as [Ebm|]; [|done]. exfalso.
    pose proof (bytes_bits_at packed (Z.to_nat (q / 8)) (q mod 8) b Hbq Rq) as Ei.
    replace (8 * Z.of_nat (Z.to_nat (q / 8)) + q mod 8) with q in Ei by lia. rewrite Ei in H1.
    pose proof (bit_mask_test p b (q mod 8) Hpb Hbb Rq) as T. rewrite H1, Ebm, Z.lxor_nilpotent, Z.bits_0 in T. done.
  - destruct preamble as [|x preamble]; [done|]. rewrite len_cons in Hl. pose proof (len_nonneg preamble).
    replace (q / 8 + s) with ((q + 8 * s) / 8) by (rewrite Z.mul_comm, Z.div_add; lia).
    apply (IH (n + Z.to_nat s)%nat); [lia|rewrite Z.mul_comm, Z.div_add; lia|rewrite len_cons; lia|done].
Qed.

Lemma Search_spec `{SearchPlatform} n s pk start quantized preamble sIdxA :
  Forall is_bit quantized -> (length quantized mod 8 = 0)%nat -> (start mod 8 = 0)%nat -> (start < length quantized)%nat ->
  0 < s -> Forall is_bit preamble -> Z.of_nat n + s * (len preamble - 1) <= Z.of_nat pk -> (8 * pk <= length quantized)%nat ->
  Search (8 * Z.of_nat n) (8 * s) (Z.of_nat pk) quantized (Z.of_nat start) preamble sIdxA =
  Some (matches (ring start quantized) (8 * s) (8 * Z.of_nat n) preamble).
Proof.
  intros Hq H8 Hs8 Hst Hs Hp Hpk Hlen. unfold Search.
  destruct (packQuantizedRing_spec pk quantized start Hq Hlen ltac:(lia) H8 Hs8) as (packed & -> & Hl & Hb & Hbits).
  cbn [mbind option_bind]. unfold searchPacked.
  assert (Z.land (8 * s) 7 = 0) as ->.
  { change 7 with (Z.ones 3). rewrite Z.land_ones by lia. change (2 ^ 3) with 8. rewrite Z.mul_comm. by apply Z.mod_mul. }
  change (0 =? 0) with true. cbn iota. assert (len packed = Z.of_nat pk) as Hlp by (unfold len; lia).
  rewrite byte_aligned_correct by (first [done|lia]). f_equal. unfold matches.
  apply filter_ext_in'. intros q Hq'%elem_of_seqZ. rewrite Hbits. apply preamble_at_take; [lia|lia|].
  replace (Z.of_nat (8 * pk)) with (8 * Z.of_nat pk) by lia. nia.
Qed.

(** The dispatch on the symbol length. *)
Lemma aligned_symbols symLen : (Z.land symLen 7 =? 0) = (symLen mod 8 =? 0).
Proof. change 7 with (Z.ones 3). by rewrite Z.land_ones by lia. Qed.

(** The search with symbols of any length of at least a byte. *)
Lemma Search_unaligned `{SearchPlatform} (n pk start : nat) (symLen : Z) (quantized preamble sIdxA : list Z) :
  Forall is_bit quantized -> (length quantized mod 8 = 0)%nat -> (start mod 8 = 0)%nat -> (start < length quantized)%nat -> 8 <= symLen ->
  preamble <> [] -> Z.of_nat n + symLen / 8 * (len preamble - 1) <= Z.of_nat pk -> (8 * pk <= length quantized)%nat ->
  8 * Z.of_nat n - 1 + symLen * (len preamble - 1) < len quantized -> symLen mod 8 <> 0 ->
  exists chosen : Z -> bool, Search (8 * Z.of_nat n) symLen (Z.of_nat pk) quantized (Z.of_nat start) preamble sIdxA =
    Some (filter (fun q => chosen q && preamble_at (ring start quantized) symLen q preamble = true) (seqZ 0 (8 * Z.of_nat n))).
Proof.
  intros Hq H8 Hs8 Hst Hs Hne Hpk Hlen Hfits Hm. unfold Search, searchPacked. rewrite aligned_symbols, (proj2 (Z.eqb_neq _ _) Hm).
  destruct (packQuantizedRing_spec pk quantized start Hq Hlen ltac:(lia) H8 Hs8) as (packed & -> & Hl & _ & _). cbn [mbind option_bind].
  assert (0 < symLen / 8) by (apply Z.div_str_pos; lia). assert (len packed = Z.of_nat pk) as Hlp by (unfold len; lia).
  eexists. apply (legacy_correct packed quantized start n (symLen / 8) symLen); first [done|lia].
Qed.

(** C11. The packed search, on every platform that meets the interface, returns in
    increasing order sample positions of the block at which every symbol of the preamble
    is found in the decision ring.  When the symbol length is a multiple of eight samples,
    as it is for every symbol length the flags admit, it returns every such position; for
    other lengths, where the filter of whole bytes can lose a preamble, none but such. *)
Theorem Search_sound_and_complete `{SearchPlatform} (n pk start : nat) (symLen : Z) (quantized preamble sIdxA : list Z)
  (Hquantized : Forall is_bit quantized) (Hlen : (length quantized mod 8 = 0)%nat)
  (Hstart8 : (start mod 8 = 0)%nat) (Hstart : (start < length quantized)%nat) (Hsym : 8 <= symLen)
  (Hpreamble : Forall is_bit preamble) (Hne : preamble <> [] \/ symLen mod 8 = 0)
  (Hpacked : Z.of_nat n + symLen / 8 * (len preamble - 1) <= Z.of_nat pk) (Hring : (8 * pk <= length quantized)%nat)
  (Hfits : 8 * Z.of_nat n + symLen * (len preamble - 1) <= len quantized) :
  exists indices, Search (8 * Z.of_nat n) symLen (Z.of_nat pk) quantized (Z.of_nat start) preamble sIdxA = Some indices /\
    StronglySorted Z.lt indices /\
    let found q := 0 <= q < 8 * Z.of_nat n /\
      forall i p, preamble !! i = Some p -> ring start quantized !! Z.to_nat (q + symLen * Z.of_nat i) = Some p in
    (forall q, q ∈ indices -> found q) /\ (symLen mod 8 = 0 -> forall q, found q -> q ∈ indices).
Proof.
  destruct (Z.eq_dec (symLen mod 8) 0) as [Hm|Hm].
  - assert (symLen = 8 * (symLen / 8)) as Es by (pose proof (Z.div_mod symLen 8); lia).
    eexists. split; [rewrite Es at 1; apply Search_spec; first [done|lia]|]. split; [apply filter_seqZ_sorted|]. rewrite <- Es.
    unfold matches. cbn zeta. split.
    + intros q [H1 H2]%list_elem_of_filter. apply elem_of_seqZ in H2. split; [lia|]. apply preamble_at_lookup; [lia|lia|done].
    + intros _ q [H1 H2]. apply list_elem_of_filter. rewrite elem_of_seqZ. split; [|lia]. apply preamble_at_lookup; [lia|lia|done].
  - destruct (Search_unaligned n pk start symLen quantized preamble sIdxA) as [chosen E]; try done; [by destruct Hne|lia|].
    eexists. split; [exact E|]. split; [apply filter_seqZ_sorted|]. split; [|done].
    intros q [H1 H2]%list_elem_of_filter. apply andb_prop in H1 as [_ H1]. apply elem_of_seqZ in H2. split; [lia|].
    apply preamble_at_lookup; [lia|lia|done].
Qed.

Definition sample_ring : list Z := to_bits 64 0x0123456789ABCDEF.

Lemma Search_sound_and_complete_witness :
  exists indices, @Search generic_platform 16 8 4 sample_ring 24 [1; 0; 1] [] = Some indices /\ StronglySorted Z.lt indices /\
    forall q, 0 <= q < 16 ->
      (forall i p, [1; 0; 1] !! i = Some p -> ring 24 sample_ring !! Z.to_nat (q + 8 * Z.of_nat i) = Some p) -> q ∈ indices.
Proof.
  destruct (@Search_sound_and_complete generic_platform 2 4 24 8 sample_ring [1; 0; 1] []) as (indices & E & Hsorted & _ & Hall).
  - apply uintsb_Forall. reflexivity.
  - reflexivity.
  - reflexivity.
  - vm_compute. lia.
  - lia.
  - apply uintsb_Forall. reflexivity.
  - by left.
  - vm_compute. congruence.
  - vm_compute. lia.
  - vm_compute. congruence.
  - exists indices. split; [exact E|]. split; [exact Hsorted|]. intros q Hq Hp. apply (Hall eq_refl). split; [exact Hq|exact Hp].
Defined.

(** The index-list search returns, in increasing order, only positions at
    which the preamble is there, and when the symbol length is a multiple of
    eight it returns what the byte-aligned search returns. *)
Theorem searchPackedLegacy_sound `{SearchPlatform} (n pk start : nat) (symLen : Z) (quantized preamble sIdxA packed : list Z)
  (Hquantized : Forall is_bit quantized) (Hlen : (length quantized mod 8 = 0)%nat)
  (Hstart8 : (start mod 8 = 0)%nat) (Hstart : (start < length quantized)%nat) (Hsym : 8 <= symLen)
  (Hpreamble : Forall is_bit preamble) (Hne : preamble <> [])
  (Hpacked : Z.of_nat n + symLen / 8 * (len preamble - 1) <= Z.of_nat pk) (Hring : (8 * pk <= length quantized)%nat)
  (Hfits : 8 * Z.of_nat n - 1 + symLen * (len preamble - 1) < len quantized)
  (Hpack : packQuantizedRing (Z.of_nat pk) quantized (Z.of_nat start) = Some packed) :
  exists indices,
    searchPackedLegacy (8 * Z.of_nat n) symLen packed quantized (Z.of_nat start) preamble sIdxA = Some indices /\
    StronglySorted Z.lt indices /\
    (forall q, q ∈ indices -> preamble_at (ring start quantized) symLen q preamble = true) /\
    (symLen mod 8 = 0 -> searchPackedByteAligned (8 * Z.of_nat n) symLen packed preamble = Some indices).
Proof.
  destruct (packQuantizedRing_spec pk quantized start Hquantized Hring ltac:(lia) Hlen Hstart8) as (pk' & E & Hl & Hb & Hbits).
  rewrite Hpack in E. injection E as <-.
  assert (0 < symLen / 8) by (apply Z.div_str_pos; lia).
  assert (len packed = Z.of_nat pk) as Hlp by (unfold len; lia).
  eexists. split; [apply (legacy_correct packed quantized start n (symLen / 8) symLen); first [done|lia]|].
  split; [apply filter_seqZ_sorted|]. split.
  { intros q [Hx _]%list_elem_of_filter. by apply andb_prop in Hx as [_ ?]. }
  intros Hm. assert (symLen = 8 * (symLen / 8)) as Es by (pose proof (Z.div_mod symLen 8); lia).
  set (s := symLen / 8) in *. rewrite Es.
  rewrite byte_aligned_correct by (first [done|lia]). f_equal. unfold matches.
  apply filter_ext_in'. intros q Hq%elem_of_seqZ. rewrite Hbits.
  rewrite preamble_at_take; [|lia|lia|replace (Z.of_nat (8 * pk)) with (8 * Z.of_nat pk) by lia; nia].
  destruct (preamble_at (ring start quantized) (8 * s) q preamble) eqn:Hat; [|by rewrite andb_false_r].
  rewrite andb_true_r. symmetry. apply (prefilter_of_match packed n); try first [done|lia].
  - rewrite Hbits, preamble_at_take; [done|lia|lia|]. replace (Z.of_nat (8 * pk)) with (8 * Z.of_nat pk) by lia. nia.
Qed.

Lemma searchPackedLegacy_sound_witness :
  exists indices, searchPackedLegacy 16 12 [1; 35; 69; 103; 137; 171; 205; 239] sample_ring 0 [0; 1] [] = Some indices /\
    StronglySorted Z.lt indices.
Proof.
  destruct (@searchPackedLegacy_sound generic_platform 2 8 0 12 sample_ring [0; 1] [] [1; 35; 69; 103; 137; 171; 205; 239])
    as (indices & E & Hsorted & _).
  - apply uintsb_Forall. reflexivity.
  - reflexivity.
  - reflexivity.
  - vm_compute. lia.
  - lia.
  - apply uintsb_Forall. reflexivity.
  - discriminate.
  - vm_compute. congruence.
  - vm_compute. lia.
  - vm_compute. reflexivity.
  - reflexivity.
  - exists indices. split; [exact E|exact Hsorted].
Defined.

(** A symbol of twelve samples: the prefilter of the index-list search looks at
    the bytes at [preamble_index * (12 / 8)], not at the sample the symbol starts at,
    and rejects a position at which the preamble is in the ring. *)
Lemma searchPackedLegacy_misses :
  exists quantized packed, packQuantizedRing 8 quantized 0 = Some packed /\
    preamble_at quantized 12 0 [0; 0; 1] = true /\
    searchPackedLegacy 8 12 packed quantized 0 [0; 0; 1] [] = Some [].
Proof.
  exists (to_bits 64 0x0000008000000000), [0; 0; 0; 0x80; 0; 0; 0; 0].
  repeat split; vm_compute; reflexivity.
Qed.
