(* ===== verification/Ring.v ===== *)
(** The decision ring of src/protocol/decode.go (appendQuantized,
    nextQuantizedOutput, commitQuantizedOutput, quantizedAt) and its packed
    mirror of src/protocol/power16.go (nextPackedOutput, commitPackedOutput,
    packedSearchWindow).  The abstract state of both is a window: the most recent
    decisions, oldest first. *)

From S2P Require Import Prelude Packet Layout Search.

(** [copy(dst[lo:hi], src)]. *)
Definition copy_at {A} (dst : list A) (lo hi : Z) (src : list A) : option (list A) :=
  w ← slice lo hi dst; Some (take (Z.to_nat lo) dst ++ gocopy w src ++ drop (Z.to_nat hi) dst).

(** ** The decision ring *)

(** [Quantized] is the prefix of [quantizedBacking] of length BufferLength, or a
    slice of its own: without a packed producer, or when a caller replaced it. *)
Record DecisionRing := { quantizedBacking : list Z; separate : option (list Z); quantizedStart : Z }.

Definition Quantized (cfg : PacketConfig) (r : DecisionRing) : list Z :=
  match separate r with
  | Some l => l
  | None => take (Z.to_nat (BufferLength cfg)) (quantizedBacking r)
  end.

(** Writing through [Quantized], and moving the start. *)
Definition with_Quantized (cfg : PacketConfig) (r : DecisionRing) (q : list Z) (start : Z) : DecisionRing :=
  match separate r with
  | Some _ => {| quantizedBacking := quantizedBacking r; separate := Some q; quantizedStart := start |}
  | None => {| quantizedBacking := q ++ drop (Z.to_nat (BufferLength cfg)) (quantizedBacking r); separate := None;
               quantizedStart := start |}
  end.

Definition ownsQuantizedRing (cfg : PacketConfig) (r : DecisionRing) : bool :=
  (len (Quantized cfg r) =? BufferLength cfg) && negb (len (Quantized cfg r) =? 0) &&
  (len (quantizedBacking r) =? BufferLength cfg + BlockSize cfg) &&
  match separate r with Some _ => false | None => true end.

(** One step round a ring of [n] places. *)
Definition wrap_at (n i : Z) : Z := if n <=? i then i - n else i.

(** The block of the backing to write, the next start and the tail. *)
Definition nextQuantizedOutput (cfg : PacketConfig) (r : DecisionRing) : option (list Z * Z * Z) :=
  let nextStart := wrap_at (len (Quantized cfg r)) (quantizedStart r + BlockSize cfg) in
  let tail := wrap_at (len (Quantized cfg r)) (nextStart + PacketLength cfg) in
  output ← slice tail (tail + BlockSize cfg) (quantizedBacking r);
  Some (output, nextStart, tail).

Definition commitQuantizedOutput (cfg : PacketConfig) (r : DecisionRing) (nextStart tail count : Z) : option DecisionRing :=
  let n := len (Quantized cfg r) in
  let end_ := tail + count in
  q ← (if n <? end_ then
         let overflow := end_ - n in
         s ← slice n end_ (quantizedBacking r);
         copy_at (Quantized cfg r) 0 overflow s
       else Some (Quantized cfg r));
  Some (with_Quantized cfg r q nextStart).

Definition appendQuantized (cfg : PacketConfig) (r : DecisionRing) (block : list Z) : option DecisionRing :=
  let q := Quantized cfg r in
  let start := wrap_at (len q) (quantizedStart r + BlockSize cfg) in
  let tail := wrap_at (len q) (start + PacketLength cfg) in
  let first := len block in
  let remaining := len q - tail in
  let first := if remaining <? first then remaining else first in
  s ← slice 0 first block;
  q ← copy_at q tail (len q) s;
  s ← slice first (len block) block;
  q ← copy_at q 0 (len q) s;
  Some (with_Quantized cfg r q start).

Definition quantizedAt (cfg : PacketConfig) (r : DecisionRing) (idx : Z) : option Z :=
  index (Quantized cfg r) (wrap_at (len (Quantized cfg r)) (idx + quantizedStart r)).

(** A producer that fills the output it is given: what [appendPower16AndFilter]
    does around the packed backend. *)
Definition direct_write (cfg : PacketConfig) (r : DecisionRing) (decisions : list Z) : option DecisionRing :=
  '(output, nextStart, tail) ← nextQuantizedOutput cfg r;
  backing ← copy_at (quantizedBacking r) tail (tail + len output) decisions;
  commitQuantizedOutput cfg
    {| quantizedBacking := backing; separate := separate r; quantizedStart := quantizedStart r |} nextStart tail (len output).

(** ** The packed ring *)

Record PackedRing := { packedBacking : list Z; packedLength : Z; packedStart : Z; packedLookahead : Z }.

Definition nextPackedOutput (s : PackedRing) (cfg : PacketConfig) : option (list Z * Z * Z) :=
  let blockBytes := Z.shiftr (BlockSize cfg) 3 in
  let nextStart := wrap_at (packedLength s) (packedStart s + blockBytes) in
  let tail := wrap_at (packedLength s) (nextStart + Z.shiftr (PacketLength cfg) 3) in
  output ← slice tail (tail + blockBytes) (packedBacking s);
  Some (output, nextStart, tail).

Definition commitPackedOutput (s : PackedRing) (nextStart tail count : Z) : option PackedRing :=
  let end_ := tail + count in
  '(backing, end_) ←
    (if packedLength s <? end_ then
       let overflow := end_ - packedLength s in
       w ← slice (packedLength s) end_ (packedBacking s);
       b ← copy_at (packedBacking s) 0 overflow w; Some (b, packedLength s)
     else Some (packedBacking s, end_));
  backing ←
    (if tail <? packedLookahead s then
       let mirrorEnd := if packedLookahead s <? end_ then packedLookahead s else end_ in
       w ← slice tail mirrorEnd backing;
       copy_at backing (packedLength s + tail) (packedLength s + mirrorEnd) w
     else Some backing);
  Some {| packedBacking := backing; packedLength := packedLength s; packedStart := nextStart;
          packedLookahead := packedLookahead s |}.

Definition packedSearchWindow (s : PackedRing) : option (list Z) :=
  slice (packedStart s) (packedStart s + packedLookahead s) (packedBacking s).

(** The write of one packed block around the backend. *)
Definition packed_write (s : PackedRing) (cfg : PacketConfig) (bytes : list Z) : option PackedRing :=
  '(output, nextStart, tail) ← nextPackedOutput s cfg;
  backing ← copy_at (packedBacking s) tail (tail + len output) bytes;
  commitPackedOutput {| packedBacking := backing; packedLength := packedLength s; packedStart := packedStart s;
                        packedLookahead := packedLookahead s |} nextStart tail (len output).

(** ** The abstract window *)

(** The last decisions after a block has come in. *)
Definition push {A} (w block : list A) : list A := drop (length block) w ++ block.

Definition window (cfg : PacketConfig) (r : DecisionRing) : list Z := ring (Z.to_nat (quantizedStart r)) (Quantized cfg r).

(** What Allocate establishes about the configuration. *)
Record geometry (cfg : PacketConfig) : Prop := {
  geo_block : 0 < BlockSize cfg;
  geo_packet : 0 < PacketLength cfg;
  geo_buffer : BufferLength cfg = PacketLength cfg + BlockSize cfg }.

Record ring_ok (cfg : PacketConfig) (r : DecisionRing) : Prop := {
  ring_len : len (Quantized cfg r) = BufferLength cfg;
  ring_start : 0 <= quantizedStart r < BufferLength cfg }.

(** ** Lemmas *)

Lemma copy_at_ok {A} (dst src : list A) lo hi :
  0 <= lo -> hi = lo + len src -> hi <= len dst ->
  copy_at dst lo hi src = Some (take (Z.to_nat lo) dst ++ src ++ drop (Z.to_nat hi) dst).
Proof.
  intros H1 -> H2. pose proof (len_nonneg src). unfold copy_at. rewrite slice_ok by lia. cbn [mbind option_bind].
  rewrite gocopy_eq; [done|]. rewrite length_take, length_drop. unfold len in *. lia.
Qed.

(** Copying less than the destination holds leaves the rest. *)
Lemma copy_at_prefix {A} (dst src : list A) lo :
  0 <= lo -> lo + len src <= len dst ->
  copy_at dst lo (len dst) src = Some (take (Z.to_nat lo) dst ++ src ++ drop (Z.to_nat lo + length src) dst).
Proof.
  intros H1 H2. pose proof (len_nonneg src). unfold copy_at. rewrite slice_ok by lia. cbn [mbind option_bind]. f_equal. f_equal.
  unfold gocopy, len in *. rewrite (take_ge (drop _ _)) by (rewrite length_drop; lia).
  rewrite (drop_ge dst (Z.to_nat (Z.of_nat _))) by lia. rewrite app_nil_r, drop_drop. f_equal.
  rewrite take_ge by (rewrite length_drop; lia). done.
Qed.

Lemma wrap_at_cases n i : 0 <= i < 2 * n -> (i < n /\ wrap_at n i = i) \/ (n <= i /\ wrap_at n i = i - n).
Proof. intros H. unfold wrap_at. destruct (Z.leb_spec n i); [right|left]; lia. Qed.

(** Overwriting the oldest places of a ring with a block and moving the start
    behind it is a push on the window. *)
Lemma ring_push_flat {A} (l b : list A) s :
  (s + length b < length l)%nat ->
  ring (s + length b) (take s l ++ b ++ drop (s + length b) l) = push (ring s l) b.
Proof.
  intros H. unfold ring, push.
  rewrite app_assoc. rewrite drop_app_ge, take_app_ge by (rewrite length_app, length_take; lia).
  rewrite length_app, length_take. replace (s + length b - _)%nat with 0%nat by lia.
  rewrite drop_0, take_0, app_nil_r. rewrite drop_app_le by (rewrite length_drop; lia).
  rewrite drop_drop. rewrite <- !app_assoc. done.
Qed.

Lemma ring_push_wrap {A} (l b : list A) s :
  (s < length l)%nat -> (length b <= length l)%nat -> (length l <= s + length b)%nat ->
  let f := (length l - s)%nat in
  ring (s + length b - length l) (drop f b ++ drop (length b - f) (take s l ++ take f b)) = push (ring s l) b.
Proof.
  intros H1 H2 H3 f. subst f. unfold ring, push.
  replace (s + length b - length l)%nat with (length (drop (length l - s) b)) by (rewrite length_drop; lia).
  rewrite drop_app_length, take_app_length.
  rewrite (drop_app_le (take s l)) by (rewrite length_take; lia).
  rewrite drop_app_ge by (rewrite length_drop; lia). rewrite length_drop.
  replace (length b - (length l - s))%nat with (length b - (length l - s))%nat by lia.
  rewrite <- app_assoc, take_drop. done.
Qed.

(** The first [n] places of a backing into which [b] was written at [s], with
    the overflow copied back to the front. *)
Lemma backing_push {A} (bk b : list A) n s :
  (length b <= n)%nat -> (n + length b <= length bk)%nat -> (s < n)%nat ->
  let q := take n bk in
  let q' := take n (take s bk ++ b ++ drop (s + length b) bk) in
  let o := (s + length b - n)%nat in
  ring (if decide (n <= s + length b)%nat then o else (s + length b)%nat) (drop (n - s) b ++ drop o q') = push (ring s q) b.
Proof.
  intros Hb Hbk Hs q q' o.
  assert (length q = n) as Hq by (unfold q; rewrite length_take; lia).
  assert (take s bk = take s q) as Ets by (unfold q; rewrite take_take; f_equal; lia).
  assert (q' = take s q ++ take (n - s) (b ++ drop (s + length b) bk)) as Eq'.
  { unfold q'. rewrite Ets, take_app_ge, length_take, Hq by (rewrite length_take; lia). do 2 f_equal. lia. }
  destruct (decide (n <= s + length b)%nat) as [Hge|Hlt].
  - rewrite <- (ring_push_wrap q b s) by lia. rewrite Hq. unfold o. f_equal. f_equal. rewrite Eq', take_app_le by lia.
    f_equal. lia.
  - rewrite <- (ring_push_flat q b s) by lia. f_equal. rewrite (drop_ge b) by lia.
    replace o with 0%nat by (unfold o; lia). rewrite drop_0, app_nil_l, Eq', take_app_ge by lia.
    do 2 f_equal. unfold q. rewrite skipn_firstn_comm. f_equal. lia.
Qed.

Section Geometry.
Context (cfg : PacketConfig) (Hgeo : geometry cfg).

Lemma next_start s : 0 <= s < BufferLength cfg ->
  let n := BufferLength cfg in
  let start := wrap_at n (s + BlockSize cfg) in
  0 <= start < n /\ wrap_at n (start + PacketLength cfg) = s /\
  ((s + BlockSize cfg < n /\ start = s + BlockSize cfg) \/ (n <= s + BlockSize cfg /\ start = s + BlockSize cfg - n)).
Proof using Hgeo.
  intros Hs n start. subst n start. destruct Hgeo as [H1 H2 H3]. rewrite H3 in *. unfold wrap_at.
  repeat match goal with |- context [?a <=? ?b] => destruct (Z.leb_spec a b) end; lia.
Qed.

Lemma Quantized_with r q start : ring_ok cfg r -> len q = BufferLength cfg ->
  Quantized cfg (with_Quantized cfg r q start) = q /\ quantizedStart (with_Quantized cfg r q start) = start.
Proof using Hgeo.
  intros [Hl _] Hq. unfold with_Quantized, Quantized. destruct (separate r); cbn; [done|].
  split; [|done]. rewrite take_app_le, take_ge by (unfold len in *; lia). done.
Qed.

(** Both ways of writing a block are a push on the window. *)
Lemma appendQuantized_push r block :
  ring_ok cfg r -> len block = BlockSize cfg ->
  exists r', appendQuantized cfg r block = Some r' /\ ring_ok cfg r' /\ window cfg r' = push (window cfg r) block.
Proof using Hgeo.
  intros [Hl Hs] Hb. pose proof Hgeo as [G1 G2 G3]. unfold appendQuantized. rewrite Hl.
  destruct (next_start _ Hs) as (Hs' & -> & Hcase). set (start := wrap_at _ _) in *.
  set (s := quantizedStart r) in *. set (q := Quantized cfg r) in *.
  exists (with_Quantized cfg r (if decide (s + BlockSize cfg < BufferLength cfg)
    then take (Z.to_nat s) q ++ block ++ drop (Z.to_nat s + length block) q
    else let f := (length q - Z.to_nat s)%nat in drop f block ++ drop (length block - f) (take (Z.to_nat s) q ++ take f block)) start).
  assert (forall r', ring_ok cfg r' <-> len (Quantized cfg r') = BufferLength cfg /\ 0 <= quantizedStart r' < BufferLength cfg) as Hok
    by (intros r'; split; [by intros []|intros []; by constructor]).
  destruct Hcase as [[Hlt Est]|[Hge Est]].
  - rewrite decide_True by lia. destruct (Z.ltb_spec (BufferLength cfg - s) (len block)); [lia|].
    rewrite slice_prefix by lia. cbn [mbind option_bind].
    rewrite take_ge by (unfold len; lia). rewrite <- Hl, copy_at_prefix by lia. cbn [mbind option_bind].
    rewrite slice_suffix by lia. cbn [mbind option_bind]. rewrite (drop_ge block) by (unfold len; lia).
    assert (len (take (Z.to_nat s) q ++ block ++ drop (Z.to_nat s + length block) q) = BufferLength cfg) as Hl'
      by (unfold len in *; rewrite !length_app, length_take, length_drop; lia).
    rewrite copy_at_prefix by (unfold len in *; cbn; lia). cbn [mbind option_bind].
    split; [done|]. rewrite Hok. unfold window.
    destruct (Quantized_with r _ start ltac:(by constructor) Hl') as [-> ->]. split; [done|]. rewrite Est.
    replace (Z.to_nat (s + BlockSize cfg)) with (Z.to_nat s + length block)%nat by (unfold len in *; lia).
    apply ring_push_flat. fold s q. unfold len in *. lia.
  - rewrite decide_False by lia. cbv zeta. set (f := (length q - Z.to_nat s)%nat).
    assert (BufferLength cfg - s = Z.of_nat f) as Ef by (unfold len in *; lia). rewrite Ef.
    assert ((if Z.of_nat f <? len block then Z.of_nat f else len block) = Z.of_nat f) as ->
      by (destruct (Z.ltb_spec (Z.of_nat f) (len block)); lia).
    rewrite slice_prefix by lia. cbn [mbind option_bind]. rewrite Nat2Z.id.
    rewrite <- Hl, copy_at_prefix by (unfold len in *; rewrite ?length_take; lia). cbn [mbind option_bind].
    rewrite slice_suffix by lia. cbn [mbind option_bind]. rewrite Nat2Z.id.
    rewrite length_take, (drop_ge q) by (unfold len in *; lia). rewrite app_nil_r.
    set (q1 := take (Z.to_nat s) q ++ take f block).
    assert (len q1 = BufferLength cfg) as Hl1 by (unfold q1, len in *; rewrite length_app, !length_take; lia).
    rewrite copy_at_prefix by (unfold len in *; rewrite ?length_drop; lia). cbn [mbind option_bind].
    rewrite take_0, app_nil_l, length_drop, Nat.add_0_l. split; [done|].
    assert (len (drop f block ++ drop (length block - f) q1) = BufferLength cfg) as Hl'
      by (unfold len in *; rewrite length_app, !length_drop; lia).
    rewrite Hok. unfold window. destruct (Quantized_with r _ start ltac:(by constructor) Hl') as [-> ->].
    split; [done|]. rewrite Est.
    replace (Z.to_nat (s + BlockSize cfg - BufferLength cfg)) with (Z.to_nat s + length block - length q)%nat by (unfold len in *; lia).
    apply ring_push_wrap; fold s q; unfold len in *; lia.
Qed.
Lemma owned_ring k ext start :
  len k = BufferLength cfg -> len ext = BlockSize cfg -> 0 <= start < BufferLength cfg ->
  let r := {| quantizedBacking := k ++ ext; separate := None; quantizedStart := start |} in
  Quantized cfg r = k /\ ring_ok cfg r /\ ownsQuantizedRing cfg r = true /\ window cfg r = ring (Z.to_nat start) k.
Proof using Hgeo.
  intros Hk He Hs r. assert (Quantized cfg r = k) as Ek.
  { unfold Quantized; cbn. rewrite take_app_le, take_ge by (unfold len in *; lia). done. }
  unfold window, ownsQuantizedRing. rewrite Ek. split; [done|]. split; [constructor; [by rewrite Ek|done]|]. split; [|done].
  unfold r. cbn. rewrite len_app, Hk, He, !Z.eqb_refl, (proj2 (Z.eqb_neq _ 0)) by lia. done.
Qed.

Lemma direct_write_push r decisions :
  ring_ok cfg r -> ownsQuantizedRing cfg r = true -> len decisions = BlockSize cfg ->
  exists r', direct_write cfg r decisions = Some r' /\ ring_ok cfg r' /\ ownsQuantizedRing cfg r' = true /\
    window cfg r' = push (window cfg r) decisions.
Proof using Hgeo.
  intros [Hl Hs] Hown Hd. pose proof Hgeo as [G1 G2 G3].
  unfold ownsQuantizedRing in Hown. destruct (separate r) eqn:Esep; [by rewrite andb_false_r in Hown|].
  apply andb_prop in Hown as [[_ Hbk%Z.eqb_eq]%andb_prop _].
  unfold direct_write, nextQuantizedOutput. rewrite Hl, Esep.
  destruct (next_start _ Hs) as (Hs' & -> & Hcase). set (start := wrap_at _ _) in *.
  assert (window cfg r = ring (Z.to_nat (quantizedStart r)) (take (Z.to_nat (BufferLength cfg)) (quantizedBacking r))) as ->
    by (unfold window, Quantized; by rewrite Esep).
  set (s := quantizedStart r) in *. set (bk := quantizedBacking r) in *. clearbody s bk. clear Hl Esep.
  rewrite slice_ok by lia. cbn [mbind option_bind].
  set (output := take _ (drop _ bk)).
  assert (len output = BlockSize cfg) as -> by (unfold output, len in *; rewrite length_take, length_drop; lia).
  rewrite copy_at_ok by lia. cbn [mbind option_bind].
  replace (Z.to_nat (s + BlockSize cfg)) with (Z.to_nat s + length decisions)%nat by (unfold len in *; lia).
  set (bk' := take (Z.to_nat s) bk ++ decisions ++ drop _ bk).
  set (n := Z.to_nat (BufferLength cfg)). set (q' := take n bk').
  assert (len bk' = BufferLength cfg + BlockSize cfg) as Hbk'
    by (unfold bk', len in *; rewrite !length_app, length_take, length_drop; lia).
  assert (len q' = BufferLength cfg) as Hq' by (unfold q', n, len in *; rewrite length_take; lia).
  pose proof (backing_push bk decisions n (Z.to_nat s) ltac:(unfold n, len in *; lia) ltac:(unfold n, len in *; lia)
    ltac:(unfold n; lia)) as Hpush. cbv zeta in Hpush. fold bk' in Hpush. fold q' in Hpush.
  unfold commitQuantizedOutput. set (r1 := {| quantizedBacking := bk'; separate := None; quantizedStart := s |}).
  change (Quantized cfg r1) with q'. change (quantizedBacking r1) with bk'. rewrite Hq'.
  set (k := drop (n - Z.to_nat s) decisions ++ drop (Z.to_nat s + length decisions - n) q') in *.
  assert (len k = BufferLength cfg) as Hk by (unfold k, n, len in *; rewrite length_app, !length_drop; lia).
  destruct (owned_ring k (drop n bk') start Hk) as (_ & H1 & H2 & H3);
    [unfold n, len in *; rewrite length_drop; lia|done|].
  eexists. split; [|split; [exact H1|split; [exact H2|]]].
  2: { rewrite H3, <- Hpush. f_equal. destruct (decide _); unfold n, len in *; lia. }
  destruct (Z.ltb_spec (BufferLength cfg) (s + BlockSize cfg)) as [Hgt|Hle].
  - assert (slice (BufferLength cfg) (s + BlockSize cfg) bk' = Some (drop (n - Z.to_nat s) decisions)) as ->.
    { rewrite slice_ok by lia. f_equal. unfold bk', n, len in *. rewrite drop_app_ge, length_take by (rewrite length_take; lia).
      rewrite drop_app_le by lia. rewrite take_app_le, take_ge by (rewrite length_drop; lia). f_equal. lia. }
    cbn [mbind option_bind].
    assert (len (drop (n - Z.to_nat s) decisions) = s + BlockSize cfg - BufferLength cfg) as Hov.
    { unfold n, len in Hd |- *. rewrite length_drop. clear -Hd Hs Hgt G1 G2 G3. lia. }
    rewrite copy_at_ok by lia.
    cbn [mbind option_bind]. rewrite take_0, app_nil_l.
    replace (Z.to_nat (s + BlockSize cfg - BufferLength cfg)) with (Z.to_nat s + length decisions - n)%nat;
      [done|unfold n, len in Hd |- *; clear -Hd Hs Hgt G1 G2 G3; lia].
  - cbn [mbind option_bind]. unfold k. rewrite (drop_ge decisions) by (unfold n, len in *; lia).
    replace (Z.to_nat s + length decisions - n)%nat with 0%nat by (unfold n, len in *; lia). done.
Qed.
End Geometry.

(** ** The packed ring mirrors its prefix *)

Definition packed_cells (s : PackedRing) : list Z := take (Z.to_nat (packedLength s)) (packedBacking s).

Definition packed_window (s : PackedRing) : list Z := ring (Z.to_nat (packedStart s)) (packed_cells s).

(** Sizes in bytes, and the lookahead behind the ring repeats its beginning. *)
Record packed_ok (cfg : PacketConfig) (s : PackedRing) : Prop := {
  packed_sizes : packedLength s = Z.shiftr (BlockSize cfg) 3 + Z.shiftr (PacketLength cfg) 3;
  packed_block : 0 < Z.shiftr (BlockSize cfg) 3 <= packedLookahead s;
  packed_packet : 0 < Z.shiftr (PacketLength cfg) 3;
  packed_look : packedLookahead s <= packedLength s;
  packed_start : 0 <= packedStart s < packedLength s;
  packed_cells_len : len (packed_cells s) = packedLength s;
  packed_mirror : packedBacking s = packed_cells s ++ take (Z.to_nat (packedLookahead s)) (packed_cells s) }.

Lemma packedSearchWindow_spec cfg s : packed_ok cfg s ->
  packedSearchWindow s = Some (take (Z.to_nat (packedLookahead s)) (packed_window s)).
Proof.
  intros [H1 H2 H3 H4 H5 H6 H7]. unfold packedSearchWindow, packed_window. set (P := packed_cells s) in *.
  rewrite slice_ok by (rewrite ?H7, ?len_app; unfold len in *; rewrite ?length_take; lia). f_equal. rewrite H7.
  rewrite Z.add_simpl_l. rewrite drop_app_le by (unfold len in *; lia). unfold ring, len in *.
  destruct (decide (Z.to_nat (packedLookahead s) <= length (drop (Z.to_nat (packedStart s)) P))%nat) as [Hle|Hgt].
  - by rewrite !take_app_le.
  - rewrite !take_app_ge by lia. rewrite !take_take, length_drop. f_equal. f_equal. rewrite length_drop in Hgt. lia.
Qed.

(** Refreshing the touched part of the mirror makes it a mirror again. *)
Lemma mirror_fix {A} (P ext : list A) s e la :
  (la <= length P)%nat -> length ext = la -> (s <= e)%nat -> (e <= length P)%nat ->
  (s < la -> take s ext = take s P)%nat -> (s < la -> drop (min la e) ext = drop (min la e) (take la P))%nat ->
  (la <= s -> ext = take la P)%nat ->
  (if decide (s < la)%nat then take s ext ++ take (min la e - s) (drop s P) ++ drop (min la e) ext else ext) = take la P.
Proof.
  intros H1 H2 H3 H4 Ha Hb Hc. destruct (decide (s < la)%nat) as [Hlt|]; [|by apply Hc; lia].
  rewrite Ha, Hb by done. set (m := min la e).
  etransitivity; [|apply (take_drop s)]. rewrite take_take, Nat.min_l by lia. f_equal.
  etransitivity; [|apply (take_drop (m - s))]. rewrite drop_drop. replace (s + (m - s))%nat with m by lia. f_equal.
  rewrite skipn_firstn_comm, take_take. f_equal. lia.
Qed.

(** The parts of the old mirror around the block that was written. *)
Lemma mirror_around {A} (P b : list A) s la :
  let n := length P in
  (s < n)%nat -> (length b <= la)%nat -> (la <= n)%nat ->
  let bk' := take s P ++ b ++ drop (s + length b) (P ++ take la P) in
  let o := (s + length b - n)%nat in
  let P' := drop (n - s) b ++ drop o (take n bk') in
  let e := min n (s + length b) in
  length P' = n /\ length (drop n bk') = la /\
  (if decide (s < la)%nat then take s (drop n bk') ++ take (min la e - s) (drop s P') ++ drop (min la e) (drop n bk')
   else drop n bk') = take la P'.
Proof.
  intros n Hs Hb Hla bk' o P' e.
  assert (length bk' = (n + la)%nat) as Hl.
  { unfold bk'. rewrite !length_app, length_take, length_drop, length_app, length_take. fold n. lia. }
  assert (length P' = n) as HP' by (unfold P'; rewrite length_app, !length_drop, length_take; lia).
  split; [done|]. split; [rewrite length_drop; lia|].
  destruct (decide (n < s + length b)%nat) as [Hw|Hf].
  - assert (take n bk' = take s P ++ take (n - s) b) as Et.
    { unfold bk'. rewrite take_app_ge, length_take, Nat.min_l by (rewrite ?length_take; fold n; lia). f_equal.
      by rewrite take_app_le by lia. }
    assert (drop n bk' = drop (n - s) b ++ drop o (take la P)) as Ed.
    { unfold bk'. rewrite drop_app_ge, length_take, Nat.min_l by (rewrite ?length_take; fold n; lia).
      rewrite drop_app_le by lia. f_equal. rewrite drop_app_ge by (fold n; lia). done. }
    assert (length (drop (n - s) b) = o) as Ho by (rewrite length_drop; lia).
    apply mirror_fix; try (rewrite ?HP', ?length_drop; lia).
    + intros Hlt. unfold P'. rewrite Et, Ed, !take_app_ge, Ho by lia. f_equal.
      rewrite drop_app_le, take_app_le by (rewrite ?length_drop, ?length_take; fold n; lia).
      rewrite !skipn_firstn_comm, !take_take. f_equal. lia.
    + intros Hlt. rewrite !drop_ge; [done|rewrite ?length_take; lia|rewrite length_drop; lia].
    + intros Hge. unfold P'. rewrite Et, Ed, take_app_ge, Ho by lia. f_equal.
      rewrite drop_app_le, take_app_le by (rewrite ?length_drop, ?length_take; fold n; lia).
      rewrite !skipn_firstn_comm, !take_take. f_equal. lia.
  - assert (P' = take s P ++ b ++ drop (s + length b) P) as EP.
    { unfold P'. rewrite (drop_ge b) by lia. replace o with 0%nat by lia. rewrite drop_0. cbn [app]. unfold bk'.
      rewrite take_app_ge, length_take, Nat.min_l by (rewrite ?length_take; fold n; lia). f_equal.
      rewrite take_app_ge by lia. f_equal. rewrite drop_app_le by (fold n; lia).
      rewrite take_app_le, take_ge by (rewrite length_drop; fold n; lia). done. }
    assert (drop n bk' = take la P) as Ed.
    { unfold bk'. rewrite drop_app_ge, length_take, Nat.min_l by (rewrite ?length_take; fold n; lia).
      rewrite drop_app_ge by lia. rewrite drop_drop, drop_app_ge by (fold n; lia).
      replace (s + length b + (n - s - length b) - length P)%nat with 0%nat by (fold n; lia). done. }
    rewrite Ed. apply mirror_fix; try (rewrite ?HP', ?length_take; fold n; lia).
    + intros Hlt. rewrite EP, take_take, Nat.min_l, take_app_le by (rewrite ?length_take; fold n; lia).
      rewrite take_take. f_equal. lia.
    + intros Hlt. rewrite !skipn_firstn_comm, EP.
      destruct (decide (la <= s + length b)%nat).
      * replace (min la e) with la by lia. replace (la - la)%nat with 0%nat by lia. by rewrite !take_0.
      * replace (min la e) with (s + length b)%nat by lia. f_equal.
        rewrite drop_app_ge, length_take, Nat.min_l by (rewrite ?length_take; fold n; lia).
        rewrite drop_app_ge by lia. replace (s + length b - s - length b)%nat with 0%nat by lia. by rewrite drop_0.
    + intros Hge. rewrite EP, take_app_le by (rewrite length_take; fold n; lia). rewrite take_take. f_equal. lia.
Qed.

Lemma len_nat {A} (l : list A) : Z.to_nat (len l) = length l.
Proof. unfold len. lia. Qed.

Lemma slice_nat {A} (lo hi : nat) (l : list A) :
  (lo <= hi)%nat -> (hi <= length l)%nat -> slice (Z.of_nat lo) (Z.of_nat hi) l = Some (take (hi - lo) (drop lo l)).
Proof. intros H1 H2. rewrite slice_ok by (unfold len; lia). f_equal. by rewrite Nat2Z.id, <- Nat2Z.inj_sub, Nat2Z.id by lia. Qed.

Lemma copy_at_nat {A} (dst src : list A) (lo hi : nat) :
  hi = (lo + length src)%nat -> (hi <= length dst)%nat ->
  copy_at dst (Z.of_nat lo) (Z.of_nat hi) src = Some (take lo dst ++ src ++ drop hi dst).
Proof. intros -> H2. rewrite copy_at_ok by (unfold len; lia). by rewrite !Nat2Z.id. Qed.

Lemma drop_around {A} (a b c : list A) :
  drop (length a) (a ++ b ++ c) = b ++ drop (length a + length b) (a ++ b ++ c).
Proof. by rewrite <- drop_drop, !drop_app_length. Qed.

(** The commit in natural numbers: the overflow goes to the front, then the
    touched part of the mirror is refreshed. *)
Lemma commitPackedOutput_nat (bk b : list Z) (n la s start : nat) old :
  (s < n)%nat -> length bk = (n + la)%nat -> (length b <= la)%nat -> (la <= n)%nat ->
  drop s bk = b ++ drop (s + length b) bk ->
  let o := (s + length b - n)%nat in
  let P' := drop (n - s) b ++ drop o (take n bk) in
  let e := min n (s + length b) in
  commitPackedOutput {| packedBacking := bk; packedLength := Z.of_nat n; packedStart := old; packedLookahead := Z.of_nat la |}
    (Z.of_nat start) (Z.of_nat s) (len b) =
  Some {| packedBacking := P' ++ (if decide (s < la)%nat then take s (drop n bk) ++ take (min la e - s) (drop s P') ++ drop (min la e) (drop n bk)
                                  else drop n bk);
          packedLength := Z.of_nat n; packedStart := Z.of_nat start; packedLookahead := Z.of_nat la |}.
Proof.
  intros Hs Hl Hb Hla Hat o P' e. unfold commitPackedOutput. cbn [packedLength packedBacking packedLookahead].
  assert (length P' = n) as HP by (unfold P'; rewrite length_app, !length_drop, length_take; lia).
  assert ((if Z.of_nat n <? Z.of_nat s + len b
    then w ← slice (Z.of_nat n) (Z.of_nat s + len b) bk; b0 ← copy_at bk 0 (Z.of_nat s + len b - Z.of_nat n) w; Some (b0, Z.of_nat n)
    else Some (bk, Z.of_nat s + len b)) = Some (P' ++ drop n bk, Z.of_nat e)) as ->.
  { unfold len, P', e. rewrite <- Nat2Z.inj_add. destruct (Z.ltb_spec (Z.of_nat n) (Z.of_nat (s + length b))).
    - rewrite slice_nat by lia. cbn [mbind option_bind].
      replace (Z.of_nat (s + length b) - Z.of_nat n) with (Z.of_nat o) by lia. rewrite (copy_at_nat _ _ 0);
        [|rewrite length_take, length_drop; lia|lia].
      cbn [mbind option_bind]. rewrite take_0, app_nil_l. do 2 f_equal; [|lia]. rewrite <- app_assoc. f_equal.
      + replace n with (s + (n - s))%nat at 2 by lia. rewrite <- drop_drop, Hat, drop_app_le by lia.
        rewrite take_app_le, take_ge by (rewrite length_drop; lia). done.
      + rewrite <- (take_drop n bk) at 1. rewrite drop_app_le by (rewrite length_take; lia). done.
    - rewrite (drop_ge b) by lia. replace o with 0%nat by lia. rewrite drop_0, app_nil_l, take_drop. do 2 f_equal. lia. }
  cbn [mbind option_bind]. set (ext := drop n bk).
  assert (length ext = la) as He by (unfold ext; rewrite length_drop; lia).
  destruct (decide (s < la)%nat) as [Hlt|Hge].
  - rewrite (proj2 (Z.ltb_lt _ _)) by lia.
    replace (if Z.of_nat la <? Z.of_nat e then Z.of_nat la else Z.of_nat e) with (Z.of_nat (min la e))
      by (destruct (Z.ltb_spec (Z.of_nat la) (Z.of_nat e)); lia).
    rewrite slice_nat by (rewrite ?length_app; lia). cbn [mbind option_bind]. rewrite <- !Nat2Z.inj_add.
    rewrite drop_app_le, take_app_le by (rewrite ?length_drop; lia).
    rewrite copy_at_nat by (rewrite ?length_app, ?length_take, ?length_drop; lia). cbn [mbind option_bind]. do 2 f_equal.
    rewrite take_app_ge, drop_app_ge by lia. rewrite <- app_assoc. f_equal. f_equal; [f_equal; lia|]. f_equal. f_equal. lia.
  - rewrite (proj2 (Z.ltb_ge _ _)) by lia. done.
Qed.

Lemma packed_write_push cfg s bytes :
  packed_ok cfg s -> len bytes = Z.shiftr (BlockSize cfg) 3 ->
  exists s', packed_write s cfg bytes = Some s' /\ packed_ok cfg s' /\ packedLookahead s' = packedLookahead s /\
    packedLength s' = packedLength s /\ packed_window s' = push (packed_window s) bytes.
Proof.
  intros [H1 H2 H3 H4 H5 H6 H7] Hb. unfold packed_window. set (P := packed_cells s) in *.
  destruct s as [bk N st la]. cbn [packedBacking packedLength packedStart packedLookahead] in *.
  set (B := Z.shiftr (BlockSize cfg) 3) in *. set (K := Z.shiftr (PacketLength cfg) 3) in *.
  unfold packed_write, nextPackedOutput. cbn [packedBacking packedLength packedStart packedLookahead]. fold B K.
  set (start := wrap_at N (st + B)).
  assert (0 <= start < N /\ wrap_at N (start + K) = st /\ start = (if N <=? st + B then st + B - N else st + B)) as (Hs' & -> & Es).
  { unfold start, wrap_at. repeat match goal with |- context [?a <=? ?b] => destruct (Z.leb_spec a b) end; lia. }
  assert (len bk = N + la) as Hl by (rewrite H7; unfold len in *; rewrite length_app, length_take; lia).
  rewrite slice_ok by lia. cbn [mbind option_bind].
  match goal with |- context [len (take ?a ?b)] => assert (len (take a b) = B) as Hout by (unfold len in *; rewrite length_take, length_drop; lia) end.
  rewrite Hout. rewrite copy_at_ok by lia. cbn [mbind option_bind].
  set (n := length P). assert (Z.of_nat n = N) as En by (unfold n, len in *; lia).
  replace (Z.to_nat (st + B)) with (Z.to_nat st + length bytes)%nat by (unfold len in *; lia).
  assert (take (Z.to_nat st) bk = take (Z.to_nat st) P) as -> by (rewrite H7, take_app_le by (fold n; lia); done).
  set (bk' := take (Z.to_nat st) P ++ bytes ++ drop (Z.to_nat st + length bytes) bk).
  pose proof (mirror_around P bytes (Z.to_nat st) (Z.to_nat la)) as HM. cbv zeta in HM. fold n in HM. rewrite <- H7 in HM. fold bk' in HM.
  destruct HM as (M1 & M2 & M3); try (unfold len in *; lia).
  pose proof (backing_push bk bytes n (Z.to_nat st)) as HP. cbv zeta in HP.
  assert (take n bk = P) as EP by (rewrite H7, take_app_le, take_ge by (fold n; lia); done).
  assert (take (Z.to_nat st) bk = take (Z.to_nat st) P) as Etk by (rewrite H7, take_app_le by (fold n; lia); done).
  rewrite EP, Etk in HP. fold bk' in HP.
  pose proof (commitPackedOutput_nat bk' bytes n (Z.to_nat la) (Z.to_nat st) (Z.to_nat start) st) as HC. cbv zeta in HC.
  rewrite M3 in HC. rewrite !Z2Nat.id, En, Hb in HC by lia. rewrite HC; clear HC.
  2: lia. 2: { unfold bk', len in *. rewrite !length_app, length_take, length_drop. lia. } 2-3: unfold len in *; lia.
  2: { pose proof (drop_around (take (Z.to_nat st) P) bytes (drop (Z.to_nat st + length bytes) bk)) as HD.
       rewrite length_take, Nat.min_l in HD by (fold n; lia). exact HD. }
  set (P' := drop _ bytes ++ _) in *. eexists. split; [reflexivity|]. cbn [packedLength packedStart packedLookahead].
  match goal with |- packed_ok _ ?x /\ _ => assert (packed_cells x = P') as EP' end.
  { unfold packed_cells. cbn. rewrite take_app_le, take_ge by lia. done. }
  rewrite EP'. split; [|split; [done|split; [done|]]].
  - constructor; cbn [packedLength packedStart packedLookahead packedBacking]; rewrite ?EP'; try done; try lia.
    unfold len. lia.
  - rewrite <- HP by (unfold len in *; lia). f_equal. rewrite Es.
    assert (Z.of_nat (length bytes) = B) as Hb' by done. clearbody n B. clear -En Hb' H5.
    destruct (decide _) as [D|D], (Z.leb_spec N (st + B)); lia.
Qed.

(** ** Fresh rings *)

(** The rings that Allocate makes: one slice with a block of extension behind
    it for a packed producer, a slice of its own otherwise. *)
Definition allocate_ring (cfg : PacketConfig) (direct : bool) : DecisionRing :=
  if direct then {| quantizedBacking := make (BufferLength cfg + BlockSize cfg) 0; separate := None; quantizedStart := 0 |}
  else {| quantizedBacking := []; separate := Some (make (BufferLength cfg) 0); quantizedStart := 0 |}.

Definition allocate_packed (cfg : PacketConfig) : PackedRing :=
  let packedLength := Z.shiftr (BufferLength cfg) 3 in
  let packedLookahead := Z.shiftr (BlockSize cfg + PreambleLength cfg) 3 in
  {| packedBacking := make (packedLength + packedLookahead) 0; packedLength := packedLength; packedStart := 0;
     packedLookahead := packedLookahead |}.

Lemma take_make {A} n m (x : A) : 0 <= m <= n -> take (Z.to_nat m) (make n x) = make m x.
Proof. intros H. unfold make. rewrite take_replicate. f_equal. lia. Qed.

Lemma Forall_make {A} (P : A -> Prop) n x : P x -> Forall P (make n x).
Proof. intros H. by apply Forall_replicate. Qed.

Lemma foldl_push {A} (w : list A) blocks :
  (Forall (fun b => length b <= length w)%nat blocks) ->
  foldl push w blocks = drop (length (concat blocks)) (w ++ concat blocks) /\ length (foldl push w blocks) = length w.
Proof.
  intros H. revert w H. induction blocks as [|b blocks IH]; intros w H; cbn [foldl concat]; [by rewrite app_nil_r|].
  apply Forall_cons in H as [Hb H].
  assert (length (push w b) = length w) as Hl by (unfold push; rewrite length_app, length_drop; lia).
  destruct (IH (push w b)) as [E1 E2]; [by rewrite Hl|]. split; [|by rewrite E2]. rewrite E1. unfold push.
  rewrite length_app. rewrite (app_assoc w b), <- drop_drop. f_equal.
  rewrite !drop_app_le by (rewrite ?length_app; lia). by rewrite <- app_assoc.
Qed.

Section Fresh.
Context (cfg : PacketConfig) (Hgeo : geometry cfg).

Lemma fresh_ring direct :
  ring_ok cfg (allocate_ring cfg direct) /\ window cfg (allocate_ring cfg direct) = make (BufferLength cfg) 0 /\
  (direct = true -> ownsQuantizedRing cfg (allocate_ring cfg direct) = true).
Proof using Hgeo.
  destruct Hgeo as [H1 H2 H3].
  assert (Quantized cfg (allocate_ring cfg direct) = make (BufferLength cfg) 0) as E.
  { destruct direct; [|done]. unfold Quantized, allocate_ring. cbn [separate quantizedBacking]. apply take_make. lia. }
  split; [|split].
  - constructor; [rewrite E; apply len_make; lia|destruct direct; cbn; lia].
  - unfold window. rewrite E. destruct direct; cbn [allocate_ring quantizedStart]; unfold ring; by rewrite drop_0, take_0, app_nil_r.
  - intros ->. unfold ownsQuantizedRing. rewrite E. cbn [allocate_ring separate quantizedBacking].
    rewrite !len_make, !Z.eqb_refl, (proj2 (Z.eqb_neq _ 0)) by lia. done.
Qed.

Lemma foldM_append r blocks : ring_ok cfg r -> Forall (fun b => len b = BlockSize cfg) blocks ->
  exists r', foldM (appendQuantized cfg) r blocks = Some r' /\ ring_ok cfg r' /\ window cfg r' = foldl push (window cfg r) blocks.
Proof using Hgeo.
  intros Hr H. revert r Hr. induction H as [|b blocks Hb H IH]; intros r Hr; [by exists r|]. cbn [foldM foldl].
  destruct (appendQuantized_push cfg Hgeo r b Hr Hb) as (r1 & -> & Hr1 & <-). by apply IH.
Qed.

Lemma foldM_direct r blocks : ring_ok cfg r -> ownsQuantizedRing cfg r = true -> Forall (fun b => len b = BlockSize cfg) blocks ->
  exists r', foldM (direct_write cfg) r blocks = Some r' /\ ring_ok cfg r' /\ window cfg r' = foldl push (window cfg r) blocks.
Proof using Hgeo.
  intros Hr Ho H. revert r Hr Ho. induction H as [|b blocks Hb H IH]; intros r Hr Ho; [by exists r|]. cbn [foldM foldl].
  destruct (direct_write_push cfg Hgeo r b Hr Ho Hb) as (r1 & -> & Hr1 & Ho1 & <-). by apply IH.
Qed.

Lemma foldM_packed s blocks : packed_ok cfg s -> Forall (fun b => len b = Z.shiftr (BlockSize cfg) 3) blocks ->
  exists s', foldM (fun s b => packed_write s cfg b) s blocks = Some s' /\ packed_ok cfg s' /\
    packedLookahead s' = packedLookahead s /\ packed_window s' = foldl push (packed_window s) blocks.
Proof.
  intros Hr H. revert s Hr. induction H as [|b blocks Hb H IH]; intros s Hr; [by exists s|]. cbn [foldM foldl].
  destruct (packed_write_push cfg s b Hr Hb) as (r1 & -> & Hr1 & Hla & _ & <-).
  destruct (IH r1 Hr1) as (s' & -> & Hs' & E & Ew). exists s'. rewrite E, Hla. done.
Qed.

Lemma quantizedAt_window r idx : ring_ok cfg r -> 0 <= idx < BufferLength cfg ->
  quantizedAt cfg r idx = index (window cfg r) idx.
Proof using Hgeo.
  intros [Hl Hs] Hi. unfold quantizedAt, window. set (q := Quantized cfg r) in *. rewrite Hl.
  unfold index, wrap_at, ring. rewrite (proj2 (Z.leb_le 0 idx)) by lia. unfold len in *.
  destruct (Z.leb_spec (BufferLength cfg) (idx + quantizedStart r)).
  - rewrite (proj2 (Z.leb_le 0 _)) by lia. rewrite lookup_app_r by (rewrite length_drop; lia).
    rewrite length_drop, lookup_take_lt by lia. f_equal. lia.
  - rewrite (proj2 (Z.leb_le 0 _)) by lia. rewrite lookup_app_l by (rewrite length_drop; lia).
    rewrite lookup_drop. f_equal. lia.
Qed.
End Fresh.

Lemma length_bytes_bits b : length (bytes_bits b) = (8 * length b)%nat.
Proof. pose proof (len_bytes_bits b) as H. unfold len in H. lia. Qed.

Lemma push_bits w b : bytes_bits (push w b) = push (bytes_bits w) (bytes_bits b).
Proof. unfold push. by rewrite bytes_bits_app, bytes_bits_drop, length_bytes_bits. Qed.

Lemma foldl_push_bits w blocks : bytes_bits (foldl push w blocks) = foldl push (bytes_bits w) (map bytes_bits blocks).
Proof. revert w. induction blocks as [|b blocks IH]; intros w; [done|]. cbn [foldl map]. by rewrite IH, push_bits. Qed.

Lemma bytes_bits_zeros n : bytes_bits (make (Z.of_nat n) 0) = make (Z.of_nat (8 * n)) 0.
Proof.
  unfold make, bytes_bits. rewrite !Nat2Z.id. induction n as [|n IH]; [done|]. cbn [replicate map concat]. rewrite IH.
  replace (8 * S n)%nat with (8 + 8 * n)%nat by lia. rewrite replicate_add. done.
Qed.

Lemma foldl_push_Forall (P : Z -> Prop) w blocks :
  Forall P w -> Forall (Forall P) blocks -> Forall P (foldl push w blocks).
Proof.
  intros Hw H. revert w Hw. induction H as [|b blocks Hb H IH]; intros w Hw; [done|]. apply IH.
  apply Forall_app. auto with go.
Qed.

(** The start of the decision ring stays on a byte boundary. *)
Lemma append_aligned cfg r block r' :
  geometry cfg -> BlockSize cfg mod 8 = 0 -> PacketLength cfg mod 8 = 0 ->
  ring_ok cfg r -> quantizedStart r mod 8 = 0 -> appendQuantized cfg r block = Some r' -> quantizedStart r' mod 8 = 0.
Proof.
  intros [G1 G2 G3] HB HP [Hl Hs] Ha H. unfold appendQuantized in H. rewrite Hl in H.
  apply bind_Some in H as (? & _ & H). apply bind_Some in H as (? & _ & H).
  apply bind_Some in H as (? & _ & H). apply bind_Some in H as (q & _ & H). apply (inj Some) in H as <-.
  assert (quantizedStart (with_Quantized cfg r q (wrap_at (BufferLength cfg) (quantizedStart r + BlockSize cfg))) =
    wrap_at (BufferLength cfg) (quantizedStart r + BlockSize cfg)) as ->.
  { unfold with_Quantized. by destruct (separate r). }
  apply Z.mod_divide in HB as [b Hb], HP as [p Hp], Ha as [a Ha]; [|lia..]. unfold wrap_at.
  destruct (Z.leb_spec (BufferLength cfg) (quantizedStart r + BlockSize cfg)); apply Z.mod_divide; [lia| |lia|].
  - exists (a + b - (p + b)). lia.
  - exists (a + b). lia.
Qed.

(** The configurations whose blocks and packets fill whole bytes. *)
Record byte_geometry (cfg : PacketConfig) : Prop := {
  bg_geometry : geometry cfg;
  bg_block : BlockSize cfg mod 8 = 0;
  bg_packet : PacketLength cfg mod 8 = 0;
  bg_preamble : 0 <= PreambleLength cfg <= PacketLength cfg }.

Lemma shiftr3 x : Z.shiftr x 3 = x / 8.
Proof. by rewrite Z.shiftr_div_pow2. Qed.

Lemma fresh_packed cfg : byte_geometry cfg ->
  packed_ok cfg (allocate_packed cfg) /\ packed_window (allocate_packed cfg) = make (BufferLength cfg / 8) 0.
Proof.
  intros [[G1 G2 G3] HB HP Hpre].
  apply Z.mod_divide in HB as [b Hb], HP as [p Hp]; [|lia..].
  assert (BlockSize cfg / 8 = b /\ PacketLength cfg / 8 = p /\ BufferLength cfg / 8 = p + b) as (Eb & Ep & Ebl).
  { rewrite G3, Hb, Hp. rewrite <- Z.mul_add_distr_r, !Z.div_mul; lia. }
  assert (b <= (BlockSize cfg + PreambleLength cfg) / 8 <= p + b) as Hla.
  { split; [apply Z.div_le_lower_bound; lia|]. rewrite <- Ebl, G3. apply Z.div_le_mono; lia. }
  assert (packed_cells (allocate_packed cfg) = make (BufferLength cfg / 8) 0) as E.
  { unfold packed_cells, allocate_packed. cbn [packedLength packedBacking]. rewrite !shiftr3. apply take_make. lia. }
  split; [|unfold packed_window; rewrite E; unfold allocate_packed; cbn [packedStart]; unfold ring; by rewrite drop_0, take_0, app_nil_r].
  constructor; rewrite ?E; unfold allocate_packed; cbn [packedLength packedBacking packedStart packedLookahead]; rewrite ?shiftr3;
    rewrite ?Eb, ?Ep, ?Ebl; try lia.
  - apply len_make. lia.
  - rewrite take_make by lia. unfold make. rewrite <- replicate_add. f_equal. lia.
Qed.

(** Those sizes as numbers of bytes. *)
Lemma byte_numbers cfg : byte_geometry cfg ->
  exists nl nb nla : nat, BufferLength cfg = 8 * Z.of_nat nl /\ BlockSize cfg = 8 * Z.of_nat nb /\
    packedLookahead (allocate_packed cfg) = Z.of_nat nla /\ (nla <= nl)%nat.
Proof.
  intros [[G1 G2 G3] HB HP Hpre]. apply Z.mod_divide in HB as [b Hb], HP as [p Hp]; [|lia..].
  unfold allocate_packed. cbn [packedLookahead]. rewrite shiftr3.
  assert ((BlockSize cfg + PreambleLength cfg) / 8 <= p + b).
  { replace (p + b) with (BufferLength cfg / 8) by (rewrite G3, Hb, Hp, <- Z.mul_add_distr_r, Z.div_mul; lia).
    apply Z.div_le_mono; lia. }
  assert (0 <= (BlockSize cfg + PreambleLength cfg) / 8) by (apply Z.div_pos; lia).
  exists (Z.to_nat (p + b)), (Z.to_nat b), (Z.to_nat ((BlockSize cfg + PreambleLength cfg) / 8)). lia.
Qed.

Lemma foldM_aligned cfg r blocks r' :
  geometry cfg -> BlockSize cfg mod 8 = 0 -> PacketLength cfg mod 8 = 0 -> ring_ok cfg r -> quantizedStart r mod 8 = 0 ->
  Forall (fun b => len b = BlockSize cfg) blocks -> foldM (appendQuantized cfg) r blocks = Some r' -> quantizedStart r' mod 8 = 0.
Proof.
  intros G HB HP Hr Ha Hbl. revert r Hr Ha. induction Hbl as [|b blocks Hb Hbl IH]; intros r Hr Ha H; cbn [foldM] in H;
    [by apply (inj Some) in H as <-|].
  destruct (appendQuantized_push cfg G r b Hr Hb) as (r1 & E & Hr1 & _). rewrite E in H.
  apply (IH r1 Hr1); [|done]. by apply (append_aligned cfg r b).
Qed.

Lemma ring_Forall_inv {A} (P : A -> Prop) start l : Forall P (ring start l) -> Forall P l.
Proof. intros [H1 H2]%Forall_app. rewrite <- (take_drop start l). by apply Forall_app. Qed.

(** ** Properties *)

(** C23. The decision ring is a sliding window: after any blocks, written by
    either of its two write paths, neither path has panicked and position [idx] of
    the ring is position [idx] of the last BufferLength decisions, zeros before the first. *)
Theorem decision_ring_is_sliding_window (cfg : PacketConfig) (blocks : list (list Z))
  (Hgeo : geometry cfg) (Hblocks : Forall (fun b => len b = BlockSize cfg) blocks) :
  let stream := make (BufferLength cfg) 0 ++ concat blocks in
  let recent := drop (length (concat blocks)) stream in
  exists r rd,
    foldM (appendQuantized cfg) (allocate_ring cfg false) blocks = Some r /\
    foldM (direct_write cfg) (allocate_ring cfg true) blocks = Some rd /\
    forall idx, 0 <= idx < BufferLength cfg -> quantizedAt cfg r idx = index recent idx /\ quantizedAt cfg rd idx = index recent idx.
Proof.
  intros stream recent. destruct (fresh_ring cfg Hgeo false) as (O1 & W1 & _), (fresh_ring cfg Hgeo true) as (O2 & W2 & Own).
  destruct (foldM_append cfg Hgeo _ blocks O1 Hblocks) as (r & E1 & R1 & V1).
  destruct (foldM_direct cfg Hgeo _ blocks O2 (Own eq_refl) Hblocks) as (rd & E2 & R2 & V2).
  destruct Hgeo as [G1 G2 G3]. rewrite W1 in V1. rewrite W2 in V2.
  assert (foldl push (make (BufferLength cfg) 0) blocks = recent) as Er.
  { apply foldl_push. eapply Forall_impl; [exact Hblocks|]. intros b Hb. cbn in Hb.
    unfold make, len in *. rewrite length_replicate. lia. }
  exists r, rd. split; [done|]. split; [done|]. intros idx Hi.
  rewrite !quantizedAt_window by (done || constructor; done). by rewrite V1, V2, Er.
Qed.

Definition small_config : PacketConfig :=
  {| Protocol := []; Preamble := []; DataRate := 0; BlockSize := 16; BlockSize2 := 32; ChipLength := 4; SymbolLength := 8;
     SampleRate := 0; PreambleSymbols := 2; PacketSymbols := 5; PreambleLength := 16; PacketLength := 40;
     BufferLength := 56; CenterFreq := 0 |}.

Definition small_blocks : list (list Z) := map (to_bits 16) [0xBEEF; 0x1234; 0x00FF; 0xA5A5; 0x8001].

Lemma small_geometry : geometry small_config.
Proof. constructor; reflexivity. Qed.

Lemma decision_ring_is_sliding_window_witness :
  exists r rd, foldM (appendQuantized small_config) (allocate_ring small_config false) small_blocks = Some r /\
    foldM (direct_write small_config) (allocate_ring small_config true) small_blocks = Some rd /\
    quantizedAt small_config r 55 = Some 1 /\ quantizedAt small_config rd 40 = Some 1.
Proof.
  destruct (decision_ring_is_sliding_window small_config small_blocks small_geometry ltac:(repeat constructor)) as (r & rd & E1 & E2 & H).
  exists r, rd. split; [exact E1|]. split; [exact E2|].
  split; [etransitivity; [apply (H 55); split; reflexivity || discriminate|reflexivity]|
          etransitivity; [apply (H 40); split; reflexivity || discriminate|reflexivity]].
Defined.

(** The packed ring repeats the decision ring: when the producer writes
    every block of decisions in both forms, the packed search window is at every
    point what packing the decision ring again would give. *)
Theorem packed_ring_mirrors_decisions (cfg : PacketConfig) (blocks : list (list Z))
  (Hgeo : byte_geometry cfg) (Hblocks : Forall (fun b => len b = BlockSize cfg) blocks) (Hbits : Forall (Forall is_bit) blocks) :
  exists r s, foldM (appendQuantized cfg) (allocate_ring cfg false) blocks = Some r /\
    foldM (fun s b => packed_write s cfg b) (allocate_packed cfg) (map pack blocks) = Some s /\
    exists w, packedSearchWindow s = Some w /\
      packQuantizedRing (packedLookahead (allocate_packed cfg)) (Quantized cfg r) (quantizedStart r) = Some w.
Proof.
  destruct (byte_numbers cfg Hgeo) as (nl & nb & nla & Enl & Enb & Ela & Hla). pose proof (bg_geometry cfg Hgeo) as G.
  destruct (fresh_ring cfg G false) as (O1 & W1 & _), (fresh_packed cfg Hgeo) as (O2 & W2).
  destruct (foldM_append cfg G _ blocks O1 Hblocks) as (r & E1 & R1 & V1).
  assert (Forall (fun b => len b = Z.shiftr (BlockSize cfg) 3) (map pack blocks)) as Hpk.
  { apply Forall_fmap. eapply Forall_impl; [exact Hblocks|]. intros b Hb. change (len b = BlockSize cfg) in Hb.
    change (len (pack b) = Z.shiftr (BlockSize cfg) 3). rewrite shiftr3, <- Hb. unfold len. by rewrite length_pack, Nat2Z.inj_div. }
  destruct (foldM_packed cfg _ (map pack blocks) O2 Hpk) as (s & E2 & R2 & La & V2).
  exists r, s. split; [done|]. split; [done|]. eexists. split; [by apply (packedSearchWindow_spec cfg)|].
  assert (bytes_bits (packed_window s) = window cfg r) as Ew.
  { rewrite V2, V1, W1, W2, foldl_push_bits, Enl. replace (8 * Z.of_nat nl / 8) with (Z.of_nat nl) by (rewrite Z.mul_comm, Z.div_mul; lia).
    rewrite bytes_bits_zeros. f_equal; [f_equal; lia|]. rewrite map_map. clear -Hblocks Hbits Enb.
    induction blocks as [|b blocks IH]; [done|]. apply Forall_cons in Hblocks as [Hb Hblocks], Hbits as [Hbb Hbits].
    cbn [map]. rewrite IH by done. f_equal. apply bytes_bits_pack; [done|]. unfold len in Hb. 
    replace (length b) with (nb * 8)%nat by lia. apply Nat.Div0.mod_mul. }
  assert (Forall is_byte (packed_window s)) as Hbytes.
  { rewrite V2, W2. apply foldl_push_Forall; [by apply Forall_make|]. apply Forall_fmap, Forall_true. intros b. apply pack_bytes. }
  assert (quantizedStart r mod 8 = 0) as Hal.
  { apply (foldM_aligned cfg (allocate_ring cfg false) blocks); (apply Hgeo || done). }
  destruct R1 as [Rl Rs]. rewrite Enl in Rl, Rs. apply Z.mod_divide in Hal as [k Hk]; [|lia].
  assert (Forall is_bit (Quantized cfg r)) as Hq.
  { apply (ring_Forall_inv _ (Z.to_nat (quantizedStart r))). change (Forall is_bit (window cfg r)). rewrite V1, W1.
    apply foldl_push_Forall; [by apply Forall_make|done]. }
  destruct (packQuantizedRing_spec nla (Quantized cfg r) (Z.to_nat (quantizedStart r)) Hq) as (w & Ep & Hw & Hwb & Hwbits);
    try (unfold len in *; lia).
  { apply Nat.Div0.mod_divides. exists nl. unfold len in *. lia. }
  { apply Nat.Div0.mod_divides. exists (Z.to_nat k). lia. }
  rewrite Z2Nat.id in Ep by lia. rewrite La, Ela, Ep. f_equal.
  rewrite <- (pack_bytes_bits w Hwb), Hwbits. change (ring _ _) with (window cfg r). rewrite <- Ew, Nat2Z.id.
  rewrite <- bytes_bits_take, pack_bytes_bits; [done|by apply Forall_take].
Qed.

Lemma packed_ring_mirrors_decisions_witness :
  exists s w, foldM (fun s b => packed_write s small_config b) (allocate_packed small_config) (map pack small_blocks) = Some s /\
    packedSearchWindow s = Some w.
Proof.
  destruct (packed_ring_mirrors_decisions small_config small_blocks) as (r & s & _ & E2 & w & E3 & _).
  - constructor; [apply small_geometry|reflexivity|reflexivity|split; discriminate].
  - repeat constructor.
  - apply Forall_fmap, Forall_true. intros v. apply to_digits_Forall. discriminate.
  - exists s, w. split; [exact E2|exact E3].
Defined.
