(* ===== verification/History.v ===== *)
(** The sample history of the decoder: block strips with an overlap from the
    block before, so that a parser's window is contiguous (src/protocol/decode.go:
    allocateSignalHistory, appendSignal, SignalAt, SignalWindow;
    src/protocol/power16.go: the history of allocatePower16 and
    appendPower16AndFilter, and Power16Window).  The two representations differ in
    the sample type only, so the strips are polymorphic in it. *)

From S2P Require Import Prelude Packet Layout Search Ring.

(** [bits.TrailingZeros] *)
Definition TrailingZeros (x : Z) : Z := if x =? 0 then 64 else Z.log2 (Z.land x (- x)).

Record Strips (A : Type) := {
  overlap : Z; backing : list A; block : Z; blockCount : Z; blockStride : Z; blockShift : Z; blockMask : Z; gap : Z }.
Arguments overlap {A}. Arguments backing {A}. Arguments block {A}. Arguments blockCount {A}.
Arguments blockStride {A}. Arguments blockShift {A}. Arguments blockMask {A}. Arguments gap {A}.

Section History.
Context {A : Type}.

(** [allocateSignalHistory], and the strips of [allocatePower16]. *)
Definition allocate_history (cfg : PacketConfig) (overlap : Z) (zero : A) : Strips A :=
  let stride := BlockSize cfg + overlap in
  let count := (BufferLength cfg + BlockSize cfg - 1) / BlockSize cfg in
  {| overlap := overlap; backing := make (count * stride) zero; block := count - 1; blockCount := count; blockStride := stride;
     blockShift := TrailingZeros (BlockSize cfg); blockMask := BlockSize cfg - 1;
     gap := count * BlockSize cfg - BufferLength cfg |}.

(** Advance to the next strip and carry the overlap over from the one before. *)
Definition carry_overlap (cfg : PacketConfig) (h : Strips A) : option (Strips A) :=
  let previousStart := block h * blockStride h in
  let next := if block h + 1 =? blockCount h then 0 else block h + 1 in
  let currentStart := next * blockStride h in
  src ← slice (previousStart + BlockSize cfg) (previousStart + BlockSize cfg + overlap h) (backing h);
  b ← copy_at (backing h) currentStart (currentStart + overlap h) src;
  Some {| overlap := overlap h; backing := b; block := next; blockCount := blockCount h; blockStride := blockStride h;
          blockShift := blockShift h; blockMask := blockMask h; gap := gap h |}.

(** A producer's write to the range [lo, hi) of the backing. *)
Definition write_samples (h : Strips A) (lo hi : Z) (samples : list A) : option (Strips A) :=
  b ← copy_at (backing h) lo hi samples;
  Some {| overlap := overlap h; backing := b; block := block h; blockCount := blockCount h; blockStride := blockStride h;
          blockShift := blockShift h; blockMask := blockMask h; gap := gap h |}.

(** The float producer fills the part of the strip behind the overlap. *)
Definition append_history (cfg : PacketConfig) (h : Strips A) (samples : list A) : option (Strips A) :=
  h ← carry_overlap cfg h;
  let currentStart := block h * blockStride h in
  write_samples h (currentStart + overlap h) (currentStart + blockStride h) samples.

(** The window the filters read: one symbol of history and the newest block. *)
Definition filter_window (cfg : PacketConfig) (h : Strips A) : option (list A) :=
  let currentStart := block h * blockStride h in
  slice (currentStart + overlap h - SymbolLength cfg) (currentStart + blockStride h) (backing h).

(** The physical strip and offset of a logical index. *)
Definition locate_sample (h : Strips A) (idx : Z) : Z * Z :=
  let physicalIdx := gap h + idx in
  let blockOffset := Z.shiftr physicalIdx (blockShift h) in
  let sampleOffset := Z.land physicalIdx (blockMask h) in
  let blockIdx := block h + 1 + blockOffset in
  (if blockCount h <=? blockIdx then blockIdx - blockCount h else blockIdx, sampleOffset).

Definition SignalAt (h : Strips A) (idx : Z) : option A :=
  let '(blockIdx, sampleOffset) := locate_sample h idx in
  index (backing h) (blockIdx * blockStride h + overlap h + sampleOffset).

(** What SignalWindow and Power16Window do behind their guards. *)
Definition history_window (cfg : PacketConfig) (h : Strips A) (idx length : Z) : option (list A) :=
  let '(blockIdx, sampleOffset) := locate_sample h idx in
  let start := blockIdx * blockStride h + overlap h + sampleOffset in
  let start :=
    if BlockSize cfg <? sampleOffset + length then
      let beforeBoundary := BlockSize cfg - sampleOffset in
      let blockIdx := if blockIdx + 1 =? blockCount h then 0 else blockIdx + 1 in
      blockIdx * blockStride h + overlap h - beforeBoundary
    else start in
  slice start (start + length) (backing h).

Definition SignalWindow (cfg : PacketConfig) (h : Strips A) (idx length : Z) : option (list A) :=
  if overlap h <? length then None else history_window cfg h idx length.

Definition Power16Window (cfg : PacketConfig) (h : Strips A) (idx length : Z) : option (list A) :=
  if (idx <? 0) || (BufferLength cfg <=? idx) || (length <? 0) || (overlap h <? length) ||
     (BufferLength cfg <? length) || (BufferLength cfg - length <? idx)
  then None else history_window cfg h idx length.

(** ** The abstract history

    [hist] is the overlap before the oldest retained block, then the retained
    blocks, oldest first. *)

Definition sub (off n : nat) (l : list A) : list A := take n (drop off l).

(** The strip of age [j], the oldest being 0. *)
Definition strip (h : Strips A) (j : Z) : Z := let k := block h + 1 + j in if blockCount h <=? k then k - blockCount h else k.

Record history_ok (cfg : PacketConfig) (h : Strips A) (hist : list A) : Prop := {
  h_block : 0 < BlockSize cfg;
  h_shift : 0 <= blockShift h /\ BlockSize cfg = 2 ^ blockShift h;
  h_mask : blockMask h = BlockSize cfg - 1;
  h_overlap : 0 <= overlap h <= BlockSize cfg;
  h_stride : blockStride h = BlockSize cfg + overlap h;
  h_count : 0 < blockCount h;
  h_gap : 0 <= gap h < BlockSize cfg /\ gap h = blockCount h * BlockSize cfg - BufferLength cfg;
  h_at : 0 <= block h < blockCount h;
  h_len : len (backing h) = blockCount h * blockStride h;
  h_hist : len hist = overlap h + blockCount h * BlockSize cfg;
  h_strips : forall j, 0 <= j < blockCount h ->
    sub (Z.to_nat (strip h j * blockStride h)) (Z.to_nat (blockStride h)) (backing h) =
    sub (Z.to_nat (j * BlockSize cfg)) (Z.to_nat (blockStride h)) hist }.

(** The last BufferLength samples. *)
Definition recent (h : Strips A) (hist : list A) : list A := drop (Z.to_nat (overlap h + gap h)) hist.

(** ** Lemmas *)

Lemma sub_sub (l : list A) a n b m : (b + m <= n)%nat -> sub b m (sub a n l) = sub (a + b) m l.
Proof.
  intros H. unfold sub. rewrite skipn_firstn_comm, take_take, drop_drop. f_equal. lia.
Qed.

Lemma slice_sub lo n (l : list A) : 0 <= lo -> 0 <= n -> lo + n <= len l ->
  slice lo (lo + n) l = Some (sub (Z.to_nat lo) (Z.to_nat n) l).
Proof. intros H1 H2 H3. rewrite slice_ok by lia. unfold sub. do 2 f_equal. lia. Qed.

Lemma index_slice x (l k : list A) : slice x (x + 1) l = Some k -> index l x = k !! 0%nat.
Proof.
  intros (H1 & H2 & ->)%slice_Some. rewrite lookup_take_lt, lookup_drop, Nat.add_0_r by lia.
  unfold index. by rewrite (proj2 (Z.leb_le 0 x)) by lia.
Qed.

(** A range inside the strip of age [j] is that range of the history. *)
Lemma strip_range cfg h hist j off n :
  history_ok cfg h hist -> 0 <= j < blockCount h -> 0 <= off -> 0 <= n -> off + n <= blockStride h ->
  slice (strip h j * blockStride h + off) (strip h j * blockStride h + off + n) (backing h) =
  Some (sub (Z.to_nat (j * BlockSize cfg + off)) (Z.to_nat n) hist).
Proof.
  intros [] Hj Ho Hn Hs. assert (0 <= strip h j < blockCount h) as Hst.
  { unfold strip. destruct (Z.leb_spec (blockCount h) (block h + 1 + j)); lia. }
  rewrite slice_sub by nia. f_equal. specialize (h_strips0 j Hj).
  replace (Z.to_nat (strip h j * blockStride h + off)) with (Z.to_nat (strip h j * blockStride h) + Z.to_nat off)%nat by nia.
  replace (Z.to_nat (j * BlockSize cfg + off)) with (Z.to_nat (j * BlockSize cfg) + Z.to_nat off)%nat by nia.
  rewrite <- !(sub_sub _ _ (Z.to_nat (blockStride h))) by lia. by rewrite h_strips0.
Qed.

Lemma locate_spec cfg h hist idx :
  history_ok cfg h hist -> 0 <= idx < BufferLength cfg ->
  let p := gap h + idx in
  locate_sample h idx = (strip h (p / BlockSize cfg), p mod BlockSize cfg) /\
  0 <= p / BlockSize cfg < blockCount h /\ 0 <= p mod BlockSize cfg < BlockSize cfg /\
  p = BlockSize cfg * (p / BlockSize cfg) + p mod BlockSize cfg.
Proof.
  intros [] Hi p. destruct h_shift0 as [Hsh E], h_gap0 as [Hg Eg]. subst p. split.
  - unfold locate_sample, strip. rewrite h_mask0, E, Z.shiftr_div_pow2 by lia.
    rewrite Z.sub_1_r, <- Z.ones_equiv, Z.land_ones by lia. done.
  - split; [split; [apply Z.div_pos; lia|apply Z.div_lt_upper_bound; nia]|]. split; [apply Z.mod_pos_bound; lia|].
    apply Z.div_mod. lia.
Qed.

Lemma SignalAt_recent cfg h hist idx :
  history_ok cfg h hist -> 0 <= idx < BufferLength cfg -> SignalAt h idx = index (recent h hist) idx.
Proof.
  intros Hok Hi. unfold SignalAt. destruct (locate_spec cfg h hist idx Hok Hi) as (-> & Hd & Hm & Ep). cbv zeta in *.
  set (j := (gap h + idx) / BlockSize cfg) in *. set (o := (gap h + idx) mod BlockSize cfg) in *.
  pose proof (h_stride _ _ _ Hok) as E1. pose proof (h_overlap _ _ _ Hok) as E2. pose proof (h_gap _ _ _ Hok) as E3.
  assert (0 <= strip h j) as Hst by (destruct Hok; unfold strip; destruct (Z.leb_spec (blockCount h) (block h + 1 + j)); lia).
  pose proof (strip_range cfg h hist j (overlap h + o) 1 Hok Hd ltac:(lia) ltac:(lia) ltac:(lia)) as H.
  rewrite Z.add_assoc in H. rewrite (index_slice _ _ _ H). unfold sub. rewrite lookup_take_lt, lookup_drop by lia.
  unfold recent, index. rewrite (proj2 (Z.leb_le 0 idx)) by lia. rewrite lookup_drop. f_equal. nia.
Qed.

Lemma history_window_recent cfg h hist idx length :
  history_ok cfg h hist -> 0 <= idx -> 0 <= length <= overlap h -> idx + length <= BufferLength cfg -> idx < BufferLength cfg ->
  history_window cfg h idx length = Some (sub (Z.to_nat idx) (Z.to_nat length) (recent h hist)).
Proof.
  intros Hok Hi Hl Hb Hi'. unfold history_window.
  destruct (locate_spec cfg h hist idx Hok) as (-> & Hd & Hm & Ep); [lia|]. cbv zeta in *.
  set (j := (gap h + idx) / BlockSize cfg) in *. set (o := (gap h + idx) mod BlockSize cfg) in *.
  pose proof (h_stride _ _ _ Hok) as E1. pose proof (h_overlap _ _ _ Hok) as E2. pose proof (h_gap _ _ _ Hok) as [E3 E3'].
  assert (sub (Z.to_nat idx) (Z.to_nat length) (recent h hist) =
          sub (Z.to_nat (j * BlockSize cfg + overlap h + o)) (Z.to_nat length) hist) as ->.
  { unfold recent, sub. rewrite drop_drop. do 2 f_equal. nia. }
  destruct (Z.ltb_spec (BlockSize cfg) (o + length)) as [Hx|Hx].
  - assert (j + 1 < blockCount h) as Hj by nia.
    assert ((if strip h j + 1 =? blockCount h then 0 else strip h j + 1) = strip h (j + 1)) as ->.
    { pose proof (h_at _ _ _ Hok). unfold strip.
      destruct (Z.leb_spec (blockCount h) (block h + 1 + j)), (Z.leb_spec (blockCount h) (block h + 1 + (j + 1)));
        destruct (Z.eqb_spec (block h + 1 + j - blockCount h + 1) (blockCount h)), (Z.eqb_spec (block h + 1 + j + 1) (blockCount h)); lia. }
    pose proof (strip_range cfg h hist (j + 1) (overlap h - (BlockSize cfg - o)) length Hok ltac:(lia) ltac:(lia) ltac:(lia) ltac:(lia)) as H.
    rewrite Z.add_sub_assoc in H. rewrite H. do 2 f_equal. f_equal. lia.
  - pose proof (strip_range cfg h hist j (overlap h + o) length Hok Hd ltac:(lia) ltac:(lia) ltac:(lia)) as H.
    rewrite !Z.add_assoc in H. rewrite H. done.
Qed.
(** Overwriting one of several equal strips. *)
Definition put (c st : nat) (seg l : list A) : list A := take (c * st) l ++ seg ++ drop (c * st + st) l.

Lemma put_other c k st seg l :
  length seg = st -> (c * st + st <= length l)%nat -> k <> c -> sub (k * st) st (put c st seg l) = sub (k * st) st l.
Proof.
  intros Hseg Hc Hne. unfold sub, put. destruct (decide (k < c)%nat).
  - assert (k * st + st <= c * st)%nat by nia.
    rewrite drop_app_le by (rewrite length_take; lia). rewrite take_app_le by (rewrite length_drop, length_take; lia).
    rewrite skipn_firstn_comm, take_take. f_equal. lia.
  - assert (c * st + st <= k * st)%nat by nia.
    rewrite drop_app_ge by (rewrite length_take; lia). rewrite length_take, Nat.min_l by lia.
    rewrite drop_app_ge by lia. rewrite drop_drop. do 2 f_equal. lia.
Qed.

Lemma put_same c st seg l : length seg = st -> (c * st + st <= length l)%nat -> sub (c * st) st (put c st seg l) = seg.
Proof.
  intros Hseg Hc. unfold sub, put. rewrite drop_app_ge by (rewrite length_take; lia). rewrite length_take, Nat.min_l by lia.
  rewrite Nat.sub_diag, drop_0, take_app_le, take_ge by lia. done.
Qed.

(** The two copies into a strip put its two parts there. *)
Lemma copy_put (l a b : list A) (c st : nat) :
  (length a + length b = st)%nat -> (c * st + st <= length l)%nat ->
  (m ← copy_at l (Z.of_nat (c * st)) (Z.of_nat (c * st + length a)) a;
   copy_at m (Z.of_nat (c * st + length a)) (Z.of_nat (c * st + st)) b) = Some (put c st (a ++ b) l).
Proof.
  intros Hst Hc. rewrite copy_at_nat by lia. cbn [mbind option_bind].
  assert (length (take (c * st) l) = c * st)%nat as Ht by (rewrite length_take; lia).
  rewrite copy_at_nat by (rewrite ?length_app, ?length_drop; lia). f_equal. unfold put.
  rewrite (app_assoc (take _ l) a), take_app_le, take_ge by (rewrite length_app; lia).
  rewrite drop_app_ge by (rewrite length_app; lia). rewrite length_app, drop_drop, <- !app_assoc. do 3 f_equal.
  f_equal. lia.
Qed.

Lemma sub_push (hist b : list A) off n : (off + n + length b <= length hist)%nat ->
  sub off n (push hist b) = sub (length b + off) n hist.
Proof.
  intros H. unfold sub, push. rewrite drop_app_le by (rewrite length_drop; lia).
  rewrite take_app_le by (rewrite !length_drop; lia). by rewrite drop_drop.
Qed.

Lemma append_history_push cfg h hist samples :
  history_ok cfg h hist -> len samples = BlockSize cfg ->
  exists h', append_history cfg h samples = Some h' /\ history_ok cfg h' (push hist samples) /\
    overlap h' = overlap h /\ gap h' = gap h.
Proof.
  intros Hok Hs. pose proof Hok as [H1 [H2 H2'] H3 H4 H5 H6 [H7 H7'] H8 H9 H10 H11].
  unfold append_history, carry_overlap, write_samples.
  set (c := if block h + 1 =? blockCount h then 0 else block h + 1).
  assert (0 <= c < blockCount h /\ strip h (blockCount h - 1) = block h) as [Hc Ep].
  { unfold c, strip. destruct (Z.eqb_spec (block h + 1) (blockCount h)), (Z.leb_spec (blockCount h) (block h + 1 + (blockCount h - 1))); lia. }
  pose proof (strip_range cfg h hist (blockCount h - 1) (BlockSize cfg) (overlap h) Hok ltac:(lia) ltac:(lia) ltac:(lia) ltac:(lia)) as Hsrc.
  rewrite Ep in Hsrc. rewrite Hsrc. cbn [mbind option_bind].
  set (src := sub _ _ hist).
  assert (src = drop (Z.to_nat (blockCount h * BlockSize cfg)) hist) as Esrc.
  { unfold src, sub. rewrite take_ge by (unfold len in *; rewrite length_drop; nia). f_equal. lia. }
  assert (length src = Z.to_nat (overlap h)) as Hsl by (rewrite Esrc, length_drop; unfold len in *; nia).
  set (st := Z.to_nat (blockStride h)). set (cn := Z.to_nat c).
  assert (c * blockStride h = Z.of_nat (cn * st)) as E1 by (unfold cn, st; nia).
  assert ((cn * st + st <= length (backing h))%nat) as Hfit by (unfold cn, st, len in *; nia).
  assert (length src + length samples = st)%nat as Hst by (unfold st, len in *; lia).
  pose proof (copy_put (backing h) src samples cn st Hst Hfit) as Hput.
  replace (Z.of_nat (cn * st + length src)) with (c * blockStride h + overlap h) in Hput by lia.
  replace (Z.of_nat (cn * st + st)) with (c * blockStride h + blockStride h) in Hput by (unfold st; lia).
  rewrite <- E1 in Hput. destruct (copy_at (backing h) _ _ src) as [m|]; [|done].
  cbn [mbind option_bind overlap backing block blockCount blockStride blockShift blockMask gap] in Hput |- *. rewrite Hput. cbn [mbind option_bind].
  eexists. split; [reflexivity|]. split; [|done].
  assert (length (put cn st (src ++ samples) (backing h)) = length (backing h)) as Hlp.
  { unfold put. rewrite !length_app, length_take, length_drop. lia. }
  constructor; cbn [overlap backing block blockCount blockStride blockShift blockMask gap]; try done.
  - unfold len. rewrite Hlp. exact H9.
  - unfold len, push. rewrite length_app, length_drop. unfold len in *. nia.
  - intros j Hj. unfold strip at 1. cbn [block blockCount]. fold st.
    destruct (decide (j = blockCount h - 1)) as [->|Hne].
    + replace (if blockCount h <=? c + 1 + (blockCount h - 1) then c + 1 + (blockCount h - 1) - blockCount h else c + 1 + (blockCount h - 1))
        with c by (destruct (Z.leb_spec (blockCount h) (c + 1 + (blockCount h - 1))); lia).
      rewrite E1, Nat2Z.id, put_same by (rewrite ?length_app; lia). rewrite Esrc. unfold sub, push.
      rewrite drop_app_le by (rewrite length_drop; unfold len in *; nia). rewrite drop_drop, take_ge.
      * do 2 f_equal. unfold len in *. nia.
      * rewrite length_app, length_drop. unfold st, len in *. nia.
    + assert ((if blockCount h <=? c + 1 + j then c + 1 + j - blockCount h else c + 1 + j) = strip h (j + 1) /\ strip h (j + 1) <> c /\
              0 <= strip h (j + 1)) as (-> & Hnec & Hpos).
      { unfold strip, c. destruct (Z.eqb_spec (block h + 1) (blockCount h)), (Z.leb_spec (blockCount h) (block h + 1 + (j + 1)));
          match goal with |- context [?a <=? ?b] => destruct (Z.leb_spec a b) | _ => idtac end; lia. }
      replace (Z.to_nat (strip h (j + 1) * blockStride h)) with (Z.to_nat (strip h (j + 1)) * st)%nat by (unfold st; nia).
      rewrite put_other by (rewrite ?length_app; lia).
      replace (Z.to_nat (strip h (j + 1)) * st)%nat with (Z.to_nat (strip h (j + 1) * blockStride h)) by (unfold st; nia).
      unfold st. rewrite H11 by lia. rewrite sub_push by (unfold len in *; nia). f_equal. unfold len in *. nia.
Qed.
End History.

(** ** Fresh histories *)

Lemma TrailingZeros_pow k : 0 <= k -> TrailingZeros (2 ^ k) = k.
Proof.
  intros Hk. assert (0 < 2 ^ k) by (apply Z.pow_pos_nonneg; lia). unfold TrailingZeros.
  rewrite (proj2 (Z.eqb_neq _ _)) by lia.
  assert (- 2 ^ k = Z.lnot (Z.ones k)) as -> by (rewrite Z.ones_equiv; unfold Z.lnot; lia).
  rewrite <- Z.ldiff_land, Z.ldiff_ones_r, Z.shiftl_mul_pow2, Z.shiftr_div_pow2, Z.div_same, Z.mul_1_l by lia.
  by apply Z.log2_pow2.
Qed.

Section Fresh.
Context {A : Type} (zero : A) (cfg : PacketConfig) (ov : Z).

(** The geometry Allocate gives the strips: a block is a power of two. *)
Record strip_geometry : Prop := {
  sg_geometry : geometry cfg;
  sg_power : exists k, 0 <= k /\ BlockSize cfg = 2 ^ k;
  sg_overlap : 0 <= ov <= BlockSize cfg }.

Lemma sub_make off n m : (off + n <= Z.to_nat m)%nat -> sub off n (make m zero) = replicate n zero.
Proof. intros H. unfold sub, make. rewrite drop_replicate, take_replicate. f_equal. lia. Qed.

Lemma fresh_history : strip_geometry ->
  let h := allocate_history cfg ov zero in
  history_ok cfg h (make (ov + blockCount h * BlockSize cfg) zero).
Proof using.
  intros [[G1 G2 G3] (k & Hk & Ek) Hov] h.
  set (n := BufferLength cfg + BlockSize cfg - 1).
  pose proof (Z.div_mod n (BlockSize cfg) ltac:(lia)) as Ed. pose proof (Z.mod_pos_bound n (BlockSize cfg) ltac:(lia)) as Rd.
  set (count := n / BlockSize cfg) in *. assert (0 < count) by (subst n; nia).
  constructor; unfold h, allocate_history; fold n; fold count;
    cbn [overlap backing block blockCount blockStride blockShift blockMask gap]; try lia; try done.
  - rewrite Ek, TrailingZeros_pow by done. lia.
  - rewrite len_make; [done|nia].
  - rewrite len_make; [done|nia].
  - intros j Hj. unfold strip. cbn [blockCount block]. rewrite !sub_make; [done|nia|].
    destruct (Z.leb_spec count (count - 1 + 1 + j)); nia.
Qed.

Lemma foldM_history (h : Strips A) (hist : list A) blocks :
  history_ok cfg h hist -> Forall (fun b => len b = BlockSize cfg) blocks ->
  exists h', foldM (append_history cfg) h blocks = Some h' /\ history_ok cfg h' (foldl push hist blocks) /\
    overlap h' = overlap h /\ gap h' = gap h.
Proof using.
  intros Hok H. revert h hist Hok. induction H as [|b blocks Hb H IH]; intros h hist Hok; [by exists h|]. cbn [foldM foldl].
  destruct (append_history_push cfg h hist b Hok Hb) as (h1 & -> & Hok1 & E1 & E2).
  destruct (IH h1 _ Hok1) as (h' & -> & Hok' & E3 & E4). exists h'. rewrite E3, E4, E1, E2. done.
Qed.

Lemma filter_window_recent (h : Strips A) (hist : list A) :
  history_ok cfg h hist -> 0 <= SymbolLength cfg <= overlap h -> SymbolLength cfg + BlockSize cfg <= BufferLength cfg ->
  filter_window cfg h = Some (drop (Z.to_nat (BufferLength cfg - BlockSize cfg - SymbolLength cfg)) (recent h hist)).
Proof using.
  intros Hok Hs Hb. pose proof Hok as [H1 _ _ H4 H5 H6 [H7 H7'] H8 _ H10 _]. unfold filter_window.
  assert (strip h (blockCount h - 1) = block h) as Ep.
  { unfold strip. destruct (Z.leb_spec (blockCount h) (block h + 1 + (blockCount h - 1))); lia. }
  pose proof (strip_range cfg h hist (blockCount h - 1) (overlap h - SymbolLength cfg) (SymbolLength cfg + BlockSize cfg)
    Hok ltac:(lia) ltac:(lia) ltac:(lia) ltac:(lia)) as H. rewrite Ep in H.
  replace (block h * blockStride h + (overlap h - SymbolLength cfg) + (SymbolLength cfg + BlockSize cfg))
    with (block h * blockStride h + blockStride h) in H by lia.
  rewrite Z.add_sub_assoc in H. rewrite H. f_equal. unfold sub, recent. rewrite drop_drop.
  rewrite take_ge by (rewrite length_drop; unfold len in *; nia). f_equal. nia.
Qed.
End Fresh.

(** ** Properties *)

(** C29. The sample history after any blocks: no block append panics, and what
    a parser reads - a sample, a window of either representation, or the filter
    window - is the corresponding part of the last BufferLength samples, zeros
    before the first; a Power16 window outside the buffer is refused. *)
Theorem history_windows_are_recent_samples {A} (zero : A) (cfg : PacketConfig) (ov : Z) (blocks : list (list A))
  (Hgeo : strip_geometry cfg ov) (Hsymbol : 0 <= SymbolLength cfg <= Z.min ov (PacketLength cfg))
  (Hblocks : Forall (fun b => len b = BlockSize cfg) blocks) :
  let recent := drop (length (concat blocks)) (make (BufferLength cfg) zero ++ concat blocks) in
  exists h, foldM (append_history cfg) (allocate_history cfg ov zero) blocks = Some h /\
    (forall idx, 0 <= idx < BufferLength cfg -> SignalAt h idx = index recent idx) /\
    (forall idx n, 0 <= idx < BufferLength cfg -> 0 <= n <= ov -> idx + n <= BufferLength cfg ->
       SignalWindow cfg h idx n = slice idx (idx + n) recent) /\
    (forall idx n w, Power16Window cfg h idx n = Some w <->
       (0 <= idx < BufferLength cfg /\ 0 <= n <= ov /\ idx + n <= BufferLength cfg /\ slice idx (idx + n) recent = Some w)) /\
    filter_window cfg h = Some (drop (Z.to_nat (PacketLength cfg - SymbolLength cfg)) recent).
Proof.
  intros rec. pose proof (fresh_history zero cfg ov Hgeo) as Hok0. cbv zeta in Hok0.
  destruct (foldM_history cfg _ _ blocks Hok0 Hblocks) as (h & E & Hok & Eov & Egap). destruct Hgeo as [[G1 G2 G3] _ Hov].
  set (n0 := ov + blockCount (allocate_history cfg ov zero) * BlockSize cfg) in *.
  pose proof (h_gap _ _ _ Hok0) as [Hg1 Hg2]. rewrite <- Egap in Hg1, Hg2.
  assert (n0 = ov + gap h + BufferLength cfg) as En0 by lia.
  assert (overlap h = ov) as Eov' by done.
  assert (recent h (foldl push (make n0 zero) blocks) = rec) as Er.
  { unfold recent, rec. destruct (foldl_push (make n0 zero) blocks) as [-> _].
    { eapply Forall_impl; [exact Hblocks|]. intros b Hb. cbn in Hb. unfold make, len in *. rewrite length_replicate. lia. }
    rewrite Eov'. replace (make n0 zero) with (make (ov + gap h) zero ++ make (BufferLength cfg) zero).
    2: { unfold make. rewrite <- replicate_add. f_equal. lia. }
    rewrite drop_drop, Nat.add_comm, <- drop_drop, <- app_assoc. f_equal. rewrite drop_app_ge.
    + unfold make at 1. rewrite length_replicate, Nat.sub_diag. done.
    + unfold make. rewrite length_replicate. lia. }
  assert (len rec = BufferLength cfg) as Hlr.
  { unfold rec, len. rewrite length_drop, length_app. unfold make. rewrite length_replicate. lia. }
  assert (forall idx n, 0 <= idx < BufferLength cfg -> 0 <= n <= ov -> idx + n <= BufferLength cfg ->
    history_window cfg h idx n = slice idx (idx + n) rec) as Hw.
  { intros idx n H1 H2 H3. rewrite (history_window_recent cfg h _ idx n Hok), Er by lia. symmetry. apply slice_sub; lia. }
  exists h. split; [done|]. split; [|split; [|split]].
  - intros idx Hi. rewrite <- Er. by apply (SignalAt_recent cfg).
  - intros idx n H1 H2 H3. unfold SignalWindow. rewrite (proj2 (Z.ltb_ge _ _)) by lia. by apply Hw.
  - intros idx n w. unfold Power16Window. rewrite Eov'.
    destruct (Z.ltb_spec idx 0), (Z.leb_spec (BufferLength cfg) idx), (Z.ltb_spec n 0), (Z.ltb_spec ov n),
      (Z.ltb_spec (BufferLength cfg) n), (Z.ltb_spec (BufferLength cfg - n) idx); cbn [orb];
      try (split; [discriminate|lia]). rewrite Hw by lia. split; [intros ->; repeat split; done || lia|by intros (_ & _ & _ & ?)].
  - rewrite (filter_window_recent cfg h _ Hok), Er by lia. do 2 f_equal. lia.
Qed.

Definition strip_config : PacketConfig :=
  {| Protocol := []; Preamble := []; DataRate := 0; BlockSize := 8; BlockSize2 := 16; ChipLength := 1; SymbolLength := 2;
     SampleRate := 0; PreambleSymbols := 4; PacketSymbols := 5; PreambleLength := 8; PacketLength := 10;
     BufferLength := 18; CenterFreq := 0 |}.

Lemma history_windows_are_recent_samples_witness :
  exists h, foldM (append_history strip_config) (allocate_history strip_config 4 0)
      [[1; 2; 3; 4; 5; 6; 7; 8]; [9; 10; 11; 12; 13; 14; 15; 16]; [17; 18; 19; 20; 21; 22; 23; 24]] = Some h /\
    Power16Window strip_config h 8 4 = Some [15; 16; 17; 18].
Proof.
  destruct (history_windows_are_recent_samples 0 strip_config 4
    [[1; 2; 3; 4; 5; 6; 7; 8]; [9; 10; 11; 12; 13; 14; 15; 16]; [17; 18; 19; 20; 21; 22; 23; 24]]) as (h & E & _ & _ & H & _).
  - constructor; [constructor; reflexivity|exists 3; split; [discriminate|reflexivity]|split; discriminate].
  - split; discriminate.
  - repeat constructor.
  - exists h. split; [exact E|]. apply H. repeat split; try discriminate; reflexivity.
Defined.
