(* ===== verification/Signal.v ===== *)
(** From samples to decisions (src/protocol/decode.go: NewMagLUT, MagLUT.Execute,
    filterManchester, Filter; src/protocol/power16.go: power16IQReference,
    power16ManchesterReference, power16ReferenceBlock). *)

From S2P Require Import Prelude Float64 Packet Layout.

(** ** Magnitudes in float64 *)

Definition NewMagLUT : list f64 :=
  map (fun idx => let x := fdiv (fsub (fof 255 (-1)) (f64_of_int idx)) (fof 255 (-1)) in fmul x x) (seqZ 0 0x100).

Definition magnitude_at (lut : list f64) (input : list Z) (idx : Z) : option f64 :=
  b ← index input (2 * idx); c ← index input (2 * idx + 1);
  x ← index lut b; y ← index lut c; Some (fadd x y).

(** [magnitudeLUTGo] into an output of [n] samples that is no part of the table. *)
Definition magnitudeLUTGo (input : list Z) (n : Z) (lut : list f64) : option (list f64) :=
  if n =? 0 then Some [] else
  _ ← index lut 255;
  _ ← index input (n * 2 - 1);
  mapM (magnitude_at lut input) (seqZ 0 n).

(** The magnitude kernel of the platform, for a multiple of eight samples. *)
Class MagnitudePlatform := {
  magnitudeLUTA72Available : bool;
  magnitudeLUTA72Platform : Z -> list Z -> list f64 -> option (list f64);
  magnitude_agrees : forall n input lut,
    magnitudeLUTA72Available = true -> 0 < n -> n mod 8 = 0 -> len input = 2 * n -> 256 <= len lut -> Forall is_byte input ->
    magnitudeLUTA72Platform n input lut = magnitudeLUTGo input n lut }.

Definition portable_magnitude : MagnitudePlatform.
Proof. refine {| magnitudeLUTA72Available := false; magnitudeLUTA72Platform := fun _ _ _ => None |}. done. Defined.

(** [MagLUT.Execute] *)
Definition Execute `{MagnitudePlatform} (lut : list f64) (input : list Z) (n : Z) : option (list f64) :=
  if n =? 0 then Some [] else
  _ ← index lut 255;
  _ ← index input (n * 2 - 1);
  if magnitudeLUTA72Available then
    let bulk := Z.ldiff n 7 in
    if negb (bulk =? 0) then
      head ← slice 0 (bulk * 2) input;
      a ← magnitudeLUTA72Platform bulk head lut;
      input ← slice (bulk * 2) (len input) input;
      b ← magnitudeLUTGo input (n - bulk) lut;
      Some (a ++ b)
    else magnitudeLUTGo input n lut
  else magnitudeLUTGo input n lut.

(** ** The matched filter in float64 *)

Definition manchester_step (lowerInput middleInput upperInput : list f64) (st : list Z * f64 * f64) (idx : Z)
  : option (list Z * f64 * f64) :=
  let '(output, lower, upper) := st in
  let f := fsub lower upper in
  l ← index lowerInput idx; m ← index middleInput idx; u ← index upperInput idx;
  Some (output ++ [u8 (1 - sign_bit f)], fadd lower (fsub m l), fadd upper (fsub u m)).

Definition filterManchester (n : Z) (lowerInput middleInput upperInput : list f64) (lower upper : f64) : option (list Z) :=
  if (len lowerInput <? n) || (len middleInput <? n) || (len upperInput <? n) then None else
  '(output, _, _) ← foldM (manchester_step lowerInput middleInput upperInput) ([], lower, upper) (seqZ 0 n);
  Some output.

(** The two chip windows before the first decision. *)
Definition chip_windows (input : list f64) (chipLength : Z) : option (f64 * f64) :=
  foldM (fun '(lower, upper) idx =>
    l ← index input idx; u ← index input (idx + chipLength); Some (fadd lower l, fadd upper u)) (fzero, fzero) (seqZ 0 chipLength).

(** The portable part of [Filter], into [n] decisions. *)
Definition FilterGo (input : list f64) (n chipLength : Z) : option (list Z) :=
  '(lower, upper) ← chip_windows input chipLength;
  a ← slice 0 n input;
  b ← slice chipLength (chipLength + n) input;
  c ← slice (chipLength * 2) (chipLength * 2 + n) input;
  filterManchester n a b c lower upper.

(** The fixed-geometry filter kernel: [None] when it declines. *)
Class ManchesterPlatform := {
  filterManchesterA72Platform : list f64 -> Z -> Z -> option (list Z);
  manchester_agrees : forall input n chipLength out,
    filterManchesterA72Platform input n chipLength = Some out -> FilterGo input n chipLength = Some out }.

Definition portable_manchester : ManchesterPlatform.
Proof. refine {| filterManchesterA72Platform := fun _ _ _ => None |}. done. Defined.

Definition Filter `{ManchesterPlatform} (chipLength : Z) (input : list f64) (n : Z) : option (list Z) :=
  match filterManchesterA72Platform input n chipLength with
  | Some output => Some output
  | None => FilterGo input n chipLength
  end.

(** ** Sixteen-bit powers *)

Definition power16ChipLength : Z := 72.
Definition power16BlockSize : Z := 8192.
Definition power16History : Z := power16ChipLength * 2.
Definition power16Window : Z := power16History + power16BlockSize.

Definition power16_at (input : list Z) (idx : Z) : option Z :=
  b ← index input (idx * 2); c ← index input (idx * 2 + 1);
  let i := i32 (i32 (b * 2) - 255) in
  let q := i32 (i32 (c * 2) - 255) in
  Some (u16 (Z.shiftr (i32 (i32 (i * i) + i32 (q * q))) 1)).

(** [power16IQReference] into [n] powers. *)
Definition power16IQReference (n : Z) (input : list Z) : option (list Z) :=
  if Z.quot (len input) 2 <? n then None else mapM (power16_at input) (seqZ 0 n).

Definition power16_chips (input : list Z) (chipLength : Z) : option (Z * Z) :=
  foldM (fun '(lower, upper) idx =>
    l ← index input idx; u ← index input (idx + chipLength); Some (i32 (lower + l), i32 (upper + u))) (0, 0) (seqZ 0 chipLength).

Definition power16_decide (input : list Z) (chipLength : Z) (st : list Z * Z * Z) (idx : Z) : option (list Z * Z * Z) :=
  let '(output, lower, upper) := st in
  let d := if 0 <=? i32 (lower - upper) then 1 else 0 in
  x ← index input idx; y ← index input (idx + chipLength); z ← index input (idx + chipLength * 2);
  Some (output ++ [d], i32 (lower + i32 (y - x)), i32 (upper + i32 (z - y))).

(** [power16ManchesterReference] into [n] decisions. *)
Definition power16ManchesterReference (n : Z) (input : list Z) (chipLength : Z) : option (list Z) :=
  if (chipLength <=? 0) || (len input <? n + chipLength * 2) then None else
  '(lower, upper) ← power16_chips input chipLength;
  '(output, _, _) ← foldM (power16_decide input chipLength) ([], lower, upper) (seqZ 0 n);
  Some output.

(** [power16ReferenceBlock]: the window keeps its history and takes the new
    powers; [None] inside is the refusal of other sizes. *)
Definition power16ReferenceBlock (ndecisions : Z) (window input : list Z) : option (option (list Z * list Z)) :=
  if negb (ndecisions =? power16BlockSize) || negb (len window =? power16Window) || negb (len input =? power16BlockSize * 2)
  then Some None else
  powers ← power16IQReference (len window - power16History) input;
  let window := take (Z.to_nat power16History) window ++ powers in
  decisions ← power16ManchesterReference ndecisions window power16ChipLength;
  Some (Some (decisions, window)).

(** ** The powers are exact *)

(** Half the sum of the squares of two odd numbers, without the division. *)
Definition power_of (b c : Z) : Z := 2 * b * b - 510 * b + (2 * c * c - 510 * c) + 65025.

Lemma power_of_square b c : 2 * power_of b c = (2 * b - 255) * (2 * b - 255) + (2 * c - 255) * (2 * c - 255).
Proof. unfold power_of. ring. Qed.

Lemma square_range x : - 255 <= x <= 255 -> 0 <= x * x <= 65025.
Proof. intros H. nia. Qed.

Lemma power_of_range b c : is_byte b -> is_byte c -> is_uint 16 (power_of b c).
Proof.
  intros Hb Hc. pose proof (power_of_square b c).
  pose proof (square_range (2 * b - 255)). pose proof (square_range (2 * c - 255)). uints. lia.
Qed.

Lemma power16_at_exact input idx b c :
  0 <= idx -> index input (idx * 2) = Some b -> index input (idx * 2 + 1) = Some c -> is_byte b -> is_byte c ->
  power16_at input idx = Some (power_of b c).
Proof.
  intros Hi Eb Ec Hb Hc. unfold power16_at. rewrite Eb, Ec. cbn [mbind option_bind]. f_equal.
  pose proof (power_of_range b c Hb Hc) as R. pose proof (power_of_square b c) as S.
  rewrite (i32_id (b * 2)), (i32_id (c * 2)), (i32_id (b * 2 - 255)), (i32_id (c * 2 - 255)) by (uints; lia).
  pose proof (square_range (b * 2 - 255) ltac:(uints; lia)) as R1. pose proof (square_range (c * 2 - 255) ltac:(uints; lia)) as R2.
  rewrite (i32_id ((b * 2 - 255) * (b * 2 - 255))), (i32_id ((c * 2 - 255) * (c * 2 - 255))), i32_id by lia.
  replace ((b * 2 - 255) * (b * 2 - 255) + (c * 2 - 255) * (c * 2 - 255)) with (power_of b c * 2) by lia.
  rewrite Z.shiftr_div_pow2, Z.div_mul by lia. by apply wrap_u_id.
Qed.

Lemma seqZ_of_nat n : seqZ 0 (Z.of_nat n) = map Z.of_nat (seq 0 n).
Proof. unfold seqZ. rewrite Nat2Z.id. apply map_ext. intros i. lia. Qed.

Lemma mapM_seqZ {A} (f : Z -> option A) (n : nat) :
  (forall k, (k < n)%nat -> is_Some (f (Z.of_nat k))) ->
  exists l, mapM f (seqZ 0 (Z.of_nat n)) = Some l /\ length l = n /\ forall k, (k < n)%nat -> l !! k = f (Z.of_nat k).
Proof.
  intros H. assert (is_Some (mapM f (seqZ 0 (Z.of_nat n)))) as [l Hl].
  { apply mapM_is_Some, Forall_forall. intros x Hx%elem_of_seqZ. replace x with (Z.of_nat (Z.to_nat x)) by lia. apply H. lia. }
  exists l. split; [done|]. pose proof Hl as HF. apply mapM_Some in HF. pose proof (Forall2_length _ _ _ HF) as E.
  rewrite length_seqZ, Nat2Z.id in E. split; [done|]. intros k Hk.
  destruct (lookup_lt_is_Some_2 l k ltac:(lia)) as [y Hy]. rewrite Hy.
  destruct (Forall2_lookup_r _ _ _ _ _ HF Hy) as (x & Hx & Hf). apply lookup_seqZ in Hx as [-> _]. by rewrite <- Hf.
Qed.

Lemma power16IQReference_exact input (n : nat) :
  Forall is_byte input -> len input = 2 * Z.of_nat n ->
  exists powers, power16IQReference (Z.of_nat n) input = Some powers /\ length powers = n /\ Forall (is_uint 16) powers /\
    forall k b c, input !! (2 * k)%nat = Some b -> input !! (2 * k + 1)%nat = Some c -> powers !! k = Some (power_of b c).
Proof.
  intros Hb Hl. unfold power16IQReference. rewrite Hl, Z.quot_div_nonneg by lia.
  rewrite (Z.mul_comm 2), Z.div_mul, Z.ltb_irrefl by lia.
  assert (forall k, (k < n)%nat -> exists b c, input !! (2 * k)%nat = Some b /\ input !! (2 * k + 1)%nat = Some c /\
    is_byte b /\ is_byte c /\ power16_at input (Z.of_nat k) = Some (power_of b c)) as Hat.
  { intros k Hk. unfold len in Hl. destruct (lookup_lt_is_Some_2 input (2 * k) ltac:(lia)) as [b Eb].
    destruct (lookup_lt_is_Some_2 input (2 * k + 1) ltac:(lia)) as [c Ec]. exists b, c.
    assert (is_byte b /\ is_byte c) as [Rb Rc] by (split; eapply Forall_lookup_1; eauto).
    do 4 (split; [done|]). apply power16_at_exact; try done; [lia| |].
    - rewrite <- Eb, <- index_nat. f_equal. lia.
    - rewrite <- Ec, <- index_nat. f_equal. lia. }
  destruct (mapM_seqZ (power16_at input) n) as (l & El & Hn & Hk).
  { intros k Hk. destruct (Hat k Hk) as (b & c & _ & _ & _ & _ & ->). by eexists. }
  exists l. split; [done|]. split; [done|]. split.
  - apply Forall_lookup. intros k x Hx. assert (k < n)%nat as Hlt by (apply lookup_lt_Some in Hx; lia).
    rewrite Hk in Hx by done. destruct (Hat k Hlt) as (b & c & _ & _ & Rb & Rc & E). rewrite E in Hx.
    injection Hx as <-. by apply power_of_range.
  - intros k b c Eb Ec. assert (k < n)%nat as Hlt by (apply lookup_lt_Some in Eb; unfold len in Hl; lia).
    rewrite Hk by done. destruct (Hat k Hlt) as (b' & c' & Eb' & Ec' & _ & _ & ->). congruence.
Qed.

(** ** The integer filter compares chip sums *)

Lemma Zsum_snoc (l : list Z) m x : l !! m = Some x -> Zsum (take (S m) l) = Zsum (take m l) + x.
Proof.
  intros Hx. rewrite (take_S_r _ _ _ Hx). unfold Zsum. rewrite foldr_app. cbn [foldr].
  assert (forall l a, foldr Z.add a l = foldr Z.add 0 l + a) as -> by (clear; induction l as [|y l IH]; intros a; cbn [foldr]; [lia|rewrite IH; lia]).
  lia.
Qed.

Section Manchester.
Context (input : list Z) (chip : nat) (Hin : Forall (is_uint 16) input) (Hchip : 65536 * Z.of_nat chip < 2 ^ 31).

Definition chip_at (k : nat) : Z := Zsum (take chip (drop k input)).

Lemma chip_at_range k : 0 <= chip_at k <= 65535 * Z.of_nat chip.
Proof using Hin.
  unfold chip_at. assert (Forall (fun x => 0 <= x <= 65535) (take chip (drop k input))) as H.
  { apply Forall_take, Forall_drop. eapply Forall_impl; [exact Hin|]. intros x. cbn. uints. lia. }
  pose proof (Zsum_range _ _ H). assert (len (take chip (drop k input)) <= Z.of_nat chip) by (unfold len; rewrite length_take; lia). nia.
Qed.

Lemma input_at k : (k < length input)%nat -> exists x, input !! k = Some x /\ index input (Z.of_nat k) = Some x /\ is_uint 16 x.
Proof using Hin.
  intros Hk. destruct (lookup_lt_is_Some_2 input k Hk) as [x Hx]. exists x. rewrite index_nat.
  split; [done|]. split; [done|]. by eapply Forall_lookup_1.
Qed.

Lemma power16_chips_exact : (2 * chip <= length input)%nat -> power16_chips input (Z.of_nat chip) = Some (chip_at 0, chip_at chip).
Proof using Hin Hchip.
  intros Hl. unfold power16_chips, seqZ. rewrite Nat2Z.id.
  assert (forall m, (m <= chip)%nat ->
    foldM (fun '(lower, upper) idx =>
      l ← index input idx; u ← index input (idx + Z.of_nat chip); Some (i32 (lower + l), i32 (upper + u))) (0, 0)
      ((fun i => Z.of_nat i + 0) <$> seq 0 m) = Some (Zsum (take m input), Zsum (take m (drop chip input)))) as H.
  { induction m as [|m IH]; intros Hm; [by rewrite !take_0|].
    rewrite seq_S, fmap_app, foldM_app, IH by lia. cbn [fmap list_fmap foldM Nat.add mbind option_bind]. rewrite Z.add_0_r.
    destruct (input_at m ltac:(lia)) as (x & Ex & -> & Rx). cbn [mbind option_bind].
    destruct (input_at (m + chip) ltac:(lia)) as (y & Ey & Ey' & Ry). rewrite Nat2Z.inj_add in Ey'. rewrite Ey'. cbn [mbind option_bind].
    rewrite (Zsum_snoc input m x), (Zsum_snoc (drop chip input) m y) by (rewrite ?lookup_drop, <- ?Ey; (done || f_equal; lia)).
    assert (forall t, Forall (is_uint 16) t -> 0 <= Zsum (take m t) <= 65535 * Z.of_nat m) as R.
    { intros t Ht. pose proof (Zsum_range (take m t) 65535) as Z0.
      assert (len (take m t) <= Z.of_nat m) by (unfold len; rewrite length_take; lia).
      assert (Forall (fun x => 0 <= x <= 65535) (take m t)) as F
        by (apply Forall_take; eapply Forall_impl; [exact Ht|]; intros z; cbn; uints; lia).
      specialize (Z0 F). nia. }
    pose proof (R input Hin). pose proof (R (drop chip input) ltac:(auto with go)).
    rewrite !i32_id by (uints; nia). done. }
  rewrite H by lia. unfold chip_at. by rewrite drop_0.
Qed.

Lemma power16_decide_loop n k out : (k + n + 2 * chip <= length input)%nat ->
  foldM (power16_decide input (Z.of_nat chip)) (out, chip_at k, chip_at (k + chip)) (Z.of_nat <$> seq k n) =
  Some (out ++ map (fun i => if chip_at (i + chip) <=? chip_at i then 1 else 0) (seq k n), chip_at (k + n), chip_at (k + n + chip)).
Proof using Hin Hchip.
  revert k out. induction n as [|n IH]; intros k out Hl; cbn [seq fmap list_fmap foldM map].
  { by rewrite app_nil_r, Nat.add_0_r. }
  pose proof (chip_at_range k) as R1. pose proof (chip_at_range (k + chip)) as R2.
  destruct (input_at k ltac:(lia)) as (x & Ex & Ix & Rx).
  destruct (input_at (k + chip) ltac:(lia)) as (y & Ey & Iy & Ry).
  destruct (input_at (k + chip + chip) ltac:(lia)) as (z & Ez & Iz & Rz).
  unfold power16_decide at 1. rewrite Ix. cbn [mbind option_bind].
  replace (Z.of_nat k + Z.of_nat chip) with (Z.of_nat (k + chip)) by lia.
  replace (Z.of_nat k + Z.of_nat chip * 2) with (Z.of_nat (k + chip + chip)) by lia. rewrite Iy, Iz. cbn [mbind option_bind].
  pose proof (Zsum_slide input k chip x y Ex Ey) as S1. pose proof (Zsum_slide input (k + chip) chip y z Ey Ez) as S2.
  change (chip_at (S k) = chip_at k + y - x) in S1. change (chip_at (S (k + chip)) = chip_at (k + chip) + z - y) in S2.
  pose proof (chip_at_range (S k)) as R3. pose proof (chip_at_range (S (k + chip))) as R4.
  rewrite (i32_id (y - x)), (i32_id (z - y)), (i32_id (chip_at k - chip_at (k + chip))) by (uints; nia).
  rewrite !i32_id by (uints; nia).
  replace (chip_at k + (y - x)) with (chip_at (S k)) by lia.
  replace (chip_at (k + chip) + (z - y)) with (chip_at (S k + chip)) by (rewrite Nat.add_succ_l; lia).
  rewrite IH by lia. rewrite <- app_assoc. cbn [app]. do 3 f_equal.
  - do 2 f_equal. destruct (Z.leb_spec 0 (chip_at k - chip_at (k + chip))), (Z.leb_spec (chip_at (k + chip)) (chip_at k)); lia.
  - f_equal. lia.
  - f_equal. lia.
Qed.

Lemma power16Manchester_exact n : (0 < chip)%nat -> (n + 2 * chip <= length input)%nat ->
  power16ManchesterReference (Z.of_nat n) input (Z.of_nat chip) =
  Some (map (fun i => if chip_at (i + chip) <=? chip_at i then 1 else 0) (seq 0 n)).
Proof using Hin Hchip.
  intros Hc Hl. unfold power16ManchesterReference, len.
  destruct (Z.leb_spec (Z.of_nat chip) 0), (Z.ltb_spec (Z.of_nat (length input)) (Z.of_nat n + Z.of_nat chip * 2)); try lia. cbn [orb].
  rewrite power16_chips_exact by lia. cbn [mbind option_bind].
  assert (seqZ 0 (Z.of_nat n) = Z.of_nat <$> seq 0 n) as ->.
  { unfold seqZ. rewrite Nat2Z.id. apply list_fmap_ext. intros i x _. lia. }
  rewrite (power16_decide_loop n 0) by lia. done.
Qed.
End Manchester.

(** ** The magnitude block *)

Lemma magnitudeLUTGo_spec input (n : nat) lut :
  Forall is_byte input -> 2 * Z.of_nat n <= len input -> 256 <= len lut ->
  exists out, magnitudeLUTGo input (Z.of_nat n) lut = Some out /\ length out = n /\
    forall k, (k < n)%nat -> out !! k = magnitude_at lut input (Z.of_nat k).
Proof.
  intros Hb Hl Hlut. unfold magnitudeLUTGo. destruct (Z.eqb_spec (Z.of_nat n) 0) as [E|E].
  { exists []. split; [done|]. split; [cbn; lia|]. intros k Hk. lia. }
  destruct (index_lt lut 255 ltac:(lia)) as [? ->], (index_lt input (Z.of_nat n * 2 - 1) ltac:(lia)) as [? ->].
  cbn [mbind option_bind]. apply mapM_seqZ. intros k Hk. unfold magnitude_at.
  destruct (index_lt input (2 * Z.of_nat k) ltac:(lia)) as [b Eb], (index_lt input (2 * Z.of_nat k + 1) ltac:(lia)) as [c Ec].
  rewrite Eb, Ec. cbn [mbind option_bind].
  assert (is_byte b /\ is_byte c) as [Rb Rc].
  { apply index_Some in Eb as [_ Eb], Ec as [_ Ec]. split; eapply Forall_lookup_1; eauto. }
  destruct (index_lt lut b ltac:(uints; lia)) as [? ->], (index_lt lut c ltac:(uints; lia)) as [? ->].
  by eexists.
Qed.

Lemma magnitude_at_drop lut input m k :
  magnitude_at lut (drop (2 * m) input) (Z.of_nat k) = magnitude_at lut input (Z.of_nat (m + k)).
Proof.
  unfold magnitude_at. assert (forall j, (0 <= j) -> index (drop (2 * m) input) j = index input (2 * Z.of_nat m + j)) as H.
  { intros j Hj. unfold index. rewrite !(proj2 (Z.leb_le 0 _)) by lia. rewrite lookup_drop. f_equal. lia. }
  rewrite !H by lia. replace (2 * Z.of_nat m + 2 * Z.of_nat k) with (2 * Z.of_nat (m + k)) by lia.
  by replace (2 * Z.of_nat m + (2 * Z.of_nat k + 1)) with (2 * Z.of_nat (m + k) + 1) by lia.
Qed.

Lemma magnitude_at_take lut input m k : (k < m)%nat ->
  magnitude_at lut (take (2 * m) input) (Z.of_nat k) = magnitude_at lut input (Z.of_nat k).
Proof.
  intros Hk. unfold magnitude_at. assert (forall j, 0 <= j < 2 * Z.of_nat m -> index (take (2 * m) input) j = index input j) as H.
  { intros j Hj. unfold index. rewrite !(proj2 (Z.leb_le 0 _)) by lia. apply lookup_take_lt. lia. }
  by rewrite !H by lia.
Qed.

(** ** The float filter is total *)

Lemma index_slice_lt {A} (l k : list A) lo hi i : slice lo hi l = Some k -> 0 <= i < hi - lo -> is_Some (index k i).
Proof. intros H Hi. apply index_lt. rewrite (slice_len _ _ _ _ H). lia. Qed.

Lemma chip_windows_total input (chip : nat) : 2 * Z.of_nat chip <= len input -> is_Some (chip_windows input (Z.of_nat chip)).
Proof.
  intros Hl. unfold chip_windows.
  assert (forall (l : list Z) st, Forall (fun i => 0 <= i < Z.of_nat chip) l ->
    is_Some (foldM (fun '(lower, upper) idx =>
      l ← index input idx; u ← index input (idx + Z.of_nat chip); Some (fadd lower l, fadd upper u)) st l)) as H.
  { induction l as [|i l IH]; intros [lo up] Hf; [by eexists|]. apply Forall_cons in Hf as [Hi Hf]. cbn [foldM].
    destruct (index_lt input i ltac:(lia)) as [? ->], (index_lt input (i + Z.of_nat chip) ltac:(lia)) as [? ->].
    cbn [mbind option_bind]. by apply IH. }
  apply H. apply Forall_forall. intros i Hi%elem_of_seqZ. lia.
Qed.

Lemma filterManchester_total (n : nat) a b c lower upper :
  len a = Z.of_nat n -> len b = Z.of_nat n -> len c = Z.of_nat n ->
  exists out, filterManchester (Z.of_nat n) a b c lower upper = Some out /\ len out = Z.of_nat n /\ Forall is_bit out.
Proof.
  intros Ha Hb Hc. unfold filterManchester. rewrite Ha, Hb, Hc, Z.ltb_irrefl. cbn [orb]. rewrite seqZ_of_nat.
  assert (forall m k out lo up, (k + m <= n)%nat -> Forall is_bit out -> len out = Z.of_nat k ->
    exists out' lo' up', foldM (manchester_step a b c) (out, lo, up) (map Z.of_nat (seq k m)) = Some (out', lo', up') /\
      len out' = Z.of_nat (k + m) /\ Forall is_bit out') as H.
  { induction m as [|m IH]; intros k out lo up Hk Hb' Hl; [exists out, lo, up; by rewrite Nat.add_0_r|].
    cbn [seq map foldM manchester_step].
    destruct (index_lt a (Z.of_nat k) ltac:(lia)) as [? ->], (index_lt b (Z.of_nat k) ltac:(lia)) as [? ->],
      (index_lt c (Z.of_nat k) ltac:(lia)) as [? ->]. cbn [mbind option_bind].
    destruct (IH (S k) (out ++ [u8 (1 - sign_bit (fsub lo up))])
      (fadd lo (fsub x0 x)) (fadd up (fsub x1 x0))) as (o & l' & u' & E1 & E2 & E3); [lia| | |].
    - apply Forall_app. split; [done|]. constructor; [|constructor]. unfold sign_bit.
      destruct (fsub lo up) as [[]|[]| |[] ? ?]; split; (discriminate || reflexivity).
    - rewrite len_app. unfold len at 2. cbn [length]. lia.
    - exists o, l', u'. rewrite E1, E2. split; [done|split; [lia|done]]. }
  destruct (H n 0%nat [] lower upper ltac:(lia) ltac:(constructor) eq_refl) as (out & l' & u' & -> & Hl & Hbits).
  exists out. done.
Qed.

Lemma FilterGo_total input (n chip : nat) : Z.of_nat n + 2 * Z.of_nat chip <= len input ->
  exists out, FilterGo input (Z.of_nat n) (Z.of_nat chip) = Some out /\ len out = Z.of_nat n /\ Forall is_bit out.
Proof.
  intros Hl. unfold FilterGo. destruct (chip_windows_total input chip ltac:(lia)) as [[lo up] ->]. cbn [mbind option_bind].
  destruct (slice 0 (Z.of_nat n) input) as [a|] eqn:Ea; [|rewrite slice_ok in Ea by lia; done].
  destruct (slice (Z.of_nat chip) (Z.of_nat chip + Z.of_nat n) input) as [b|] eqn:Eb; [|rewrite slice_ok in Eb by lia; done].
  destruct (slice (Z.of_nat chip * 2) (Z.of_nat chip * 2 + Z.of_nat n) input) as [c|] eqn:Ec; [|rewrite slice_ok in Ec by lia; done].
  cbn [mbind option_bind]. apply slice_len in Ea, Eb, Ec. apply filterManchester_total; lia.
Qed.

(** Execute is the portable loop. *)
Lemma Execute_spec `{MagnitudePlatform} (input : list Z) (n : nat) :
  Forall is_byte input -> 2 * Z.of_nat n <= len input ->
  exists out, Execute NewMagLUT input (Z.of_nat n) = Some out /\ magnitudeLUTGo input (Z.of_nat n) NewMagLUT = Some out /\
    len out = Z.of_nat n.
Proof.
  intros Hbytes Hinput.
  assert (len NewMagLUT = 256) as Hlut by (unfold NewMagLUT, len; by rewrite length_map, length_seqZ).
  generalize dependent NewMagLUT. intros lut Hlut.
  destruct (magnitudeLUTGo_spec input n lut Hbytes Hinput ltac:(lia)) as (out & Eo & Hlo & Ho).
  exists out. rewrite Eo. split; [|split; [done|unfold len; lia]].
  unfold Execute. destruct (Z.eqb_spec (Z.of_nat n) 0) as [E|E].
  { unfold magnitudeLUTGo in Eo. by rewrite E in Eo. }
  destruct (index_lt lut 255 ltac:(lia)) as [? ->], (index_lt input (Z.of_nat n * 2 - 1) ltac:(lia)) as [? ->].
  cbn [mbind option_bind]. destruct magnitudeLUTA72Available eqn:Hav; [|done].
  set (m := (8 * (n / 8))%nat).
  assert (Z.ldiff (Z.of_nat n) 7 = Z.of_nat m) as ->.
  { change 7 with (Z.ones 3). rewrite Z.ldiff_ones_r, Z.shiftl_mul_pow2, Z.shiftr_div_pow2 by lia. change (2 ^ 3) with 8.
    change 8 with (Z.of_nat 8). rewrite <- Nat2Z.inj_div. lia. }
  pose proof (Nat.div_mod n 8 ltac:(lia)) as Ed. pose proof (Nat.mod_upper_bound n 8 ltac:(lia)) as Rd.
  destruct (Z.eqb_spec (Z.of_nat m) 0) as [Em|Em]; cbn [negb]; [done|].
  rewrite slice_prefix by lia. cbn [mbind option_bind]. replace (Z.to_nat (Z.of_nat m * 2)) with (2 * m)%nat by lia.
  assert (len (take (2 * m) input) = 2 * Z.of_nat m) as Hlt by (unfold len in *; rewrite length_take; lia).
  rewrite magnitude_agrees by first [done|lia|by apply Forall_take|
    (replace (Z.of_nat m) with (Z.of_nat (n / 8) * 8) by lia; apply Z.mod_mul; lia)].
  destruct (magnitudeLUTGo_spec (take (2 * m) input) m lut ltac:(by apply Forall_take) ltac:(lia) ltac:(lia)) as (a & -> & Hla & Ha).
  cbn [mbind option_bind]. rewrite slice_suffix by lia. cbn [mbind option_bind].
  replace (Z.to_nat (Z.of_nat m * 2)) with (2 * m)%nat by lia.
  destruct (magnitudeLUTGo_spec (drop (2 * m) input) (n - m) lut ltac:(by apply Forall_drop)) as (b & Eb & Hlb & Hb);
    [unfold len in *; rewrite length_drop; lia|lia|].
  replace (Z.of_nat n - Z.of_nat m) with (Z.of_nat (n - m)) by lia. rewrite Eb. cbn [mbind option_bind]. f_equal.
  apply list_eq_same_length with n; [lia|rewrite length_app; lia|].
  intros k x1 y1 Hk Hx Hy. rewrite Ho in Hy by done. destruct (decide (k < m)%nat).
  - rewrite lookup_app_l, Ha, magnitude_at_take in Hx by lia. congruence.
  - rewrite lookup_app_r, Hla, Hb, magnitude_at_drop in Hx by lia. replace (m + (k - m))%nat with k in Hx by lia. congruence.
Qed.

(** ** Properties *)

(** C30. The integer backend's reference block never refuses or panics on the
    decoder's sizes: every power is exactly half of (2i-255)^2 + (2q-255)^2, with no
    wrap-around, and decision [k] is one exactly when the chip sum that starts at
    [k] is at least the one that follows it. *)
Theorem power16_block_exact (window input : list Z)
  (Hwindow : len window = power16Window) (Hpowers : Forall (is_uint 16) window)
  (Hinput : len input = power16BlockSize * 2) (Hbytes : Forall is_byte input) :
  exists decisions powers,
    power16ReferenceBlock power16BlockSize window input = Some (Some (decisions, take 144 window ++ powers)) /\
    len decisions = 8192 /\ len powers = 8192 /\ Forall (is_uint 16) powers /\
    (forall k b c, input !! (2 * k)%nat = Some b -> input !! (2 * k + 1)%nat = Some c ->
       exists p, powers !! k = Some p /\ 2 * p = (2 * b - 255) * (2 * b - 255) + (2 * c - 255) * (2 * c - 255)) /\
    (forall k d, decisions !! k = Some d ->
       let chip j := Zsum (take 72 (drop j (take 144 window ++ powers))) in
       d = if chip (k + 72)%nat <=? chip k then 1 else 0).
Proof.
  unfold power16ReferenceBlock. rewrite Hwindow, Hinput, !Z.eqb_refl. cbn [negb orb].
  set (n := Z.to_nat 8192). assert (Z.of_nat n = 8192) as En by done.
  change (power16Window - power16History) with 8192. rewrite <- En.
  destruct (power16IQReference_exact input n Hbytes) as (powers & -> & Hlp & Rp & Hp); [by rewrite Hinput, En|].
  cbn [mbind option_bind]. change (Z.to_nat power16History) with 144%nat.
  set (w := take 144 window ++ powers).
  assert (Forall (is_uint 16) w) as Rw by (apply Forall_app; auto with go).
  assert (len w = 8336) as Hlw.
  { unfold w, len in *. rewrite length_app, length_take. change power16Window with 8336 in Hwindow. lia. }
  pose proof (power16Manchester_exact w 72 Rw ltac:(reflexivity) n ltac:(lia)) as HM.
  change (Z.of_nat 72) with power16ChipLength in HM.
  replace power16BlockSize with (Z.of_nat n) by done. rewrite HM by (unfold len in Hlw; lia). cbn [mbind option_bind].
  eexists _, powers. split; [reflexivity|]. split; [unfold len; rewrite length_map, length_seq; exact En|].
  split; [unfold len; rewrite Hlp; exact En|]. split; [done|]. split.
  - intros k b c Eb Ec. exists (power_of b c). split; [by apply Hp|apply power_of_square].
  - intros k d Hd. change (((fun i => if chip_at w 72 (i + 72) <=? chip_at w 72 i then 1 else 0) <$> seq 0 n) !! k = Some d) in Hd.
    rewrite list_lookup_fmap in Hd. destruct (seq 0 n !! k) as [j|] eqn:E; [|done].
    apply lookup_seq in E as [-> _]. by injection Hd as <-.
Qed.

Lemma power16_block_exact_witness :
  exists decisions powers,
    power16ReferenceBlock power16BlockSize (make power16Window 7) (make (power16BlockSize * 2) 200) =
      Some (Some (decisions, take 144 (make power16Window 7) ++ powers)).
Proof.
  destruct (power16_block_exact (make power16Window 7) (make (power16BlockSize * 2) 200)) as (decisions & powers & E & _).
  - apply len_make. discriminate.
  - apply Forall_replicate. split; [discriminate|reflexivity].
  - apply len_make. discriminate.
  - apply Forall_replicate. split; [discriminate|reflexivity].
  - exists decisions, powers. exact E.
Defined.

(** The magnitude block does not depend on the platform: with or without the
    kernel for multiples of eight, Execute neither panics nor changes a sample of
    what the portable loop computes, the sum of the table entries of I and Q. *)
Theorem Execute_platform_independent `{MagnitudePlatform} (input : list Z) (n : nat)
  (Hbytes : Forall is_byte input) (Hinput : 2 * Z.of_nat n <= len input) :
  exists out, Execute NewMagLUT input (Z.of_nat n) = Some out /\ magnitudeLUTGo input (Z.of_nat n) NewMagLUT = Some out /\
    len out = Z.of_nat n /\
    forall k, (k < n)%nat -> out !! k = magnitude_at NewMagLUT input (Z.of_nat k).
Proof.
  destruct (Execute_spec input n Hbytes Hinput) as (out & E1 & E2 & Hl). exists out. do 3 (split; [done|]).
  destruct (magnitudeLUTGo_spec input n NewMagLUT Hbytes Hinput) as (out' & E & _ & Ho); [by vm_compute|]. rewrite E2 in E. by apply (inj Some) in E as <-.
Qed.

Lemma Execute_platform_independent_witness :
  exists out, @Execute portable_magnitude NewMagLUT [0; 1; 127; 128; 255; 254] 3 = Some out /\ len out = 3.
Proof.
  destruct (@Execute_platform_independent portable_magnitude [0; 1; 127; 128; 255; 254] 3) as (out & E & _ & Hl & _).
  - apply uintsb_Forall. reflexivity.
  - discriminate.
  - exists out. split; [exact E|exact Hl].
Defined.
