(* ===== verification/Register.v ===== *)
(** Registration and allocation of the decoder (src/protocol/decode.go:
    RegisterProtocol and the geometry of Allocate; src/protocol/power16.go:
    selectPower16Platform): the parser interface, the registry, the choice of the
    sample representation. *)

From Stdlib Require Import Sorted.
From S2P Require Import Prelude Float64 Packet Search Ring History Signal.

(** ** The parser interface *)

(** What a parser sees of its decoder when it is called: the pointer that
    SetDecoder stores, and the history that SetPower16History attaches. *)
Record View := {
  v_Cfg : PacketConfig;
  v_SignalWindow : Z -> Z -> option (list f64);
  v_Power16Window : Z -> Z -> option (list Z) }.

(** The methods of [protocol.Parser], and those that the decoder looks for by
    type assertion; [None] when the type does not have the method. *)
Class ParserOps (S M : Type) := {
  Cfg_of : S -> PacketConfig;
  power16_compatible : S -> option bool;
  set_power16_history : S -> option (bool -> S);
  history_overlap : S -> option Z;
  packet_bytes_only : S -> option bool;
  parse_indices : S -> option (View -> list Z -> list M -> option (S * list M));
  parse : View -> S -> list Data -> list M -> option (S * list M) }.

(** ** Platform selection *)

Inductive power16Policy := power16PolicyDisabled | power16PolicyAutomatic.

#[export] Instance power16Policy_eq_dec : EqDecision power16Policy.
Proof. solve_decision. Defined.

(** The fused backends: decisions, (packed decisions,) and the new window, or a
    refusal. *)
Definition run_fn := Z -> list Z -> list Z -> option (option (list Z * list Z)).
Definition runPacked_fn := Z -> Z -> list Z -> list Z -> option (option (list Z * list Z * list Z)).

Record power16Platform := {
  implementation : list Z; fallbackReason : list Z; midr : list Z; nativeAvailable : bool; genuineA72 : bool; asimd : bool;
  selfTestPassed : bool; killSwitch : bool; validationOnly : bool; run : option run_fn; runPacked : option runPacked_fn }.

Record DecoderDispatchStatus := {
  s_Implementation : list Z; s_FallbackReason : list Z; s_MIDR : list Z; s_Power16Active : bool; s_PolicyAutomatic : bool;
  s_ParserCompatible : bool; s_GeometryCompatible : bool; s_NativeAvailable : bool; s_GenuineA72 : bool; s_ASIMD : bool;
  s_SelfTestPassed : bool; s_KillSwitch : bool; s_ValidationOnly : bool; s_NativeBlocks : Z; s_ValidationBlocks : Z }.

(** The gate in front of the fused backends. *)
Definition platform_refused (p : power16Platform) : bool :=
  killSwitch p || negb (asimd p) || (negb (genuineA72 p) && negb (validationOnly p)) || negb (selfTestPassed p) ||
  (negb (nativeAvailable p) && negb (validationOnly p)) || match run p with None => true | Some _ => false end.

Definition refusal_reason (p : power16Platform) : list Z :=
  if decide (fallbackReason p = []) then
    if killSwitch p then str "kill-switch"
    else if negb (asimd p) then str "asimd-unavailable"
    else if negb (genuineA72 p) && negb (validationOnly p) then str "unsupported-cpu"
    else if negb (selfTestPassed p) then str "self-test-failed"
    else str "native-unavailable"
  else fallbackReason p.

Definition base_status (policy : power16Policy) (parserCompatible geometryCompatible : bool) (reason : list Z) : DecoderDispatchStatus :=
  {| s_Implementation := str "exact-float64"; s_FallbackReason := reason; s_MIDR := []; s_Power16Active := false;
     s_PolicyAutomatic := bool_decide (policy = power16PolicyAutomatic); s_ParserCompatible := parserCompatible;
     s_GeometryCompatible := geometryCompatible; s_NativeAvailable := false; s_GenuineA72 := false; s_ASIMD := false;
     s_SelfTestPassed := false; s_KillSwitch := false; s_ValidationOnly := false; s_NativeBlocks := 0; s_ValidationBlocks := 0 |}.

Definition probed_status (p : power16Platform) (implementation reason : list Z) (active : bool) : DecoderDispatchStatus :=
  {| s_Implementation := implementation; s_FallbackReason := reason; s_MIDR := midr p; s_Power16Active := active;
     s_PolicyAutomatic := true; s_ParserCompatible := true; s_GeometryCompatible := true;
     s_NativeAvailable := nativeAvailable p; s_GenuineA72 := genuineA72 p; s_ASIMD := asimd p;
     s_SelfTestPassed := selfTestPassed p; s_KillSwitch := killSwitch p; s_ValidationOnly := validationOnly p;
     s_NativeBlocks := 0; s_ValidationBlocks := 0 |}.

Definition geometry_compatible (cfg : PacketConfig) : bool :=
  (ChipLength cfg =? power16ChipLength) && (SymbolLength cfg =? power16History) && (BlockSize cfg =? power16BlockSize) &&
  (BlockSize2 cfg =? power16BlockSize * 2).

(** The selected platform, if any, and the status that is recorded. *)
Definition selectPower16Platform (policy : power16Policy) (probe : option (unit -> power16Platform)) (parserCount : Z)
    (parsersCompatible : bool) (cfg : PacketConfig) : option power16Platform * DecoderDispatchStatus :=
  let parserCompatible := (0 <? parserCount) && parsersCompatible in
  let geometryCompatible := geometry_compatible cfg in
  let base := base_status policy parserCompatible geometryCompatible in
  if decide (policy <> power16PolicyAutomatic) then (None, base (str "policy-disabled")) else
  if negb parserCompatible then (None, base (str "parser-incompatible")) else
  if negb geometryCompatible then (None, base (str "geometry-incompatible")) else
  match probe with
  | None => (None, base (str "platform-probe-unavailable"))
  | Some probe =>
      let platform := probe tt in
      if platform_refused platform then (None, probed_status platform (str "exact-float64") (refusal_reason platform) false)
      else (Some platform, probed_status platform (implementation platform) [] true)
  end.

(** ** Registration *)

Definition fixedIDMPreambleASCII : list Z := str "01010101010101010001011010100011".
Definition fixedR900PreambleASCII : list Z := str "00000000000000001110010101100100".

Section Registry.
Context {S M : Type} `{ParserOps S M}.

(** The registered parser objects and what the decoder keeps of them; a parser
    is referred to by its position among the registered ones. *)
Record Registry := {
  objects : list S; r_Cfg : PacketConfig;
  preambleStrs : gset (list Z); preambles : gmap (list Z) (list nat); protocols : list (list Z);
  fixedIDMParsers : list nat; fixedIDMPreambleKey : list Z; fixedR900Parsers : list nat; fixedR900PreambleKey : list Z;
  power16ParserCount : Z; power16ParsersCompatible : bool; power16Consumers : list nat; signalHistoryOverlap : Z }.

Definition empty_config : PacketConfig := parser_config [] [] 0 0 0 0 0.

Definition newDecoder : Registry :=
  {| objects := []; r_Cfg := empty_config; preambleStrs := ∅; preambles := ∅; protocols := [];
     fixedIDMParsers := []; fixedIDMPreambleKey := []; fixedR900Parsers := []; fixedR900PreambleKey := [];
     power16ParserCount := 0; power16ParsersCompatible := true; power16Consumers := []; signalHistoryOverlap := 0 |}.

(** Text of zeros and ones to numbers. *)
Definition preamble_bytes (preamble : list Z) : list Z := map (fun bit => if bit =? 49 then 1 else 0) preamble.

Definition merge_config (cfg p : PacketConfig) : PacketConfig :=
  {| Protocol := Protocol cfg; Preamble := Preamble cfg; DataRate := Z.max (DataRate cfg) (DataRate p);
     BlockSize := BlockSize cfg; BlockSize2 := BlockSize2 cfg; ChipLength := Z.max (ChipLength cfg) (ChipLength p);
     SymbolLength := SymbolLength cfg; SampleRate := SampleRate cfg;
     PreambleSymbols := Z.max (PreambleSymbols cfg) (PreambleSymbols p);
     PacketSymbols := Z.max (PacketSymbols cfg) (PacketSymbols p);
     PreambleLength := PreambleLength cfg; PacketLength := PacketLength cfg; BufferLength := BufferLength cfg;
     CenterFreq := if CenterFreq cfg <? CenterFreq p then CenterFreq p else CenterFreq cfg |}.

Definition RegisterProtocol (d : Registry) (p : S) : Registry :=
  let me := length (objects d) in
  let cfg := Cfg_of p in
  let compatible := power16ParsersCompatible d in
  let compatible := match power16_compatible p with Some true => compatible | _ => false end in
  let consumes := match set_power16_history p with Some _ => true | None => false end in
  let '(overlap, compatible) :=
    match history_overlap p with
    | Some overlap =>
        (if signalHistoryOverlap d <? overlap then overlap else signalHistoryOverlap d,
         if (0 <? overlap) && negb consumes then false else compatible)
    | None => (signalHistoryOverlap d, compatible)
    end in
  let key := preamble_bytes (Preamble cfg) in
  let sharing := default [] (preambles d !! key) ++ [me] in
  let idm := bool_decide (Preamble cfg = fixedIDMPreambleASCII) in
  let r900 := bool_decide (Preamble cfg = fixedR900PreambleASCII) in
  {| objects := objects d ++ [p]; r_Cfg := merge_config (r_Cfg d) cfg;
     preambleStrs := {[Preamble cfg]} ∪ preambleStrs d; preambles := <[key := sharing]> (preambles d);
     protocols := protocols d ++ [Protocol cfg];
     fixedIDMParsers := if idm then sharing else fixedIDMParsers d;
     fixedIDMPreambleKey := if idm then key else fixedIDMPreambleKey d;
     fixedR900Parsers := if r900 then sharing else fixedR900Parsers d;
     fixedR900PreambleKey := if r900 then key else fixedR900PreambleKey d;
     power16ParserCount := power16ParserCount d + 1; power16ParsersCompatible := compatible;
     power16Consumers := if consumes then power16Consumers d ++ [me] else power16Consumers d;
     signalHistoryOverlap := overlap |}.

Definition register_all (ps : list S) : Registry := foldl RegisterProtocol newDecoder ps.
End Registry.
Arguments Registry S : clear implicits.

(** ** Geometry *)

(** [1 << uint(math.Ceil(math.Log2(float64(v))))] for a positive [v].  The logarithm is
    exact at powers of two, and for the lengths in use farther from an integer elsewhere
    than a float64 rounds, so that its ceiling is the exact one. *)
Definition NextPowerOf2 (v : Z) : Z := Z.shiftl 1 (Z.log2_up v).

(** The lengths that Allocate derives. *)
Definition derive_config (cfg : PacketConfig) : PacketConfig :=
  let symbolLength := Z.shiftl (ChipLength cfg) 1 in
  let preambleLength := PreambleSymbols cfg * symbolLength in
  let packetLength := PacketSymbols cfg * symbolLength in
  let blockSize := NextPowerOf2 preambleLength in
  {| Protocol := Protocol cfg; Preamble := Preamble cfg; DataRate := DataRate cfg;
     BlockSize := blockSize; BlockSize2 := Z.shiftl blockSize 1; ChipLength := ChipLength cfg; SymbolLength := symbolLength;
     SampleRate := DataRate cfg * ChipLength cfg; PreambleSymbols := PreambleSymbols cfg; PacketSymbols := PacketSymbols cfg;
     PreambleLength := preambleLength; PacketLength := packetLength; BufferLength := packetLength + blockSize;
     CenterFreq := CenterFreq cfg |}.

(** ** Lemmas *)

Lemma NextPowerOf2_le v k : 0 <= k -> v <= 2 ^ k -> NextPowerOf2 v <= 2 ^ k.
Proof.
  intros Hk Hv. unfold NextPowerOf2. rewrite Z.shiftl_1_l. apply Z.pow_le_mono_r; [lia|].
  rewrite <- (Z.log2_up_pow2 k) by done. by apply Z.log2_up_le_mono.
Qed.

Lemma NextPowerOf2_spec v : 0 < v ->
  exists k, 0 <= k /\ NextPowerOf2 v = 2 ^ k /\ v <= 2 ^ k < 2 * v.
Proof.
  intros Hv. exists (Z.log2_up v). pose proof (Z.log2_up_nonneg v). split; [done|].
  unfold NextPowerOf2. rewrite Z.shiftl_1_l. split; [done|].
  destruct (Z.eq_dec v 1) as [->|]; [done|]. pose proof (Z.log2_up_spec v ltac:(lia)) as [H1 H2]. split; [done|].
  assert (0 < Z.log2_up v) by (apply Z.log2_up_pos; lia).
  replace (Z.log2_up v) with (Z.succ (Z.pred (Z.log2_up v))) by lia. rewrite Z.pow_succ_r by lia. lia.
Qed.

Section Lemmas.
Context {S M : Type} `{ParserOps S M}.

Definition consumes (p : S) : bool := match set_power16_history p with Some _ => true | None => false end.
Definition overlap_of (p : S) : Z := default 0 (history_overlap p).
Definition compatible_of (p : S) : bool :=
  match power16_compatible p with Some true => true | _ => false end &&
  match history_overlap p with Some o => negb ((0 <? o) && negb (consumes p)) | None => true end.
Definition key_of (p : S) : list Z := preamble_bytes (Preamble (Cfg_of p)).

(** The positions of the parsers that satisfy [P], from [n] on. *)
Fixpoint places (P : S -> bool) (n : nat) (ps : list S) : list nat :=
  match ps with [] => [] | p :: ps => if P p then n :: places P (1 + n) ps else places P (1 + n) ps end.

Lemma places_app P n ps qs : places P n (ps ++ qs) = places P n ps ++ places P (length ps + n) qs.
Proof.
  revert n. induction ps as [|p ps IH]; intros n; [done|]. cbn [app places length]. rewrite IH, Nat.add_succ_r.
  by destruct (P p).
Qed.

Lemma places_spec P n ps i : i ∈ places P n ps <-> exists j p, i = (n + j)%nat /\ ps !! j = Some p /\ P p = true.
Proof.
  revert n. induction ps as [|p ps IH]; intros n; cbn [places].
  { split; [intros H0; by apply not_elem_of_nil in H0|by intros (j & q & _ & Hq & _)]. }
  assert (i ∈ places P (1 + n) ps <-> exists j q, i = (n + Datatypes.S j)%nat /\ ps !! j = Some q /\ P q = true) as E.
  { rewrite IH. split; intros (j & q & -> & Hq & HP); exists j, q; (split; [lia|done]). }
  destruct (P p) eqn:Ep; rewrite ?elem_of_cons, E; split.
  - intros [->|(j & q & -> & Hq & HP)]; [exists 0%nat, p; (split; [lia|done])|by exists (Datatypes.S j), q].
  - intros ([|j] & q & -> & Hq & HP); [left; lia|right; by exists j, q].
  - intros (j & q & -> & Hq & HP); by exists (Datatypes.S j), q.
  - intros ([|j] & q & -> & Hq & HP); [cbn in Hq; congruence|by exists j, q].
Qed.

Lemma places_sorted P n ps : StronglySorted lt (places P n ps) /\ Forall (le n) (places P n ps).
Proof.
  revert n. induction ps as [|p ps IH]; intros n; cbn [places]; [by repeat constructor|].
  destruct (IH (1 + n)%nat) as [H1 H2]. assert (Forall (le n) (places P (1 + n) ps)) as H3 by (eapply Forall_impl; [exact H2|]; cbn; lia).
  destruct (P p); [|done]. split; [|by constructor]. constructor; [done|]. eapply Forall_impl; [exact H2|]. cbn. lia.
Qed.

Lemma RegisterProtocol_fields d p :
  let d' := RegisterProtocol d p in
  objects d' = objects d ++ [p] /\ r_Cfg d' = merge_config (r_Cfg d) (Cfg_of p) /\
  protocols d' = protocols d ++ [Protocol (Cfg_of p)] /\
  preambles d' = <[key_of p := default [] (preambles d !! key_of p) ++ [length (objects d)]]> (preambles d) /\
  power16ParserCount d' = power16ParserCount d + 1 /\
  power16ParsersCompatible d' = power16ParsersCompatible d && compatible_of p /\
  signalHistoryOverlap d' = Z.max (signalHistoryOverlap d) (match history_overlap p with Some o => o | None => signalHistoryOverlap d end) /\
  power16Consumers d' = power16Consumers d ++ (if consumes p then [length (objects d)] else []).
Proof.
  unfold RegisterProtocol, compatible_of, consumes, key_of.
  destruct (power16_compatible p) as [[]|], (history_overlap p) as [o|], (set_power16_history p) as [f|]; cbn;
    rewrite ?app_nil_r, ?andb_true_r, ?andb_false_r, ?Z.max_id; repeat split; try done;
    try (destruct (Z.ltb_spec (signalHistoryOverlap d) o); lia);
    destruct (Z.ltb_spec 0 o); cbn; by rewrite ?andb_false_r, ?andb_true_r.
Qed.

(** What a list of registrations leaves behind. *)
Record registered (ps : list S) (d : Registry S) : Prop := {
  reg_objects : objects d = ps;
  reg_config : r_Cfg d = foldl merge_config empty_config (map Cfg_of ps);
  reg_protocols : protocols d = map (fun p => Protocol (Cfg_of p)) ps;
  reg_preambles : forall key, default [] (preambles d !! key) = places (fun p => bool_decide (key_of p = key)) 0 ps;
  reg_count : power16ParserCount d = len ps;
  reg_compatible : power16ParsersCompatible d = forallb compatible_of ps;
  reg_overlap : signalHistoryOverlap d = foldl Z.max 0 (map overlap_of ps);
  reg_consumers : power16Consumers d = places consumes 0 ps }.

Lemma register_all_registered ps : registered ps (register_all ps).
Proof.
  induction ps as [|p ps IH] using rev_ind.
  { constructor; try done. }
  unfold register_all. rewrite foldl_snoc. fold (register_all ps). destruct IH as [H1 H2 H3 H4 H5 H6 H7 H8].
  destruct (RegisterProtocol_fields (register_all ps) p) as (E1 & E2 & E3 & E4 & E5 & E6 & E7 & E8). cbv zeta in *.
  constructor; rewrite ?E1, ?E2, ?E3, ?E5, ?E6, ?E7, ?E8, ?map_app; cbn [map].
  - by rewrite H1.
  - by rewrite foldl_snoc, H2.
  - by rewrite H3.
  - intros key. rewrite E4, places_app, H1, Nat.add_0_r. cbn [places].
    destruct (decide (key_of p = key)) as [<-|Hne].
    + rewrite lookup_insert_eq, bool_decide_eq_true_2 by done. cbn. by rewrite H4.
    + rewrite lookup_insert_ne, bool_decide_eq_false_2 by done. by rewrite app_nil_r, H4.
  - rewrite H5, len_app. done.
  - rewrite H6, forallb_app. cbn. by rewrite andb_true_r.
  - rewrite foldl_snoc, H7. assert (overlap_of p = default 0 (history_overlap p)) as -> by done. destruct (history_overlap p) as [o|] eqn:Eo; cbn; [done|].
    assert (forall a l, a <= foldl Z.max a l) as Hm.
    { intros a l. revert a. induction l as [|x l IHl]; intros a; cbn; [lia|]. pose proof (IHl (Z.max a x)). lia. }
    pose proof (Hm 0 (map overlap_of ps)). lia.
  - rewrite H8, places_app, H1, Nat.add_0_r. cbn [places]. by destruct (consumes p).
Qed.

Lemma foldl_permutation {A B} (f : A -> B -> A) (Hf : forall a x y, f (f a x) y = f (f a y) x) l k a :
  l ≡ₚ k -> foldl f a l = foldl f a k.
Proof.
  intros Hp. revert a. induction Hp as [|x l k Hp IH|x y l|l k m H1 IH1 H2 IH2]; intros a; cbn [foldl]; [done|apply IH|by rewrite Hf|].
  by rewrite IH1, IH2.
Qed.

Lemma merge_config_comm cfg p q : merge_config (merge_config cfg p) q = merge_config (merge_config cfg q) p.
Proof.
  assert (forall a b : Z, (if a <? b then b else a) = Z.max a b) as Hmax by (intros a b; destruct (Z.ltb_spec a b); lia).
  unfold merge_config. destruct cfg, p, q. cbn. rewrite !Hmax. f_equal; lia.
Qed.
End Lemmas.

(** The derived lengths, and the power of two the block is. *)
Lemma derive_lengths (cfg : PacketConfig) :
  0 < ChipLength cfg -> 4 <= PreambleSymbols cfg <= PacketSymbols cfg ->
  let c := derive_config cfg in
  SymbolLength c = 2 * ChipLength cfg /\ PreambleLength c = PreambleSymbols cfg * SymbolLength c /\
  PacketLength c = PacketSymbols cfg * SymbolLength c /\ BlockSize2 c = 2 * BlockSize c /\
  BufferLength c = PacketLength c + BlockSize c /\ ChipLength c = ChipLength cfg /\
  exists k, 3 <= k /\ BlockSize c = 2 ^ k /\ PreambleLength c <= 2 ^ k < 2 * PreambleLength c.
Proof.
  intros Hchip Hpreamble c. assert (SymbolLength c = 2 * ChipLength cfg) as Es by (cbn; rewrite Z.shiftl_mul_pow2; lia).
  do 3 (split; [done|]). split; [cbn; rewrite Z.shiftl_mul_pow2; lia|]. do 2 (split; [done|]).
  assert (PreambleLength c = PreambleSymbols cfg * SymbolLength c) as Epre by done.
  destruct (NextPowerOf2_spec (PreambleLength c)) as (k & Hk & Ek & Hk1 & Hk2); [nia|].
  exists k. split; [|done]. destruct (Z.le_gt_cases 3 k); [done|]. assert (2 ^ k <= 2 ^ 2) by (apply Z.pow_le_mono_r; lia). nia.
Qed.

(** Blocks, packets and rings are whole bytes, and the buffers fit. *)
Lemma derive_bytes (cfg : PacketConfig) (ov : Z) :
  0 < ChipLength cfg -> 4 <= PreambleSymbols cfg <= PacketSymbols cfg -> PacketSymbols cfg mod 4 = 0 ->
  0 <= ov <= 4 * ChipLength cfg ->
  let c := derive_config cfg in byte_geometry c /\ strip_geometry c ov /\ 0 < SymbolLength c <= PacketLength c.
Proof.
  intros Hchip Hpreamble Hpacket Hov c.
  destruct (derive_lengths cfg Hchip Hpreamble) as (Es & Epre & Epkt & Eb2 & Ebuf & Ec & k & Hk & Ek & Hk1 & Hk2).
  fold c in Es, Epre, Epkt, Eb2, Ebuf, Ec, Ek, Hk1, Hk2. clearbody c. assert (geometry c) as Hg by (constructor; nia).
  split; [|split; [|nia]].
  - constructor; [done| | |nia].
    + rewrite Ek. replace k with (3 + (k - 3)) by lia. rewrite Z.pow_add_r, Z.mul_comm by lia. apply Z.mod_mul. lia.
    + apply Z.mod_divide in Hpacket as [m Hm]; [|lia]. rewrite Epkt, Es, Hm.
      replace (m * 4 * (2 * ChipLength cfg)) with (m * ChipLength cfg * 8) by ring. apply Z.mod_mul. lia.
  - constructor; [done|exists k; lia|nia].
Qed.

(** The exponent between the two bounds of the fused block. *)
Lemma block_exponent k : 4096 < 2 ^ k < 16384 -> 0 <= k -> k = 13.
Proof.
  intros [L U] Hk. change 4096 with (2 ^ 12) in L. change 16384 with (2 ^ 14) in U.
  apply Z.pow_lt_mono_r_iff in L; [|lia..]. apply Z.pow_lt_mono_r_iff in U; lia.
Qed.

(** ** Properties *)

(** C37. Registration does not depend on its order: the radio configuration, the
    signal overlap and the Power16 compatibility are the same for every order of the
    same parsers; and in each order the list of a preamble names, in the order of their
    registration and each once, exactly the parsers with that preamble: every parser is
    listed exactly once, under its own preamble and no other. *)
Theorem registration_order_independent {S M} `{ParserOps S M} (ps qs : list S)
  (Hperm : ps ≡ₚ qs) :
  r_Cfg (register_all ps) = r_Cfg (register_all qs) /\
  signalHistoryOverlap (register_all ps) = signalHistoryOverlap (register_all qs) /\
  power16ParsersCompatible (register_all ps) = power16ParsersCompatible (register_all qs) /\
  power16ParserCount (register_all ps) = power16ParserCount (register_all qs) /\
  forall key, let listed := default [] (preambles (register_all ps) !! key) in
    StronglySorted lt listed /\ NoDup listed /\
    forall i, i ∈ listed <-> exists p, objects (register_all ps) !! i = Some p /\ key_of p = key.
Proof.
  destruct (register_all_registered ps) as [H1 H2 H3 H4 H5 H6 H7 H8].
  destruct (register_all_registered qs) as [K1 K2 K3 K4 K5 K6 K7 K8].
  rewrite H2, K2, H5, K5, H6, K6, H7, K7. split; [|split; [|split; [|split]]].
  - apply foldl_permutation; [apply merge_config_comm|by rewrite Hperm].
  - apply foldl_permutation; [intros a x y; lia|by rewrite Hperm].
  - clear -Hperm. induction Hperm as [|x l k Hp IH|x y l|l k m _ IH1 _ IH2]; cbn; [done|by rewrite IH| |by rewrite IH1].
    destruct (compatible_of x), (compatible_of y); done.
  - unfold len. by rewrite (Permutation_length Hperm).
  - intros key listed. unfold listed. rewrite H4, H1. destruct (places_sorted (fun p => bool_decide (key_of p = key)) 0 ps) as [Hsorted _].
    split; [done|]. split.
    + clear -Hsorted. induction Hsorted as [|i l _ IH Hi]; constructor; [|done]. intros Hin. rewrite Forall_forall in Hi. specialize (Hi i Hin). lia.
    + intros i. rewrite places_spec. split; [intros (j & p & -> & Hp & Hk%bool_decide_eq_true); by exists p|].
      intros (p & Hp & Hk). exists i, p. by rewrite bool_decide_eq_true.
Qed.

(** Parsers that are configurations. *)
Definition config_ops : ParserOps PacketConfig unit :=
  {| Cfg_of := fun c => c; power16_compatible := fun _ => Some true; set_power16_history := fun _ => None;
     history_overlap := fun _ => None; packet_bytes_only := fun _ => None; parse_indices := fun _ => None;
     parse := fun _ s _ m => Some (s, m) |}.

Lemma registration_order_independent_witness :
  r_Cfg (@register_all _ _ config_ops [parser_config [] (str "01") 3 1 72 21 96; parser_config [] (str "10") 2 4 72 32 116]) =
  r_Cfg (@register_all _ _ config_ops [parser_config [] (str "10") 2 4 72 32 116; parser_config [] (str "01") 3 1 72 21 96]).
Proof.
  apply (@registration_order_independent _ _ config_ops), Permutation_swap.
Defined.

(** The geometry Allocate derives is sound for every parser set with
    positive chip length whose packets are a multiple of four symbols: the block is
    the power of two at or just above the preamble, blocks, packets and the ring are
    whole bytes, and the buffers the rings and strips need are long enough; the
    fused backend's fixed geometry holds exactly for chip length 72 with preambles of
    29 to 56 symbols. *)
Theorem derived_geometry (cfg : PacketConfig) (ov : Z)
  (Hchip : 0 < ChipLength cfg) (Hpreamble : 4 <= PreambleSymbols cfg <= PacketSymbols cfg)
  (Hpacket : PacketSymbols cfg mod 4 = 0) (Hov : 0 <= ov <= 4 * ChipLength cfg) :
  let c := derive_config cfg in
  byte_geometry c /\ strip_geometry c ov /\ 0 < SymbolLength c <= PacketLength c /\
  PreambleLength c <= BlockSize c < 2 * PreambleLength c /\
  (geometry_compatible c = true <-> ChipLength cfg = 72 /\ 29 <= PreambleSymbols cfg <= 56).
Proof.
  intros c. destruct (derive_bytes cfg ov Hchip Hpreamble Hpacket Hov) as (Hb & Hs & Hl).
  destruct (derive_lengths cfg Hchip Hpreamble) as (Es & Epre & Epkt & Eb2 & Ebuf & Ec & k & Hk & Ek & Hk1 & Hk2).
  fold c in Hb, Hs, Hl, Es, Epre, Epkt, Eb2, Ebuf, Ec, Ek, Hk1, Hk2. clearbody c.
  do 3 (split; [done|]). split; [lia|].
  unfold geometry_compatible. rewrite Ec, Es, Eb2, !andb_true_iff, !Z.eqb_eq.
  change power16ChipLength with 72. change power16History with 144. change power16BlockSize with 8192. split.
  - intros [[[E1 _] E3] _]. split; [done|]. rewrite E1 in Es. nia.
  - intros [E1 R]. rewrite E1 in Es |- *. rewrite Es in Epre. rewrite (block_exponent k) in Ek; [|lia..].
    change (2 ^ 13) with 8192 in Ek. lia.
Qed.

Lemma derived_geometry_witness : geometry_compatible (derive_config (parser_config [] [] 912380000 32768 72 32 736)) = true.
Proof.
  apply (derived_geometry (parser_config [] [] 912380000 32768 72 32 736) 288);
    repeat split; try reflexivity; discriminate.
Defined.

(** The fused backend is chosen exactly when every gate is open: automatic
    policy, compatible parsers and geometry, a probe, no kill switch, ASIMD, a
    genuine or validation platform, a passed self test, and a runner; the status
    says so, and names a reason exactly when it is not chosen. *)
Theorem platform_selection_gates (policy : power16Policy) (probe : option (unit -> power16Platform)) (parserCount : Z)
  (parsersCompatible : bool) (cfg : PacketConfig) :
  let '(selected, status) := selectPower16Platform policy probe parserCount parsersCompatible cfg in
  (forall p, selected = Some p <->
     policy = power16PolicyAutomatic /\ 0 < parserCount /\ parsersCompatible = true /\ geometry_compatible cfg = true /\
     (exists f, probe = Some f /\ f tt = p) /\
     killSwitch p = false /\ asimd p = true /\ (genuineA72 p = true \/ validationOnly p = true) /\ selfTestPassed p = true /\
     (nativeAvailable p = true \/ validationOnly p = true) /\ run p <> None) /\
  (s_Power16Active status = true <-> is_Some selected) /\
  (s_FallbackReason status = [] <-> is_Some selected).
Proof.
  unfold selectPower16Platform.
  destruct (decide (policy <> power16PolicyAutomatic)) as [Hp|Hp].
  { cbn. split; [|split; (split; [discriminate|by intros []])]. intros p. split; [discriminate|]. intros (? & _). done. }
  apply dec_stable in Hp.
  destruct (Z.ltb_spec 0 parserCount), parsersCompatible; cbn [andb negb];
    try (split; [|split; (split; [discriminate|by intros []])]; intros p; split; [discriminate|]; intros (_ & ? & ? & _); done || lia).
  destruct (geometry_compatible cfg) eqn:Eg; cbn [negb];
    [|split; [|split; (split; [discriminate|by intros []])]; intros p; split; [discriminate|]; by intros (_ & _ & _ & ? & _)].
  destruct probe as [f|];
    [|split; [|split; (split; [discriminate|by intros []])]; intros p; split; [discriminate|]; by intros (_ & _ & _ & _ & (? & ? & _) & _)].
  destruct (platform_refused (f tt)) eqn:Er.
  - split; [|split; (split; [|by intros []])].
    + intros p. split; [discriminate|]. intros (_ & _ & _ & _ & (g & [= <-] & <-) & E1 & E2 & E3 & E4 & E5 & E6).
      unfold platform_refused in Er. rewrite E1, E2, E4 in Er. cbn in Er.
      destruct (run (f tt)); [|done]. destruct E3 as [E3|E3], E5 as [E5|E5]; rewrite ?E3, ?E5, ?andb_false_r in Er; done.
    + discriminate.
    + cbn. unfold refusal_reason. intros E. destruct (decide (fallbackReason (f tt) = [])) as [?|?]; [|done].
      destruct (killSwitch (f tt)); [done|]. destruct (negb (asimd (f tt))); [done|].
      destruct (negb (genuineA72 (f tt)) && _); [done|]. by destruct (negb (selfTestPassed (f tt))).
  - split; [|split; (split; [by eexists|done])]. intros p. split.
    + intros [= <-]. unfold platform_refused in Er. rewrite !orb_false_iff, !andb_false_iff, !negb_false_iff in Er.
      destruct Er as [[[[[E1 E2] E3] E4] E5] E6]. do 4 (split; [done|]). split; [by exists f|]. do 5 (split; [done|]).
      by destruct (run (f tt)).
    + by intros (_ & _ & _ & _ & (g & [= <-] & <-) & _).
Qed.
