(* ===== verification/Decode.v ===== *)
(** The decoder (src/protocol/decode.go: Allocate, Reset, Decode, decodeFiltered,
    decodeQuantized, parseCandidates, appendSignal, slice; src/protocol/power16.go:
    allocatePower16, appendPower16AndFilter, attach and detach).  The order in which Go
    walks the preamble map is a parameter; every result holds for all orders. *)

From S2P Require Import Prelude Float64 Packet Layout Search Ring History Signal Register.

(** ** Slicing packets *)

(** One bit: the value shifts it in, the position moves a symbol on. *)
Definition slice_bit (symbolLength : Z) (q : list Z) (st : Z * Z) (_ : Z) : option (Z * Z) :=
  let '(value, qPhysical) := st in
  b ← index q qPhysical;
  Some (Z.lor (u8 (Z.shiftl value 1)) b, wrap_at (len q) (qPhysical + symbolLength)).

(** One byte of the packet buffer; the value starts from what the buffer holds. *)
Definition slice_byte (symbolLength : Z) (q : list Z) (st : list Z * Z * Z) (packetByte : Z) : option (list Z * Z * Z) :=
  let '(pkt, qPhysical, remainingSymbols) := st in
  let bitsInByte := if remainingSymbols <? 8 then remainingSymbols else 8 in
  value ← index pkt packetByte;
  '(value, qPhysical) ← foldM (slice_bit symbolLength q) (value, qPhysical) (seqZ 0 bitsInByte);
  pkt ← store pkt packetByte value;
  Some (pkt, qPhysical, remainingSymbols - bitsInByte).

(** One candidate: beyond the block it is left for the next one. *)
Definition slice_index (cfg : PacketConfig) (r : DecisionRing) (includeBits : bool) (st : list Z * list Data) (qIdx : Z)
  : option (list Z * list Data) :=
  let '(pkt, pkts) := st in
  if BlockSize cfg <? qIdx then Some (pkt, pkts) else
  let q := Quantized cfg r in
  let qPhysical := wrap_at (len q) (quantizedStart r + qIdx) in
  '(pkt, _, _) ← foldM (slice_byte (SymbolLength cfg) q) (pkt, qPhysical, PacketSymbols cfg) (seqZ 0 (len pkt));
  let data := newData pkt includeBits in
  Some (pkt, pkts ++ [{| Idx := qIdx; Bits := Bits data; Bytes := Bytes data |}]).

(** [Decoder.slice]: the packet buffer and the packets. *)
Definition slice_packets (cfg : PacketConfig) (r : DecisionRing) (pkt : list Z) (indices : list Z) (includeBits : bool)
  : option (list Z * list Data) :=
  foldM (slice_index cfg r includeBits) (pkt, []) indices.

(** [Decoder.Slice] *)
Definition Slice (cfg : PacketConfig) (r : DecisionRing) (pkt indices : list Z) : option (list Data) :=
  snd <$> slice_packets cfg r pkt indices true.

(** ** The decoder state *)

Record power16State := {
  p_strips : Strips Z; p_run : run_fn; p_runPacked : option runPacked_fn; p_packed : PackedRing; nativeBlocks : Z }.

(** One representation of the samples is owned at a time. *)
Inductive Samples :=
  | FloatWindow (Signal : list f64)
  | FloatHistory (h : Strips f64)
  | Power (p : power16State).

(** The search for the two fixed preambles at once: [None] when the platform
    declines.  The native leaf behind it always searches 1024 bytes for symbols of 18
    bytes, whatever the size of the block is; the promise is limited to blocks of at
    most 8192 samples then. *)
Class DualPlatform := {
  searchAlignedCandidates32DualFixedPlatform : Z -> list Z -> Z -> option (list Z * list Z);
  dual_agrees : forall blockSize packed symLenByte idm r900,
    searchAlignedCandidates32DualFixedPlatform blockSize packed symLenByte = Some (idm, r900) ->
    (symLenByte = 18 -> blockSize <= 8192) -> 0 < symLenByte -> Forall is_byte packed ->
    0 <= blockSize -> blockSize / 8 + symLenByte * 31 <= len packed ->
    searchPackedByteAlignedGeneric blockSize packed (preamble_bytes fixedIDMPreambleASCII) symLenByte = Some idm /\
    searchPackedByteAlignedGeneric blockSize packed (preamble_bytes fixedR900PreambleASCII) symLenByte = Some r900 }.

Definition portable_dual : DualPlatform.
Proof. refine {| searchAlignedCandidates32DualFixedPlatform := fun _ _ _ => None |}. done. Defined.

Section Decoder.
Context {S M : Type} `{ParserOps S M} `{SearchPlatform} `{DualPlatform} `{MagnitudePlatform} `{ManchesterPlatform}.

Record Decoder := {
  registry : Registry S; Cfg : PacketConfig; decisions : DecisionRing; samples : Samples; packed : list Z; pkt : list Z;
  sIdxA : list Z; policy : power16Policy; probe : option (unit -> power16Platform); dispatchStatus : DecoderDispatchStatus }.

(** Whether the packed producer is in use. *)
Definition packed_producer (s : Samples) : bool :=
  match s with Power p => match p_runPacked p with Some _ => true | None => false end | _ => false end.

(** [allocatePower16] *)
Definition allocatePower16 (cfg : PacketConfig) (signalOverlap : Z) (platform : power16Platform) (run : run_fn) : power16State :=
  let overlap := if signalOverlap <? SymbolLength cfg then SymbolLength cfg else signalOverlap in
  {| p_strips := allocate_history cfg overlap 0; p_run := run; p_runPacked := runPacked platform;
     p_packed := match runPacked platform with
                 | Some _ => allocate_packed cfg
                 | None => {| packedBacking := []; packedLength := 0; packedStart := 0; packedLookahead := 0 |}
                 end;
     nativeBlocks := 0 |}.

(** [allocateFloatSignal] *)
Definition allocateFloatSignal (cfg : PacketConfig) (signalOverlap : Z) : Samples :=
  if 0 <? signalOverlap then FloatHistory (allocate_history cfg signalOverlap fzero)
  else FloatWindow (make (BlockSize cfg + SymbolLength cfg) fzero).

(** SetPower16History on every consumer. *)
Definition set_consumers (attach : bool) (objects : list S) (consumers : list nat) : list S :=
  foldl (fun objects i => match objects !! i with
    | Some p => match set_power16_history p with Some f => <[i := f attach]> objects | None => objects end
    | None => objects end) objects consumers.

Definition with_objects (r : Registry S) (objs : list S) : Registry S :=
  {| objects := objs; r_Cfg := r_Cfg r; preambleStrs := preambleStrs r; preambles := preambles r; protocols := protocols r;
     fixedIDMParsers := fixedIDMParsers r; fixedIDMPreambleKey := fixedIDMPreambleKey r; fixedR900Parsers := fixedR900Parsers r;
     fixedR900PreambleKey := fixedR900PreambleKey r; power16ParserCount := power16ParserCount r;
     power16ParsersCompatible := power16ParsersCompatible r; power16Consumers := power16Consumers r;
     signalHistoryOverlap := signalHistoryOverlap r |}.

Definition Allocate (r : Registry S) (policy : power16Policy) (probe : option (unit -> power16Platform)) : option Decoder :=
  let detached := set_consumers false (objects r) (power16Consumers r) in
  let cfg := derive_config (r_Cfg r) in
  let '(selected, status) := selectPower16Platform policy probe (power16ParserCount r) (power16ParsersCompatible r) cfg in
  let '(samples, objs) :=
    match selected with
    | Some platform =>
        match run platform with
        | Some run => (Power (allocatePower16 cfg (signalHistoryOverlap r) platform run), set_consumers true detached (power16Consumers r))
        | None => (allocateFloatSignal cfg (signalHistoryOverlap r), detached)
        end
    | None => (allocateFloatSignal cfg (signalHistoryOverlap r), detached)
    end in
  packed ← match samples with
           | Power p => if packed_producer samples then packedSearchWindow (p_packed p)
                        else Some (make (Z.shiftr (BlockSize cfg + PreambleLength cfg + 7) 3) 0)
           | _ => Some (make (Z.shiftr (BlockSize cfg + PreambleLength cfg + 7) 3) 0)
           end;
  Some {| registry := with_objects r objs; Cfg := cfg; decisions := allocate_ring cfg (packed_producer samples); samples := samples;
          packed := packed; pkt := make (Z.shiftr (PacketSymbols cfg + 7) 3) 0; sIdxA := [];
          policy := policy; probe := probe; dispatchStatus := status |}.

(** ** Reset *)

Definition clear_list {A} (zero : A) (l : list A) : list A := map (fun _ => zero) l.

Definition clear_ring (cfg : PacketConfig) (r : DecisionRing) : DecisionRing :=
  {| quantizedBacking := clear_list 0 (quantizedBacking r); separate := clear_list 0 <$> separate r; quantizedStart := 0 |}.

Definition clear_history {A} (zero : A) (h : Strips A) : Strips A :=
  {| overlap := overlap h; backing := clear_list zero (backing h); block := blockCount h - 1; blockCount := blockCount h;
     blockStride := blockStride h; blockShift := blockShift h; blockMask := blockMask h; gap := gap h |}.

Definition clear_packed (p : PackedRing) : PackedRing :=
  {| packedBacking := clear_list 0 (packedBacking p); packedLength := packedLength p; packedStart := 0;
     packedLookahead := packedLookahead p |}.

Definition Reset (d : Decoder) : option Decoder :=
  '(samples, packed) ←
    match samples d with
    | Power p =>
        let p := {| p_strips := clear_history 0 (p_strips p); p_run := p_run p; p_runPacked := p_runPacked p;
                    p_packed := clear_packed (p_packed p); nativeBlocks := 0 |} in
        packed ← (if packed_producer (Power p) then packedSearchWindow (p_packed p) else Some (clear_list 0 (packed d)));
        Some (Power p, packed)
    | FloatHistory h => Some (FloatHistory (clear_history fzero h), clear_list 0 (packed d))
    | FloatWindow s => Some (FloatWindow (clear_list fzero s), clear_list 0 (packed d))
    end;
  Some {| registry := registry d; Cfg := Cfg d; decisions := clear_ring (Cfg d) (decisions d); samples := samples;
          packed := packed; pkt := clear_list 0 (pkt d); sIdxA := []; policy := policy d; probe := probe d;
          dispatchStatus := dispatchStatus d |}.

(** [DispatchStatus]: the recorded choice with the count of fused blocks. *)
Definition DispatchStatus (d : Decoder) : DecoderDispatchStatus :=
  let s := dispatchStatus d in
  match samples d with
  | Power p =>
      {| s_Implementation := s_Implementation s; s_FallbackReason := s_FallbackReason s; s_MIDR := s_MIDR s;
         s_Power16Active := s_Power16Active s; s_PolicyAutomatic := s_PolicyAutomatic s; s_ParserCompatible := s_ParserCompatible s;
         s_GeometryCompatible := s_GeometryCompatible s; s_NativeAvailable := s_NativeAvailable s; s_GenuineA72 := s_GenuineA72 s;
         s_ASIMD := s_ASIMD s; s_SelfTestPassed := s_SelfTestPassed s; s_KillSwitch := s_KillSwitch s;
         s_ValidationOnly := s_ValidationOnly s;
         s_NativeBlocks := if s_ValidationOnly s then s_NativeBlocks s else nativeBlocks p;
         s_ValidationBlocks := if s_ValidationOnly s then nativeBlocks p else s_ValidationBlocks s |}
  | _ => s
  end.

(** ** Parsing *)

(** What the parsers see of a decoder when it is the one that they hold. *)
Definition view (d : Decoder) : View :=
  {| v_Cfg := Cfg d;
     v_SignalWindow := fun idx length => match samples d with FloatHistory h => SignalWindow (Cfg d) h idx length | _ => None end;
     v_Power16Window := fun idx length => match samples d with Power p => Power16Window (Cfg d) (p_strips p) idx length | _ => None end |}.

Definition is_index_parser (objects : list S) (i : nat) : bool :=
  match objects !! i with Some p => match parse_indices p with Some _ => true | None => false end | None => false end.

Definition is_bytes_only (objects : list S) (i : nat) : bool :=
  match objects !! i with Some p => match packet_bytes_only p with Some b => b | None => false end | None => false end.

(** One parser of [parseCandidates]; the packets are sliced for the first parser
    that needs them. *)
Definition parse_step (cfg : PacketConfig) (r : DecisionRing) (v : View) (indices : list Z) (includeBits : bool)
    (st : list S * list Z * option (list Data) * list M) (i : nat) : option (list S * list Z * option (list Data) * list M) :=
  let '(objs, buf, packets, messages) := st in
  p ← objs !! i;
  match parse_indices p with
  | Some f =>
      '(p', messages) ← f v indices messages;
      Some (<[i := p']> objs, buf, packets, messages)
  | None =>
      '(buf, pkts) ← match packets with Some l => Some (buf, l) | None => slice_packets cfg r buf indices includeBits end;
      '(p', messages) ← parse v p pkts messages;
      Some (<[i := p']> objs, buf, Some pkts, messages)
  end.

Definition include_bits (objs : list S) (parsers : list nat) : bool :=
  existsb (fun i => negb (is_index_parser objs i) && negb (is_bytes_only objs i)) parsers.

(** The objects, the packet buffer and the messages after serving [parsers]. *)
Definition parseCandidates (cfg : PacketConfig) (r : DecisionRing) (v : View) (indices : list Z) (parsers : list nat)
    (st : list S * list Z * list M) : option (list S * list Z * list M) :=
  let '(objs, buf, messages) := st in
  '(objs, buf, _, messages) ← foldM (parse_step cfg r v indices (include_bits objs parsers)) (objs, buf, None, messages) parsers;
  Some (objs, buf, messages).

(** One turn of the loop over the preamble map. *)
Definition preamble_step (d : Decoder) (v : View) (skip : list Z -> bool) (st : list S * list Z * list Z * list M) (preamble : list Z)
  : option (list S * list Z * list Z * list M) :=
  let '(objs, buf, idx, messages) := st in
  if skip preamble then Some st else
  indices ← searchPacked (BlockSize (Cfg d)) (SymbolLength (Cfg d)) (packed d) (Quantized (Cfg d) (decisions d))
              (quantizedStart (decisions d)) preamble idx;
  '(objs, buf, messages) ← parseCandidates (Cfg d) (decisions d) v indices (default [] (preambles (registry d) !! preamble)) (objs, buf, messages);
  Some (objs, buf, indices, messages).

Definition after_parse (d : Decoder) (st : list S * list Z * list Z * list M) : Decoder * list M :=
  let '(objs, buf, idx, messages) := st in
  ({| registry := with_objects (registry d) objs; Cfg := Cfg d; decisions := decisions d; samples := samples d; packed := packed d;
      pkt := buf; sIdxA := idx; policy := policy d; probe := probe d; dispatchStatus := dispatchStatus d |}, messages).

(** [decodeQuantized]; [order] is the order in which the map is walked, and [see] what
    the parsers see when they follow the pointer that SetDecoder gave them: [view]
    when the decoder is the one they were registered with. *)
Definition decodeQuantized (see : Decoder -> View) (order : list (list Z)) (d : Decoder) : option (Decoder * list M) :=
  let reg := registry d in
  let v := see d in
  let start := (objects reg, pkt d, sIdxA d, []) in
  let ordinary skip st := st ← foldM (preamble_step d v skip) st order; Some (after_parse d st) in
  if negb (len (fixedIDMParsers reg) =? 0) && negb (len (fixedR900Parsers reg) =? 0) then
    match searchAlignedCandidates32DualFixedPlatform (BlockSize (Cfg d)) (packed d) (Z.shiftr (SymbolLength (Cfg d)) 3) with
    | Some (idm, r900) =>
        '(objs, buf, messages) ← parseCandidates (Cfg d) (decisions d) v idm (fixedIDMParsers reg) (objects reg, pkt d, []);
        '(objs, buf, messages) ← parseCandidates (Cfg d) (decisions d) v r900 (fixedR900Parsers reg) (objs, buf, messages);
        if Z.of_nat (size (preambles reg)) =? 2 then Some (after_parse d (objs, buf, idm, messages))
        else ordinary (fun preamble => bool_decide (preamble = fixedIDMPreambleKey reg \/ preamble = fixedR900PreambleKey reg))
                      (objs, buf, idm, messages)
    | None => ordinary (fun _ => false) (objects reg, pkt d, [], [])
    end
  else ordinary (fun _ => false) start.

(** ** Advancing by a block *)

Definition with_block (d : Decoder) (s : Samples) (r : DecisionRing) (pk : list Z) : Decoder :=
  {| registry := registry d; Cfg := Cfg d; decisions := r; samples := s; packed := pk; pkt := pkt d; sIdxA := sIdxA d;
     policy := policy d; probe := probe d; dispatchStatus := dispatchStatus d |}.

(** [appendSignal] and the window it leaves in [Signal]. *)
Definition appendSignal (cfg : PacketConfig) (s : Samples) (input : list Z) : option (Samples * list f64) :=
  match s with
  | FloatWindow signal =>
      rest ← slice (BlockSize cfg) (len signal) signal;
      let signal := gocopy signal rest in
      tail ← slice (SymbolLength cfg) (len signal) signal;
      m ← Execute NewMagLUT input (len tail);
      let signal := take (Z.to_nat (SymbolLength cfg)) signal ++ m in
      Some (FloatWindow signal, signal)
  | FloatHistory h =>
      h ← carry_overlap cfg h;
      m ← Execute NewMagLUT input (blockStride h - overlap h);
      let currentStart := block h * blockStride h in
      h ← write_samples h (currentStart + overlap h) (currentStart + blockStride h) m;
      signal ← filter_window cfg h;
      Some (FloatHistory h, signal)
  | Power _ => None
  end.

(** Putting back the window a fused backend has filled. *)
Definition write_window (cfg : PacketConfig) (h : Strips Z) (window : list Z) : option (Strips Z) :=
  let currentStart := block h * blockStride h in
  write_samples h (currentStart + overlap h - SymbolLength cfg) (currentStart + blockStride h) window.

(** [appendPower16AndFilter]: the state after it and, unless the block went into
    the ring directly, the decisions. *)
Definition appendPower16AndFilter (cfg : PacketConfig) (p : power16State) (r : DecisionRing) (pk input : list Z)
  : option (power16State * DecisionRing * list Z * option (list Z)) :=
  if len input <? BlockSize2 cfg then None else
  input ← slice 0 (BlockSize2 cfg) input;
  h ← carry_overlap cfg (p_strips p);
  window ← filter_window cfg h;
  match p_runPacked p with
  | None =>
      r16 ← p_run p (BlockSize cfg) window input;
      '(dec, window) ← r16;
      h ← write_window cfg h window;
      Some ({| p_strips := h; p_run := p_run p; p_runPacked := p_runPacked p; p_packed := p_packed p;
               nativeBlocks := u64 (nativeBlocks p + 1) |}, r, pk, Some dec)
  | Some runPacked =>
      let direct := ownsQuantizedRing cfg r in
      '(output, _, _) ← nextPackedOutput (p_packed p) cfg;
      r16 ← runPacked (BlockSize cfg) (len output) window input;
      '(dec, bytes, window) ← r16;
      h ← write_window cfg h window;
      r ← (if direct then direct_write cfg r dec else Some r);
      ring ← packed_write (p_packed p) cfg bytes;
      pk ← packedSearchWindow ring;
      Some ({| p_strips := h; p_run := p_run p; p_runPacked := p_runPacked p; p_packed := ring;
               nativeBlocks := u64 (nativeBlocks p + 1) |}, r, pk, if direct then None else Some dec)
  end.

(** [decodeFiltered] *)
Definition decodeFiltered (see : Decoder -> View) (order : list (list Z)) (d : Decoder) (block : list Z) : option (Decoder * list M) :=
  r ← appendQuantized (Cfg d) (decisions d) block;
  pk ← (if packed_producer (samples d) then Some (packed d)
        else packQuantizedRing (len (packed d)) (Quantized (Cfg d) r) (quantizedStart r));
  decodeQuantized see order (with_block d (samples d) r pk).

(** [Decoder.Decode] for parsers that see [see]. *)
Definition Decode_seeing (see : Decoder -> View) (order : list (list Z)) (d : Decoder) (input : list Z) : option (Decoder * list M) :=
  match samples d with
  | Power p =>
      '(p, r, pk, block) ← appendPower16AndFilter (Cfg d) p (decisions d) (packed d) input;
      let d := with_block d (Power p) r pk in
      match block with
      | None => decodeQuantized see order d
      | Some block => decodeFiltered see order d block
      end
  | _ =>
      '(s, signal) ← appendSignal (Cfg d) (samples d) input;
      block ← Filter (ChipLength (Cfg d)) signal (BlockSize (Cfg d));
      decodeFiltered see order (with_block d s (decisions d) (packed d)) block
  end.

(** [Decoder.Decode], the parsers holding this decoder. *)
Definition Decode : list (list Z) -> Decoder -> list Z -> option (Decoder * list M) := Decode_seeing view.
End Decoder.
Arguments Decoder S : clear implicits.

(** ** Slicing samples the window *)

(** Every [symbolLength]-th decision from position [q]. *)
Definition sampled (w : list Z) (symbolLength q : Z) (n : nat) : list Z :=
  map (fun i => default 0 (index w (q + symbolLength * Z.of_nat i))) (seq 0 n).

Lemma sampled_S w symLen q n : sampled w symLen q (S n) = default 0 (index w q) :: sampled w symLen (q + symLen) n.
Proof.
  unfold sampled. cbn [seq map]. rewrite <- seq_shift, map_map. f_equal.
  - do 2 f_equal. lia.
  - apply map_ext. intros i. do 2 f_equal. lia.
Qed.

Lemma sampled_app w symLen q n m : sampled w symLen q (n + m) = sampled w symLen q n ++ sampled w symLen (q + symLen * Z.of_nat n) m.
Proof.
  revert q. induction n as [|n IH]; intros q.
  - cbn [Nat.add]. change (sampled w symLen q 0) with (@nil Z). cbn [app]. f_equal. lia.
  - cbn [Nat.add]. rewrite !sampled_S, IH. cbn [app]. do 3 f_equal. lia.
Qed.

Lemma length_sampled w symLen q n : length (sampled w symLen q n) = n.
Proof. unfold sampled. by rewrite length_map, length_seq. Qed.

Lemma sampled_bits w symLen q n : Forall is_bit w -> Forall is_bit (sampled w symLen q n).
Proof.
  intros Hw. apply Forall_fmap, Forall_true. intros i. unfold compose. destruct (index w _) eqn:E; cbn.
  - apply index_Some in E as [_ E]. by eapply Forall_lookup_1.
  - split; [discriminate|reflexivity].
Qed.

Lemma shift_in v b : is_byte v -> is_bit b -> Z.lor (u8 (Z.shiftl v 1)) b = (v * 2 + b) mod 2 ^ 8.
Proof.
  intros Hv Hb. rewrite Z.shiftl_mul_pow2 by lia. unfold u8, wrap_u. change (2 ^ 1) with 2.
  assert (v * 2 mod 2 ^ 8 = Z.shiftl (v mod 2 ^ 7) 1) as ->.
  { rewrite Z.shiftl_mul_pow2 by lia. change (2 ^ 8) with (2 ^ 7 * 2). change (2 ^ 1) with 2. by rewrite Z.mul_mod_distr_r by lia. }
  rewrite (lor_disjoint_add _ _ 1) by (lia || done). 
  pose proof (Z.div_mod v (2 ^ 7)). pose proof (Z.mod_pos_bound v (2 ^ 7)).
  apply (Z.mod_unique _ _ (v / 2 ^ 7)); [|uints; lia]. left. uints. lia.
Qed.

Section Slice.
Context (cfg : PacketConfig) (r : DecisionRing) (Hring : ring_ok cfg r) (Hgeo : geometry cfg)
  (Hsym : 0 < SymbolLength cfg) (Hbits : Forall is_bit (window cfg r)).

(** The physical place of window position [j]. *)
Definition place (j : Z) : Z :=
  if BufferLength cfg <=? quantizedStart r + j then quantizedStart r + j - BufferLength cfg else quantizedStart r + j.

Lemma index_place j : 0 <= j < BufferLength cfg ->
  exists b, index (Quantized cfg r) (place j) = Some b /\ index (window cfg r) j = Some b /\ is_bit b.
Proof using Hring Hgeo Hbits.
  intros Hj. pose proof (quantizedAt_window cfg Hgeo r j Hring Hj) as E. unfold quantizedAt in E. destruct Hring as [Hl Hs].
  rewrite Hl in E. unfold wrap_at in E. rewrite (Z.add_comm j) in E. fold (place j) in E.
  destruct (index_lt (window cfg r) j) as [b Hb].
  { unfold window, len in *. rewrite length_ring. lia. }
  exists b. rewrite E. split; [done|]. split; [done|]. apply index_Some in Hb as [_ Hb]. by eapply Forall_lookup_1.
Qed.

Lemma place_next j : 0 <= j -> j + SymbolLength cfg <= BufferLength cfg ->
  wrap_at (len (Quantized cfg r)) (place j + SymbolLength cfg) = place (j + SymbolLength cfg).
Proof using Hring Hsym.
  intros H1 H2. destruct Hring as [-> Hs]. unfold wrap_at, place.
  repeat match goal with |- context [?a <=? ?b] => destruct (Z.leb_spec a b) end; lia.
Qed.

Lemma slice_bits_spec {A} (steps : list A) value j (f : A -> Z) :
  is_byte value -> 0 <= j -> j + SymbolLength cfg * len steps <= BufferLength cfg ->
  foldM (slice_bit (SymbolLength cfg) (Quantized cfg r)) (value, place j) (map f steps) =
  Some ((value * 2 ^ len steps + of_bits (sampled (window cfg r) (SymbolLength cfg) j (length steps))) mod 2 ^ 8,
        place (j + SymbolLength cfg * len steps)).
Proof using Hring Hgeo Hsym Hbits.
  revert value j. induction steps as [|x steps IH]; intros value j Hv Hj Hl.
  { cbn [map foldM length]. unfold sampled, of_bits, of_digits, len. cbn. rewrite Z.mul_1_r, Z.add_0_r, Z.mul_0_r, Z.add_0_r.
    f_equal. f_equal. symmetry. apply Z.mod_small. exact Hv. }
  rewrite len_cons in *. pose proof (len_nonneg steps). cbn [map foldM slice_bit length].
  destruct (index_place j ltac:(nia)) as (b & -> & Hw & Hb). cbn [mbind option_bind].
  rewrite place_next, shift_in, IH by (try apply wrap_u_range; (done || nia)). rewrite sampled_S, Hw. cbn [default].
  f_equal. f_equal; [|f_equal; lia].
  unfold of_bits at 2. rewrite of_digits_cons by lia. fold (of_bits (sampled (window cfg r) (SymbolLength cfg) (j + SymbolLength cfg) (length steps))).
  unfold len at 3. rewrite length_sampled. fold (len steps). rewrite Z.mul_1_l. unfold id.
  rewrite <- Z.add_mod_idemp_l, Z.mul_mod_idemp_l, Z.add_mod_idemp_l by lia. f_equal.
  rewrite Z.add_1_r, Z.pow_succ_r by lia. ring.
Qed.

(** Byte [k] of the buffer after slicing a packet at [q]. *)
Definition sliced_byte (q : Z) (old : Z) (k : nat) : Z :=
  let m := Z.min 8 (PacketSymbols cfg - 8 * Z.of_nat k) in
  (old * 2 ^ m + of_bits (sampled (window cfg r) (SymbolLength cfg) (q + SymbolLength cfg * (8 * Z.of_nat k)) (Z.to_nat m))) mod 2 ^ 8.

Lemma slice_bytes_spec q done_ rest :
  Forall is_byte rest -> 0 <= q -> 8 * (len done_ + len rest - 1) < PacketSymbols cfg -> 0 <= PacketSymbols cfg ->
  q + SymbolLength cfg * PacketSymbols cfg <= BufferLength cfg -> 8 * len done_ <= PacketSymbols cfg ->
  exists qp rem, foldM (slice_byte (SymbolLength cfg) (Quantized cfg r))
    (done_ ++ rest, place (q + SymbolLength cfg * (8 * len done_)), PacketSymbols cfg - 8 * len done_)
    (map Z.of_nat (seq (length done_) (length rest))) =
  Some (done_ ++ imap (fun i old => sliced_byte q old (length done_ + i)) rest, qp, rem).
Proof using Hring Hgeo Hsym Hbits.
  revert done_. induction rest as [|old rest IH]; intros done_ Hb Hq Hlen HPS Hfit Hdone.
  { eexists _, _. reflexivity. }
  apply Forall_cons in Hb as [Ho Hb]. rewrite len_cons in Hlen. pose proof (len_nonneg done_). pose proof (len_nonneg rest).
  cbn [length seq map foldM slice_byte imap].
  set (m := if PacketSymbols cfg - 8 * len done_ <? 8 then PacketSymbols cfg - 8 * len done_ else 8).
  assert (m = Z.min 8 (PacketSymbols cfg - 8 * len done_)) as Em by (unfold m; destruct (Z.ltb_spec (PacketSymbols cfg - 8 * len done_) 8); lia).
  rewrite index_nat. rewrite lookup_app_r, Nat.sub_diag by lia. cbn [lookup list_lookup mbind option_bind].
  assert (seqZ 0 m = map (fun x => x) (seqZ 0 m)) as Eid by (by rewrite map_id).
  assert (len (seqZ 0 m) = m) as Elm by (unfold len; rewrite length_seqZ; lia).
  rewrite Eid, slice_bits_spec by (rewrite ?Elm; (done || nia)). rewrite Elm. cbn [mbind option_bind].
  unfold store. rewrite len_app, len_cons, (proj2 (Z.leb_le 0 _)), (proj2 (Z.ltb_lt _ _)) by (unfold len; lia). cbn [andb mbind option_bind].
  rewrite Nat2Z.id, insert_app_r_alt, Nat.sub_diag by lia. cbn [insert list_insert]. rewrite length_seqZ.
  set (new := (_ mod 2 ^ 8)).
  assert (new = sliced_byte q old (length done_ + 0)) as En.
  { unfold new, sliced_byte. rewrite Nat.add_0_r. fold (len done_). by rewrite <- Em. }
  destruct (decide (rest = [])) as [->|Hne].
  { cbn [length seq map foldM imap]. rewrite En. eexists _, _. reflexivity. }
  assert (0 < len rest) as Hr by (destruct rest; [done|rewrite len_cons; pose proof (len_nonneg rest); lia]).
  assert (m = 8) as Em8 by lia. rewrite Em8 in *.
  destruct (IH (done_ ++ [new])) as (qp & rem & E); [done|done|rewrite len_app, len_cons; change (len (@nil Z)) with 0; lia|done|done|rewrite len_app, len_cons; change (len (@nil Z)) with 0; lia|].
  exists qp, rem. rewrite len_app, len_cons in E. change (len (@nil Z)) with 0 in E. rewrite length_app, <- app_assoc in E. cbn [length app] in E.
  rewrite Nat.add_1_r in E.
  replace (q + SymbolLength cfg * (8 * (len done_ + (0 + 1)))) with (q + SymbolLength cfg * (8 * len done_) + SymbolLength cfg * 8) in E by ring.
  replace (PacketSymbols cfg - 8 * (len done_ + (0 + 1))) with (PacketSymbols cfg - 8 * len done_ - 8) in E by ring.
  rewrite E. rewrite <- app_assoc, En. cbn [app]. do 5 f_equal. apply imap_ext. intros i x _. cbn. f_equal. lia.
Qed.
End Slice.

Lemma imap_seq {A} (g : nat -> Z) (l : list A) k : imap (fun i _ => g (k + i)%nat) l = map g (seq k (length l)).
Proof.
  revert k. induction l as [|x l IH]; intros k; [done|]. cbn [imap length seq map]. rewrite Nat.add_0_r. f_equal.
  rewrite <- IH. apply imap_ext. intros i y _. cbn. f_equal. lia.
Qed.

Lemma eight_bits l : length l = 8%nat -> Forall is_bit l -> byte_bits (of_bits l) = l.
Proof.
  intros Hl Hb. pose proof (of_digits_range 1 l ltac:(lia) Hb) as R. unfold len in R. rewrite Hl in R.
  apply (of_digits_inj 1); [lia|apply byte_bits_are_bits|done|by rewrite Hl|]. by apply of_bits_byte.
Qed.

Lemma sampled_bytes w symLen q n : Forall is_bit w ->
  bytes_bits (map (fun k => of_bits (sampled w symLen (q + symLen * (8 * Z.of_nat k)) 8)) (seq 0 n)) = sampled w symLen q (8 * n).
Proof.
  intros Hw. induction n as [|n IH]; [done|]. rewrite seq_S, map_app, bytes_bits_app, IH. cbn [map Nat.add].
  replace (8 * S n)%nat with (8 * n + 8)%nat by lia. rewrite sampled_app. f_equal.
  unfold bytes_bits. cbn [map concat]. rewrite app_nil_r, eight_bits by (apply length_sampled || by apply sampled_bits).
  f_equal. lia.
Qed.

(** How many bits of byte [k] of the packet buffer are the packet's. *)
Definition live_bits (cfg : PacketConfig) (k : nat) : Z := Z.min 8 (PacketSymbols cfg - 8 * Z.of_nat k).

(** The packet at window position [q]; the bits in front of a last byte that is not
    filled are zero. *)
Definition packet_bytes (cfg : PacketConfig) (w : list Z) (q : Z) : list Z :=
  map (fun k => of_bits (sampled w (SymbolLength cfg) (q + SymbolLength cfg * (8 * Z.of_nat k)) (Z.to_nat (live_bits cfg k))))
    (seq 0 (Z.to_nat (Z.shiftr (PacketSymbols cfg + 7) 3))).

Definition packet_at (cfg : PacketConfig) (w : list Z) (includeBits : bool) (q : Z) : Data :=
  let bytes := packet_bytes cfg w q in
  {| Idx := q; Bits := Bits (newData bytes includeBits); Bytes := bytes |}.

(** Two packets that differ at most in front of a last byte that is not filled: there
    the buffer keeps what the packet before has left. *)
Record same_packet (cfg : PacketConfig) (d d' : Data) : Prop := {
  sp_idx : Idx d' = Idx d;
  sp_bits : exists includeBits, Bits d = Bits (newData (Bytes d) includeBits) /\ Bits d' = Bits (newData (Bytes d') includeBits);
  sp_length : length (Bytes d') = length (Bytes d) /\ length (Bytes d) = Z.to_nat (Z.shiftr (PacketSymbols cfg + 7) 3);
  sp_bytes : Forall is_byte (Bytes d) /\ Forall is_byte (Bytes d');
  sp_live : forall k x x', Bytes d !! k = Some x -> Bytes d' !! k = Some x' -> x' mod 2 ^ live_bits cfg k = x mod 2 ^ live_bits cfg k }.

(** Without such a byte they are the same. *)
Lemma same_packet_whole cfg d d' : PacketSymbols cfg mod 8 = 0 -> same_packet cfg d d' -> d' = d.
Proof.
  intros H8 [E1 (inc & E2 & E3) [E4 E5] [E6 E7] E8]. destruct d as [i bs b], d' as [i' bs' b']. cbn in *. subst i' bs bs'.
  assert (b' = b) as ->; [|done]. apply list_eq. intros k.
  destruct (b !! k) as [x|] eqn:Ex; [|apply lookup_ge_None in Ex; apply lookup_ge_None; lia].
  destruct (b' !! k) as [x'|] eqn:Ex'; [|apply lookup_ge_None in Ex'; apply lookup_lt_Some in Ex; lia]. f_equal. specialize (E8 k x x' Ex Ex').
  apply Z.mod_divide in H8 as [c Hc]; [|lia]. apply lookup_lt_Some in Ex as Hk. rewrite E5, Z.shiftr_div_pow2 in Hk by lia. change (2 ^ 3) with 8 in Hk.
  assert (live_bits cfg k = 8) as Hl. { unfold live_bits. pose proof (Z.mul_div_le (PacketSymbols cfg + 7) 8 ltac:(lia)). lia. }
  rewrite Hl in E8. pose proof (Forall_lookup_1 _ _ _ _ E6 Ex). pose proof (Forall_lookup_1 _ _ _ _ E7 Ex').
  by rewrite !Z.mod_small in E8 by done.
Qed.

(** What the geometry gives the slicer. *)
Record slice_geometry (cfg : PacketConfig) (npkt : nat) : Prop := {
  sl_geometry : geometry cfg;
  sl_symbol : 0 < SymbolLength cfg;
  sl_bytes : 0 <= PacketSymbols cfg /\ 8 * (Z.of_nat npkt - 1) < PacketSymbols cfg <= 8 * Z.of_nat npkt;
  sl_packet : PacketLength cfg = PacketSymbols cfg * SymbolLength cfg }.

Lemma slice_geometry_count cfg npkt : slice_geometry cfg npkt -> Z.to_nat (Z.shiftr (PacketSymbols cfg + 7) 3) = npkt.
Proof.
  intros []. rewrite Z.shiftr_div_pow2 by lia. change (2 ^ 3) with 8.
  pose proof (Z.div_mod (PacketSymbols cfg + 7) 8 ltac:(lia)). pose proof (Z.mod_pos_bound (PacketSymbols cfg + 7) 8 ltac:(lia)). lia.
Qed.

Lemma sampled_byte w symLen q n : Forall is_bit w -> (n <= 8)%nat -> 0 <= of_bits (sampled w symLen q n) < 2 ^ Z.of_nat n.
Proof.
  intros Hw _. pose proof (of_digits_range 1 (sampled w symLen q n) ltac:(lia) ltac:(by apply sampled_bits)) as R. unfold len in R. rewrite length_sampled in R.
  by rewrite Z.mul_1_l in R.
Qed.

Lemma slice_index_spec cfg r npkt includeBits buf pkts q :
  slice_geometry cfg npkt -> ring_ok cfg r -> Forall is_bit (window cfg r) -> length buf = npkt -> Forall is_byte buf -> 0 <= q ->
  exists buf' new, slice_index cfg r includeBits (buf, pkts) q = Some (buf', pkts ++ new) /\
    Forall2 (same_packet cfg) (if BlockSize cfg <? q then [] else [packet_at cfg (window cfg r) includeBits q]) new /\
    length buf' = npkt /\ Forall is_byte buf'.
Proof.
  intros Hg Hr Hw Hn Hb Hq. pose proof (slice_geometry_count cfg npkt Hg) as Hcount. destruct Hg as [G H1 [HPS H2] H3]. unfold slice_index.
  destruct (Z.ltb_spec (BlockSize cfg) q) as [|Hle]; [exists buf, []; by rewrite app_nil_r|].
  assert (wrap_at (len (Quantized cfg r)) (quantizedStart r + q) = place cfg r (q + SymbolLength cfg * (8 * len (@nil Z)))) as ->.
  { change (len (@nil Z)) with 0. rewrite ?Z.mul_0_r, Z.add_0_r. unfold wrap_at, place. by rewrite (ring_len _ _ Hr). }
  assert (PacketSymbols cfg = PacketSymbols cfg - 8 * len (@nil Z)) as E by (unfold len; cbn [length]; lia).
  destruct (slice_bytes_spec cfg r Hr G H1 Hw q [] buf Hb Hq) as (qp & rem & Es);
    try (unfold len; cbn [length]; pose proof (geo_buffer _ G); nia).
  rewrite <- E in Es. rewrite (eq_refl : len buf = Z.of_nat (length buf)), seqZ_nat. cbn [app length] in Es. rewrite Es. cbn [mbind option_bind].
  set (buf' := imap _ buf). assert (length buf' = npkt) as Hn' by (unfold buf'; by rewrite length_imap).
  assert (Forall is_byte buf') as Hb'.
  { unfold buf'. apply Forall_lookup_2. intros i x Hi. rewrite list_lookup_imap in Hi. apply fmap_Some in Hi as (old & _ & ->). unfold sliced_byte. by apply Z.mod_pos_bound. }
  assert (forall k, (k < npkt)%nat -> 0 < live_bits cfg k <= 8) as Hlive by (intros k Hk; unfold live_bits; lia).
  eexists buf', [_]. split; [reflexivity|]. split; [|done]. constructor; [|constructor]. constructor.
  - done.
  - exists includeBits. split; [done|]. cbn [Idx Bits Bytes packet_at]. by rewrite ?newData_Bytes.
  - cbn [Idx Bits Bytes packet_at]. rewrite ?newData_Bytes, Hn', Hcount. unfold packet_bytes. by rewrite length_map, length_seq, Hcount.
  - cbn [Idx Bits Bytes packet_at]. rewrite ?newData_Bytes. split; [|done]. unfold packet_bytes. apply Forall_fmap, Forall_forall. intros k Hk%elem_of_seq. unfold compose.
    rewrite Hcount in Hk. specialize (Hlive k ltac:(lia)). pose proof (sampled_byte (window cfg r) (SymbolLength cfg) (q + SymbolLength cfg * (8 * Z.of_nat k)) (Z.to_nat (live_bits cfg k)) Hw ltac:(lia)) as R.
    assert (2 ^ Z.of_nat (Z.to_nat (live_bits cfg k)) <= 2 ^ 8) by (apply Z.pow_le_mono_r; lia). uints. lia.
  - cbn [Idx Bits Bytes packet_at]. rewrite ?newData_Bytes. intros k x x' Hx Hx'. unfold buf' in Hx'. rewrite list_lookup_imap in Hx'. apply fmap_Some in Hx' as (old & Hold & ->).
    apply lookup_lt_Some in Hold as Hk. unfold packet_bytes in Hx. change (map ?f ?l) with (f <$> l) in Hx. rewrite list_lookup_fmap, lookup_seq_lt in Hx by lia. cbn in Hx. injection Hx as <-.
    cbn [Nat.add]. unfold sliced_byte. fold (live_bits cfg k). specialize (Hlive k ltac:(lia)). set (m := live_bits cfg k) in *.
    assert (0 < 2 ^ m) by (apply Z.pow_pos_nonneg; lia). rewrite Z.mod_mod_divide; [by rewrite Z.add_comm, Z.mod_add by lia|].
    exists (2 ^ (8 - m)). rewrite <- Z.pow_add_r by lia. f_equal. lia.
Qed.

Lemma slice_packets_spec cfg r npkt includeBits buf indices :
  slice_geometry cfg npkt -> ring_ok cfg r -> Forall is_bit (window cfg r) -> length buf = npkt -> Forall is_byte buf ->
  Forall (fun q => 0 <= q) indices ->
  exists buf' new, slice_packets cfg r buf indices includeBits = Some (buf', new) /\
    Forall2 (same_packet cfg) (map (packet_at cfg (window cfg r) includeBits) (filter (fun q => q <= BlockSize cfg) indices)) new /\
    length buf' = npkt /\ Forall is_byte buf'.
Proof.
  intros G Hr Hw Hn Hb Hi. unfold slice_packets.
  assert (forall pkts, exists buf' new, foldM (slice_index cfg r includeBits) (buf, pkts) indices = Some (buf', pkts ++ new) /\
    Forall2 (same_packet cfg) (map (packet_at cfg (window cfg r) includeBits) (filter (fun q => q <= BlockSize cfg) indices)) new /\
    length buf' = npkt /\ Forall is_byte buf') as H; [|apply (H [])].
  revert buf Hn Hb. induction Hi as [|q indices Hq Hi IH]; intros buf Hn Hb pkts; [exists buf, []; by rewrite app_nil_r|].
  cbn [foldM]. destruct (slice_index_spec cfg r npkt includeBits buf pkts q G Hr Hw Hn Hb Hq) as (buf1 & new1 & -> & Hs1 & Hn1 & Hb1).
  destruct (IH buf1 Hn1 Hb1 (pkts ++ new1)) as (buf' & new & -> & Hs & Hn' & Hb').
  exists buf', (new1 ++ new). rewrite <- app_assoc. split; [done|]. split; [|done]. rewrite filter_cons.
  destruct (Z.ltb_spec (BlockSize cfg) q), (decide (q <= BlockSize cfg)); try lia.
  - by apply Forall2_nil_inv_l in Hs1 as ->.
  - cbn [map]. change (?x :: ?l) with ([x] ++ l) at 1. by apply Forall2_app.
Qed.

(** ** The abstract decoder

    Its state is the window of decisions and the parser objects; the packets of a
    preamble are the samples at its matches. *)

Section Spec.
Context {S M : Type} `{ParserOps S M}.

Definition spec_packets (cfg : PacketConfig) (w : list Z) (includeBits : bool) (indices : list Z) : list Data :=
  map (packet_at cfg w includeBits) (filter (fun q => q <= BlockSize cfg) indices).

Definition spec_step (v : View) (w : list Z) (indices : list Z) (includeBits : bool) (st : list S * list M) (i : nat)
  : option (list S * list M) :=
  let '(objs, messages) := st in
  p ← objs !! i;
  '(p', messages) ← match parse_indices p with
                    | Some f => f v indices messages
                    | None => parse v p (spec_packets (v_Cfg v) w includeBits indices) messages
                    end;
  Some (<[i := p']> objs, messages).

(** Serving one preamble with its parsers, in registration order. *)
Definition spec_preamble (v : View) (w : list Z) (preambles : gmap (list Z) (list nat)) (st : list S * list M) (preamble : list Z)
  : option (list S * list M) :=
  let parsers := default [] (preambles !! preamble) in
  foldM (spec_step v w (matches w (SymbolLength (v_Cfg v)) (BlockSize (v_Cfg v)) preamble) (include_bits st.1 parsers)) st parsers.

Definition spec_decode (v : View) (w : list Z) (preambles : gmap (list Z) (list nat)) (order : list (list Z)) (objs : list S)
  : option (list S * list M) :=
  foldM (spec_preamble v w preambles) (objs, []) order.
End Spec.

(** A map with two keys has no others. *)
Lemma no_others {A B} `{Countable A} (order : list A) (ki kr : A) (m : gmap A B) (skip : A -> bool) :
  order ≡ₚ elements (dom m) -> ki <> kr -> is_Some (m !! ki) -> is_Some (m !! kr) -> Z.of_nat (size m) = 2 ->
  (forall key, skip key = false <-> key <> ki /\ key <> kr) -> filter (fun key => skip key = false) order = [].
Proof.
  intros Hord Hne Hi Hr Hs Hskip.
  destruct (filter _ order) as [|x l] eqn:E; [done|]. exfalso.
  assert (x ∈ filter (fun key => skip key = false) order) as Hx by (rewrite E; apply list_elem_of_here).
  apply list_elem_of_filter in Hx as [Hx Hin]. apply Hskip in Hx.
  assert ({[ki; kr; x]} ⊆ dom m) as Hsub.
  { rewrite Hord, elem_of_elements in Hin. intros y. rewrite !elem_of_union, !elem_of_singleton, elem_of_dom.
    intros [[->| ->]| ->]; [done|done|]. by apply elem_of_dom. }
  apply subseteq_size in Hsub. rewrite !size_union, !size_singleton, size_dom in Hsub by set_solver. lia.
Qed.

Section Refinement.
Context {S M : Type} `{ParserOps S M} `{SearchPlatform} `{DualPlatform} `{MagnitudePlatform} `{ManchesterPlatform}.

(** The dual search knows the registry's two fixed families. *)
Record registry_ok (r : Registry S) : Prop := {
  ro_idm : fixedIDMParsers r <> [] -> fixedIDMPreambleKey r = preamble_bytes fixedIDMPreambleASCII /\
    preambles r !! preamble_bytes fixedIDMPreambleASCII = Some (fixedIDMParsers r);
  ro_r900 : fixedR900Parsers r <> [] -> fixedR900PreambleKey r = preamble_bytes fixedR900PreambleASCII /\
    preambles r !! preamble_bytes fixedR900PreambleASCII = Some (fixedR900Parsers r);
  ro_keys : forall key, is_Some (preambles r !! key) -> Forall is_bit key /\ len key <= PreambleSymbols (r_Cfg r) }.

(** The dual search reaches the whole block. *)
Definition dual_fits (r : Registry S) (cfg : PacketConfig) : Prop :=
  fixedIDMParsers r <> [] -> fixedR900Parsers r <> [] -> SymbolLength cfg = 144 -> BlockSize cfg <= 8192.

(** A set of parser states that calls do not leave, and that read no bit of a packet
    that is not the packet's. *)
Record closed_domain (cfg : PacketConfig) (P : S -> Prop) : Prop := {
  cd_ignores : forall v p pkts pkts' messages, P p -> Forall2 (same_packet cfg) pkts pkts' ->
    parse v p pkts' messages = parse (S := S) (M := M) v p pkts messages;
  cd_parse : forall v p pkts messages p' messages', P p -> parse v p pkts messages = Some (p', messages') -> P p';
  cd_indices : forall v p f indices messages p' messages', P p -> parse_indices (S := S) (M := M) p = Some f ->
    f v indices messages = Some (p', messages') -> P p';
  cd_attach : forall p f b, P p -> set_power16_history p = Some f -> P (f b) }.

Definition padding_ignored (cfg : PacketConfig) (objs : list S) : Prop := exists P, closed_domain cfg P /\ Forall P objs.

Lemma padding_none cfg objs : PacketSymbols cfg mod 8 = 0 -> padding_ignored cfg objs.
Proof.
  intros H8. exists (fun _ => True). split; [|by apply Forall_true]. constructor; try done.
  intros v p pkts pkts' messages _ Hs. assert (pkts' = pkts) as ->; [|done]. induction Hs as [|d d' l l' Hd Hl IH]; [done|].
  f_equal; [by apply (same_packet_whole cfg)|done].
Qed.

Lemma padding_set_consumers cfg attach objs l : padding_ignored cfg objs -> padding_ignored cfg (set_consumers attach objs l).
Proof.
  intros (P & HP & Ho). exists P. split; [done|]. revert objs Ho. unfold set_consumers. induction l as [|i l IH]; intros objs Ho; [done|].
  cbn [foldl]. apply IH. destruct (objs !! i) as [p|] eqn:E; [|done]. destruct (set_power16_history p) as [f|] eqn:Ef; [|done].
  apply Forall_insert; [done|]. eapply cd_attach; [exact HP| |exact Ef]. by eapply Forall_lookup_1.
Qed.

(** A decoder over the window [w] that is ready for the common search tail. *)
Record decoder_ok (d : Decoder S) (w : list Z) : Prop := {
  d_bytes : byte_geometry (Cfg d);
  d_registry : registry_ok (registry d);
  d_dual : dual_fits (registry d) (Cfg d);
  d_slice : slice_geometry (Cfg d) (length (pkt d));
  d_padding : padding_ignored (Cfg d) (objects (registry d));
  d_symbol8 : SymbolLength (Cfg d) mod 8 = 0;
  d_preamble : PreambleLength (Cfg d) = PreambleSymbols (r_Cfg (registry d)) * SymbolLength (Cfg d);
  d_ring : ring_ok (Cfg d) (decisions d);
  d_aligned : quantizedStart (decisions d) mod 8 = 0;
  d_window : window (Cfg d) (decisions d) = w;
  d_bits : Forall is_bit w;
  d_pkt : Forall is_byte (pkt d);
  d_packed_len : len (packed d) = (BlockSize (Cfg d) + PreambleLength (Cfg d)) / 8;
  d_packed : Forall is_byte (packed d) /\ bytes_bits (packed d) = take (8 * length (packed d)) w }.

Lemma matches_nonneg bits symLen n preamble : Forall (fun q => 0 <= q) (matches bits symLen n preamble).
Proof. apply Forall_forall. intros q [_ Hq%elem_of_seqZ]%list_elem_of_filter. lia. Qed.

Lemma view_Cfg (d : Decoder S) : v_Cfg (view d) = Cfg d.
Proof. done. Qed.

(** The packet buffer and the parsers between two preambles. *)
Definition scratch_ok (d : Decoder S) (objs : list S) (buf : list Z) : Prop :=
  length buf = length (pkt d) /\ Forall is_byte buf /\ padding_ignored (Cfg d) objs.

(** The lazily sliced packets are the packets of the window. *)
Lemma parseCandidates_spec d v w indices parsers objs buf messages :
  v_Cfg v = Cfg d -> decoder_ok d w -> scratch_ok d objs buf -> Forall (fun q => 0 <= q) indices ->
  match parseCandidates (Cfg d) (decisions d) v indices parsers (objs, buf, messages) with
  | Some (objs', buf', messages') =>
      foldM (spec_step v w indices (include_bits objs parsers)) (objs, messages) parsers = Some (objs', messages') /\
      scratch_ok d objs' buf'
  | None => foldM (spec_step v w indices (include_bits objs parsers)) (objs, messages) parsers = None
  end.
Proof.
  intros Hv [] (Hlen & Hbuf & P & HP & Hobjs) Hi. unfold parseCandidates, scratch_ok. generalize (include_bits objs parsers). intros inc.
  assert (forall pk objs buf messages, (pk = None \/ exists l, pk = Some l /\ Forall2 (same_packet (Cfg d)) (spec_packets (Cfg d) w inc indices) l) ->
    length buf = length (pkt d) -> Forall is_byte buf -> Forall P objs ->
    match foldM (parse_step (Cfg d) (decisions d) v indices inc) (objs, buf, pk, messages) parsers with
    | Some (objs', buf', _, messages') =>
        foldM (spec_step v w indices inc) (objs, messages) parsers = Some (objs', messages') /\
        length buf' = length (pkt d) /\ Forall is_byte buf' /\ padding_ignored (Cfg d) objs'
    | None => foldM (spec_step v w indices inc) (objs, messages) parsers = None
    end) as Hloop.
  { clear objs buf messages Hlen Hbuf Hobjs. induction parsers as [|i parsers IH]; intros pk objs buf messages Hpk Hlen Hbuf Hobjs; [by repeat split; try done; exists P|].
    cbn [foldM parse_step spec_step]. destruct (objs !! i) as [p|] eqn:Ei; [|done]. cbn [mbind option_bind].
    assert (P p) as Hp by by eapply Forall_lookup_1. destruct (parse_indices p) as [f|] eqn:Ef.
    - destruct (f v indices messages) as [[p' ms]|] eqn:E; [|done]. cbn [mbind option_bind]. apply IH; try done.
      apply Forall_insert; [done|]. by eapply (cd_indices _ _ HP).
    - assert (exists buf1 l, (match pk with Some l => Some (buf, l) | None => slice_packets (Cfg d) (decisions d) buf indices inc end) =
        Some (buf1, l) /\ Forall2 (same_packet (Cfg d)) (spec_packets (Cfg d) w inc indices) l /\ length buf1 = length (pkt d) /\ Forall is_byte buf1)
        as (buf1 & l & -> & Hsame & Hl1 & Hb1).
      { destruct Hpk as [->|(l & -> & Hsame)]; [|by exists buf, l]. unfold spec_packets. rewrite <- d_window0.
        apply slice_packets_spec; try done. by rewrite d_window0. }
      cbn [mbind option_bind]. rewrite Hv, (cd_ignores _ _ HP _ _ _ _ _ Hp Hsame). destruct (parse v p _ messages) as [[p' ms]|] eqn:E; [|done].
      cbn [mbind option_bind]. apply IH; [right; by exists l|done|done|]. apply Forall_insert; [done|]. by eapply (cd_parse _ _ HP). }
  specialize (Hloop None objs buf messages (or_introl eq_refl) Hlen Hbuf Hobjs).
  destruct (foldM (parse_step _ _ _ _ _) _ _) as [[[[objs' buf'] pk'] ms']|]; exact Hloop.
Qed.

Lemma search_numbers d w key :
  decoder_ok d w -> len key <= PreambleSymbols (r_Cfg (registry d)) ->
  exists (nb : nat) (sb : Z), BlockSize (Cfg d) = 8 * Z.of_nat nb /\ SymbolLength (Cfg d) = 8 * sb /\ 0 < sb /\
    Z.of_nat nb + sb * (len key - 1) <= len (packed d) /\
    matches (bytes_bits (packed d)) (SymbolLength (Cfg d)) (BlockSize (Cfg d)) key = matches w (SymbolLength (Cfg d)) (BlockSize (Cfg d)) key.
Proof.
  intros [] Hk. pose proof (sl_symbol _ _ d_slice0) as Hs.
  destruct d_bytes0 as [[G1 G2 G3] HB HP [HP1 HP2]].
  apply Z.mod_divide in HB as [b Hb], d_symbol9 as [sb Hsb]; [|lia..].
  assert (len (packed d) = b + PreambleSymbols (r_Cfg (registry d)) * sb) as El.
  { rewrite d_packed_len0, d_preamble0, Hb, Hsb. rewrite Z.mul_assoc, <- Z.mul_add_distr_r, Z.div_mul by lia. done. }
  exists (Z.to_nat b), sb. rewrite Z2Nat.id by lia. do 3 (split; [lia|]). split; [nia|].
  unfold matches. apply filter_ext_in'. intros q Hq%elem_of_seqZ. destruct d_packed0 as [_ ->].
  apply preamble_at_take; [lia|lia|]. unfold len in El. 
  replace (Z.of_nat (8 * length (packed d))) with (8 * Z.of_nat (length (packed d))) by lia. rewrite El. nia.
Qed.

Lemma searchPacked_window d w key idx :
  decoder_ok d w -> Forall is_bit key -> len key <= PreambleSymbols (r_Cfg (registry d)) ->
  searchPacked (BlockSize (Cfg d)) (SymbolLength (Cfg d)) (packed d) (Quantized (Cfg d) (decisions d)) (quantizedStart (decisions d)) key idx =
  Some (matches w (SymbolLength (Cfg d)) (BlockSize (Cfg d)) key).
Proof.
  intros Hd Hb Hk. destruct (search_numbers d w key Hd Hk) as (nb & sb & E1 & E2 & Hs & Hl & <-).
  unfold searchPacked. assert (Z.land (SymbolLength (Cfg d)) 7 = 0) as ->.
  { change 7 with (Z.ones 3). rewrite Z.land_ones by lia. apply Hd. }
  change (0 =? 0) with true. cbn iota. rewrite E1, E2. apply byte_aligned_correct; try done. apply Hd.
Qed.

Lemma generic_window d w key :
  decoder_ok d w -> Forall is_bit key -> len key <= PreambleSymbols (r_Cfg (registry d)) ->
  searchPackedByteAlignedGeneric (BlockSize (Cfg d)) (packed d) key (Z.shiftr (SymbolLength (Cfg d)) 3) =
  Some (matches w (SymbolLength (Cfg d)) (BlockSize (Cfg d)) key).
Proof.
  intros Hd Hb Hk. destruct (search_numbers d w key Hd Hk) as (nb & sb & E1 & E2 & Hs & Hl & <-).
  rewrite E1, E2, shiftr3. replace (8 * sb / 8) with sb by (rewrite Z.mul_comm, Z.div_mul; lia).
  apply generic_correct; try done. apply Hd.
Qed.

Lemma filter_none_skipped (skip : list Z -> bool) (l : list (list Z)) :
  (forall x, skip x = false) -> filter (fun x => skip x = false) l = l.
Proof. intros Hs. induction l as [|x l IHl]; [done|]. rewrite filter_cons, decide_True by apply Hs. by rewrite IHl. Qed.

(** A loop whose every preamble is skipped. *)
Lemma skipped_loop d v skip order (st : list S * list Z * list Z * list M) :
  filter (fun key => skip key = false) order = [] -> foldM (preamble_step d v skip) st order = Some st.
Proof.
  destruct st as [[[objs buf] idx] ms]. induction order as [|key order IH]; intros Hf; [done|]. rewrite filter_cons in Hf.
  cbn [foldM preamble_step]. destruct (skip key) eqn:E; [|by rewrite decide_True in Hf].
  rewrite decide_False in Hf by done. by apply IH.
Qed.

Lemma scratch_start d w : decoder_ok d w -> scratch_ok d (objects (registry d)) (pkt d).
Proof. intros []. by split. Qed.

(** The loop over the map, with some preambles already served. *)
Lemma preamble_loop d v w skip order objs buf idx messages :
  v_Cfg v = Cfg d -> decoder_ok d w -> scratch_ok d objs buf ->
  Forall (fun key => is_Some (preambles (registry d) !! key)) order ->
  match foldM (preamble_step d v skip) (objs, buf, idx, messages) order with
  | Some (objs', buf', _, messages') =>
      foldM (spec_preamble v w (preambles (registry d))) (objs, messages) (filter (fun key => skip key = false) order) = Some (objs', messages') /\
      scratch_ok d objs' buf'
  | None => foldM (spec_preamble v w (preambles (registry d))) (objs, messages) (filter (fun key => skip key = false) order) = None
  end.
Proof.
  intros Hv Hd Hs Ho. revert objs buf idx messages Hs.
  induction Ho as [|key order Hkey Ho IH]; intros objs buf idx messages Hs; [done|].
  cbn [foldM preamble_step]. rewrite filter_cons. destruct (skip key) eqn:Es.
  { rewrite decide_False by done. by apply IH. }
  rewrite decide_True by done. destruct (ro_keys _ (d_registry _ _ Hd) key Hkey) as [Hkb Hkl].
  rewrite (searchPacked_window d w) by done. cbn [mbind option_bind foldM].
  set (parsers := default [] (preambles (registry d) !! key)).
  pose proof (parseCandidates_spec d v w (matches w (SymbolLength (Cfg d)) (BlockSize (Cfg d)) key) parsers objs buf messages
    Hv Hd Hs (matches_nonneg _ _ _ _)) as HP.
  assert (spec_preamble v w (preambles (registry d)) (objs, messages) key =
    foldM (spec_step v w (matches w (SymbolLength (Cfg d)) (BlockSize (Cfg d)) key) (include_bits objs parsers)) (objs, messages) parsers) as -> by (unfold spec_preamble; by rewrite Hv).
  destruct (parseCandidates _ _ _ _ _ _) as [[[objs1 buf1] ms1]|]; cbn [mbind option_bind].
  - destruct HP as (-> & Hs1). by apply IH.
  - by rewrite HP.
Qed.

(** What a run of the search tail leaves behind, against the abstract decoder. *)
Definition tail_result (d : Decoder S) (x : option (list S * list Z * list Z * list M)) (y : option (list S * list M)) : Prop :=
  match x with
  | Some (objs, buf, _, messages) => y = Some (objs, messages) /\ scratch_ok d objs buf
  | None => y = None
  end.

Definition tail_spec (see : Decoder S -> View) (order : list (list Z)) (d : Decoder S) (w : list Z) : Prop :=
  exists order' x, order' ≡ₚ order /\ decodeQuantized see order d = (st ← x; Some (after_parse d st)) /\
    tail_result d x (spec_decode (see d) w (preambles (registry d)) order' (objects (registry d))).

Lemma preamble_order (skip : list Z -> bool) ki kr (order : list (list Z)) :
  NoDup order -> ki <> kr -> ki ∈ order -> kr ∈ order -> (forall key, skip key = false <-> key <> ki /\ key <> kr) ->
  ki :: kr :: filter (fun key => skip key = false) order ≡ₚ order.
Proof.
  intros Hnd Hne Hi Hr Hskip. apply NoDup_Permutation; [|done|].
  - constructor; [|constructor; [|by apply NoDup_filter]].
    + rewrite elem_of_cons, list_elem_of_filter, Hskip. tauto.
    + rewrite list_elem_of_filter, Hskip. tauto.
  - intros key. rewrite !elem_of_cons, list_elem_of_filter, Hskip.
    split; [by intros [->|[->|[_ ?]]]|]. intros Hk. destruct (decide (key = ki)); [by left|].
    destruct (decide (key = kr)); [by right; left|]. right; right. tauto.
Qed.

(** The two fixed families served first, from the dual search's index lists. *)
Lemma dual_families d v w ki kr pi pr rest_ skip order :
  v_Cfg v = Cfg d -> decoder_ok d w -> preambles (registry d) !! ki = Some pi -> preambles (registry d) !! kr = Some pr ->
  Forall (fun key => is_Some (preambles (registry d) !! key)) order ->
  rest_ = filter (fun key => skip key = false) order ->
  let mi := matches w (SymbolLength (Cfg d)) (BlockSize (Cfg d)) ki in
  let mr := matches w (SymbolLength (Cfg d)) (BlockSize (Cfg d)) kr in
  tail_result d
    ('(objs, buf, messages) ← parseCandidates (Cfg d) (decisions d) v mi pi (objects (registry d), pkt d, []);
     '(objs, buf, messages) ← parseCandidates (Cfg d) (decisions d) v mr pr (objs, buf, messages);
     foldM (preamble_step d v skip) (objs, buf, mi, messages) order)
    (spec_decode v w (preambles (registry d)) (ki :: kr :: rest_) (objects (registry d))).
Proof.
  intros Hv Hd Pi Pr Hkeys -> mi mr. unfold spec_decode. cbn [foldM].
  unfold spec_preamble at 1. rewrite Pi, Hv. cbn [default fst id].
  pose proof (parseCandidates_spec d v w mi pi (objects (registry d)) (pkt d) [] Hv Hd (scratch_start d w Hd) (matches_nonneg _ _ _ _)) as HP1.
  fold mi. destruct (parseCandidates _ _ _ _ pi _) as [[[objs1 buf1] ms1]|]; [|by rewrite HP1].
  destruct HP1 as (-> & Hs1). cbn [mbind option_bind]. unfold spec_preamble at 1. rewrite Pr, Hv. cbn [default fst id].
  pose proof (parseCandidates_spec d v w mr pr objs1 buf1 ms1 Hv Hd Hs1 (matches_nonneg _ _ _ _)) as HP2.
  fold mr. destruct (parseCandidates _ _ _ _ pr _) as [[[objs2 buf2] ms2]|]; [|by rewrite HP2].
  destruct HP2 as (-> & Hs2). cbn [mbind option_bind].
  exact (preamble_loop d v w skip order objs2 buf2 mi ms2 Hv Hd Hs2 Hkeys).
Qed.

(** Up to the order in which the preambles are served, [decodeQuantized] is the
    abstract decoder; the dual search only moves the fixed families to the front. *)
Lemma decodeQuantized_spec see order d w : v_Cfg (see d) = Cfg d ->
  decoder_ok d w -> order ≡ₚ elements (dom (preambles (registry d))) -> tail_spec see order d w.
Proof.
  intros Hv Hd Hord. unfold tail_spec, decodeQuantized. set (v := see d) in *.
  assert (Forall (fun key => is_Some (preambles (registry d) !! key)) order) as Hkeys.
  { apply Forall_forall. intros key Hk. rewrite Hord, elem_of_elements, elem_of_dom in Hk. done. }
  assert (forall idx, tail_result d (foldM (preamble_step d v (fun _ => false)) (objects (registry d), pkt d, idx, []) order)
    (spec_decode v w (preambles (registry d)) order (objects (registry d)))) as Hordinary.
  { intros idx.
    pose proof (preamble_loop d v w (fun _ => false) order (objects (registry d)) (pkt d) idx [] Hv Hd (scratch_start d w Hd) Hkeys) as HL.
    by rewrite (filter_none_skipped (fun _ => false)) in HL by done. }
  set (reg := registry d) in *.
  destruct (negb (len (fixedIDMParsers reg) =? 0) && negb (len (fixedR900Parsers reg) =? 0)) eqn:Efix;
    [|exists order; eexists; split; [done|split; [reflexivity|apply Hordinary]]].
  destruct (searchAlignedCandidates32DualFixedPlatform _ _ _) as [[idm r900]|] eqn:Edual;
    [|exists order; eexists; split; [done|split; [reflexivity|apply Hordinary]]].
  apply andb_prop in Efix as [Ei Er].
  assert (fixedIDMParsers reg <> [] /\ fixedR900Parsers reg <> []) as [Hi Hr] by (split; intros E; rewrite E in *; done).
  destruct (ro_idm _ (d_registry _ _ Hd) Hi) as [Ki Pi], (ro_r900 _ (d_registry _ _ Hd) Hr) as [Kr Pr].
  set (ki := preamble_bytes fixedIDMPreambleASCII) in *. set (kr := preamble_bytes fixedR900PreambleASCII) in *.
  assert (ki <> kr) as Hne by (vm_compute; discriminate).
  destruct (ro_keys _ (d_registry _ _ Hd) ki ltac:(by eexists)) as [Bi Li], (ro_keys _ (d_registry _ _ Hd) kr ltac:(by eexists)) as [Br Lr].
  destruct (search_numbers d w ki Hd Li) as (nb & sb & Enb & Esb & Hsb & Hfit & _). change (len ki) with 32 in Hfit.
  assert (Z.shiftr (SymbolLength (Cfg d)) 3 = sb) as Eshift by (rewrite Esb, shiftr3, Z.mul_comm, Z.div_mul; lia).
  apply dual_agrees in Edual as [G1 G2]; rewrite ?Eshift, ?Enb; [|intros ->; rewrite <- Enb; by apply (d_dual _ _ Hd)|lia|apply Hd|lia|].
  2: { rewrite Z.mul_comm, Z.div_mul by lia. lia. }
  fold ki kr in G1, G2. rewrite (generic_window d w) in G1, G2 by done. apply (inj Some) in G1 as <-, G2 as <-.
  set (skip := fun key => bool_decide (key = fixedIDMPreambleKey reg \/ key = fixedR900PreambleKey reg)).
  assert (forall key, skip key = false <-> key <> ki /\ key <> kr) as Hskip.
  { intros key. unfold skip. fold reg in Ki, Kr. rewrite Ki, Kr, bool_decide_eq_false. tauto. }
  pose proof (dual_families d v w ki kr _ _ _ skip order Hv Hd Pi Pr Hkeys eq_refl) as HD. cbv zeta in HD.
  exists (ki :: kr :: filter (fun key => skip key = false) order). eexists. split; [|split; [|exact HD]].
  { apply preamble_order; try done; rewrite Hord; [apply NoDup_elements|apply elem_of_elements, elem_of_dom; by eexists..]. }
  fold reg.
  destruct (parseCandidates _ _ _ _ (fixedIDMParsers reg) _) as [[[objs1 buf1] ms1]|]; [|done]. cbn [mbind option_bind].
  destruct (parseCandidates _ _ _ _ (fixedR900Parsers reg) _) as [[[objs2 buf2] ms2]|]; [|done]. cbn [mbind option_bind].
  destruct (Z.eqb_spec (Z.of_nat (size (preambles reg))) 2) as [E2|E2]; [|done].
  rewrite skipped_loop; [done|].
  by apply (no_others order ki kr (preambles reg)).
Qed.

(** The search tail changes the parsers and scratch only. *)
Lemma after_parse_ok d w objs buf idx messages :
  decoder_ok d w -> scratch_ok d objs buf ->
  decoder_ok (fst (after_parse (M := M) d (objs, buf, idx, messages))) w.
Proof.
  intros [] (Hl & Hb & Hp). constructor; cbn [after_parse fst registry Cfg decisions packed pkt]; try done; [by destruct d_registry0|by rewrite Hl].
Qed.

(** ** Advancing refines the abstract history *)

Definition tail_of {A} (n : Z) (l : list A) : list A := drop (length l - Z.to_nat n) l.

(** The samples retained so far; the newest are last. *)
Inductive History := RecentMagnitudes (hist : list f64) | RecentPowers (hist : list Z).

(** What a block of IQ bytes adds: the samples, and the decisions of the matched
    filter over the last symbol and the new block. *)
Definition demodulate (cfg : PacketConfig) (a : History) (input : list Z) : option (History * list Z) :=
  match a with
  | RecentMagnitudes hist =>
      m ← magnitudeLUTGo input (BlockSize cfg) NewMagLUT;
      let hist := push hist m in
      block ← FilterGo (tail_of (SymbolLength cfg + BlockSize cfg) hist) (BlockSize cfg) (ChipLength cfg);
      Some (RecentMagnitudes hist, block)
  | RecentPowers hist =>
      powers ← power16IQReference (BlockSize cfg) (take (Z.to_nat (BlockSize2 cfg)) input);
      let hist := push hist powers in
      block ← power16ManchesterReference (BlockSize cfg) (tail_of (SymbolLength cfg + BlockSize cfg) hist) (ChipLength cfg);
      Some (RecentPowers hist, block)
  end.

(** The contract of the fused backends: what their start-up self tests compare. *)
Record fused_lawful (p : power16State) : Prop := {
  run_lawful : forall window input, len window = power16Window -> Forall (is_uint 16) window ->
    len input = power16BlockSize * 2 -> Forall is_byte input ->
    p_run p power16BlockSize window input = power16ReferenceBlock power16BlockSize window input;
  runPacked_lawful : forall f window input, p_runPacked p = Some f -> len window = power16Window -> Forall (is_uint 16) window ->
    len input = power16BlockSize * 2 -> Forall is_byte input ->
    f power16BlockSize 1024 window input =
    (r ← power16ReferenceBlock power16BlockSize window input;
     match r with
     | Some (dec, w) => bytes ← packQuantized 1024 dec; Some (Some (dec, bytes, w))
     | None => Some None
     end) }.

(** The concrete samples hold the abstract history. *)
Definition samples_ok (d : Decoder S) (w : list Z) (a : History) : Prop :=
  match samples d, a with
  | FloatWindow s, RecentMagnitudes hist => s = hist /\ len s = BlockSize (Cfg d) + SymbolLength (Cfg d)
  | FloatHistory h, RecentMagnitudes hist => history_ok (Cfg d) h hist /\ SymbolLength (Cfg d) <= overlap h
  | Power p, RecentPowers hist =>
      history_ok (Cfg d) (p_strips p) hist /\ SymbolLength (Cfg d) <= overlap (p_strips p) /\ Forall (is_uint 16) (backing (p_strips p)) /\
      geometry_compatible (Cfg d) = true /\ fused_lawful p /\
      (p_runPacked p <> None -> packed_ok (Cfg d) (p_packed p) /\ bytes_bits (packed_window (p_packed p)) = w /\
         Forall is_byte (packed_window (p_packed p)) /\
         packedLookahead (p_packed p) = (BlockSize (Cfg d) + PreambleLength (Cfg d)) / 8)
  | _, _ => False
  end.

(** How many samples before a block the parsers can reach. *)
Definition retained (s : Samples) : Z :=
  match s with FloatWindow _ => 0 | FloatHistory h => overlap h | Power p => overlap (p_strips p) end.

Lemma filter_window_tail {A} cfg (h : Strips A) hist :
  history_ok cfg h hist -> 0 <= SymbolLength cfg <= overlap h -> SymbolLength cfg + BlockSize cfg <= BufferLength cfg ->
  filter_window cfg h = Some (tail_of (SymbolLength cfg + BlockSize cfg) hist).
Proof.
  intros Hok Hs Hb. rewrite (filter_window_recent cfg h hist) by done. f_equal. unfold recent, tail_of. rewrite drop_drop. f_equal.
  pose proof (h_hist _ _ _ Hok) as Hl. pose proof (h_gap _ _ _ Hok) as [G1 G2].
  pose proof (h_block _ _ _ Hok). pose proof (h_overlap _ _ _ Hok). unfold len in Hl. lia.
Qed.

(** One symbol of history is there at once. *)
Lemma tail_push {A} n m (hist block : list A) : len block = m -> n + m <= len hist -> 0 <= n ->
  tail_of (n + m) (push hist block) = tail_of n hist ++ block.
Proof.
  intros Hm Hn Hp. unfold tail_of, push, len in *. rewrite length_app, length_drop, drop_app_le by (rewrite length_drop; lia).
  rewrite drop_drop. do 2 f_equal. lia.
Qed.

Lemma appendSignal_spec d w hist input :
  decoder_ok d w -> samples_ok d w (RecentMagnitudes hist) -> 0 < ChipLength (Cfg d) -> SymbolLength (Cfg d) = 2 * ChipLength (Cfg d) ->
  Forall is_byte input -> 2 * BlockSize (Cfg d) <= len input -> SymbolLength (Cfg d) <= PacketLength (Cfg d) ->
  exists s' hist' block, demodulate (Cfg d) (RecentMagnitudes hist) input = Some (RecentMagnitudes hist', block) /\
    appendSignal (Cfg d) (samples d) input = Some (s', tail_of (SymbolLength (Cfg d) + BlockSize (Cfg d)) hist') /\
    packed_producer s' = false /\ packed_producer (samples d) = false /\ retained s' = retained (samples d) /\
    len block = BlockSize (Cfg d) /\ Forall is_bit block /\
    FilterGo (tail_of (SymbolLength (Cfg d) + BlockSize (Cfg d)) hist') (BlockSize (Cfg d)) (ChipLength (Cfg d)) = Some block /\
    forall d', Cfg d' = Cfg d -> samples d' = s' -> forall w', samples_ok d' w' (RecentMagnitudes hist').
Proof.
  intros Hd Hs Hc Hsl Hb Hlen Hpl. pose proof (bg_geometry _ (d_bytes _ _ Hd)) as [G1 G2 G3].
  set (n := Z.to_nat (BlockSize (Cfg d))). assert (BlockSize (Cfg d) = Z.of_nat n) as En by lia.
  destruct (Execute_spec input n Hb ltac:(lia)) as (m & Em & Em' & Hm).
  assert (SymbolLength (Cfg d) + BlockSize (Cfg d) <= len hist) as Hhl.
  { unfold samples_ok in Hs. destruct (samples d); try done; [destruct Hs as [-> ?]; lia|].
    destruct Hs as [Hok Hov]. pose proof (h_hist _ _ _ Hok). pose proof (h_count _ _ _ Hok). nia. }
  set (hist' := push hist m). set (sig := tail_of (SymbolLength (Cfg d) + BlockSize (Cfg d)) hist').
  assert (len sig = SymbolLength (Cfg d) + BlockSize (Cfg d)) as Hsig.
  { unfold sig. unfold hist'. rewrite tail_push by lia. rewrite len_app, Hm. unfold tail_of, len in *. rewrite length_drop. lia. }
  destruct (FilterGo_total sig n (Z.to_nat (ChipLength (Cfg d))) ltac:(lia)) as (block & Ef & Hbl & Hbb).
  rewrite Z2Nat.id, <- En in Ef by lia.
  unfold demodulate. rewrite <- En in Em'. rewrite Em'. cbn [mbind option_bind]. fold hist' sig. rewrite Ef. cbn [mbind option_bind].
  unfold samples_ok in Hs. unfold appendSignal. destruct (samples d) as [s|h|p]; [| |done].
  - destruct Hs as [-> Hls]. exists (FloatWindow sig), hist', block. split; [done|]. split.
    + rewrite slice_suffix by lia. cbn [mbind option_bind].
      assert (len (gocopy hist (drop (Z.to_nat (BlockSize (Cfg d))) hist)) = len hist) as Hg by (unfold len; by rewrite length_gocopy).
      rewrite slice_suffix by (rewrite Hg; lia). cbn [mbind option_bind].
      set (g := gocopy hist _) in *. assert (len (drop (Z.to_nat (SymbolLength (Cfg d))) g) = Z.of_nat n) as -> by (unfold len in *; rewrite length_drop; lia).
      rewrite Em. cbn [mbind option_bind]. assert (take (Z.to_nat (SymbolLength (Cfg d))) g ++ m = sig) as ->; [|done].
      unfold sig, hist'. rewrite tail_push by lia. f_equal. unfold g, gocopy, tail_of. unfold len in *.
      rewrite take_app_le, take_take by (rewrite length_take, length_drop; lia). rewrite take_ge by (rewrite length_drop; lia). f_equal. lia.
    + do 6 (split; [done || lia|]). intros d' EC ES w'. unfold samples_ok. rewrite ES, EC. split; [|lia].
      unfold sig, tail_of. unfold len in *.
      replace (length hist' - Z.to_nat (SymbolLength (Cfg d) + BlockSize (Cfg d)))%nat with 0%nat; [by rewrite drop_0|].
      unfold hist', push. rewrite length_app, length_drop. lia.
  - destruct Hs as [Hok Hov]. destruct (append_history_push (Cfg d) h hist m Hok ltac:(lia)) as (h' & Ea & Hok' & Eo & Eg).
    exists (FloatHistory h'), hist', block. split; [done|]. split.
    + unfold append_history in Ea. apply bind_Some in Ea as (h1 & Ec & Ea). rewrite Ec. cbn [mbind option_bind].
      assert (blockStride h1 - overlap h1 = Z.of_nat n) as ->.
      { unfold carry_overlap in Ec. apply bind_Some in Ec as (? & _ & Ec). apply bind_Some in Ec as (? & _ & Ec).
        apply (inj Some) in Ec as <-. cbn. rewrite (h_stride _ _ _ Hok). lia. }
      rewrite Em. cbn [mbind option_bind]. rewrite Ea. cbn [mbind option_bind].
      rewrite (filter_window_tail (Cfg d) h' hist') by (done || lia). done.
    + do 6 (split; [done || lia|]). intros d' EC ES w'. unfold samples_ok. rewrite ES, EC, Eo. done.
Qed.
Lemma copy_at_extend {A} (l win b : list A) lo mid hi :
  slice lo hi l = Some win -> lo <= mid <= hi -> len b = hi - mid ->
  copy_at l lo hi (take (Z.to_nat (mid - lo)) win ++ b) = copy_at l mid hi b /\
  forall l', copy_at l mid hi b = Some l' -> slice lo hi l' = Some (take (Z.to_nat (mid - lo)) win ++ b).
Proof.
  intros (K1 & K2 & ->)%slice_Some Hm Hb. set (win := take _ (drop _ l)).
  assert (take (Z.to_nat mid) l = take (Z.to_nat lo) l ++ take (Z.to_nat (mid - lo)) win) as Et.
  { unfold win. rewrite take_take, Nat.min_l by lia. rewrite take_take_drop. f_equal. lia. }
  assert (length (take (Z.to_nat (mid - lo)) win) = Z.to_nat (mid - lo)) as Hlw.
  { unfold win, len in *. rewrite !length_take, length_drop. lia. }
  rewrite !copy_at_ok by (rewrite ?len_app; unfold len in *; lia). rewrite Et. split; [by rewrite <- !app_assoc|].
  intros l' [= <-]. rewrite <- app_assoc. rewrite (app_assoc (take (Z.to_nat (mid - lo)) win)).
  apply slice_mid; rewrite ?len_app; unfold len in *; rewrite ?length_take; rewrite ?length_take in Hlw; lia.
Qed.

Lemma copy_at_Forall {A} (P : A -> Prop) (dst src dst' : list A) lo hi :
  copy_at dst lo hi src = Some dst' -> Forall P dst -> Forall P src -> Forall P dst'.
Proof.
  intros K1 Hd Hs. apply bind_Some in K1 as (w & Hw & K1). apply (inj Some) in K1 as <-.
  apply Forall_app. split; [by apply Forall_take|]. apply Forall_app. split; [|by apply Forall_drop].
  apply Forall_gocopy; [|done]. eapply slice_Forall; [exact Hd|exact Hw].
Qed.

(** Running a fused backend over the strip: its window write is the append of the
    new powers. *)
Lemma power_window cfg (h : Strips Z) hist powers :
  history_ok cfg h hist -> 0 <= SymbolLength cfg <= overlap h -> SymbolLength cfg + BlockSize cfg <= BufferLength cfg ->
  len powers = BlockSize cfg -> Forall (is_uint 16) (backing h) -> Forall (is_uint 16) powers ->
  exists h1 win h', carry_overlap cfg h = Some h1 /\ filter_window cfg h1 = Some win /\
    len win = SymbolLength cfg + BlockSize cfg /\ Forall (is_uint 16) win /\
    write_window cfg h1 (take (Z.to_nat (SymbolLength cfg)) win ++ powers) = Some h' /\
    take (Z.to_nat (SymbolLength cfg)) win ++ powers = tail_of (SymbolLength cfg + BlockSize cfg) (push hist powers) /\
    history_ok cfg h' (push hist powers) /\ overlap h' = overlap h /\ Forall (is_uint 16) (backing h').
Proof.
  intros Hok Hs Hb Hp Hf Hfp. destruct (append_history_push cfg h hist powers Hok Hp) as (h' & Ea & Hok' & Eo & Eg).
  pose proof (filter_window_tail cfg h' (push hist powers) Hok' ltac:(lia) Hb) as Hw'.
  unfold append_history in Ea. apply bind_Some in Ea as (h1 & Ec & Ea).
  assert (overlap h1 = overlap h /\ blockStride h1 = blockStride h /\ 0 <= block h1 < blockCount h /\
    len (backing h1) = len (backing h) /\ Forall (is_uint 16) (backing h1)) as (E1 & E2 & E3 & E4 & E5).
  { unfold carry_overlap in Ec. apply bind_Some in Ec as (src & Hsrc & Ec). apply bind_Some in Ec as (b & Hcb & Ec).
    apply (inj Some) in Ec as <-. cbn. pose proof (h_at _ _ _ Hok). pose proof (h_count _ _ _ Hok).
    split; [done|]. split; [done|]. split; [destruct (Z.eqb_spec (block h + 1) (blockCount h)); lia|].
    split; [|eapply copy_at_Forall; [exact Hcb|done|eapply slice_Forall; [exact Hf|exact Hsrc]]].
    apply bind_Some in Hcb as (w0 & Hw0 & Hcb). apply (inj Some) in Hcb as <-. apply slice_Some in Hw0 as (A1 & A2 & ->).
    unfold len in *. rewrite !length_app, length_gocopy, !length_take, !length_drop. lia. }
  pose proof (h_stride _ _ _ Hok) as Est. pose proof (h_len _ _ _ Hok) as Elen. pose proof (h_overlap _ _ _ Hok) as Eov.
  set (lo := block h1 * blockStride h1 + overlap h1 - SymbolLength cfg).
  set (hi := block h1 * blockStride h1 + blockStride h1).
  assert (exists win, slice lo hi (backing h1) = Some win) as [win Hwin].
  { eexists. apply slice_ok; unfold lo, hi; nia. }
  pose proof (slice_len _ _ _ _ Hwin) as Hlw.
  destruct (copy_at_extend (backing h1) win powers lo (lo + SymbolLength cfg) hi Hwin) as [Eext Esl]; [unfold lo, hi; lia|unfold lo, hi; lia|].
  rewrite Z.add_simpl_l in Eext, Esl. replace (lo + SymbolLength cfg) with (block h1 * blockStride h1 + overlap h1) in Eext, Esl by (unfold lo; lia).
  exists h1, win, h'. split; [done|]. split; [exact Hwin|]. split; [unfold lo, hi in *; lia|].
  split; [eapply slice_Forall; [exact E5|exact Hwin]|]. unfold write_window, write_samples in *. fold hi in Ea |- *. fold lo. rewrite Eext.
  split; [exact Ea|]. apply bind_Some in Ea as (b & Hcb & Ea). apply (inj Some) in Ea as <-.
  split; [|split; [done|split; [done|cbn; eapply copy_at_Forall; [exact Hcb|done|done]]]].
  unfold filter_window in Hw'. cbn [block blockStride overlap backing] in Hw'. fold lo hi in Hw'. rewrite (Esl _ Hcb) in Hw'.
  by apply (inj Some) in Hw'.
Qed.
(** The packed window holds the front of the decisions. *)
Definition packed_holds (cfg : PacketConfig) (pk w : list Z) : Prop :=
  len pk = (BlockSize cfg + PreambleLength cfg) / 8 /\ Forall is_byte pk /\ bytes_bits pk = take (8 * length pk) w.

Lemma push_bits_Forall (w block : list Z) : Forall is_bit w -> Forall is_bit block -> Forall is_bit (push w block).
Proof. intros Hw Hb. apply Forall_app. auto with go. Qed.

(** A new ring and a new packed window make the decoder ready again. *)
Lemma with_block_ok d w w' s r pk :
  decoder_ok d w -> ring_ok (Cfg d) r -> quantizedStart r mod 8 = 0 -> window (Cfg d) r = w' -> Forall is_bit w' ->
  packed_holds (Cfg d) pk w' -> decoder_ok (with_block d s r pk) w'.
Proof. intros [] Hr Ha Hw Hb (P1 & P2 & P3). constructor; done. Qed.

Lemma direct_aligned cfg r dec r' :
  geometry cfg -> BlockSize cfg mod 8 = 0 -> PacketLength cfg mod 8 = 0 ->
  ring_ok cfg r -> quantizedStart r mod 8 = 0 -> direct_write cfg r dec = Some r' -> quantizedStart r' mod 8 = 0.
Proof.
  intros [G1 G2 G3] HB HP [Hl Hs] Ha Hd. unfold direct_write, nextQuantizedOutput in Hd. rewrite Hl in Hd.
  apply bind_Some in Hd as ([[out st] tl] & E1 & Hd). apply bind_Some in E1 as (? & _ & E1). apply (inj Some) in E1.
  injection E1 as _ <- _. apply bind_Some in Hd as (b & _ & Hd). unfold commitQuantizedOutput in Hd.
  apply bind_Some in Hd as (q & _ & Hd). apply (inj Some) in Hd as <-.
  assert (forall r0 st0, quantizedStart (with_Quantized cfg r0 q st0) = st0) as -> by (intros r0 st0; unfold with_Quantized; by destruct (separate r0)).
  apply Z.mod_divide in HB as [m Hm], HP as [k Hk], Ha as [j Hj]; [|lia..]. unfold wrap_at.
  destruct (Z.leb_spec (BufferLength cfg) (quantizedStart r + BlockSize cfg)); apply Z.mod_divide; [lia| |lia|].
  - exists (j + m - (k + m)). lia.
  - exists (j + m). lia.
Qed.

(** The representation-independent tail: append the block, pack unless the
    producer has packed, search. *)
Lemma decodeFiltered_ready see order d w s pk block :
  decoder_ok d w -> len block = BlockSize (Cfg d) -> Forall is_bit block ->
  (packed_producer s = true -> packed_holds (Cfg d) pk (push w block)) -> (packed_producer s = false -> len pk = len (packed d)) ->
  exists r pk', decoder_ok (with_block d s r pk') (push w block) /\
    decodeFiltered see order (with_block d s (decisions d) pk) block = decodeQuantized see order (with_block d s r pk').
Proof.
  intros Hd Hl Hb Hp Hnp. pose proof (d_bytes _ _ Hd) as [G HB HP Hpre]. pose proof (d_ring _ _ Hd) as Hr.
  destruct (appendQuantized_push (Cfg d) G (decisions d) block Hr Hl) as (r & Er & Hr' & Hw).
  rewrite (d_window _ _ Hd) in Hw. pose proof (push_bits_Forall w block (d_bits _ _ Hd) Hb) as Hbits.
  pose proof (append_aligned (Cfg d) _ block r G HB HP Hr (d_aligned _ _ Hd) Er) as Hal.
  unfold decodeFiltered. cbn [with_block Cfg decisions samples packed]. rewrite Er. cbn [mbind option_bind].
  destruct (packed_producer s) eqn:Es.
  - exists r, pk. split; [by apply (with_block_ok d w); auto|]. done.
  - assert (Forall is_bit (Quantized (Cfg d) r)) as Hq by (apply (ring_Forall_inv _ (Z.to_nat (quantizedStart r))); fold (window (Cfg d) r); by rewrite Hw).
    pose proof (d_packed_len _ _ Hd) as Hpl. destruct Hr' as [Rl Rs]. destruct G as [G1 G2 G3].
    assert (8 * len (packed d) <= BufferLength (Cfg d)) as Hfit.
    { rewrite Hpl, G3. pose proof (Z.mul_div_le (BlockSize (Cfg d) + PreambleLength (Cfg d)) 8). lia. }
    destruct (packQuantizedRing_spec (length (packed d)) (Quantized (Cfg d) r) (Z.to_nat (quantizedStart r)) Hq) as (pk' & Ep & Hlp & Hpb & Hpbits);
      try (unfold len in *; lia).
    { apply Z.mod_divide in HB as [m Hm], HP as [k Hk]; [|lia..]. apply Nat.Div0.mod_divides. exists (Z.to_nat (k + m)). unfold len in *. lia. }
    { apply Z.mod_divide in Hal as [m Hm]; [|lia]. apply Nat.Div0.mod_divides. exists (Z.to_nat m). lia. }
    rewrite Z2Nat.id in Ep by lia. rewrite (Hnp eq_refl).
    assert (len (packed d) = Z.of_nat (length (packed d))) as -> by done. rewrite Ep. cbn [mbind option_bind].
    exists r, pk'. split; [|done]. apply (with_block_ok d w); try done. split; [unfold len in *; lia|]. split; [done|].
    rewrite Hpbits, Hlp. fold (window (Cfg d) r). by rewrite Hw.
Qed.

Lemma compatible_config cfg : geometry_compatible cfg = true ->
  ChipLength cfg = 72 /\ SymbolLength cfg = 144 /\ BlockSize cfg = 8192 /\ BlockSize2 cfg = 16384.
Proof. unfold geometry_compatible. rewrite !andb_true_iff, !Z.eqb_eq. intros [[[-> ->] ->] ->]. done. Qed.

(** The reference block over a strip window. *)
Lemma power_reference cfg hist (h : Strips Z) input :
  history_ok cfg h hist -> geometry_compatible cfg = true -> 144 <= overlap h -> 144 + 8192 <= BufferLength cfg ->
  Forall (is_uint 16) (backing h) -> Forall is_byte input -> len input = 16384 ->
  exists powers block h1 win h' w', demodulate cfg (RecentPowers hist) input = Some (RecentPowers (push hist powers), block) /\
    len block = 8192 /\ Forall is_bit block /\ carry_overlap cfg h = Some h1 /\ filter_window cfg h1 = Some win /\
    len win = power16Window /\ Forall (is_uint 16) win /\ power16ReferenceBlock power16BlockSize win input = Some (Some (block, w')) /\
    write_window cfg h1 w' = Some h' /\ history_ok cfg h' (push hist powers) /\ overlap h' = overlap h /\
    Forall (is_uint 16) (backing h').
Proof.
  intros Hok Hg Hov Hbl Hf Hb Hl. destruct (compatible_config cfg Hg) as (Ec & Es & Eb & Eb2).
  set (n := Z.to_nat 8192). assert (Z.of_nat n = 8192) as En by done.
  destruct (power16IQReference_exact input n Hb) as (powers & Ep & Hlp & Rp & _); [lia|]. rewrite En in Ep.
  assert (len powers = 8192) as Hlp' by (unfold len; lia).
  destruct (power_window cfg h hist powers Hok) as (h1 & win & h' & E1 & E2 & E3 & E4 & E5 & E6 & E7 & E8 & E9);
    [rewrite Es; lia|rewrite Es, Eb; lia|by rewrite Eb|done|done|].
  rewrite Es, Eb in E3, E6. rewrite Es in E5. change (Z.to_nat 144) with 144%nat in E5, E6.
  assert (Forall (is_uint 16) (take 144 win ++ powers)) as Rw by (apply Forall_app; auto with go).
  assert (length (take 144 win ++ powers) = n + 2 * 72)%nat as Hlw by (unfold len in *; rewrite length_app, length_take; lia).
  pose proof (power16Manchester_exact (take 144 win ++ powers) 72 Rw ltac:(reflexivity) n ltac:(lia) ltac:(lia)) as HM.
  change (Z.of_nat 72) with 72 in HM. rewrite En in HM.
  set (block := map _ (seq 0 n)) in HM.
  exists powers, block, h1, win, h', (take 144 win ++ powers). split; [|split; [|split]].
  - unfold demodulate. rewrite Eb, Eb2, Es, Ec. rewrite take_ge by (unfold len in Hl; lia). rewrite Ep. cbn [mbind option_bind].
    rewrite <- E6, HM. done.
  - unfold block, len. by rewrite length_map, length_seq.
  - unfold block. apply Forall_fmap, Forall_true. intros k. unfold compose. by destruct (_ <=? _); split.
  - do 4 (split; [done|]). split; [|done]. unfold power16ReferenceBlock. rewrite E3, Hl. cbn [negb orb].
    change (144 + 8192 - power16History) with 8192. rewrite Ep. cbn [mbind option_bind].
    change (Z.to_nat power16History) with 144%nat. change power16ChipLength with 72. change power16BlockSize with 8192. by rewrite HM.
Qed.

(** Both producers, up to the search tail: a ready decoder [d1] with the block in
    its window on which Decode goes on. *)
Definition advanced (see : Decoder S -> View) (order : list (list Z)) (d : Decoder S) (w : list Z) (a : History) (input : list Z) : Prop :=
  exists a' block d1, demodulate (Cfg d) a input = Some (a', block) /\ len block = BlockSize (Cfg d) /\ Forall is_bit block /\
    decoder_ok d1 (push w block) /\ samples_ok d1 (push w block) a' /\ registry d1 = registry d /\ Cfg d1 = Cfg d /\
    retained (samples d1) = retained (samples d) /\ Decode_seeing see order d input = decodeQuantized see order d1.

Lemma advance_power see order d w p hist input :
  decoder_ok d w -> samples d = Power p -> samples_ok d w (RecentPowers hist) ->
  144 + 8192 <= BufferLength (Cfg d) -> Forall is_byte input -> BlockSize2 (Cfg d) <= len input ->
  advanced see order d w (RecentPowers hist) input.
Proof.
  intros Hd Es Hs Hbl Hb Hl. unfold samples_ok in Hs. rewrite Es in Hs.
  destruct Hs as (Hok & Hov & Hf & Hg & Hlaw & Hpk). destruct (compatible_config _ Hg) as (Ec & Esl & Eb & Eb2).
  rewrite Esl in Hov. rewrite Eb2 in Hl. set (input' := take (Z.to_nat 16384) input).
  assert (len input' = 16384) as Hl' by (unfold input', len in *; rewrite length_take; lia).
  destruct (power_reference (Cfg d) hist (p_strips p) input' Hok Hg Hov Hbl Hf ltac:(by apply Forall_take) Hl')
    as (powers & block & h1 & win & h' & w' & ED & Hlb & Hbb & E1 & E2 & E3 & E4 & E5 & E6 & E7 & E8 & E9).
  assert (demodulate (Cfg d) (RecentPowers hist) input = Some (RecentPowers (push hist powers), block)) as ED'.
  { revert ED. unfold demodulate, input'. rewrite Eb2, take_take, Nat.min_id. done. }
  unfold advanced. rewrite Eb. unfold Decode_seeing. rewrite Es. unfold appendPower16AndFilter. rewrite Eb2, (proj2 (Z.ltb_ge _ _)) by done.
  rewrite slice_prefix by lia. fold input'. cbn [mbind option_bind]. rewrite E1. cbn [mbind option_bind]. rewrite E2. cbn [mbind option_bind].
  assert (forall d' p', Cfg d' = Cfg d -> samples d' = Power p' -> p_strips p' = h' -> fused_lawful p' ->
    (p_runPacked p' <> None -> packed_ok (Cfg d) (p_packed p') /\ bytes_bits (packed_window (p_packed p')) = push w block /\
         Forall is_byte (packed_window (p_packed p')) /\
         packedLookahead (p_packed p') = (BlockSize (Cfg d) + PreambleLength (Cfg d)) / 8) ->
    samples_ok d' (push w block) (RecentPowers (push hist powers))) as Hok'.
  { intros d' p' EC ES EH HL HP. unfold samples_ok. rewrite ES, EC, EH, E8, Esl. done. }
  destruct (p_runPacked p) as [f|] eqn:Ep.
  2: { pose proof (run_lawful p Hlaw win input' E3 E4 Hl' ltac:(by apply Forall_take)) as HR. rewrite E5 in HR.
    change power16BlockSize with 8192 in HR. rewrite Eb, HR. cbn [mbind option_bind]. rewrite E6. cbn [mbind option_bind].
    set (p' := {| p_strips := h'; p_run := p_run p; p_runPacked := None; p_packed := p_packed p; nativeBlocks := _ |}).
    destruct (decodeFiltered_ready see order d w (Power p') (packed d) block Hd ltac:(by rewrite Eb) Hbb) as (r & pk & Hd1 & EQ); [done|done|].
    eexists _, block, _. do 3 (split; [done|]). split; [exact Hd1|].
    split; [|split; [done|split; [done|split; [cbn; rewrite ?Es; exact E8|exact EQ]]]].
    apply (Hok' _ p'); try done. constructor; [apply Hlaw|done]. }
  destruct (Hpk ltac:(done)) as (Hpo & Hpb & Hpby & Hpla).
  pose proof (packQuantized_spec 1024 block Hbb ltac:(unfold len in Hlb; lia)) as (bytes & Epk & Hbyl & Hbyb & Hbybits).
  destruct (packed_write_push (Cfg d) (p_packed p) bytes Hpo) as (ring' & Ew & Hpo' & Hla' & Hpl' & Hpw'); [unfold len; by rewrite Hbyl, Eb|].
  pose proof Ew as Ew'. unfold packed_write in Ew'. apply bind_Some in Ew' as ([[output ns] tl] & En & _).
  assert (len output = 1024) as Hlo.
  { unfold nextPackedOutput in En. apply bind_Some in En as (o & Eo & En). apply (inj Some) in En. injection En as <- _ _.
    rewrite (slice_len _ _ _ _ Eo), Eb. change (Z.shiftr 8192 3) with 1024. lia. }
  pose proof (runPacked_lawful p Hlaw f win input' Ep E3 E4 Hl' ltac:(by apply Forall_take)) as HR. rewrite E5 in HR. cbn [mbind option_bind] in HR.
  change (Z.of_nat 1024) with 1024 in Epk. rewrite Epk in HR. cbn [mbind option_bind] in HR. change power16BlockSize with 8192 in HR.
  rewrite En. cbn [mbind option_bind]. rewrite Eb, Hlo, HR. cbn [mbind option_bind]. rewrite E6. cbn [mbind option_bind].
  pose proof (packedSearchWindow_spec (Cfg d) ring' Hpo') as Esw. rewrite Hpw' in Esw. rewrite Hla' in Esw.
  assert (bytes_bits (packed_window ring') = push w block) as Hpb'.
  { rewrite Hpw', push_bits, Hpb, Hbybits. f_equal. apply take_ge. unfold len in Hlb. lia. }
  assert (packed_holds (Cfg d) (take (Z.to_nat (packedLookahead (p_packed p))) (push (packed_window (p_packed p)) bytes)) (push w block)) as Hholds.
  { destruct Hpo' as [_ _ _ P4 P5 P6 _]. split; [|split].
    - unfold len. rewrite length_take, Nat.min_l; [rewrite Hpla; rewrite Z2Nat.id; [done|]|].
      + apply Z.div_pos; [|lia]. pose proof (bg_preamble _ (d_bytes _ _ Hd)). rewrite Eb. lia.
      + rewrite <- Hpw'. unfold packed_window. rewrite length_ring. unfold len in P6. lia.
    - apply Forall_take, Forall_app. auto with go.
    - rewrite bytes_bits_take, <- Hpw', Hpb'. f_equal. rewrite length_take. rewrite Nat.min_l; [done|].
      unfold packed_window. rewrite length_ring. unfold len in P6. lia. }
  assert (packed_ok (Cfg d) ring' /\ bytes_bits (packed_window ring') = push w block /\ Forall is_byte (packed_window ring') /\
    packedLookahead ring' = (BlockSize (Cfg d) + PreambleLength (Cfg d)) / 8) as Hring.
  { split; [done|]. split; [done|]. split; [rewrite Hpw'; apply Forall_app; auto with go|by rewrite Hla']. }
  pose proof (d_bytes _ _ Hd) as [G HB HP _]. pose proof (d_ring _ _ Hd) as Hr.
  set (p' := {| p_strips := h'; p_run := p_run p; p_runPacked := Some f; p_packed := ring'; nativeBlocks := u64 (nativeBlocks p + 1) |}).
  assert (fused_lawful p') as Hlaw' by (constructor; [exact (run_lawful p Hlaw)|intros g wn ip [= <-]; exact (runPacked_lawful p Hlaw f wn ip Ep)]).
  destruct (ownsQuantizedRing (Cfg d) (decisions d)) eqn:Eown.
  - destruct (direct_write_push (Cfg d) G (decisions d) block Hr Eown ltac:(by rewrite Eb)) as (r & Er & Hr' & Hown' & Hw).
    rewrite Er. cbn [mbind option_bind]. rewrite Ew. cbn [mbind option_bind]. rewrite Esw. cbn [mbind option_bind].
    rewrite (d_window _ _ Hd) in Hw.
    eexists _, block, _. do 3 (split; [done|]). split; [|split; [|split; [|split; [|split; [|reflexivity]]]]]; [|by apply (Hok' _ p')|done|done|cbn; rewrite ?Es; exact E8].
    apply (with_block_ok d w); try done; [exact (direct_aligned (Cfg d) (decisions d) block r G HB HP Hr (d_aligned _ _ Hd) Er)|].
    apply push_bits_Forall; [exact (d_bits _ _ Hd)|done].
  - cbn [mbind option_bind]. rewrite Ew. cbn [mbind option_bind]. rewrite Esw. cbn [mbind option_bind].
    destruct (decodeFiltered_ready see order d w (Power p') _ block Hd ltac:(by rewrite Eb) Hbb ltac:(intros _; exact Hholds)) as (r & pk & Hd1 & EQ); [done|].
    eexists _, block, _. do 3 (split; [done|]). split; [exact Hd1|].
    split; [|split; [done|split; [done|split; [cbn; rewrite ?Es; exact E8|exact EQ]]]].
    by apply (Hok' _ p').
Qed.

Lemma advance_float see order d w hist input :
  decoder_ok d w -> samples_ok d w (RecentMagnitudes hist) -> 0 < ChipLength (Cfg d) -> SymbolLength (Cfg d) = 2 * ChipLength (Cfg d) ->
  SymbolLength (Cfg d) <= PacketLength (Cfg d) -> Forall is_byte input -> 2 * BlockSize (Cfg d) <= len input ->
  advanced see order d w (RecentMagnitudes hist) input.
Proof.
  intros Hd Hs Hc Hsl Hpl Hb Hl.
  destruct (appendSignal_spec d w hist input Hd Hs Hc Hsl Hb Hl Hpl) as (s' & hist' & block & ED & EA & Hp' & Hp & Hret & Hlb & Hbb & EF & Hok').
  destruct (decodeFiltered_ready see order d w s' (packed d) block Hd Hlb Hbb) as (r & pk & Hd1 & EQ); [by rewrite Hp'|done|].
  exists (RecentMagnitudes hist'), block, (with_block d s' r pk). do 3 (split; [done|]). split; [done|]. split; [by apply Hok'|].
  do 3 (split; [done|]). unfold Decode_seeing. unfold samples_ok in Hs.
  destruct (samples d) as [s|h|p]; [| |done]; rewrite EA; cbn [mbind option_bind]; unfold Filter;
    (destruct (filterManchesterA72Platform _ _ _) as [out|] eqn:Ef;
      [apply manchester_agrees in Ef; rewrite EF in Ef; apply (inj Some) in Ef as <-|rewrite EF]; exact EQ).
Qed.
End Refinement.
