(* ===== verification/Receiver.v ===== *)
(** The decoder as a whole: what Allocate establishes, that Decode refines the
    abstract decoder of Decode.v block by block, and that Reset returns to the
    allocated state (src/protocol/decode.go, src/protocol/power16.go). *)

From S2P Require Import Prelude Float64 Packet Layout Search Ring History Signal Register Decode.

Section Receiver.
Context {S M : Type} `{ParserOps S M} `{SearchPlatform} `{DualPlatform} `{MagnitudePlatform} `{ManchesterPlatform}.

(** ** A decoder between two calls *)

(** [w] is the window of decisions and [a] the retained samples. *)
Record ready (d : Decoder S) (w : list Z) (a : History) : Prop := {
  rd_decoder : decoder_ok d w;
  rd_samples : samples_ok d w a;
  rd_chip : 0 < ChipLength (Cfg d);
  rd_symbol : SymbolLength (Cfg d) = 2 * ChipLength (Cfg d);
  rd_packet : SymbolLength (Cfg d) <= PacketLength (Cfg d);
  rd_block2 : BlockSize2 (Cfg d) = 2 * BlockSize (Cfg d) }.

Lemma ready_advances see order (d : Decoder S) w a input :
  ready d w a -> Forall is_byte input -> BlockSize2 (Cfg d) <= len input -> advanced see order d w a input.
Proof.
  intros [Hd Hs Hc Hsl Hp Hb2] Hb Hl. destruct a as [hist|hist]; [apply advance_float; (done || lia)|].
  unfold samples_ok in Hs. destruct (samples d) as [| |p] eqn:Es; [done|done|].
  assert (samples_ok d w (RecentPowers hist)) as Hs' by (unfold samples_ok; by rewrite Es).
  destruct Hs as (_ & _ & _ & Hg & _). destruct (compatible_config _ Hg) as (_ & Esl & Eb & _).
  pose proof (geo_buffer _ (bg_geometry _ (d_bytes _ _ Hd))).
  apply (advance_power see order d w p hist input); (done || lia).
Qed.

(** The samples of a decoder whose ring, parsers and scratch have changed. *)
Lemma after_parse_samples (d : Decoder S) w a st : samples_ok d w a -> samples_ok (fst (after_parse (M := M) d st)) w a.
Proof. by destruct st as [[[objs buf] idx] ms]. Qed.

(** ** Registration gives a registry the dual search can rely on *)

Definition is_preamble_text (t : list Z) : Prop := Forall (fun c => c = 48 \/ c = 49) t.

Lemma preamble_bytes_inj t u : is_preamble_text t -> is_preamble_text u -> preamble_bytes t = preamble_bytes u -> t = u.
Proof.
  intros Ht. revert u. induction Ht as [|c t Hc Ht IH]; intros u Hu E; [by destruct u|].
  destruct u as [|c' u]; [done|]. apply Forall_cons in Hu as [Hc' Hu]. injection E as E1 E2.
  rewrite (IH u Hu E2). f_equal. destruct Hc as [->| ->], Hc' as [->| ->]; done.
Qed.

Lemma preamble_bytes_bits t : Forall is_bit (preamble_bytes t).
Proof. apply Forall_fmap, Forall_true. intros c. cbn. destruct (c =? 49); split; (discriminate || reflexivity). Qed.

(** The preambles of the configurations are texts of the length they state. *)
Definition preamble_stated (p : S) : Prop :=
  is_preamble_text (Preamble (Cfg_of p)) /\ len (Preamble (Cfg_of p)) <= PreambleSymbols (Cfg_of p).

Lemma fixed_preambles : is_preamble_text fixedIDMPreambleASCII /\ is_preamble_text fixedR900PreambleASCII.
Proof.
  split; unfold is_preamble_text; apply Forall_forall; intros c Hc; 
    repeat (apply list_elem_of_In in Hc; destruct Hc as [<-|Hc]; [by (left + right)|apply list_elem_of_In in Hc]);
    by apply elem_of_nil in Hc.
Qed.

(** One fixed family in the registry. *)
Definition family_ok (r : Registry S) (text : list Z) (parsers : list nat) (key : list Z) : Prop :=
  (parsers <> [] -> key = preamble_bytes text /\ preambles r !! preamble_bytes text = Some parsers) /\
  (parsers = [] -> preambles r !! preamble_bytes text = None).

Lemma RegisterProtocol_families r p :
  let sharing := default [] (preambles r !! key_of p) ++ [length (objects r)] in
  let idm := bool_decide (Preamble (Cfg_of p) = fixedIDMPreambleASCII) in
  let r900 := bool_decide (Preamble (Cfg_of p) = fixedR900PreambleASCII) in
  fixedIDMParsers (RegisterProtocol r p) = (if idm then sharing else fixedIDMParsers r) /\
  fixedIDMPreambleKey (RegisterProtocol r p) = (if idm then key_of p else fixedIDMPreambleKey r) /\
  fixedR900Parsers (RegisterProtocol r p) = (if r900 then sharing else fixedR900Parsers r) /\
  fixedR900PreambleKey (RegisterProtocol r p) = (if r900 then key_of p else fixedR900PreambleKey r).
Proof. unfold RegisterProtocol. by destruct (history_overlap p). Qed.

Lemma family_step r text parsers key p :
  is_preamble_text text -> preamble_stated p -> family_ok r text parsers key ->
  let sharing := default [] (preambles r !! key_of p) ++ [length (objects r)] in
  family_ok (RegisterProtocol r p) text (if bool_decide (Preamble (Cfg_of p) = text) then sharing else parsers)
    (if bool_decide (Preamble (Cfg_of p) = text) then key_of p else key).
Proof.
  intros Ht [Hp _] [K1 K2] sharing.
  destruct (RegisterProtocol_fields r p) as (_ & _ & _ & E & _). cbv zeta in E. fold sharing in E.
  unfold family_ok. rewrite E. destruct (bool_decide_reflect (Preamble (Cfg_of p) = text)) as [Et|Et].
  - unfold key_of. rewrite Et, lookup_insert_eq. split; [done|]. intros En. unfold sharing in En. by apply app_eq_nil in En as [_ ?].
  - assert (key_of p <> preamble_bytes text) as Hne by (intros Ek; apply Et; by apply preamble_bytes_inj).
    rewrite lookup_insert_ne by done. done.
Qed.

Lemma register_all_ok (ps : list S) : Forall preamble_stated ps -> registry_ok (register_all ps).
Proof.
  intros Hps. assert (registry_ok (register_all ps) /\
    family_ok (register_all ps) fixedIDMPreambleASCII (fixedIDMParsers (register_all ps)) (fixedIDMPreambleKey (register_all ps)) /\
    family_ok (register_all ps) fixedR900PreambleASCII (fixedR900Parsers (register_all ps)) (fixedR900PreambleKey (register_all ps)))
    as [? _]; [|done].
  induction ps as [|p ps IH] using rev_ind.
  { split; [constructor; try done; intros key [x Hx]; cbv in Hx; discriminate|]. by split. }
  apply Forall_app in Hps as [Hps [Hp _]%Forall_cons]. destruct (IH Hps) as ([_ _ Hk] & Hi & Hr). clear IH.
  unfold register_all. rewrite foldl_snoc. fold (register_all ps). set (r := register_all ps) in *.
  pose proof (family_step r _ _ _ p (proj1 fixed_preambles) Hp Hi) as Hi'.
  pose proof (family_step r _ _ _ p (proj2 fixed_preambles) Hp Hr) as Hr'. cbv zeta in *.
  destruct (RegisterProtocol_fields r p) as (_ & Ec & _ & E & _). cbv zeta in *.
  assert (family_ok (RegisterProtocol r p) fixedIDMPreambleASCII (fixedIDMParsers (RegisterProtocol r p)) (fixedIDMPreambleKey (RegisterProtocol r p)) /\
    family_ok (RegisterProtocol r p) fixedR900PreambleASCII (fixedR900Parsers (RegisterProtocol r p)) (fixedR900PreambleKey (RegisterProtocol r p)))
    as [Gi Gr].
  { destruct (RegisterProtocol_families r p) as (-> & -> & -> & ->). done. }
  split; [|done]. constructor; [apply Gi|apply Gr|].
  intros key. rewrite E, Ec. cbn [merge_config PreambleSymbols]. destruct (decide (key_of p = key)) as [<-|Hne].
  - intros _. split; [apply preamble_bytes_bits|]. unfold key_of, preamble_bytes, len. rewrite length_map.
    destruct Hp as [_ Hp]. unfold len in Hp. lia.
  - rewrite lookup_insert_ne by done. intros Hs. destruct (Hk key Hs). split; [done|lia].
Qed.

(** ** Allocation *)

(** What the self tests of a probed platform check. *)
Definition probe_lawful (probe : option (unit -> power16Platform)) : Prop :=
  forall f fr cfg ov, probe = Some f -> run (f tt) = Some fr -> fused_lawful (allocatePower16 cfg ov (f tt) fr).

(** The sample history before the first block. *)
Definition silence (d : Decoder S) : History :=
  match samples d with
  | FloatWindow s => RecentMagnitudes (make (BlockSize (Cfg d) + SymbolLength (Cfg d)) fzero)
  | FloatHistory h => RecentMagnitudes (make (overlap h + blockCount h * BlockSize (Cfg d)) fzero)
  | Power p => RecentPowers (make (overlap (p_strips p) + blockCount (p_strips p) * BlockSize (Cfg d)) 0)
  end.

(** The parser set: whole nibbles per packet, which parsers do not read past, preambles as stated, and an overlap that
    is absent or one to two symbols long. *)
Record allocatable (r : Registry S) : Prop := {
  al_chip : 0 < ChipLength (r_Cfg r) /\ ChipLength (r_Cfg r) mod 4 = 0;
  al_preamble : 4 <= PreambleSymbols (r_Cfg r) <= PacketSymbols (r_Cfg r);
  al_packet : PacketSymbols (r_Cfg r) mod 4 = 0;
  al_padding : padding_ignored (derive_config (r_Cfg r)) (objects r);
  al_overlap : signalHistoryOverlap r = 0 \/ 2 * ChipLength (r_Cfg r) <= signalHistoryOverlap r <= 4 * ChipLength (r_Cfg r);
  al_dual : dual_fits r (derive_config (r_Cfg r));
  al_registry : registry_ok r }.

(** The parts of a fresh decoder that do not depend on the samples. *)
Lemma fresh_decoder r objs cfg s pk pol pr st direct :
  allocatable r -> padding_ignored (derive_config (r_Cfg r)) objs -> cfg = derive_config (r_Cfg r) ->
  len pk = (BlockSize cfg + PreambleLength cfg) / 8 -> pk = make (len pk) 0 ->
  decoder_ok (S := S) {| registry := with_objects r objs; Cfg := cfg; decisions := allocate_ring cfg direct; samples := s; packed := pk;
    pkt := make (Z.shiftr (PacketSymbols cfg + 7) 3) 0; sIdxA := []; policy := pol; probe := pr; dispatchStatus := st |}
    (make (BufferLength cfg) 0).
Proof.
  intros [[C1 C2] C3 C4 _ C5 Cd C6] Cpad -> Hlen Hpk.
  destruct (derive_bytes (r_Cfg r) (4 * ChipLength (r_Cfg r)) C1 C3 C4 ltac:(lia)) as (Hb & _ & Hs).
  destruct (derive_lengths (r_Cfg r) C1 C3) as (Es & Epre & Epkt & _ & Ebuf & _).
  pose proof (eq_refl : PacketSymbols (derive_config (r_Cfg r)) = PacketSymbols (r_Cfg r)) as Eps.
  set (cfg := derive_config (r_Cfg r)) in *. pose proof (bg_geometry _ Hb) as G.
  apply Z.mod_divide in C2 as [c Hc]; [|lia].
  destruct (fresh_ring cfg G direct) as (R1 & R2 & _).
  constructor; cbn [registry Cfg decisions packed pkt with_objects r_Cfg]; try done.
  - destruct C6 as [I1 I2 I3]. by constructor.
  - rewrite Eps, shiftr3. unfold make. rewrite length_replicate. pose proof (Z.div_mod (PacketSymbols (r_Cfg r) + 7) 8 ltac:(lia)).
    pose proof (Z.mod_pos_bound (PacketSymbols (r_Cfg r) + 7) 8 ltac:(lia)). constructor; [done|lia| |]; lia.
  - rewrite Es, Hc. replace (2 * (c * 4)) with (c * 8) by ring. apply Z.mod_mul. lia.
  - by destruct direct.
  - apply Forall_make. split; (discriminate || reflexivity).
  - apply Forall_make. split; (discriminate || reflexivity).
  - rewrite Hpk. split; [apply Forall_make; split; (discriminate || reflexivity)|].
    assert (8 * len pk <= BufferLength cfg) as Hfit.
    { rewrite Hlen, Ebuf. pose proof (bg_preamble _ Hb). pose proof (Z.mul_div_le (BlockSize cfg + PreambleLength cfg) 8). lia. }
    assert (0 <= len pk) by apply len_nonneg. rewrite <- (Z2Nat.id (len pk)), bytes_bits_zeros by lia.
    unfold make. rewrite length_replicate, take_replicate, !Nat2Z.id. f_equal. lia.
Qed.

Lemma pack_size cfg : byte_geometry cfg -> PreambleLength cfg mod 8 = 0 ->
  Z.shiftr (BlockSize cfg + PreambleLength cfg + 7) 3 = (BlockSize cfg + PreambleLength cfg) / 8 /\
  0 <= (BlockSize cfg + PreambleLength cfg) / 8.
Proof.
  intros [[G1 _ _] HB _ HP] Hp. rewrite shiftr3. apply Z.mod_divide in HB as [b Hb], Hp as [p Hp]; [|lia..].
  rewrite Hb, Hp, <- Z.mul_add_distr_r. rewrite (Z.add_comm _ 7), Z.div_add, Z.div_mul by lia. change (7 / 8) with 0. nia.
Qed.

(** A fresh sample history. *)
Lemma fresh_samples r cfg (ov : Z) : allocatable r -> cfg = derive_config (r_Cfg r) ->
  SymbolLength cfg <= ov <= 2 * SymbolLength cfg -> strip_geometry cfg ov.
Proof.
  intros [[C1 C2] C3 C4 _ C5 C6] -> Hov. destruct (derive_lengths (r_Cfg r) C1 C3) as (Es & _). rewrite Es in Hov.
  by apply (derive_bytes (r_Cfg r) ov C1 C3 C4); lia.
Qed.

Lemma fresh_power_packed cfg : byte_geometry cfg ->
  packedSearchWindow (allocate_packed cfg) = Some (make ((BlockSize cfg + PreambleLength cfg) / 8) 0).
Proof.
  intros Hb. destruct (fresh_packed cfg Hb) as [Ok W]. rewrite (packedSearchWindow_spec cfg) by done. rewrite W. f_equal.
  assert (packedLookahead (allocate_packed cfg) = (BlockSize cfg + PreambleLength cfg) / 8) as E by (unfold allocate_packed; cbn [packedLookahead]; apply shiftr3).
  rewrite <- E. apply take_make. pose proof (packed_look _ _ Ok). pose proof (packed_block _ _ Ok).
  unfold allocate_packed in *. cbn [packedLength packedLookahead] in *. rewrite !shiftr3 in *. lia.
Qed.

(** Allocate succeeds and its decoder is ready, its window all zero. *)
Lemma Allocate_ready r pol pr : allocatable r -> probe_lawful pr ->
  exists d, Allocate r pol pr = Some d /\ ready d (make (BufferLength (Cfg d)) 0) (silence d) /\
    preambles (registry d) = preambles r /\ Cfg d = derive_config (r_Cfg r).
Proof.
  intros Hal Hpr. pose proof Hal as [[C1 C2] C3 C4 Cpad C5 _ C6].
  destruct (derive_bytes (r_Cfg r) (4 * ChipLength (r_Cfg r)) C1 C3 C4 ltac:(lia)) as (Hb & _ & Hs1 & Hs2).
  destruct (derive_lengths (r_Cfg r) C1 C3) as (Es & Epre & Epkt & Eb2 & Ebuf & Ec & _). unfold Allocate.
  set (cfg := derive_config (r_Cfg r)) in *. pose proof (geo_block _ (bg_geometry _ Hb)) as Hblk.
  assert (SymbolLength cfg mod 8 = 0) as Hs8.
  { apply Z.mod_divide in C2 as [c Hc]; [|lia]. rewrite Es, Hc. replace (2 * (c * 4)) with (c * 8) by ring. apply Z.mod_mul. lia. }
  destruct (pack_size cfg Hb) as [Epk Hpk0].
  { apply Z.mod_divide in Hs8 as [c Hc]; [|lia]. rewrite Epre, Hc, Z.mul_assoc. apply Z.mod_mul. lia. }
  assert (forall objs s pk st, padding_ignored cfg objs -> len pk = (BlockSize cfg + PreambleLength cfg) / 8 -> pk = make (len pk) 0 ->
    forall d, d = {| registry := with_objects r objs; Cfg := cfg; decisions := allocate_ring cfg (packed_producer s); samples := s; packed := pk;
      pkt := make (Z.shiftr (PacketSymbols cfg + 7) 3) 0; sIdxA := []; policy := pol; probe := pr; dispatchStatus := st |} ->
    samples_ok d (make (BufferLength cfg) 0) (silence d) ->
    exists d', Some d = Some d' /\ ready d' (make (BufferLength (Cfg d')) 0) (silence d') /\
      preambles (registry d') = preambles r /\ Cfg d' = cfg) as Hfin.
  { intros objs s pk st Hpad Hlen Hpk d -> Hsok. eexists. split; [reflexivity|]. split; [|done]. constructor; [|done|..]; cbn [Cfg]; try lia.
    by apply fresh_decoder. }
  pose proof (padding_set_consumers cfg false _ (power16Consumers r) Cpad) as Hdetached.
  destruct (selectPower16Platform _ _ _ _ _) as [sel st] eqn:Esel.
  set (zeros := make (Z.shiftr (BlockSize cfg + PreambleLength cfg + 7) 3) 0).
  assert (len zeros = (BlockSize cfg + PreambleLength cfg) / 8 /\ zeros = make (len zeros) 0) as [Z1 Z2].
  { unfold zeros. rewrite Epk, len_make by done. done. }
  assert (let samples := allocateFloatSignal cfg (signalHistoryOverlap r) in exists d,
    (packed ← match samples with Power p => if packed_producer samples then packedSearchWindow (p_packed p) else Some zeros | _ => Some zeros end;
     Some {| registry := with_objects r (set_consumers false (objects r) (power16Consumers r));
      Cfg := cfg; decisions := allocate_ring cfg (packed_producer samples); samples := samples; packed := packed;
      pkt := make (Z.shiftr (PacketSymbols cfg + 7) 3) 0; sIdxA := []; policy := pol; probe := pr; dispatchStatus := st |}) = Some d /\
    ready d (make (BufferLength (Cfg d)) 0) (silence d) /\ preambles (registry d) = preambles r /\ Cfg d = cfg) as Hfloat.
  { unfold allocateFloatSignal. destruct (Z.ltb_spec 0 (signalHistoryOverlap r)) as [Hov|Hov].
    - eapply (Hfin _ (FloatHistory _) zeros st Hdetached Z1 Z2 _ eq_refl). unfold samples_ok, silence. cbn [samples Cfg]. split; [|cbn [allocate_history overlap]; lia].
      apply fresh_history, (fresh_samples r); (done || lia).
    - eapply (Hfin _ (FloatWindow _) zeros st Hdetached Z1 Z2 _ eq_refl). unfold samples_ok, silence. cbn [samples Cfg]. split; [done|].
      rewrite len_make; lia. }
  destruct sel as [pf|]; [|exact Hfloat]. destruct (run pf) as [fr|] eqn:Efr; [|exact Hfloat]. clear Hfloat.
  assert (geometry_compatible cfg = true /\ exists f, pr = Some f /\ f tt = pf) as (Hg & f & Ef & Epf).
  { unfold selectPower16Platform in Esel. destruct (decide _); [done|]. destruct (negb _); [done|].
    destruct (geometry_compatible cfg); [|done]. split; [done|]. destruct pr as [f|]; [|done]. cbn [negb] in Esel.
    destruct (platform_refused _); [done|]. injection Esel as <- _. by exists f. }
  pose proof (Hpr f fr cfg (signalHistoryOverlap r) Ef ltac:(by rewrite Epf)) as Hlaw. rewrite Epf in Hlaw.
  set (p := allocatePower16 cfg (signalHistoryOverlap r) pf fr) in *.
  assert (exists pk, (if packed_producer (Power p) then packedSearchWindow (p_packed p) else Some zeros) = Some pk /\
    len pk = (BlockSize cfg + PreambleLength cfg) / 8 /\ pk = make (len pk) 0) as (pk & -> & P1 & P2).
  { unfold p. cbn [packed_producer allocatePower16 p_runPacked p_packed]. destruct (runPacked pf); [|by exists zeros].
    rewrite fresh_power_packed by done. eexists. split; [done|]. rewrite len_make by lia. done. }
  cbn [mbind option_bind]. apply (Hfin _ (Power p) pk st (padding_set_consumers cfg true _ _ Hdetached) P1 P2 _ eq_refl).
  unfold samples_ok, silence. cbn [samples Cfg].
  set (ov := if signalHistoryOverlap r <? SymbolLength cfg then SymbolLength cfg else signalHistoryOverlap r).
  assert (SymbolLength cfg <= ov <= 2 * SymbolLength cfg) as Hov by (unfold ov; destruct (Z.ltb_spec (signalHistoryOverlap r) (SymbolLength cfg)); lia).
  split; [apply (fresh_history 0 cfg ov), (fresh_samples r); done|]. split; [apply Hov|].
  split; [apply Forall_make; split; (discriminate || reflexivity)|]. split; [done|]. split; [done|].
  unfold p. cbn [allocatePower16 p_runPacked p_packed]. destruct (runPacked pf); [intros _|done].
  destruct (fresh_packed cfg Hb) as [Ok W]. split; [done|]. rewrite W.
  split; [|split; [apply Forall_make; split; (discriminate || reflexivity)|unfold allocate_packed; cbn [packedLookahead]; apply shiftr3]].
  assert (0 <= BufferLength cfg / 8) by (apply Z.div_pos; lia).
  rewrite <- (Z2Nat.id (BufferLength cfg / 8)), bytes_bits_zeros by lia. f_equal.
  destruct Hb as [_ B1 B2 _]. apply Z.mod_divide in B1 as [b B1], B2 as [q B2]; [|lia..].
  assert (BufferLength cfg = (q + b) * 8) as -> by lia. rewrite Z.div_mul by lia. lia.
Qed.

(** ** The abstract receiver *)

(** Its state: the decisions, the samples, the parsers. *)
Record Abstract := { a_window : list Z; a_history : History; a_objects : list S }.

(** What the parsers may read: any window of the newest samples that is no longer
    than the overlap. *)
Definition shows (cfg : PacketConfig) (ov : Z) (a : History) (v : View) : Prop :=
  v_Cfg v = cfg /\ forall idx n, 0 <= idx < BufferLength cfg -> 0 < n <= ov -> idx + n <= BufferLength cfg ->
    match a with
    | RecentMagnitudes hist => v_SignalWindow v idx n = Some (sub (Z.to_nat idx) (Z.to_nat n) (tail_of (BufferLength cfg) hist))
    | RecentPowers hist => v_Power16Window v idx n = Some (sub (Z.to_nat idx) (Z.to_nat n) (tail_of (BufferLength cfg) hist))
    end.

(** One block: demodulate, shift it in, serve the preambles in some order. *)
Inductive abstract_step (cfg : PacketConfig) (ov : Z) (preambles : gmap (list Z) (list nat)) (A : Abstract) (input : list Z)
  : option (Abstract * list M) -> Prop :=
  | reception order a block v :
      order ≡ₚ elements (dom preambles) -> demodulate cfg (a_history A) input = Some (a, block) -> shows cfg ov a v ->
      abstract_step cfg ov preambles A input
        ('(objs, messages) ← spec_decode v (push (a_window A) block) preambles order (a_objects A);
         Some ({| a_window := push (a_window A) block; a_history := a; a_objects := objs |}, messages)).

(** Block after block: the parsers at the end and the messages of every block, or
    nothing when a parser fails. *)
Inductive abstract_run (cfg : PacketConfig) (ov : Z) (preambles : gmap (list Z) (list nat))
  : Abstract -> list (list Z) -> option (list S * list (list M)) -> Prop :=
  | run_done A : abstract_run cfg ov preambles A [] (Some (a_objects A, []))
  | run_block A input inputs A' messages out :
      abstract_step cfg ov preambles A input (Some (A', messages)) -> abstract_run cfg ov preambles A' inputs out ->
      abstract_run cfg ov preambles A (input :: inputs) ('(objs, rest_) ← out; Some (objs, messages :: rest_))
  | run_fault A input inputs :
      abstract_step cfg ov preambles A input None -> abstract_run cfg ov preambles A (input :: inputs) None.

(** The calls of Decode on successive blocks, each with the order in which it walks
    the map. *)
Fixpoint decode_run (d : Decoder S) (calls : list (list (list Z) * list Z)) : option (Decoder S * list (list M)) :=
  match calls with
  | [] => Some (d, [])
  | (order, input) :: calls =>
      '(d, messages) ← Decode order d input;
      '(d, rest_) ← decode_run d calls;
      Some (d, messages :: rest_)
  end.

(** ** Refinement *)

Lemma recent_tail {A} cfg (h : Strips A) hist : history_ok cfg h hist -> 0 < BufferLength cfg ->
  recent h hist = tail_of (BufferLength cfg) hist.
Proof.
  intros Hok Hb. unfold recent, tail_of. f_equal. destruct Hok as [_ _ _ A1 _ A2 [A3 A4] _ _ A5 _]. unfold len in A5. lia.
Qed.

Lemma view_shows (d : Decoder S) w a : samples_ok d w a -> 0 < BufferLength (Cfg d) ->
  shows (Cfg d) (retained (samples d)) a (view d).
Proof.
  intros Hs Hb. split; [done|]. intros idx n Hi Hn Hin. unfold samples_ok in Hs. unfold view. cbn [v_SignalWindow v_Power16Window].
  destruct (samples d) as [s|h|p], a as [hist|hist]; try done; cbn [retained] in Hn; [lia| |].
  - destruct Hs as [Hok _]. unfold SignalWindow. rewrite (proj2 (Z.ltb_ge _ _)) by lia.
    rewrite (history_window_recent _ _ hist) by (done || lia). by rewrite (recent_tail (Cfg d)).
  - destruct Hs as [Hok _]. unfold Power16Window.
    repeat (rewrite (proj2 (Z.ltb_ge _ _)) by lia). rewrite (proj2 (Z.leb_gt _ _)) by lia. cbn [orb].
    rewrite (history_window_recent _ _ hist) by (done || lia). by rewrite (recent_tail (Cfg d)).
Qed.

(** One call of Decode is one abstract step, and leaves the decoder ready. *)
Lemma Decode_step order d w a input :
  ready d w a -> Forall is_byte input -> BlockSize2 (Cfg d) <= len input -> order ≡ₚ elements (dom (preambles (registry d))) ->
  let A := {| a_window := w; a_history := a; a_objects := objects (registry d) |} in
  match Decode order d input with
  | Some (d', messages) => exists w' a', ready d' w' a' /\ Cfg d' = Cfg d /\ retained (samples d') = retained (samples d) /\
      preambles (registry d') = preambles (registry d) /\
      abstract_step (Cfg d) (retained (samples d)) (preambles (registry d)) A input
        (Some ({| a_window := w'; a_history := a'; a_objects := objects (registry d') |}, messages))
  | None => abstract_step (Cfg d) (retained (samples d)) (preambles (registry d)) A input None
  end.
Proof.
  intros Hr Hb Hl Ho A. unfold Decode. destruct (ready_advances view order d w a input Hr Hb Hl) as (a' & block & d1 & ED & Hlb & Hbb & Hd1 & Hs1 & Er & Ec & Et & ->).
  destruct Hr as [Hd _ Hc Hsl Hpl Hb2]. pose proof (bg_geometry _ (d_bytes _ _ Hd1)) as G. destruct G as [G1 G2 G3].
  destruct (decodeQuantized_spec view order d1 (push w block) eq_refl Hd1) as (order' & x & Ho' & -> & Hx); [by rewrite Er|].
  pose proof (view_shows d1 _ _ Hs1 ltac:(lia)) as Hv. rewrite Ec, Et in Hv.
  rewrite Er in Hx. rewrite Ho in Ho'.
  pose proof (reception (Cfg d) (retained (samples d)) (preambles (registry d)) A input order' a' block (view d1) Ho' ED Hv) as Hstep.
  cbn [a_window a_objects A] in Hstep. unfold tail_result in Hx.
  destruct x as [[[[objs buf] idx] ms]|]; cbn [mbind option_bind].
  - destruct Hx as (Ex & Hsc). rewrite Ex in Hstep. cbn [mbind option_bind] in Hstep.
    exists (push w block), a'. split; [|cbn; by rewrite Er, Ec, Et].
    constructor; [exact (after_parse_ok d1 _ objs buf idx ms Hd1 Hsc)|exact Hs1|..]; cbn [after_parse Cfg]; by rewrite Ec.
  - by rewrite Hx in Hstep.
Qed.

Lemma decode_run_refines d w a calls :
  ready d w a ->
  Forall (fun '(order, input) => order ≡ₚ elements (dom (preambles (registry d))) /\ Forall is_byte input /\ BlockSize2 (Cfg d) <= len input) calls ->
  abstract_run (Cfg d) (retained (samples d)) (preambles (registry d))
    {| a_window := w; a_history := a; a_objects := objects (registry d) |} (map snd calls)
    ('(d', out) ← decode_run d calls; Some (objects (registry d'), out)).
Proof.
  intros Hr Hcalls. revert d w a Hr Hcalls. induction calls as [|[order input] calls IH]; intros d w a Hr Hcalls; [constructor|].
  apply Forall_cons in Hcalls as [(Ho & Hb & Hl) Hcalls]. pose proof (Decode_step order d w a input Hr Hb Hl Ho) as Hstep. cbv zeta in Hstep.
  cbn [decode_run map snd]. destruct (Decode order d input) as [[d' ms]|]; cbn [mbind option_bind]; [|by constructor].
  destruct Hstep as (w' & a' & Hr' & Ec & Et & Ep & Hstep). rewrite <- Ec, <- Ep in Hcalls.
  specialize (IH d' w' a' Hr' Hcalls). rewrite Ec, Et, Ep in IH.
  pose proof (run_block _ _ _ _ _ _ _ _ _ Hstep IH) as Hrun.
  destruct (decode_run d' calls) as [[d2 out]|]; exact Hrun.
Qed.

(** ** Reset

    Decode only ever writes through slices of the allocated buffers, so the shape of
    the state does not change and Reset finds what Allocate made. *)

Definition ring_shape (r r' : DecisionRing) : Prop :=
  length (quantizedBacking r) = length (quantizedBacking r') /\ length <$> separate r = length <$> separate r'.

Definition strips_shape {A} (h h' : Strips A) : Prop :=
  overlap h = overlap h' /\ length (backing h) = length (backing h') /\ blockCount h = blockCount h' /\
  blockStride h = blockStride h' /\ blockShift h = blockShift h' /\ blockMask h = blockMask h' /\ gap h = gap h'.

Definition packed_shape (p p' : PackedRing) : Prop :=
  length (packedBacking p) = length (packedBacking p') /\ packedLength p = packedLength p' /\ packedLookahead p = packedLookahead p'.

Definition samples_shape (s s' : Samples) : Prop :=
  match s, s' with
  | FloatWindow l, FloatWindow l' => length l = length l'
  | FloatHistory h, FloatHistory h' => strips_shape h h'
  | Power p, Power p' => strips_shape (p_strips p) (p_strips p') /\ p_run p = p_run p' /\ p_runPacked p = p_runPacked p' /\
      packed_shape (p_packed p) (p_packed p')
  | _, _ => False
  end.

Record shape (d d' : Decoder S) : Prop := {
  sh_cfg : Cfg d = Cfg d';
  sh_ring : ring_shape (decisions d) (decisions d');
  sh_samples : samples_shape (samples d) (samples d');
  sh_packed : length (packed d) = length (packed d');
  sh_pkt : length (pkt d) = length (pkt d');
  sh_rest : policy d = policy d' /\ probe d = probe d' /\ dispatchStatus d = dispatchStatus d' }.

Lemma clear_same {A} (zero : A) l l' : length l = length l' -> clear_list zero l = clear_list zero l'.
Proof.
  revert l'. induction l as [|x l IH]; intros [|y l'] E; try done. injection E as E. cbn. f_equal. by apply IH.
Qed.

Lemma clear_make {A} (zero : A) n : clear_list zero (make n zero) = make n zero.
Proof. unfold clear_list, make. induction (Z.to_nat n) as [|k IH]; [done|]. cbn. by rewrite IH. Qed.

Lemma copy_at_len {A} (dst src dst' : list A) lo hi : copy_at dst lo hi src = Some dst' -> length dst = length dst'.
Proof.
  intros (w & Hw & K)%bind_Some. apply (inj Some) in K as <-. apply slice_Some in Hw as (A1 & A2 & ->).
  unfold len in *. rewrite !length_app, length_gocopy, !length_take, !length_drop. lia.
Qed.

Lemma with_Quantized_shape cfg r q start : length q = length (Quantized cfg r) -> ring_shape r (with_Quantized cfg r q start).
Proof.
  intros Hq. unfold with_Quantized, Quantized in *. destruct (separate r) as [l|] eqn:E; split; cbn; rewrite ?E; try done; cbn; [by rewrite Hq|].
  rewrite length_app, Hq, length_take, length_drop. lia.
Qed.

Lemma appendQuantized_shape cfg r block r' : appendQuantized cfg r block = Some r' -> ring_shape r r'.
Proof.
  intros K. unfold appendQuantized in K. repeat (apply bind_Some in K as (? & ? & K)). apply (inj Some) in K as <-.
  apply with_Quantized_shape.
  repeat match goal with E : copy_at _ _ _ _ = Some _ |- _ => apply copy_at_len in E end. congruence.
Qed.

Lemma direct_write_shape cfg r dec r' : direct_write cfg r dec = Some r' -> ring_shape r r'.
Proof.
  intros (([out ns] & tl) & _ & K)%bind_Some. apply bind_Some in K as (b & Hb%copy_at_len & K).
  set (r1 := {| quantizedBacking := b; separate := separate r; quantizedStart := quantizedStart r |}) in K.
  assert (ring_shape r1 r') as [S1 S2].
  { unfold commitQuantizedOutput in K. apply bind_Some in K as (q & Hq & K). apply (inj Some) in K as <-. apply with_Quantized_shape.
    destruct (_ <? _); [|by injection Hq as <-]. apply bind_Some in Hq as (? & _ & Hq%copy_at_len). done. }
  split; [by rewrite Hb|done].
Qed.

Lemma packed_write_shape s cfg bytes s' : packed_write s cfg bytes = Some s' -> packed_shape s s'.
Proof.
  intros (([out ns] & tl) & _ & K)%bind_Some. apply bind_Some in K as (b & Hb%copy_at_len & K). unfold commitPackedOutput in K.
  apply bind_Some in K as ([b1 e1] & H1' & K). apply bind_Some in K as (b2 & H2' & K). apply (inj Some) in K as <-. split; [|done].
  cbn [packedLength packedBacking packedLookahead] in *. assert (length b = length b1) as E1.
  { destruct (_ <? _); [|by injection H1' as <- _]. apply bind_Some in H1' as (? & _ & H1'). apply bind_Some in H1' as (? & E%copy_at_len & H1').
    injection H1' as <- _. done. }
  rewrite Hb, E1. destruct (tl <? _); [|by injection H2' as <-]. by apply bind_Some in H2' as (? & _ & ?%copy_at_len).
Qed.

Lemma strips_shape_step {A} cfg (h h' h2 : Strips A) (lo hi : Strips A -> Z) l :
  carry_overlap cfg h = Some h' -> write_samples h' (lo h') (hi h') l = Some h2 -> strips_shape h h2.
Proof.
  intros (? & _ & K)%bind_Some (b & Hb%copy_at_len & K2)%bind_Some. apply bind_Some in K as (b1 & Hb1%copy_at_len & K).
  apply (inj Some) in K as <-. apply (inj Some) in K2 as <-. cbn in *. unfold strips_shape. cbn. by rewrite Hb1, Hb.
Qed.

Lemma decodeQuantized_keeps see order d (d' : Decoder S) (ms : list M) : decodeQuantized see order d = Some (d', ms) ->
  decisions d' = decisions d /\ samples d' = samples d /\ policy d' = policy d /\ probe d' = probe d /\ dispatchStatus d' = dispatchStatus d.
Proof.
  assert (forall st, after_parse (M := M) d st = (d', ms) ->
    decisions d' = decisions d /\ samples d' = samples d /\ policy d' = policy d /\ probe d' = probe d /\ dispatchStatus d' = dispatchStatus d) as Hk.
  { intros [[[objs buf] idx] m] [= <- _]. done. }
  assert (forall skip st, (st ← foldM (preamble_step d (see d) skip) st order; Some (after_parse d st)) = Some (d', ms) ->
    decisions d' = decisions d /\ samples d' = samples d /\ policy d' = policy d /\ probe d' = probe d /\ dispatchStatus d' = dispatchStatus d) as Ho.
  { intros skip st (st' & _ & E)%bind_Some. apply (inj Some) in E. by apply (Hk st'). }
  unfold decodeQuantized. intros E. destruct (negb _ && negb _); [|by apply Ho in E].
  destruct (searchAlignedCandidates32DualFixedPlatform _ _ _) as [[idm r900]|]; [|by apply Ho in E].
  apply bind_Some in E as ([[objs buf] m] & _ & E). apply bind_Some in E as ([[objs' buf'] m'] & _ & E).
  destruct (_ =? 2); [|by apply Ho in E]. apply (inj Some) in E. by apply Hk in E.
Qed.

Lemma decodeFiltered_keeps see order d block (d' : Decoder S) (ms : list M) : decodeFiltered see order d block = Some (d', ms) ->
  ring_shape (decisions d) (decisions d') /\ samples d' = samples d /\ policy d' = policy d /\ probe d' = probe d /\ dispatchStatus d' = dispatchStatus d.
Proof.
  intros (r & Hr%appendQuantized_shape & E)%bind_Some. apply bind_Some in E as (pk & _ & E). apply decodeQuantized_keeps in E.
  destruct E as (-> & E). split; [exact Hr|exact E].
Qed.

Lemma ring_shape_trans r1 r2 r3 : ring_shape r1 r2 -> ring_shape r2 r3 -> ring_shape r1 r3.
Proof. unfold ring_shape. intuition congruence. Qed.

(** The power producer writes into its strip, its packed ring and, when it owns
    the ring, into the ring. *)
Lemma appendPower16_shape cfg p r pk input p' r' pk' out :
  appendPower16AndFilter cfg p r pk input = Some (p', r', pk', out) ->
  samples_shape (Power p) (Power p') /\ ring_shape r r'.
Proof.
  unfold appendPower16AndFilter. destruct (_ <? _); [done|]. intros (inp & _ & E)%bind_Some. apply bind_Some in E as (h & Eh & E).
  apply bind_Some in E as (win & _ & E). destruct (p_runPacked p) as [f|] eqn:Ef.
  - apply bind_Some in E as ([[o ns] tl] & _ & E). apply bind_Some in E as ([[[dec bytes] w]|] & _ & E); [|done]. cbn [mbind option_bind] in E.
    apply bind_Some in E as (h' & Ew & E). apply bind_Some in E as (r1 & Er & E). apply bind_Some in E as (ring & Ep & E).
    apply bind_Some in E as (pk1 & _ & E). apply (inj Some) in E. injection E as <- <- _ _.
    pose proof (strips_shape_step cfg _ _ _ (fun x => block x * blockStride x + overlap x - SymbolLength cfg) (fun x => block x * blockStride x + blockStride x) _ Eh Ew) as Hs.
    split.
    + cbn [samples_shape p_strips p_run p_runPacked p_packed]. rewrite Ef. by apply packed_write_shape in Ep.
    + destruct (ownsQuantizedRing cfg r); [by apply direct_write_shape in Er|]. by injection Er as <-.
  - apply bind_Some in E as ([[dec w]|] & _ & E); [|done]. cbn [mbind option_bind] in E. apply bind_Some in E as (h' & Ew & E).
    apply (inj Some) in E. injection E as <- <- _ _.
    pose proof (strips_shape_step cfg _ _ _ (fun x => block x * blockStride x + overlap x - SymbolLength cfg) (fun x => block x * blockStride x + blockStride x) _ Eh Ew) as Hs.
    split; [|done]. cbn [samples_shape p_strips p_run p_runPacked p_packed]. by rewrite Ef.
Qed.

(** The float producer keeps the form of its samples. *)
Lemma appendSignal_shape cfg s input s' signal : appendSignal cfg s input = Some (s', signal) ->
  match s, s' with FloatHistory h, FloatHistory h' => strips_shape h h' | FloatWindow _, FloatWindow _ => True | _, _ => False end.
Proof.
  destruct s as [l|h|p]; cbn [appendSignal]; intros E; [| |done].
  - repeat (apply bind_Some in E as (? & ? & E)). apply (inj Some) in E. by injection E as <- _.
  - apply bind_Some in E as (h1 & E1 & E). apply bind_Some in E as (m & _ & E). apply bind_Some in E as (h2 & E2 & E).
    apply bind_Some in E as (sg & _ & E). apply (inj Some) in E. injection E as <- _.
    exact (strips_shape_step cfg _ _ _ (fun x => block x * blockStride x + overlap x) (fun x => block x * blockStride x + blockStride x) _ E1 E2).
Qed.

(** All of a call of Decode keeps the shape. *)
Lemma Decode_shape order d w a input d' (ms : list M) :
  ready d w a -> Forall is_byte input -> BlockSize2 (Cfg d) <= len input -> order ≡ₚ elements (dom (preambles (registry d))) ->
  Decode order d input = Some (d', ms) -> shape d d'.
Proof.
  intros Hr Hb Hl Ho E. pose proof (Decode_step order d w a input Hr Hb Hl Ho) as Hstep. cbv zeta in Hstep. rewrite E in Hstep.
  destruct Hstep as (w' & a' & Hr' & Ec & _ & _ & _). pose proof (rd_decoder _ _ _ Hr) as Hd. pose proof (rd_decoder _ _ _ Hr') as Hd'.
  assert (samples_shape (samples d) (samples d') /\ ring_shape (decisions d) (decisions d') /\ policy d' = policy d /\ probe d' = probe d /\
    dispatchStatus d' = dispatchStatus d) as (K1 & K2 & K3 & K4 & K5).
  { unfold Decode, Decode_seeing in E. pose proof (rd_samples _ _ _ Hr) as Hs. pose proof (rd_samples _ _ _ Hr') as Hs'. unfold samples_ok in Hs, Hs'.
    destruct (samples d) as [s|h|p] eqn:Es.
    - apply bind_Some in E as ([s' sg] & Ea%appendSignal_shape & E). apply bind_Some in E as (bl & _ & E).
      apply decodeFiltered_keeps in E as (E1 & E2 & E3 & E4 & E5). cbn in E2. rewrite E2 in *.
      destruct s' as [l'| |]; [|done|done]. destruct a; [|done]. destruct a'; [|done]. destruct Hs as [_ Hs], Hs' as [_ Hs']. rewrite Ec in Hs'.
      split; [|done]. cbn. unfold len in *. lia.
    - apply bind_Some in E as ([s' sg] & Ea%appendSignal_shape & E). apply bind_Some in E as (bl & _ & E).
      apply decodeFiltered_keeps in E as (E1 & E2 & E3 & E4 & E5). cbn in E2. rewrite E2.
      by destruct s'.
    - apply bind_Some in E as ([[[p' r] pk] bl] & Ea & E). apply appendPower16_shape in Ea as [E1 E2].
      destruct bl as [bl|].
      + apply decodeFiltered_keeps in E as (E3 & E4 & E5). cbn [with_block decisions samples] in *. rewrite E4.
        split; [done|]. split; [by eapply ring_shape_trans|done].
      + apply decodeQuantized_keeps in E as (E3 & E4 & E5). cbn [with_block decisions samples] in *. by rewrite E3, E4. }
  constructor; try done.
  - pose proof (d_packed_len _ _ Hd) as L. pose proof (d_packed_len _ _ Hd') as L'. rewrite Ec in L'. unfold len in *. lia.
  - pose proof (sl_bytes _ _ (d_slice _ _ Hd)) as L. pose proof (sl_bytes _ _ (d_slice _ _ Hd')) as L'. rewrite Ec in L'. lia.
Qed.

(** Reset depends on the shape only. *)
Definition with_registry (d : Decoder S) (r : Registry S) : Decoder S :=
  {| registry := r; Cfg := Cfg d; decisions := decisions d; samples := samples d; packed := packed d; pkt := pkt d; sIdxA := sIdxA d;
     policy := policy d; probe := probe d; dispatchStatus := dispatchStatus d |}.

Lemma clear_ring_shape cfg r r' : ring_shape r r' -> clear_ring cfg r = clear_ring cfg r'.
Proof.
  intros [S1 S2]. unfold clear_ring. rewrite (clear_same 0 _ _ S1). f_equal.
  destruct (separate r), (separate r'); try done. injection S2 as S2. cbn. by rewrite (clear_same 0 _ _ S2).
Qed.

Lemma clear_history_shape {A} (zero : A) h h' : strips_shape h h' -> clear_history zero h = clear_history zero h'.
Proof. intros (E1 & E2 & E3 & E4 & E5 & E6 & E7). unfold clear_history. by rewrite E1, E3, E4, E5, E6, E7, (clear_same zero _ _ E2). Qed.

Lemma clear_packed_shape p p' : packed_shape p p' -> clear_packed p = clear_packed p'.
Proof. intros (E1 & E2 & E3). unfold clear_packed. by rewrite E2, E3, (clear_same 0 _ _ E1). Qed.

Lemma Reset_shape d d' : shape d d' -> Reset d' = (x ← Reset d; Some (with_registry x (registry d'))).
Proof.
  intros [E1 E2 E3 E4 E5 (E6 & E7 & E8)]. unfold Reset.
  pose proof (clear_ring_shape (Cfg d) _ _ E2) as R. pose proof (clear_same 0 _ _ E4) as P. pose proof (clear_same 0 _ _ E5) as K.
  destruct (samples d) as [l|h|p], (samples d') as [l'|h'|p']; cbn [samples_shape] in E3; try done.
  - cbn. rewrite <- E1, <- E6, <- E7, <- E8, <- R, <- P, <- K. unfold with_registry. cbn. by rewrite (clear_same fzero _ _ E3).
  - cbn. rewrite <- E1, <- E6, <- E7, <- E8, <- R, <- P, <- K. unfold with_registry. cbn. by rewrite (clear_history_shape fzero _ _ E3).
  - destruct E3 as (S1 & S2 & S3 & S4). cbn [packed_producer p_runPacked p_packed].
    rewrite <- E1, <- E6, <- E7, <- E8, <- R, <- P, <- K, <- S2, <- S3, <- (clear_history_shape 0 _ _ S1), <- (clear_packed_shape _ _ S4).
    destruct (p_runPacked p); [|done]. by destruct (packedSearchWindow _).
Qed.

Lemma Allocate_Reset r pol pr d : Allocate r pol pr = Some d -> Reset d = Some d.
Proof.
  unfold Allocate. destruct (selectPower16Platform _ _ _ _ _) as [sel st].
  set (cfg := derive_config (r_Cfg r)).
  assert (forall direct, clear_ring cfg (allocate_ring cfg direct) = allocate_ring cfg direct) as Hring.
  { intros []; unfold clear_ring, allocate_ring; cbn [quantizedBacking separate quantizedStart fmap option_fmap option_map]; by rewrite clear_make. }
  assert (forall A (zero : A) ov, clear_history zero (allocate_history cfg ov zero) = allocate_history cfg ov zero) as Hhist.
  { intros A zero ov. unfold clear_history, allocate_history. cbn [overlap backing block blockCount blockStride blockShift blockMask gap]. by rewrite clear_make. }
  set (detached := set_consumers false (objects r) (power16Consumers r)).
  assert (forall objs, let samples := allocateFloatSignal cfg (signalHistoryOverlap r) in
    (packed ← match samples with Power p => if packed_producer samples then packedSearchWindow (p_packed p) else Some (make (Z.shiftr (BlockSize cfg + PreambleLength cfg + 7) 3) 0)
              | _ => Some (make (Z.shiftr (BlockSize cfg + PreambleLength cfg + 7) 3) 0) end;
     Some {| registry := with_objects r objs; Cfg := cfg; decisions := allocate_ring cfg (packed_producer samples); samples := samples;
       packed := packed; pkt := make (Z.shiftr (PacketSymbols cfg + 7) 3) 0; sIdxA := []; policy := pol; probe := pr; dispatchStatus := st |}) = Some d ->
    Reset d = Some d) as Hfloat.
  { intros objs samples. unfold samples, allocateFloatSignal. destruct (0 <? _); intros E; apply (inj Some) in E as <-;
      unfold Reset; cbn [Decode.samples Decode.packed mbind option_bind]; cbn [Cfg decisions pkt registry policy probe dispatchStatus packed_producer];
      rewrite ?Hhist, ?Hring, !clear_make; done. }
  destruct sel as [pf|]; [|apply Hfloat]. destruct (run pf) as [fr|]; [|apply Hfloat].
  intros E. apply bind_Some in E as (pk & Epk & E). apply (inj Some) in E as <-. unfold Reset.
  cbn [samples Cfg decisions pkt registry policy probe dispatchStatus packed]. unfold allocatePower16 in *. cbn [p_strips p_run p_runPacked p_packed packed_producer] in *.
  rewrite Hhist, Hring, clear_make. destruct (runPacked pf) as [f|].
  - assert (clear_packed (allocate_packed cfg) = allocate_packed cfg) as ->; [|by rewrite Epk].
    unfold clear_packed, allocate_packed. cbn [packedBacking packedLength packedLookahead]. by rewrite clear_make.
  - apply (inj Some) in Epk as <-. unfold clear_packed. cbn [packedBacking packedLength packedLookahead mbind option_bind]. by rewrite clear_make.
Qed.
End Receiver.

(** ** Properties *)

(** C1. The decoder refines the abstract receiver: from Allocate on, for every
    sequence of sample blocks and every order in which the preamble map is walked,
    the messages of each block and the states of the parsers are those of a receiver
    that demodulates the block, shifts the decisions into one flat window, and serves
    every preamble with the packets at its matches; it fails exactly where a parser
    does.  The rings, strips, packed windows, lazy slicing, fused backends and the
    dual search are not visible. *)
Theorem Decode_refines {S M} `{ParserOps S M} `{SearchPlatform} `{DualPlatform} `{MagnitudePlatform} `{ManchesterPlatform}
  (r : Registry S) (pol : power16Policy) (pr : option (unit -> power16Platform)) (calls : list (list (list Z) * list Z))
  (Hregistry : allocatable r) (Hprobe : probe_lawful pr)
  (Hcalls : Forall (fun '(order, input) => order ≡ₚ elements (dom (preambles r)) /\ Forall is_byte input /\
                                           BlockSize2 (derive_config (r_Cfg r)) <= len input) calls) :
  exists d, Allocate r pol pr = Some d /\
    abstract_run (derive_config (r_Cfg r)) (retained (samples d)) (preambles r)
      {| a_window := make (BufferLength (derive_config (r_Cfg r))) 0; a_history := silence d; a_objects := objects (registry d) |}
      (map snd calls) ('(d', out) ← decode_run d calls; Some (objects (registry d'), out)).
Proof.
  destruct (Allocate_ready r pol pr Hregistry Hprobe) as (d & E & Hr & Ep & Ec). exists d. split; [exact E|].
  rewrite <- Ec, <- Ep in Hcalls. rewrite <- Ec, <- Ep. exact (decode_run_refines d _ _ calls Hr Hcalls).
Qed.

(** A parser that returns the bytes of its packets. *)
Definition echo_ops : ParserOps PacketConfig (list Z) :=
  {| Cfg_of := fun c => c; power16_compatible := fun _ => None; set_power16_history := fun _ => None;
     history_overlap := fun _ => None; packet_bytes_only := fun _ => None; parse_indices := fun _ => None;
     parse := fun _ s pkts ms => Some (s, ms ++ map Bytes pkts) |}.

Definition echo_registry : Registry PacketConfig := @register_all _ _ echo_ops [parser_config (str "echo") (str "0101") 1 32768 4 4 8].

Definition echo_input : list Z := map (fun i => if Z.even (i / 8) then 255 else 127) (seqZ 0 64).

Lemma echo_allocatable : @allocatable _ _ echo_ops echo_registry.
Proof.
  constructor; [done..|by apply padding_none|by left|by intros Hn; destruct Hn|]. apply (@register_all_ok _ _ echo_ops). constructor; [|done]. split; [|done].
  unfold is_preamble_text. cbn. repeat constructor; lia.
Qed.

Lemma Decode_refines_witness :
  let calls := [([[0; 1; 0; 1]], echo_input); ([[0; 1; 0; 1]], echo_input)] in
  exists d, @Allocate _ _ echo_ops echo_registry power16PolicyAutomatic None = Some d /\
    @abstract_run _ _ echo_ops (derive_config (r_Cfg echo_registry)) (retained (samples d)) (preambles echo_registry)
      {| a_window := make 96 0; a_history := silence d; a_objects := objects (registry d) |} (map snd calls)
      ('(d', out) ← @decode_run _ _ echo_ops generic_platform portable_dual portable_magnitude portable_manchester d calls;
       Some (objects (registry d'), out)).
Proof.
  apply (@Decode_refines _ _ echo_ops generic_platform portable_dual portable_magnitude portable_manchester);
    [exact echo_allocatable|intros f fr cfg ov [=]|].
  assert ([[0; 1; 0; 1]] ≡ₚ elements (dom (preambles echo_registry))) by (vm_compute; done).
  repeat constructor; done || (vm_compute; discriminate).
Defined.

(** C17. Reset restores the allocated state: after any sequence of blocks it gives
    back the decoder that Allocate made, with only the parser objects as the blocks
    left them, so a replay starts from silence. *)
Theorem Reset_restores_allocation {S M} `{ParserOps S M} `{SearchPlatform} `{DualPlatform} `{MagnitudePlatform} `{ManchesterPlatform}
  (r : Registry S) (pol : power16Policy) (pr : option (unit -> power16Platform)) (calls : list (list (list Z) * list Z)) d0 d out
  (Hregistry : allocatable r) (Hprobe : probe_lawful pr)
  (Hcalls : Forall (fun '(order, input) => order ≡ₚ elements (dom (preambles r)) /\ Forall is_byte input /\
                                           BlockSize2 (derive_config (r_Cfg r)) <= len input) calls)
  (Hallocate : Allocate r pol pr = Some d0) (Hrun : decode_run d0 calls = Some (d, out)) :
  Reset d = Some (with_registry d0 (registry d)).
Proof.
  destruct (Allocate_ready r pol pr Hregistry Hprobe) as (d1 & E & Hr & Ep & Ec). rewrite Hallocate in E. injection E as <-.
  rewrite <- Ec, <- Ep in Hcalls. pose proof (Allocate_Reset r pol pr d0 Hallocate) as Hreset. clear Hallocate Ec Ep.
  assert (forall x, Reset x = Some (with_registry d0 (registry x)) -> forall w a, ready x w a ->
    Forall (fun '(order, input) => order ≡ₚ elements (dom (preambles (registry x))) /\ Forall is_byte input /\ BlockSize2 (Cfg x) <= len input) calls ->
    decode_run x calls = Some (d, out) -> Reset d = Some (with_registry d0 (registry d))) as Hloop.
  { clear -H. revert out. induction calls as [|[order input] calls IH]; intros out x Hx w a Hr Hc Hrun; [by injection Hrun as <- <-|].
    apply Forall_cons in Hc as [(Ho & Hb & Hl) Hc]. cbn [decode_run] in Hrun.
    apply bind_Some in Hrun as ([x' ms] & E & Hrun). apply bind_Some in Hrun as ([x2 out'] & E' & Hrun). injection Hrun as <- <-.
    pose proof (Decode_step order x w a input Hr Hb Hl Ho) as Hstep. cbv zeta in Hstep. rewrite E in Hstep.
    destruct Hstep as (w' & a' & Hr' & Ec & _ & Ep & _). pose proof (Decode_shape order x w a input x' ms Hr Hb Hl Ho E) as Hsh.
    rewrite <- Ec, <- Ep in Hc. apply (IH out' x') with (w := w') (a := a'); [|done|done|done].
    by rewrite (Reset_shape _ _ Hsh), Hx. }
  apply (Hloop d0) with (w := make (BufferLength (Cfg d0)) 0) (a := silence d0); [|done|done|done].
  rewrite Hreset. by destruct d0.
Qed.

Lemma Reset_restores_allocation_witness :
  exists d0 d out, @Allocate _ _ echo_ops echo_registry power16PolicyDisabled None = Some d0 /\
    @decode_run _ _ echo_ops generic_platform portable_dual portable_magnitude portable_manchester d0 [([[0; 1; 0; 1]], echo_input)] = Some (d, out) /\
    Reset d = Some (with_registry d0 (registry d)).
Proof.
  eexists _, _, _. split; [reflexivity|]. split; [vm_compute; reflexivity|].
  eapply (@Reset_restores_allocation _ _ echo_ops generic_platform portable_dual portable_magnitude portable_manchester
    echo_registry power16PolicyDisabled None [([[0; 1; 0; 1]], echo_input)]); [exact echo_allocatable|intros f fr cfg ov [=]| |reflexivity|vm_compute; reflexivity].
  assert ([[0; 1; 0; 1]] ≡ₚ elements (dom (preambles echo_registry))) by (vm_compute; done).
  repeat constructor; done || (vm_compute; discriminate).
Defined.
