(* ===== verification/Update.v ===== *)
(** Functional record update, [x <| field := v |>], for the components whose state
    is a record of many fields.  A record provides its eta expansion; the setter of a
    field is derived from it when the notation is used. *)

From S2P Require Import Prelude.

Class Settable (R : Type) := eta_expansion : R -> R.

Class Setter {R T : Type} (proj : R -> T) := upd : (T -> T) -> R -> R.
Arguments upd {R T} proj {Setter} _ _.

Ltac derive_setter :=
  match goal with
  | |- @Setter ?R ?T ?proj =>
      let s := constr:(_ : Settable R) in
      let h := eval hnf in s in
      let k := constr:(fun (f : T -> T) (e : R) => ltac:(
        let body := eval cbv beta in (h e) in
        let pat := eval pattern (proj e) in body in
        match pat with ?g _ => let r := eval cbv beta in (g (f (proj e))) in exact r end)) in
      exact k
  end.

#[export] Hint Extern 1 (Setter _) => derive_setter : typeclass_instances.

Notation "x <| proj := v |>" := (upd proj (fun _ => v) x) (at level 1, proj constr at level 0, left associativity).
Notation "x <| proj ::= f |>" := (upd proj f x) (at level 1, proj constr at level 0, left associativity).
