(* ===== verification/DutyMath.v ===== *)
(** The numerical part of the duty scheduler (src/internal/dutyscheduler/
    scheduler.go: robustPeriod, medianFloat, durationQuantile, scaleDuration,
    compatibleHistory, binomialCDF, upperMissBound, RequiredObservations,
    randomUnit).  Durations are int64 nanoseconds, kept in range by [i64]; floats
    are IEEE binary64 without fused multiply-add.  The transcendental functions of
    package math, and the conversion of a float that no int64 represents, are
    parameters. *)

From stdpp Require Import sorting.
From S2P Require Import Prelude Float64.

Class GoMath := {
  math_Pow : f64 -> f64 -> f64;
  math_Lgamma : f64 -> f64;
  math_Log : f64 -> f64;
  math_Log1p : f64 -> f64;
  math_Exp : f64 -> f64;
  int64_unrepresentable : f64 -> Z }.

(** ** Conversions and rounding *)

Definition fone : f64 := fof 1 0.
Definition finf : f64 := S754_infinity false.
Definition fge (x y : f64) : bool := fle y x.

Definition finite (x : f64) : bool := match x with S754_zero _ | S754_finite _ _ _ => true | _ => false end.

(** The magnitude of a finite number, rounded by [up] from the integer part, the
    doubled fraction and its unit. *)
Definition round_by (up : Z -> Z -> bool) (m : positive) (e : Z) : Z :=
  if 0 <=? e then Zpos m * 2 ^ e
  else let unit := 2 ^ (- e) in let q := Zpos m / unit in if up (2 * (Zpos m mod unit)) unit then q + 1 else q.

Definition with_sign (s : bool) (n : Z) : f64 :=
  if n =? 0 then S754_zero s else f64_of_int (if s then - n else n).

(** [math.Round]: half away from zero. *)
Definition fround (x : f64) : f64 :=
  match x with S754_finite s m e => with_sign s (round_by (fun r unit => unit <=? r) m e) | _ => x end.

(** [math.Ceil] *)
Definition fceil (x : f64) : f64 :=
  match x with S754_finite s m e => with_sign s (round_by (fun r _ => negb s && (0 <? r)) m e) | _ => x end.

(** [int64(x)]: truncation towards zero. *)
Definition int64_of `{GoMath} (x : f64) : Z :=
  match x with
  | S754_zero _ => 0
  | S754_finite s m e =>
      let n := round_by (fun _ _ => false) m e in
      let n := if s then - n else n in
      if (- 2 ^ 63 <=? n) && (n <? 2 ^ 63) then n else int64_unrepresentable x
  | _ => int64_unrepresentable x
  end.

Definition fmin (x y : f64) : f64 := if flt x y then x else y.

(** ** Order statistics *)

Definition flt_rel (x y : f64) : Prop := fle x y = true.
#[export] Instance flt_rel_dec x y : Decision (flt_rel x y).
Proof. unfold flt_rel. apply _. Defined.

Definition medianFloat (values : list f64) : option f64 :=
  match values with
  | [] => Some fzero
  | _ =>
      let ordered := merge_sort flt_rel values in
      let middle := len ordered / 2 in
      if len ordered mod 2 =? 0 then
        a ← index ordered (middle - 1); b ← index ordered middle; Some (fdiv (fadd a b) (fof 2 0))
      else index ordered middle
  end.

Definition sorted_durations (values : list Z) : list Z := merge_sort Z.le values.

Definition durationQuantile `{GoMath} (values : list Z) (probability : f64) : option Z :=
  if decide (values = []) then Some 0 else
  let ordered := sorted_durations values in
  let rank := int64_of (fceil (fmul probability (f64_of_int (len ordered)))) - 1 in
  let rank := if rank <? 0 then 0 else rank in
  index ordered rank.

(** ** The period of a history *)

(** [math.Round(value / period)], at least one. *)
Definition multiple_of (value period : f64) : f64 :=
  let multiple := fround (fdiv value period) in
  if flt multiple fone then fone else multiple.

(** One round of the fit. *)
Definition refine_period (values : list f64) (period : f64) : option f64 :=
  let normalized := map (fun value => fdiv value (multiple_of value period)) values in
  center ← medianFloat normalized;
  mad ← medianFloat (map (fun value => fabs (fsub value center)) normalized);
  let is_zero := match mad with S754_zero _ => true | _ => false end in
  medianFloat (filter (fun value => is_zero || fle (fabs (fsub value center)) (fmul (fof 4 0) mad)) normalized).

Definition robustPeriod `{GoMath} (history : list Z) : option (Z * list Z) :=
  base ← head history;
  let base := foldl (fun base value => if value <? base then value else base) base history in
  let values := map f64_of_int history in
  period ← foldM (fun period _ => refine_period values period) (f64_of_int base) (seqZ 0 4);
  let resultPeriod := int64_of period in
  let residuals := map (fun value => int64_of (fabs (fsub value (fmul (multiple_of value period) period)))) values in
  Some (resultPeriod, residuals).

Definition maxDuration (left right : Z) : Z := if right <? left then left else right.

Definition nextHistoryLimit (current maximum : Z) : Z :=
  match filter (fun candidate => current < candidate) [8; 16; 32; 64; 128] with
  | candidate :: _ => Z.min candidate maximum
  | [] => maximum
  end.

(** [l[len(l)-n:]] *)
Definition last_n {A} (n : Z) (l : list A) : option (list A) := slice (len l - n) (len l) l.

Definition compatibleHistory `{GoMath} (history : list Z) (recentCount extendedCount tolerance : Z) : option bool :=
  if (recentCount <? 2) || (extendedCount <=? recentCount) || (len history <? extendedCount) then Some false else
  h ← last_n recentCount history; '(recent, _) ← robustPeriod h;
  h ← last_n extendedCount history; '(extended, _) ← robustPeriod h;
  if (recent <=? 0) || (extended <=? 0) then Some false else
  let minimumTolerance := Z.quot recent 1000 in
  let tolerance := if tolerance <? minimumTolerance then minimumTolerance else tolerance in
  Some (int64_of (fabs (f64_of_int (i64 (recent - extended)))) <=? tolerance).

Definition scaleDuration `{GoMath} (value : Z) (scale : f64) : Z :=
  if (value <=? 0) || fle scale fzero then 0 else int64_of (fmul (f64_of_int value) scale).

(** ** Confidence bounds *)

(** The logarithm of one binomial term. *)
Definition log_term `{GoMath} (n k : Z) (probability : f64) : f64 :=
  let choose := math_Lgamma (f64_of_int (u64 (n + 1))) in
  let left := math_Lgamma (f64_of_int (u64 (k + 1))) in
  let right := math_Lgamma (f64_of_int (u64 (u64 (n - k) + 1))) in
  fadd (fadd (fsub (fsub choose left) right) (fmul (f64_of_int k) (math_Log probability)))
       (fmul (f64_of_int (u64 (n - k))) (math_Log1p (SFopp probability))).

(** Whether make can make a slice: it panics for a length that an int does not hold and for
    more bytes than the 48 bits of an address reach, on the 64-bit platforms; that the
    memory may be exhausted earlier is not modelled. *)
Definition makeslice_ok (size length : Z) : bool := (length <? 2 ^ 63) && (size * length <=? 2 ^ 48).

(** [None] is the panic of the slice that cannot be made, or is too short to index. *)
Definition binomialCDF `{GoMath} (n through : Z) (probability : f64) : option f64 :=
  let length := u64 (through + 1) in
  if negb (makeslice_ok 8 length) || (length <=? through) then None else
  let logs := map (fun k => log_term n k probability) (seqZ 0 (through + 1)) in
  let maximum := foldl (fun maximum value => if fgt value maximum then value else maximum) (SFopp finf) logs in
  let sum := foldl (fun sum value => fadd sum (math_Exp (fsub value maximum))) fzero logs in
  Some (fmul (math_Exp maximum) sum).

Definition bisect_bound `{GoMath} (misses observations : Z) (alpha : f64) (st : f64 * f64) (_ : Z) : option (f64 * f64) :=
  let '(low, high) := st in
  let mid := fdiv (fadd low high) (fof 2 0) in
  cdf ← binomialCDF observations misses mid;
  Some (if fgt cdf alpha then (mid, high) else (low, mid)).

Definition upperMissBound `{GoMath} (misses observations : Z) (alpha : f64) : option f64 :=
  if (observations =? 0) || (observations <=? misses) then Some fone else
  if misses =? 0 then Some (fsub fone (math_Pow alpha (fdiv fone (f64_of_int observations)))) else
  snd <$> foldM (bisect_bound misses observations alpha) (fdiv (f64_of_int misses) (f64_of_int observations), fone) (seqZ 0 80).

(** What a search gives: a value, a panic, or nothing within its fuel. *)
Inductive search_outcome (A : Type) := Returned (x : A) | Panicked | OutOfFuel.
Arguments Returned {A} x.
Arguments Panicked {A}.
Arguments OutOfFuel {A}.

(** [RequiredObservations]: double until the bound is met, then bisect. *)
Section Required.
Context `{GoMath} (misses : Z) (maxMiss alpha : f64).

(** The closure [passes]; [None] is a panic. *)
Definition passes (observations : Z) : option bool :=
  if misses <? observations then bound ← upperMissBound misses observations alpha; Some (fle bound maxMiss) else Some false.

(** [inl] when the doubling gives up. *)
Fixpoint double_high (fuel : nat) (high : Z) : search_outcome (unit + Z) :=
  match fuel with
  | O => OutOfFuel
  | S fuel =>
      match passes high with
      | None => Panicked
      | Some true => Returned (inr high)
      | Some false => if 2 ^ 62 <=? high then Returned (inl tt) else double_high fuel (u64 (high * 2))
      end
  end.

Fixpoint bisect_required (fuel : nat) (low high : Z) : search_outcome Z :=
  match fuel with
  | O => OutOfFuel
  | S fuel =>
      if low + 1 <? high then
        let middle := low + (high - low) / 2 in
        match passes middle with
        | None => Panicked
        | Some true => bisect_required fuel low middle
        | Some false => bisect_required fuel middle high
        end
      else Returned high
  end.
End Required.

(** 64 steps each are enough, but for the one count that never ends. *)
Definition RequiredObservations `{GoMath} (misses : Z) (captureTarget confidence : f64) : search_outcome Z :=
  let maxMiss := fsub fone captureTarget in
  let alpha := fsub fone confidence in
  if fle maxMiss fzero || fge maxMiss fone || fle alpha fzero || fge alpha fone then Returned max_u64 else
  match double_high misses maxMiss alpha 64 (u64 (misses + 1)) with
  | Returned (inl _) => Returned max_u64
  | Returned (inr high) => bisect_required misses maxMiss alpha 64 misses high
  | Panicked => Panicked
  | OutOfFuel => OutOfFuel
  end.

(** ** The audit generator *)

(** One step of xorshift64. *)
Definition xorshift (x : Z) : Z :=
  let x := Z.lxor x (Z.shiftr x 12) in
  let x := Z.lxor x (u64 (Z.shiftl x 25)) in
  Z.lxor x (Z.shiftr x 27).

Definition randomUnit (rng : Z) : Z * f64 :=
  let x := xorshift rng in
  (x, fdiv (f64_of_int (Z.shiftr (u64 (x * 2685821657736338717)) 11)) (f64_of_int (2 ^ 53))).
