(* ===== verification/DutyMathSpec.v ===== *)
(** The arithmetic of the duty scheduler: for which counts of misses the confidence bound
    is defined at all, and the search for the required observations, which ends with a
    count that is the first of its kind around it, panics when the terms of the bound do
    not fit in memory, and never ends for the one count whose successor wraps to zero. *)

From S2P Require Import Prelude Float64 DutyMath.

(** ** The slice of the terms *)

Lemma binomialCDF_Some `{GoMath} n through probability : 0 <= through < 2 ^ 64 -> makeslice_ok 8 (through + 1) = true ->
  is_Some (binomialCDF n through probability).
Proof.
  intros Ht Hs. unfold binomialCDF. assert (through + 1 < 2 ^ 63) as Hb by (unfold makeslice_ok in Hs; lia).
  assert (u64 (through + 1) = through + 1) as -> by (apply Z.mod_small; lia). rewrite Hs, (proj2 (Z.leb_gt _ _)) by lia. by eexists.
Qed.

Lemma binomialCDF_None `{GoMath} n through probability : 0 <= through < 2 ^ 64 -> makeslice_ok 8 (through + 1) = false ->
  binomialCDF n through probability = None.
Proof.
  intros Ht Hs. unfold binomialCDF. destruct (Z.eq_dec through (2 ^ 64 - 1)) as [->|Hne]; [done|].
  assert (u64 (through + 1) = through + 1) as -> by (apply Z.mod_small; lia). by rewrite Hs.
Qed.

(** A bound without misses needs no slice. *)
Definition countable (misses : Z) : bool := (misses =? 0) || makeslice_ok 8 (misses + 1).

Lemma upperMissBound_Some `{GoMath} misses observations alpha : 0 <= misses < 2 ^ 64 -> countable misses = true ->
  is_Some (upperMissBound misses observations alpha).
Proof.
  intros Hm Hc. unfold upperMissBound. destruct (_ || _); [by eexists|]. unfold countable in Hc. destruct (misses =? 0); [by eexists|].
  apply fmap_is_Some, foldM_is_Some. intros [low high] k _. unfold bisect_bound.
  destruct (binomialCDF_Some observations misses (fdiv (fadd low high) (fof 2 0)) Hm Hc) as [cdf ->]. by eexists.
Qed.

Lemma upperMissBound_None `{GoMath} misses observations alpha : 0 <= misses < observations -> misses < 2 ^ 64 -> countable misses = false ->
  upperMissBound misses observations alpha = None.
Proof.
  intros Hm Hb Hc. apply orb_false_elim in Hc as [Hz Hs]. unfold upperMissBound.
  rewrite (proj2 (Z.eqb_neq observations 0)), (proj2 (Z.leb_gt observations misses)), Hz by lia. cbn [orb].
  change (seqZ 0 80) with (0 :: seqZ 1 79). cbn [foldM]. unfold bisect_bound at 1. by rewrite binomialCDF_None by (done || lia).
Qed.

(** ** The search *)

Section Required.
Context `{GoMath} (misses : Z) (maxMiss alpha : f64).
#[local] Abbreviation ok := (passes misses maxMiss alpha).

Lemma passes_misses n : ok n = Some true -> misses < n.
Proof using Type. unfold passes. by destruct (Z.ltb_spec misses n). Qed.

Lemma passes_Some n : 0 <= misses < 2 ^ 64 -> countable misses = true -> is_Some (ok n).
Proof using Type.
  intros Hm Hc. unfold passes. destruct (misses <? n); [|by eexists]. destruct (upperMissBound_Some misses n alpha Hm Hc) as [b ->]. by eexists.
Qed.

Section Countable.
Context (Hok : forall n, is_Some (ok n)).

(** Doubling stops within the fuel: from [high], [62 - k] doublings reach [2 ^ 62]. *)
Lemma double_high_ends : forall fuel high, 2 ^ (64 - Z.of_nat fuel) <= high < 2 ^ 64 -> (2 <= fuel)%nat -> (fuel <= 64)%nat ->
  double_high misses maxMiss alpha fuel high = Returned (inl tt) \/
  exists n, double_high misses maxMiss alpha fuel high = Returned (inr n) /\ ok n = Some true /\ (n = high \/ n <= 2 ^ 63).
Proof using Hok.
  induction fuel as [|fuel IH]; intros high Hh Hf1 Hf2; [lia|]. cbn [double_high]. destruct (Hok high) as [[] E]; rewrite E; [right; exists high; auto|].
  destruct (Z.leb_spec (2 ^ 62) high) as [Hle|Hlt]; [by left|].
  assert (u64 (high * 2) = high * 2) as Eu by (apply Z.mod_small; lia). rewrite Eu.
  assert (2 <= fuel)%nat as Hf3.
  { destruct (decide (2 <= fuel)%nat) as [|Hn]; [done|]. exfalso. assert (fuel = 1)%nat as -> by lia. cbn in Hh. lia. }
  destruct (IH (high * 2)) as [E1|(n & E1 & E2 & E3)]; [|done|lia|by left|].
  { replace (64 - Z.of_nat fuel) with (Z.succ (64 - Z.of_nat (S fuel))) by lia. rewrite Z.pow_succ_r by lia. lia. }
  right. exists n. split; [done|]. split; [done|]. right. destruct E3 as [->|]; lia.
Qed.

(** Bisection halves the gap, keeping a count that passes above one that does not. *)
Lemma bisect_required_ends : forall fuel low high, low < high -> high - low <= 2 ^ Z.of_nat fuel -> ok high = Some true ->
  low = misses \/ ok low = Some false ->
  exists n, bisect_required misses maxMiss alpha (S fuel) low high = Returned n /\ ok n = Some true /\ n <= high /\
    (n - 1 = misses \/ ok (n - 1) = Some false).
Proof using Hok.
  induction fuel as [|fuel IH]; intros low high Hlt Hgap Hhigh Hlow; cbn [bisect_required];
    (destruct (Z.ltb_spec (low + 1) high) as [Hgo|Hstop]; [|exists high; replace (high - 1) with low by lia; auto with lia]).
  - cbn in Hgap. lia.
  - rewrite Nat2Z.inj_succ, Z.pow_succ_r in Hgap by lia. set (middle := low + (high - low) / 2).
    assert (low < middle < high /\ middle - low <= 2 ^ Z.of_nat fuel /\ high - middle <= 2 ^ Z.of_nat fuel) as (Hm & Hg1 & Hg2)
      by (unfold middle; pose proof (Z.div_mod (high - low) 2 ltac:(lia)); pose proof (Z.mod_pos_bound (high - low) 2 ltac:(lia)); lia).
    clearbody middle. cbn [bisect_required] in IH. destruct (Hok middle) as [[] Em]; rewrite Em.
    + destruct (IH low middle ltac:(lia) Hg1 Em Hlow) as (n & E & En & Hn & Hp). exists n. auto with lia.
    + destruct (IH middle high ltac:(lia) Hg2 Hhigh (or_intror Em)) as (n & E & En & Hn & Hp). exists n. auto with lia.
Qed.
End Countable.

(** Zero doubles to zero. *)
Lemma double_high_zero fuel : 0 <= misses -> double_high misses maxMiss alpha fuel 0 = OutOfFuel.
Proof using Type.
  intros Hm. induction fuel as [|fuel IH]; [done|]. cbn [double_high].
  assert (ok 0 = Some false) as -> by (unfold passes; by rewrite (proj2 (Z.ltb_ge _ _)) by lia). exact IH.
Qed.
End Required.

(** Whether the limits leave something to search for. *)
Definition searchable (maxMiss alpha : f64) : bool := negb (fle maxMiss fzero || fge maxMiss fone || fle alpha fzero || fge alpha fone).

(** C33. What the search for the required observations does, for every count of misses.
    With limits outside (0, 1) it gives the largest count, as a refusal.  Otherwise: when
    the terms of the bound fit in a slice, it ends, with the refusal or with a count at
    which the bound is met and just below which it is not; when they do not, for [2 ^ 45]
    misses and more, it panics; but for the largest count of misses the doubling starts
    from zero, and no fuel is enough. *)
Theorem RequiredObservations_terminates `{GoMath} (misses : Z) (captureTarget confidence : f64) (Hmisses : 0 <= misses < 2 ^ 64)
  (maxMiss := fsub fone captureTarget) (alpha := fsub fone confidence) :
  (searchable maxMiss alpha = false -> RequiredObservations misses captureTarget confidence = Returned max_u64) /\
  (misses < 2 ^ 45 -> exists n, RequiredObservations misses captureTarget confidence = Returned n /\
     (n = max_u64 \/ (passes misses maxMiss alpha n = Some true /\ misses < n /\
        (n - 1 = misses \/ passes misses maxMiss alpha (n - 1) = Some false)))) /\
  (searchable maxMiss alpha = true -> 2 ^ 45 <= misses < max_u64 -> RequiredObservations misses captureTarget confidence = Panicked) /\
  (searchable maxMiss alpha = true -> misses = max_u64 -> RequiredObservations misses captureTarget confidence = OutOfFuel /\
     forall fuel, double_high misses maxMiss alpha fuel (u64 (misses + 1)) = OutOfFuel).
Proof.
  unfold RequiredObservations, searchable. fold maxMiss alpha. destruct (_ || _ || _ || _); cbn [negb].
  { split; [done|]. split; [|done]. intros _. exists max_u64. auto. }
  split; [done|]. split; [|split].
  - intros Hlt. assert (u64 (misses + 1) = misses + 1) as -> by (apply Z.mod_small; lia).
    assert (forall n, is_Some (passes misses maxMiss alpha n)) as Hok.
    { intros n. apply passes_Some; [done|]. unfold countable, makeslice_ok. lia. }
    destruct (double_high_ends misses maxMiss alpha Hok 64 (misses + 1)) as [E|(high & E & Hhigh & Hb)]; [cbn; lia|lia|lia| |];
      rewrite E; [by exists max_u64; auto|].
    pose proof (passes_misses misses maxMiss alpha high Hhigh) as Hm.
    destruct (bisect_required_ends misses maxMiss alpha Hok 63 misses high Hm) as (n & En & Hn & _ & Hp); [|done|by left|].
    { change (Z.of_nat 63) with 63. destruct Hb as [->|]; lia. }
    exists n. split; [exact En|]. right. split; [done|]. split; [by apply (passes_misses misses maxMiss alpha)|done].
  - intros _ [Hge Hlt]. unfold max_u64 in Hlt. assert (u64 (misses + 1) = misses + 1) as -> by (apply Z.mod_small; lia).
    change 64%nat with (S 63). cbn [double_high]. assert (passes misses maxMiss alpha (misses + 1) = None) as ->; [|done].
    unfold passes. rewrite (proj2 (Z.ltb_lt _ _)), upperMissBound_None; [done|lia|lia| |lia]. unfold countable, makeslice_ok. lia.
  - intros _ ->. assert (forall fuel, double_high max_u64 maxMiss alpha fuel (u64 (max_u64 + 1)) = OutOfFuel) as E by (intros fuel; by apply double_high_zero).
    by rewrite E.
Qed.

(** A function of the library for which the bound of two observations is met. *)
Definition small_math : GoMath :=
  {| math_Pow := fun _ y => fsub fone y; math_Lgamma := fun x => x; math_Log := fun x => x; math_Log1p := fun x => x;
     math_Exp := fun x => x; int64_unrepresentable := fun _ => 0 |}.

Lemma RequiredObservations_terminates_witness :
  @RequiredObservations small_math 0 (fof 1 (-1)) (fof 1 (-1)) = Returned 2 /\
  (exists n, @RequiredObservations small_math 0 (fof 1 (-1)) (fof 1 (-1)) = Returned n) /\
  @RequiredObservations small_math (2 ^ 45) (fof 1 (-1)) (fof 1 (-1)) = Panicked.
Proof.
  split; [vm_compute; reflexivity|]. split.
  - destruct (@RequiredObservations_terminates small_math 0 (fof 1 (-1)) (fof 1 (-1))) as (_ & Ht & _); [lia|].
    destruct Ht as (n & E & _); [reflexivity|]. by exists n.
  - destruct (@RequiredObservations_terminates small_math (2 ^ 45) (fof 1 (-1)) (fof 1 (-1))) as (_ & _ & Hp & _); [lia|].
    apply Hp; [vm_compute; reflexivity|]. split; [reflexivity|vm_compute; reflexivity].
Defined.
