(* ===== verification/FloatSpec.v ===== *)
(** Bounds of float64 arithmetic that the scheduler's indices rest on: integers up to
    2^53 are exact, a product with a factor of at most one does not exceed them, and so
    the rank of an order statistic stays inside its list. *)

From Stdlib Require Import PArith.
From stdpp Require Import sorting.
From S2P Require Import Prelude Float64 DutyMath.

(** ** Digits *)

Lemma digits2_pos_spec p : 2 ^ (Zpos (digits2_pos p) - 1) <= Zpos p < 2 ^ Zpos (digits2_pos p).
Proof.
  induction p as [p IH|p IH|]; cbn [digits2_pos]; [..|done]; rewrite Pos2Z.inj_succ; set (d := Zpos (digits2_pos p)) in *;
    assert (0 < d) by (unfold d; lia); replace (Z.succ d - 1) with (Z.succ (d - 1)) by lia; rewrite !Z.pow_succ_r by lia; lia.
Qed.

Lemma Zdigits2_bound m d : 0 < m -> 2 ^ (d - 1) <= m < 2 ^ d -> Zdigits2 m = d.
Proof.
  intros Hm [H1 H2]. destruct m as [|p|p]; [lia| |lia]. cbn [Zdigits2]. destruct (digits2_pos_spec p) as [G1 G2]. set (d' := Zpos (digits2_pos p)) in *.
  assert (0 < d') by (unfold d'; lia). assert (0 <= d) by (destruct (Z.le_gt_cases 0 d) as [|Hn]; [done|rewrite (Z.pow_neg_r 2 d) in H2 by lia; lia]).
  assert (d' - 1 < d) by (apply (Z.pow_lt_mono_r_iff 2); lia).
  destruct (Z.eq_dec d 0) as [->|]; [change (2 ^ 0) with 1 in H2; lia|].
  assert (d - 1 < d') by (apply (Z.pow_lt_mono_r_iff 2); lia). lia.
Qed.

(** ** Shifting right *)

Lemma iter_pos_nat {A} (f : A -> A) p : forall x, iter_pos f p x = Nat.iter (Pos.to_nat p) f x.
Proof.
  assert (forall m k x, Nat.iter m f (Nat.iter k f x) = Nat.iter (m + k) f x) as Add by (intros m k x; symmetry; apply Nat.iter_add).
  induction p as [p IH|p IH|]; intros x; cbn [iter_pos]; [| |done].
  - rewrite !IH, Add. replace (Pos.to_nat p~1) with (S (Pos.to_nat p + Pos.to_nat p))%nat by lia. by rewrite Nat.iter_succ_r.
  - rewrite !IH, Add. f_equal. lia.
Qed.

Lemma shr_1_spec m r s : 0 <= m -> shr_1 {| shr_m := m; shr_r := r; shr_s := s |} = {| shr_m := m / 2; shr_r := Z.odd m; shr_s := r || s |}.
Proof.
  intros Hm. destruct m as [|[p|p|]|p]; cbn [shr_1]; [done|..|lia]; f_equal.
  - change (Zpos p~1) with (2 * Zpos p + 1). rewrite Z.add_comm, Z.mul_comm, Z.div_add by lia. done.
  - change (Zpos p~0) with (2 * Zpos p). rewrite Z.mul_comm, Z.div_mul by lia. done.
Qed.

Lemma shr_iter M j : 0 <= M -> let mrs := Nat.iter j shr_1 {| shr_m := M; shr_r := false; shr_s := false |} in
  shr_m mrs = M / 2 ^ Z.of_nat j /\ (M mod 2 ^ Z.of_nat j = 0 -> shr_r mrs = false /\ shr_s mrs = false).
Proof.
  intros HM. induction j as [|j [IH1 IH2]]; [cbn; by rewrite Z.div_1_r|]. cbv zeta. rewrite Nat.iter_succ.
  set (mrs := Nat.iter j shr_1 _) in *. clearbody mrs. destruct mrs as [m r s]. cbn [shr_m shr_r shr_s] in IH1, IH2. subst m.
  assert (0 < 2 ^ Z.of_nat j) as Hp by (apply Z.pow_pos_nonneg; lia). rewrite shr_1_spec by (apply Z.div_pos; lia). cbn [shr_m shr_r shr_s].
  rewrite Nat2Z.inj_succ, Z.pow_succ_r, Z.mul_comm by lia. split; [by rewrite Z.div_div by lia|]. intros Hz.
  apply Z.mod_divide in Hz; [|lia]. destruct Hz as [q Hq]. assert (M = q * 2 * 2 ^ Z.of_nat j) as Eq by lia.
  destruct IH2 as [-> ->]; [rewrite Eq; apply Z.mod_mul; lia|]. split; [|done]. rewrite Eq, Z.div_mul by lia. rewrite Z.mul_comm. apply Z.odd_even.
Qed.

(** ** Rounding below an integer *)

Section Round.
(** A scale that makes every exponent of a float64 product non-negative. *)
Variable K : Z.
Hypothesis HK : 4000 <= K.

(** m * 2^e <= n, scaled to integers. *)
Definition below (m e n : Z) : Prop := - K <= e /\ m * 2 ^ (e + K) <= n * 2 ^ K.

Lemma pow_split a b : 0 <= a -> 0 <= b -> 2 ^ (a + b) = 2 ^ a * 2 ^ b.
Proof. intros. by rewrite Z.pow_add_r by lia. Qed.

Lemma below_shift m e n k : 0 <= m -> 0 <= k -> below m e n -> below (m / 2 ^ k) (e + k) n.
Proof.
  intros Hm Hk [He Hb]. split; [lia|]. replace (e + k + K) with (k + (e + K)) by lia. rewrite pow_split by lia.
  assert (0 < 2 ^ k) by (apply Z.pow_pos_nonneg; lia). assert (0 < 2 ^ (e + K)) by (apply Z.pow_pos_nonneg; lia).
  pose proof (Z.mul_div_le m (2 ^ k) ltac:(lia)). nia.
Qed.

Lemma below_exponent e d n b : 0 <= d -> below (2 ^ d) e n -> n <= 2 ^ b -> 0 <= b -> d + e <= b.
Proof.
  intros Hd [He Hb] Hn Hb0. assert (2 ^ (d + (e + K)) <= 2 ^ (b + K)) as H.
  { rewrite (pow_split d), (pow_split b) by lia. assert (0 < 2 ^ K) by (apply Z.pow_pos_nonneg; lia). nia. }
  apply Z.pow_le_mono_r_iff in H; lia.
Qed.

(** The shift to the precision: its exponent, and whether something is lost. *)
Lemma shr_fexp_spec m e : 0 <= m -> exists k mrs, 0 <= k /\ shr_fexp 53 1024 m e loc_Exact = (mrs, e + k) /\ shr_m mrs = m / 2 ^ k /\
  (m mod 2 ^ k = 0 -> loc_of_shr_record mrs = loc_Exact) /\ (0 < k -> e + k = Z.max (Zdigits2 m + e - 53) (-1074)).
Proof.
  intros Hm. unfold shr_fexp, shr. set (n := fexp 53 1024 (Zdigits2 m + e) - e). assert (e + n = Z.max (Zdigits2 m + e - 53) (-1074)) as En.
  { unfold n, fexp, emin. lia. }
  destruct n as [|p|p] eqn:E.
  - exists 0, {| shr_m := m; shr_r := false; shr_s := false |}. rewrite Z.add_0_r. cbn. rewrite Z.div_1_r. repeat split; done || lia.
  - exists (Zpos p). rewrite iter_pos_nat. destruct (shr_iter m (Pos.to_nat p) Hm) as [H1 H2]. cbn [shr_record_of_loc]. destruct (Nat.iter _ _ _) as [m' r s] eqn:Em.
    exists {| shr_m := m'; shr_r := r; shr_s := s |}. cbn [shr_m shr_r shr_s] in *. rewrite positive_nat_Z in *. split; [lia|]. split; [done|]. split; [done|].
    split; [|done]. intros Hz. destruct (H2 Hz) as [-> ->]. done.
  - exists 0, {| shr_m := m; shr_r := false; shr_s := false |}. rewrite Z.add_0_r. cbn. rewrite Z.div_1_r. repeat split; done || lia.
Qed.

Lemma round_nearest_even_le m l : round_nearest_even m l <= m + 1 /\ (l = loc_Exact -> round_nearest_even m l = m) /\ m <= round_nearest_even m l.
Proof. destruct l as [|[]]; cbn; [|destruct (Z.even m)|..]; split_and?; intros; done || lia. Qed.

(** Rounding does not climb over an integer of at most 53 bits, or over 2^53. *)
Lemma first_round_below m e n k mrs : 0 < m -> 0 < n <= 2 ^ 53 -> below m e n -> 0 <= k -> shr_m mrs = m / 2 ^ k ->
  (m mod 2 ^ k = 0 -> loc_of_shr_record mrs = loc_Exact) -> (0 < k -> e + k = Z.max (Zdigits2 m + e - 53) (-1074)) ->
  below (round_nearest_even (shr_m mrs) (loc_of_shr_record mrs)) (e + k) n.
Proof.
  intros Hm Hn Hb Hk E1 E2 E3. destruct (round_nearest_even_le (shr_m mrs) (loc_of_shr_record mrs)) as (R1 & R2 & _).
  pose proof (below_shift m e n k ltac:(lia) Hk Hb) as Hs. rewrite <- E1 in Hs.
  destruct (Z.eq_dec k 0) as [->|Hk0]; [rewrite R2; [done|apply E2; apply Z.mod_1_r]|]. specialize (E3 ltac:(lia)).
  destruct (Z.eq_dec (m mod 2 ^ k) 0) as [Hz|Hz]; [by rewrite R2 by (by apply E2)|].
  assert (0 < 2 ^ k) as Hpk by (apply Z.pow_pos_nonneg; lia). pose proof (Z.div_mod m (2 ^ k) ltac:(lia)) as Ed. pose proof (Z.mod_pos_bound m (2 ^ k) Hpk) as Hmod.
  destruct Hb as [He Hb]. assert (0 < 2 ^ (e + K)) as Hpe by (apply Z.pow_pos_nonneg; lia).
  (* the integer on the grid of the result *)
  assert (exists N, n * 2 ^ K = N * 2 ^ (e + k + K)) as [N HN].
  { destruct m as [|p|p]; [lia| |lia]. cbn [Zdigits2] in E3. destruct (digits2_pos_spec p) as [D1 _]. set (d := Zpos (digits2_pos p)) in *. assert (0 < d) by (unfold d; lia).
    assert (below (2 ^ (d - 1)) e n) as Hbd by (split; [done|nia]). pose proof (below_exponent e (d - 1) n 53 ltac:(lia) Hbd ltac:(lia) ltac:(lia)) as Hde.
    destruct (Z.le_gt_cases (e + k) 0) as [Hle|Hgt].
    - exists (n * 2 ^ (- (e + k))). rewrite <- Z.mul_assoc, <- pow_split by lia. do 2 f_equal. lia.
    - assert (e + k = 1) as Ek by lia. assert (d - 1 + e = 53) as E53 by lia. assert (2 ^ 53 * 2 ^ K <= n * 2 ^ K) as H53.
      { destruct Hbd as [_ Hbd]. rewrite <- pow_split in Hbd by lia. rewrite <- pow_split by lia. replace (53 + K) with (d - 1 + (e + K)) by lia. done. }
      assert (0 < 2 ^ K) by (apply Z.pow_pos_nonneg; lia). assert (n = 2 ^ 53) as -> by nia.
      exists (2 ^ 52). rewrite Ek, <- !pow_split by lia. f_equal; lia. }
  assert (2 ^ (e + k + K) = 2 ^ k * 2 ^ (e + K)) as Ep by (rewrite <- pow_split by lia; f_equal; lia).
  split; [lia|]. rewrite HN, Ep in *. assert (m <= N * 2 ^ k) by nia. assert (m / 2 ^ k < N) by nia. nia.
Qed.

Lemma round_below M E n : 0 < M -> 0 < n <= 2 ^ 53 -> below M E n ->
  binary_round_aux 53 1024 false M E loc_Exact = S754_zero false \/
  exists m e, binary_round_aux 53 1024 false M E loc_Exact = S754_finite false m e /\ below (Zpos m) e n.
Proof.
  intros HM Hn Hb. unfold binary_round_aux. destruct (shr_fexp_spec M E ltac:(lia)) as (k & mrs & Hk & -> & E1 & E2 & E3).
  pose proof (first_round_below M E n k mrs HM Hn Hb Hk E1 E2 E3) as Hb1. destruct (round_nearest_even_le (shr_m mrs) (loc_of_shr_record mrs)) as (_ & _ & R3).
  assert (0 <= shr_m mrs) as H0 by (rewrite E1; apply Z.div_pos; [lia|apply Z.pow_pos_nonneg; lia]).
  set (m1 := round_nearest_even _ _) in *. destruct (shr_fexp_spec m1 (E + k) ltac:(lia)) as (k2 & mrs2 & Hk2 & -> & E4 & _ & _).
  pose proof (below_shift m1 (E + k) n k2 ltac:(lia) Hk2 Hb1) as Hb2. rewrite <- E4 in Hb2.
  assert (0 <= shr_m mrs2) as H2 by (rewrite E4; apply Z.div_pos; [lia|apply Z.pow_pos_nonneg; lia]).
  destruct (shr_m mrs2) as [|m|m]; [by left| |lia]. right. exists m, (E + k + k2).
  assert (below (2 ^ 0) (E + k + k2) n) as Hone.
  { destruct Hb2 as [G1 G2]. split; [done|]. change (2 ^ 0) with 1. assert (0 < 2 ^ (E + k + k2 + K)) by (apply Z.pow_pos_nonneg; lia). nia. }
  pose proof (below_exponent _ 0 n 53 ltac:(lia) Hone ltac:(lia) ltac:(lia)). rewrite (proj2 (Z.leb_le _ _)) by lia. done.
Qed.
End Round.

(** ** Integers are exact *)

Lemma shift_pos_mul d p : Zpos (Pos.iter xO p d) = Zpos p * 2 ^ Zpos d.
Proof.
  induction d using Pos.peano_ind; [cbn; lia|]. rewrite Pos.iter_succ, Pos2Z.inj_succ, Z.pow_succ_r by lia. lia.
Qed.

Lemma digits2_shift d p : Zpos (digits2_pos (Pos.iter xO p d)) = Zpos (digits2_pos p) + Zpos d.
Proof.
  induction d using Pos.peano_ind; [cbn; lia|]. rewrite Pos.iter_succ. cbn [digits2_pos]. lia.
Qed.

(** A mantissa of 53 bits rounds to itself. *)
Lemma round_exact m e : Zpos (digits2_pos m) = 53 -> -1074 <= e <= 971 -> binary_round_aux 53 1024 false (Zpos m) e loc_Exact = S754_finite false m e.
Proof.
  intros Hd He. assert (forall l, shr_fexp 53 1024 (Zpos m) e l = (shr_record_of_loc (Zpos m) l, e)) as E.
  { intros l. unfold shr_fexp, shr, Zdigits2, fexp, emin. rewrite Hd. by replace (Z.max (53 + e - 53) (3 - 1024 - 53) - e) with 0 by lia. }
  unfold binary_round_aux. rewrite E. cbn [shr_record_of_loc loc_of_shr_record shr_m round_nearest_even]. rewrite E. cbn [shr_record_of_loc shr_m].
  by rewrite (proj2 (Z.leb_le _ _)) by lia.
Qed.

Lemma f64_of_int_exact q : 0 < q <= 2 ^ 53 -> exists m e, f64_of_int q = S754_finite false m e /\ -53 <= e <= 1 /\ Zpos m * 2 ^ (e + 53) = q * 2 ^ 53.
Proof.
  intros Hq. destruct (Z.eq_dec q (2 ^ 53)) as [->|]; [exists 4503599627370496%positive, 1; by vm_compute|].
  destruct q as [|q|q]; [lia| |lia]. destruct (digits2_pos_spec q) as [D1 _]. assert (Zpos (digits2_pos q) - 1 < 53) by (apply (Z.pow_lt_mono_r_iff 2); lia).
  unfold f64_of_int, fof, binary_normalize, binary_round, shl_align, fexp, emin.
  set (d := Zpos (digits2_pos q)) in *. assert (0 < d) by (unfold d; lia). replace (Z.max (d + 0 - 53) (3 - 1024 - 53) - 0) with (d - 53) by lia.
  destruct (d - 53) as [|p|p] eqn:Ep; [..|]; [|lia|].
  - exists q, 0. split; [apply round_exact; [unfold d in *|]; lia|]. split; [lia|]. done.
  - exists (Pos.iter xO q p), (Z.max (d + 0 - 53) (3 - 1024 - 53)). split; [apply round_exact; [rewrite digits2_shift; fold d; lia|lia]|].
    split; [lia|]. rewrite shift_pos_mul, <- Z.mul_assoc, <- pow_split by lia. do 2 f_equal. lia.
Qed.

(** ** The rank of an order statistic *)

(** A probability that the validation accepts. *)
Record probability (p : f64) : Prop := {
  pr_valid : valid_binary 53 1024 p = true;
  pr_finite : finite p = true;
  pr_positive : fle p fzero = false;
  pr_one : fgt p fone = false }.

Lemma probability_below p : probability p -> exists m e, p = S754_finite false m e /\ -1074 <= e <= -52 /\ Zpos m * 2 ^ (e + 1074) <= 2 ^ 1074.
Proof.
  intros [Hv Hf Hp H1]. destruct p as [s|s| |s m e]; [by destruct s|done|done|]. destruct s; [done|]. exists m, e. split; [done|].
  unfold valid_binary, bounded, canonical_mantissa, fexp, emin in Hv. rewrite andb_true_iff, Z.leb_le, Z.eqb_eq in Hv. destruct Hv as [Hd _].
  destruct (digits2_pos_spec m) as [_ D2]. set (d := Zpos (digits2_pos m)) in *.
  assert (e < -52 \/ (e = -52 /\ Zpos m <= 2 ^ 52)) as He.
  { assert (fone = S754_finite false 4503599627370496 (-52)) as E1 by (by vm_compute). unfold fgt, SFltb in H1. rewrite E1 in H1. cbn [SFcompare] in H1.
    destruct (Z.compare_spec (-52) e) as [<-|Hlt|Hlt]; [right; split; [done|]|done|by left].
    assert (2 ^ 52 = Zpos 4503599627370496) as E52 by (by vm_compute). rewrite E52. change (Pos.compare_cont Eq) with Pos.compare in H1.
    clear -H1. revert H1. generalize 4503599627370496%positive as c. intros c H1. destruct (Pos.compare_spec c m); [lia|done|lia]. }
  split; [lia|]. destruct He as [He|[-> He]]; [|replace 1074 with (52 + (-52 + 1074)) at 2 by lia; rewrite (pow_split 52) by lia; apply Z.mul_le_mono_nonneg_r; [lia|done]].
  assert (2 ^ d <= 2 ^ 53) by (apply Z.pow_le_mono_r; lia). assert (2 ^ (e + 1074) <= 2 ^ 1021) by (apply Z.pow_le_mono_r; lia).
  replace 1074 with (53 + 1021) at 2 by lia. rewrite (pow_split 53) by lia. assert (0 < 2 ^ (e + 1074)) by (apply Z.pow_pos_nonneg; lia). nia.
Qed.

(** A product with a probability does not exceed its integer. *)
Lemma product_below K p n : 4000 <= K -> probability p -> 0 < n <= 2 ^ 53 ->
  fmul p (f64_of_int n) = S754_zero false \/ exists m e, fmul p (f64_of_int n) = S754_finite false m e /\ below K (Zpos m) e n.
Proof.
  intros HK (m & e & -> & He & Hm)%probability_below Hn. destruct (f64_of_int_exact n Hn) as (m' & e' & -> & He' & Hm').
  unfold fmul. cbn [SFmul xorb]. apply round_below; [done|lia|done|]. split; [lia|]. rewrite Pos2Z.inj_mul.
  replace (e + e' + K) with ((e + 1074) + (e' + 53) + (K - 1127)) by lia. rewrite (pow_split (e + 1074 + (e' + 53))), (pow_split (e + 1074)) by lia.
  replace (2 ^ K) with (2 ^ 1074 * 2 ^ 53 * 2 ^ (K - 1127)) by (rewrite <- !pow_split by lia; f_equal; lia).
  assert (0 < 2 ^ (K - 1127)) by (apply Z.pow_pos_nonneg; lia). assert (0 < 2 ^ (e + 1074)) by (apply Z.pow_pos_nonneg; lia).
  assert (Zpos m * 2 ^ (e + 1074) * (n * 2 ^ 53) <= 2 ^ 1074 * (n * 2 ^ 53)) by (apply Z.mul_le_mono_nonneg_r; [lia|done]). nia.
Qed.

Lemma ceil_below K m e n : 4000 <= K -> 0 < n -> below K (Zpos m) e n -> 0 <= round_by (fun r _ => 0 <? r) m e <= n.
Proof.
  intros HK Hn [He Hb]. unfold round_by. destruct (Z.leb_spec 0 e).
  - rewrite (pow_split e K) in Hb by lia. assert (0 < 2 ^ K) by (apply Z.pow_pos_nonneg; lia). assert (0 < 2 ^ e) by (apply Z.pow_pos_nonneg; lia). nia.
  - set (unit := 2 ^ (- e)). assert (0 < unit) by (apply Z.pow_pos_nonneg; lia). assert (Zpos m <= n * unit) as Hm.
    { replace (2 ^ K) with (2 ^ (- e + (e + K))) in Hb by (f_equal; lia). rewrite (pow_split (- e)) in Hb by lia. fold unit in Hb.
      assert (0 < 2 ^ (e + K)) by (apply Z.pow_pos_nonneg; lia). nia. }
    pose proof (Z.div_mod (Zpos m) unit ltac:(lia)). pose proof (Z.mod_pos_bound (Zpos m) unit ltac:(done)).
    pose proof (Z.div_pos (Zpos m) unit ltac:(lia) ltac:(done)). destruct (Z.ltb_spec 0 (2 * (Zpos m mod unit))); nia.
Qed.

Section Quantile.
Context `{GoMath}.

Lemma int64_of_int n : 0 <= n <= 2 ^ 53 -> int64_of (with_sign false n) = n.
Proof.
  intros Hn. unfold with_sign. destruct (Z.eqb_spec n 0) as [->|]; [done|]. destruct (f64_of_int_exact n ltac:(lia)) as (m & e & -> & He & Hm).
  unfold int64_of. assert (round_by (fun _ _ => false) m e = n) as ->.
  { unfold round_by. destruct (Z.leb_spec 0 e).
    - rewrite pow_split in Hm by lia. nia.
    - set (unit := 2 ^ (- e)). assert (Zpos m = n * unit) as ->; [|apply Z.div_mul; unfold unit; lia].
      replace 53 with (- e + (e + 53)) in Hm at 2 by lia. rewrite (pow_split (- e)) in Hm by lia. fold unit in Hm.
      assert (0 < 2 ^ (e + 53)) by (apply Z.pow_pos_nonneg; lia). nia. }
  by rewrite (proj2 (Z.leb_le _ _)), (proj2 (Z.ltb_lt _ _)) by lia.
Qed.

(** The rank is inside the list, so the order statistic exists. *)
Lemma durationQuantile_total values p : probability p -> len values <= 2 ^ 53 -> is_Some (durationQuantile values p).
Proof.
  intros Hp Hlen. unfold durationQuantile. destruct (decide (values = [])) as [|Hne]; [by eexists|].
  assert (len (sorted_durations values) = len values) as El. { unfold sorted_durations, len. by rewrite (merge_sort_Permutation Z.le values). }
  assert (0 < len values) by (destruct values; [done|unfold len; cbn; lia]).
  assert (-1 <= int64_of (fceil (fmul p (f64_of_int (len values)))) - 1 < len values) as Hr.
  { assert (exists K, 4000 <= K) as [K HK] by (by exists 4000). destruct (product_below K p (len values) HK Hp ltac:(lia)) as [->|(m & e & -> & Hb)]; [cbn; lia|]. cbn [fceil negb andb].
    pose proof (ceil_below K m e (len values) HK ltac:(done) Hb). rewrite int64_of_int; lia. }
  cbv zeta. rewrite El. set (r := int64_of _ - 1) in *. destruct (Z.ltb_spec r 0); apply index_lt; lia.
Qed.
End Quantile.
