(* ===== verification/DutyModel.v ===== *)
(** The cadence models of the duty scheduler (src/internal/dutyscheduler/
    scheduler.go): one model of a sender's period and wake window per candidate
    policy, and the candidate that owns them.  A candidate keeps its models in the
    order of the configured senders, under their ids.  [None] is a run-time panic. *)

From S2P Require Import Prelude Float64 DutyMath Update.

Definition second : Z := 1000000000.
Definition minute : Z := 60 * second.
Definition hour : Z := 60 * minute.

Record CandidateConfig := {
  Name : list Z; HistoryLimit : Z; MinHistoryLimit : Z; WarmupIntervals : Z; R900Floor : Z; OtherFloor : Z;
  JitterQuantile : f64; JitterMargin : Z; PreScale : f64; PostScale : f64; AuditFraction : f64; ChangePointScale : f64;
  HistoryGrowAfter : Z; WakeScaleStep : f64; MaxWakeScale : f64 }.
#[export] Instance CandidateConfig_settable : Settable CandidateConfig := fun c =>
  Build_CandidateConfig (Name c) (HistoryLimit c) (MinHistoryLimit c) (WarmupIntervals c) (R900Floor c) (OtherFloor c)
    (JitterQuantile c) (JitterMargin c) (PreScale c) (PostScale c) (AuditFraction c) (ChangePointScale c)
    (HistoryGrowAfter c) (WakeScaleStep c) (MaxWakeScale c).

Record senderModel := {
  m_protocol : list Z; m_history : list Z; m_last : Z; m_seen : bool; m_learned : bool; m_period : Z; m_anchor : Z;
  m_preWake : Z; m_postWake : Z; m_events : Z; m_misses : Z; m_effectiveHistory : Z; m_stableIntervals : Z; m_changePoints : Z;
  m_boundEvents : Z; m_boundMisses : Z; m_boundAlpha : f64; m_boundUpper : f64; m_boundValid : bool; m_boundEvaluations : Z }.
#[export] Instance senderModel_settable : Settable senderModel := fun m =>
  Build_senderModel (m_protocol m) (m_history m) (m_last m) (m_seen m) (m_learned m) (m_period m) (m_anchor m)
    (m_preWake m) (m_postWake m) (m_events m) (m_misses m) (m_effectiveHistory m) (m_stableIntervals m) (m_changePoints m)
    (m_boundEvents m) (m_boundMisses m) (m_boundAlpha m) (m_boundUpper m) (m_boundValid m) (m_boundEvaluations m).

(** [senderModel{}] *)
Definition zero_model : senderModel :=
  {| m_protocol := []; m_history := []; m_last := 0; m_seen := false; m_learned := false; m_period := 0; m_anchor := 0;
     m_preWake := 0; m_postWake := 0; m_events := 0; m_misses := 0; m_effectiveHistory := 0; m_stableIntervals := 0;
     m_changePoints := 0; m_boundEvents := 0; m_boundMisses := 0; m_boundAlpha := fzero; m_boundUpper := fzero;
     m_boundValid := false; m_boundEvaluations := 0 |}.

Record candidate := {
  c_cfg : CandidateConfig; c_senders : list (Z * senderModel); c_lastEligible : bool; c_lastAwake : bool;
  c_totalDuration : Z; c_totalAwake : Z; c_eligibleDuration : Z; c_awakeDuration : Z; c_invalid : bool; c_qualified : bool;
  c_epoch : Z; c_wakeScale : f64; c_promotionReady : Z; c_recoveryUntil : Z; c_eligibilityDirty : bool; c_eligibleCached : bool;
  c_wakeCacheValid : bool; c_wakeUntil : f64; c_nextWakeStart : f64 }.
#[export] Instance candidate_settable : Settable candidate := fun c =>
  Build_candidate (c_cfg c) (c_senders c) (c_lastEligible c) (c_lastAwake c)
    (c_totalDuration c) (c_totalAwake c) (c_eligibleDuration c) (c_awakeDuration c) (c_invalid c) (c_qualified c)
    (c_epoch c) (c_wakeScale c) (c_promotionReady c) (c_recoveryUntil c) (c_eligibilityDirty c) (c_eligibleCached c)
    (c_wakeCacheValid c) (c_wakeUntil c) (c_nextWakeStart c).

Section Model.
Context `{GoMath}.

(** ** One model *)

(** [strings.HasPrefix(strings.ToLower(protocol), "r900")] *)
Definition ascii_lower (c : Z) : Z := if (65 <=? c) && (c <=? 90) then c + 32 else c.
Definition is_r900 (protocol : list Z) : bool := bool_decide (map ascii_lower (take 4 protocol) = str "r900").

(** The change-point test of a new interval against a learned model: whether it is
    one, and the model with its counters. *)
Definition score_interval (cfg : CandidateConfig) (delta : Z) (m : senderModel) : senderModel * bool :=
  let multiple := fround (fdiv (f64_of_int delta) (f64_of_int (m_period m))) in
  let multiple := if flt multiple fone then fone else multiple in
  let residual := int64_of (fabs (fsub (f64_of_int delta) (fmul multiple (f64_of_int (m_period m))))) in
  let tolerance := int64_of (fmul (f64_of_int (maxDuration (m_preWake m) (m_postWake m))) (ChangePointScale cfg)) in
  let tolerance := if tolerance <? Z.quot (m_period m) 20 then Z.quot (m_period m) 20 else tolerance in
  if tolerance <? residual then
    (m <| m_changePoints := u64 (m_changePoints m + 1) |> <| m_stableIntervals := 0 |>
       <| m_effectiveHistory := Z.min (MinHistoryLimit cfg) (len (m_history m) + 1) |>, true)
  else (m <| m_stableIntervals := m_stableIntervals m + 1 |>, false).

(** Append to a history that keeps its last [limit] entries. *)
Definition push_limited (limit : Z) (l : list Z) (x : Z) : list Z :=
  let l := l ++ [x] in if limit <? len l then drop (Z.to_nat (len l - limit)) l else l.

(** The history grows to the next limit when that fits the same period. *)
Definition grow_history (cfg : CandidateConfig) (m : senderModel) : option senderModel :=
  if (HistoryGrowAfter cfg <=? m_stableIntervals m) && (m_effectiveHistory m <? Z.min (len (m_history m)) (HistoryLimit cfg)) then
    let next := nextHistoryLimit (m_effectiveHistory m) (Z.min (len (m_history m)) (HistoryLimit cfg)) in
    ok ← compatibleHistory (m_history m) (m_effectiveHistory m) next (maxDuration (m_preWake m) (m_postWake m));
    Some (if (ok : bool) then m <| m_effectiveHistory := next |> <| m_stableIntervals := 0 |> else m)
  else Some m.

(** The window fitted to the effective history. *)
Definition fit_window (cfg : CandidateConfig) (wakeScale : f64) (protocol : list Z) (at_ : Z) (m : senderModel) : option senderModel :=
  history ← last_n (m_effectiveHistory m) (m_history m);
  '(period, residuals) ← robustPeriod history;
  let floor := if is_r900 protocol then R900Floor cfg else OtherFloor cfg in
  q ← durationQuantile residuals (JitterQuantile cfg);
  let learned := i64 (q + JitterMargin cfg) in
  let halfwidth := if floor <? learned then learned else floor in
  Some (m <| m_period := period |> <| m_anchor := at_ |>
          <| m_preWake := scaleDuration halfwidth (fmul (PreScale cfg) wakeScale) |>
          <| m_postWake := scaleDuration halfwidth (fmul (PostScale cfg) wakeScale) |>
          <| m_learned := 0 <? period |>).

(** [senderModel.observe] up to the fit: the protocol, the new interval. *)
Definition record_arrival (protocol : list Z) (at_ : Z) (cfg : CandidateConfig) (m : senderModel) : senderModel * bool :=
  let '(m, changed) :=
    if negb (bool_decide (m_protocol m = [])) && negb (bool_decide (m_protocol m = protocol)) then
      (m <| m_history := [] |> <| m_seen := false |> <| m_learned := false |> <| m_effectiveHistory := 0 |>, true)
    else (m, false) in
  let m := m <| m_protocol := protocol |> in
  let '(m, changed) :=
    if m_seen m then
      let delta := i64 (at_ - m_last m) in
      if 0 <? delta then
        let '(m, drifted) := if m_learned m && (0 <? m_period m) then score_interval cfg delta m else (m, false) in
        (m <| m_history := push_limited (HistoryLimit cfg) (m_history m) delta |>, changed || drifted)
      else (m, changed)
    else (m, changed) in
  (m <| m_last := at_ |> <| m_seen := true |>, changed).

(** [senderModel.observe] *)
Definition model_observe (protocol : list Z) (at_ : Z) (cfg : CandidateConfig) (wakeScale : f64) (m : senderModel)
  : option (senderModel * bool) :=
  let '(m, changed) := record_arrival protocol at_ cfg m in
  if len (m_history m) <? WarmupIntervals cfg then Some (m, changed) else
  let m := if m_effectiveHistory m =? 0 then m <| m_effectiveHistory := Z.min (len (m_history m)) (MinHistoryLimit cfg) |> else m in
  m ← grow_history cfg m;
  m ← fit_window cfg wakeScale protocol at_ m;
  Some (m, changed).

(** [senderModel.reanchor] *)
Definition reanchor (protocol : list Z) (at_ : Z) (m : senderModel) : senderModel :=
  m <| m_protocol := protocol |> <| m_last := at_ |> <| m_anchor := at_ |> <| m_seen := true |>.

(** [senderModel.awakeWindow] *)
Definition awakeWindow (m : senderModel) (start end_ : Z) : bool * f64 * f64 :=
  if negb (m_learned m) || (m_period m <=? 0) then (true, finf, finf) else
  let period := f64_of_int (m_period m) in
  let first := fceil (fdiv (f64_of_int (i64 (i64 (start - m_postWake m) - m_anchor m))) period) in
  let center := fadd (f64_of_int (m_anchor m)) (fmul first period) in
  let windowStart := fsub center (f64_of_int (m_preWake m)) in
  let windowEnd := fadd center (f64_of_int (m_postWake m)) in
  if flt windowStart (f64_of_int end_) && fgt windowEnd (f64_of_int start) then (true, windowEnd, finf) else
  let windowStart := if fle windowEnd (f64_of_int start) then fadd windowStart period else windowStart in
  (false, fzero, windowStart).

(** [senderModel.confidenceUpperBound]: the bound, memoized for its evidence; [None] is the
    panic of a count of misses for which no slice can be made. *)
Definition confidenceUpperBound (alpha : f64) (m : senderModel) : option (senderModel * f64) :=
  if m_boundValid m && (m_boundEvents m =? m_events m) && (m_boundMisses m =? m_misses m) && SFeqb (m_boundAlpha m) alpha
  then Some (m, m_boundUpper m)
  else
    bound ← upperMissBound (m_misses m) (m_events m) alpha;
    Some (m <| m_boundEvents := m_events m |> <| m_boundMisses := m_misses m |> <| m_boundAlpha := alpha |> <| m_boundUpper := bound |>
       <| m_boundValid := true |> <| m_boundEvaluations := u64 (m_boundEvaluations m + 1) |>, bound).

(** ** One candidate *)

(** Every model of the candidate, and the model of one sender. *)
Definition map_models (f : senderModel -> senderModel) (c : candidate) : candidate :=
  c <| c_senders := map (fun '(id, m) => (id, f m)) (c_senders c) |>.

Definition find_model (id : Z) (c : candidate) : option senderModel :=
  snd <$> find (fun '(id', _) => id' =? id) (c_senders c).

Definition set_model (id : Z) (m : senderModel) (c : candidate) : candidate :=
  c <| c_senders := map (fun '(id', m') => (id', if id' =? id then m else m')) (c_senders c) |>.

(** [candidate.invalidateSchedule] *)
Definition invalidateSchedule (c : candidate) : candidate :=
  c <| c_eligibilityDirty := true |> <| c_wakeCacheValid := false |> <| c_wakeUntil := fzero |> <| c_nextWakeStart := fzero |>.

(** [candidate.allLearned] *)
Definition all_learned (c : candidate) : bool := forallb (fun '(_, m) => m_learned m) (c_senders c).

Definition allLearned (c : candidate) : candidate * bool :=
  if negb (c_eligibilityDirty c) then (c, c_eligibleCached c)
  else (c <| c_eligibleCached := all_learned c |> <| c_eligibilityDirty := false |>, all_learned c).

(** [candidate.beginNewEpoch] *)
Definition beginNewEpoch (now : Z) (widen : bool) (c : candidate) : candidate :=
  let c := c <| c_epoch := u64 (c_epoch c + 1) |> <| c_qualified := false |> <| c_promotionReady := 0 |> in
  let c := if widen then
      let scale := fmul (c_wakeScale c) (WakeScaleStep (c_cfg c)) in
      c <| c_wakeScale := if fgt scale (MaxWakeScale (c_cfg c)) then MaxWakeScale (c_cfg c) else scale |>
    else c in
  let step := WakeScaleStep (c_cfg c) in
  let c := map_models (fun m =>
      let m := m <| m_events := 0 |> <| m_misses := 0 |> in
      if widen && m_learned m then
        m <| m_preWake := scaleDuration (m_preWake m) step |> <| m_postWake := scaleDuration (m_postWake m) step |>
      else m) c in
  invalidateSchedule (c <| c_recoveryUntil := now |>).

(** [candidate.tightenAfterRefresh] *)
Definition tightenAfterRefresh (now : Z) (c : candidate) : candidate :=
  if fle (c_wakeScale c) fone then c else
  let oldScale := c_wakeScale c in
  let scale := fdiv (c_wakeScale c) (WakeScaleStep (c_cfg c)) in
  let scale := if flt scale fone then fone else scale in
  let ratio := fdiv scale oldScale in
  let c := map_models (fun m =>
      if m_learned m then
        m <| m_preWake := scaleDuration (m_preWake m) ratio |> <| m_postWake := scaleDuration (m_postWake m) ratio |>
      else m) (c <| c_wakeScale := scale |>) in
  beginNewEpoch now false c.

(** [candidate.awakeDuring], with its cache. *)
Definition join_wake (start end_ : Z) (st : bool * f64 * f64) (model : Z * senderModel) : bool * f64 * f64 :=
  let '(awake, wakeUntil, nextWakeStart) := st in
  let '(senderAwake, senderWakeUntil, senderNextWake) := awakeWindow (snd model) start end_ in
  if senderAwake then (true, if fgt senderWakeUntil wakeUntil then senderWakeUntil else wakeUntil, nextWakeStart)
  else (awake, wakeUntil, if flt senderNextWake nextWakeStart then senderNextWake else nextWakeStart).

Definition candidate_awakeDuring (start end_ : Z) (c : candidate) : candidate * bool :=
  let cached :=
    if c_wakeCacheValid c then
      if fgt (c_wakeUntil c) (f64_of_int start) then Some true
      else if SFeqb (c_wakeUntil c) fzero && fge (c_nextWakeStart c) (f64_of_int end_) then Some false
      else None
    else None in
  match cached with
  | Some awake => (c, awake)
  | None =>
      let '(awake, wakeUntil, nextWakeStart) := foldl (join_wake start end_) (false, fzero, finf) (c_senders c) in
      (c <| c_wakeCacheValid := true |> <| c_wakeUntil := wakeUntil |> <| c_nextWakeStart := nextWakeStart |>, awake)
  end.

Definition projectedSleep (c : candidate) : f64 :=
  if c_totalDuration c <=? 0 then fzero else fsub fone (fdiv (f64_of_int (c_totalAwake c)) (f64_of_int (c_totalDuration c))).

Definition steadySleep (c : candidate) : f64 :=
  if c_eligibleDuration c <=? 0 then fzero else fsub fone (fdiv (f64_of_int (c_awakeDuration c)) (f64_of_int (c_eligibleDuration c))).

Definition auditFraction (c : candidate) : f64 :=
  let result := fmul (AuditFraction (c_cfg c)) (c_wakeScale c) in if fgt result fone then fone else result.

Definition effectiveSleep (c : candidate) : f64 := fmul (steadySleep c) (fsub fone (auditFraction c)).

Definition refreshInterval (base : Z) (c : candidate) : Z :=
  if fle (c_wakeScale c) fone then base else
  let interval := int64_of (fdiv (f64_of_int base) (fmin (c_wakeScale c) (fof 4 0))) in
  if interval <? minute then minute else interval.
End Model.
