(* ===== verification/Scheduler.v ===== *)
(** The duty scheduler (src/internal/dutyscheduler/scheduler.go): qualification,
    watchdogs, recovery, refresh and the decision whether a block is decoded.
    Candidates are referred to by their place; the candidates, models and senders
    that Go shares through pointers are updated in the one scheduler state.  [None]
    is a run-time panic. *)

From S2P Require Import Prelude Float64 DutyMath Update DutyModel.

Definition Mode := list Z.
Definition ModeOff : Mode := str "off".
Definition ModeShadow : Mode := str "shadow".
Definition ModeGated : Mode := str "gated".

Record SenderConfig := { ID : Z; Overdue : Z; CountWindow : Z; MinimumCount : Z }.

Record Config := {
  cfg_Mode : Mode; Senders : list SenderConfig; Candidates : list CandidateConfig; CaptureTarget : f64; Confidence : f64;
  MinimumAudit : f64; RecoveryDuration : Z; RefreshInterval : Z; RefreshDuration : Z; PromotionMargin : f64;
  PromotionStability : Z; WatchdogHistory : Z; WatchdogMinIntervals : Z; WatchdogWindow : Z; WatchdogQuantile : f64;
  WatchdogMargin : f64; RandomSeed : Z }.
#[export] Instance Config_settable : Settable Config := fun c =>
  Build_Config (cfg_Mode c) (Senders c) (Candidates c) (CaptureTarget c) (Confidence c) (MinimumAudit c) (RecoveryDuration c)
    (RefreshInterval c) (RefreshDuration c) (PromotionMargin c) (PromotionStability c) (WatchdogHistory c)
    (WatchdogMinIntervals c) (WatchdogWindow c) (WatchdogQuantile c) (WatchdogMargin c) (RandomSeed c).

Record Decision := { d_Decode : bool; d_Audit : bool; d_Refresh : bool; d_Selected : list Z; d_State : list Z }.
#[export] Instance Decision_settable : Settable Decision := fun d =>
  Build_Decision (d_Decode d) (d_Audit d) (d_Refresh d) (d_Selected d) (d_State d).

Record senderRuntime := {
  r_cfg : SenderConfig; r_protocol : list Z; r_lastSeen : Z; r_seen : bool; r_observations : list Z; r_total : Z;
  r_overdueOpen : bool; r_countOpen : bool; r_deadlineDeficits : Z; r_countDeficits : Z; r_gaps : list Z; r_learnedOverdue : Z;
  r_learnedMinimumCount : Z; r_watchdogLearned : bool; r_obligationDue : Z; r_obligationOpen : bool; r_obligationsOpened : Z;
  r_obligationsClosed : Z; r_obligationDeficits : Z; r_countStart : Z }.
#[export] Instance senderRuntime_settable : Settable senderRuntime := fun r =>
  Build_senderRuntime (r_cfg r) (r_protocol r) (r_lastSeen r) (r_seen r) (r_observations r) (r_total r)
    (r_overdueOpen r) (r_countOpen r) (r_deadlineDeficits r) (r_countDeficits r) (r_gaps r) (r_learnedOverdue r)
    (r_learnedMinimumCount r) (r_watchdogLearned r) (r_obligationDue r) (r_obligationOpen r) (r_obligationsOpened r)
    (r_obligationsClosed r) (r_obligationDeficits r) (r_countStart r).

(** [&senderRuntime{cfg: cfg}] *)
Definition new_runtime (cfg : SenderConfig) : senderRuntime :=
  {| r_cfg := cfg; r_protocol := []; r_lastSeen := 0; r_seen := false; r_observations := []; r_total := 0;
     r_overdueOpen := false; r_countOpen := false; r_deadlineDeficits := 0; r_countDeficits := 0; r_gaps := [];
     r_learnedOverdue := 0; r_learnedMinimumCount := 0; r_watchdogLearned := false; r_obligationDue := 0;
     r_obligationOpen := false; r_obligationsOpened := 0; r_obligationsClosed := 0; r_obligationDeficits := 0; r_countStart := 0 |}.

Record protocolRuntime := { p_observations : Z; p_deadlineDeficits : Z; p_countDeficits : Z; p_obligationDeficits : Z }.
#[export] Instance protocolRuntime_settable : Settable protocolRuntime := fun p =>
  Build_protocolRuntime (p_observations p) (p_deadlineDeficits p) (p_countDeficits p) (p_obligationDeficits p).

Record Scheduler := {
  s_cfg : Config; s_candidates : list candidate; s_senders : list senderRuntime; s_selected : option nat; s_lastEnd : Z;
  s_started : bool; s_lastDecision : Decision; s_recoveryUntil : Z; s_deadlineDeficits : Z; s_countDeficits : Z;
  s_discontinuities : Z; s_rng : Z; s_quietActive : bool; s_auditActive : bool; s_quietCandidate : list Z; s_refreshUntil : Z;
  s_nextRefresh : Z; s_refreshes : Z; s_protocols : gmap (list Z) protocolRuntime; s_reanchorPending : gset Z;
  s_watchdogDirty : bool; s_nextWatchdogCheck : Z; s_forceFullQualificationRefresh : bool }.
#[export] Instance Scheduler_settable : Settable Scheduler := fun s =>
  Build_Scheduler (s_cfg s) (s_candidates s) (s_senders s) (s_selected s) (s_lastEnd s)
    (s_started s) (s_lastDecision s) (s_recoveryUntil s) (s_deadlineDeficits s) (s_countDeficits s)
    (s_discontinuities s) (s_rng s) (s_quietActive s) (s_auditActive s) (s_quietCandidate s) (s_refreshUntil s)
    (s_nextRefresh s) (s_refreshes s) (s_protocols s) (s_reanchorPending s)
    (s_watchdogDirty s) (s_nextWatchdogCheck s) (s_forceFullQualificationRefresh s).

Section Scheduler.
Context `{GoMath}.

(** ** Construction *)

Definition or_default (d x : Z) : Z := if x =? 0 then d else x.
Definition or_fdefault (d x : f64) : f64 := if SFeqb x fzero then d else x.

Definition normalize_candidate (c : CandidateConfig) : CandidateConfig :=
  c <| MinHistoryLimit := if MinHistoryLimit c =? 0 then Z.min 8 (HistoryLimit c) else MinHistoryLimit c |>
    <| ChangePointScale ::= or_fdefault (fof 2 0) |> <| HistoryGrowAfter ::= or_default 8 |>
    <| WakeScaleStep ::= or_fdefault (fof 5 (-2)) |> <| MaxWakeScale ::= or_fdefault (fof 4 0) |>.

(** The decimal fraction n/d. *)
Definition fdec (n d : Z) : f64 := fdiv (f64_of_int n) (f64_of_int d).

Definition normalizeConfig (cfg : Config) : Config :=
  cfg <| RefreshInterval ::= or_default (6 * hour) |> <| RefreshDuration ::= or_default (10 * minute) |>
      <| PromotionMargin ::= or_fdefault (fdec 25 100000) |> <| PromotionStability ::= or_default (10 * minute) |>
      <| WatchdogHistory ::= or_default 128 |> <| WatchdogMinIntervals ::= or_default 16 |>
      <| WatchdogWindow ::= or_default (10 * minute) |> <| WatchdogQuantile ::= or_fdefault (fdec 99 100) |>
      <| WatchdogMargin ::= or_fdefault (fof 1 (-2)) |> <| Candidates ::= map normalize_candidate |>.

(** [validateCandidate]: whether it returns nil. *)
Definition validateCandidate (cfg : CandidateConfig) (minimumAudit : f64) : bool :=
  negb (bool_decide (Name cfg = []) || (HistoryLimit cfg <? 2) || (MinHistoryLimit cfg <? 2) || (HistoryLimit cfg <? MinHistoryLimit cfg) ||
        (WarmupIntervals cfg <? 2) || (MinHistoryLimit cfg <? WarmupIntervals cfg)) &&
  negb ((R900Floor cfg <=? 0) || (OtherFloor cfg <=? 0) || (JitterMargin cfg <? 0)) &&
  negb (negb (finite (JitterQuantile cfg)) || negb (finite (PreScale cfg)) || negb (finite (PostScale cfg)) ||
        fle (JitterQuantile cfg) fzero || fgt (JitterQuantile cfg) fone || fle (PreScale cfg) fzero || fle (PostScale cfg) fzero) &&
  negb (negb (finite (AuditFraction cfg)) || flt (AuditFraction cfg) minimumAudit || fgt (AuditFraction cfg) fone) &&
  negb (negb (finite (ChangePointScale cfg)) || negb (finite (WakeScaleStep cfg)) || negb (finite (MaxWakeScale cfg)) ||
        fle (ChangePointScale cfg) fzero || (HistoryGrowAfter cfg <? 1) || fle (WakeScaleStep cfg) fone ||
        flt (MaxWakeScale cfg) (WakeScaleStep cfg)).

(** The guards of [New] on the configuration as a whole, and on one sender. *)
Definition valid_config (cfg : Config) : bool :=
  (bool_decide (cfg_Mode cfg = ModeOff) || bool_decide (cfg_Mode cfg = ModeShadow) || bool_decide (cfg_Mode cfg = ModeGated)) &&
  negb (negb (finite (CaptureTarget cfg)) || fle (CaptureTarget cfg) fzero || fge (CaptureTarget cfg) fone) &&
  negb (negb (finite (Confidence cfg)) || fle (Confidence cfg) fzero || fge (Confidence cfg) fone) &&
  negb (negb (finite (MinimumAudit cfg)) || flt (MinimumAudit cfg) fzero || fgt (MinimumAudit cfg) fone) &&
  negb ((RefreshInterval cfg <=? 0) || (RefreshDuration cfg <=? 0) || (RefreshInterval cfg <=? RefreshDuration cfg)) &&
  negb (negb (finite (PromotionMargin cfg)) || flt (PromotionMargin cfg) fzero ||
        fge (fadd (CaptureTarget cfg) (PromotionMargin cfg)) fone || (PromotionStability cfg <? 0)) &&
  negb ((WatchdogHistory cfg <? 2) || (WatchdogMinIntervals cfg <? 2) || (WatchdogHistory cfg <? WatchdogMinIntervals cfg) ||
        (WatchdogWindow cfg <=? 0) || negb (finite (WatchdogQuantile cfg)) || fle (WatchdogQuantile cfg) fzero ||
        fgt (WatchdogQuantile cfg) fone || negb (finite (WatchdogMargin cfg)) || flt (WatchdogMargin cfg) fzero) &&
  (bool_decide (cfg_Mode cfg = ModeOff) || negb (len (Senders cfg) =? 0)) &&
  (bool_decide (cfg_Mode cfg = ModeOff) || negb (len (Candidates cfg) =? 0)).

Definition valid_sender (cfg : SenderConfig) : bool :=
  negb ((ID cfg =? 0) || (Overdue cfg <? 0) || (CountWindow cfg <? 0) || (MinimumCount cfg <? 0)) &&
  negb ((0 <? MinimumCount cfg) && (CountWindow cfg =? 0)).

Definition new_candidate (cfg : Config) (c : CandidateConfig) : candidate :=
  {| c_cfg := c; c_senders := map (fun sc => (ID sc, zero_model)) (Senders cfg); c_lastEligible := false; c_lastAwake := false;
     c_totalDuration := 0; c_totalAwake := 0; c_eligibleDuration := 0; c_awakeDuration := 0; c_invalid := false; c_qualified := false;
     c_epoch := 1; c_wakeScale := fone; c_promotionReady := 0; c_recoveryUntil := 0; c_eligibilityDirty := true;
     c_eligibleCached := false; c_wakeCacheValid := false; c_wakeUntil := fzero; c_nextWakeStart := fzero |}.

Definition no_decision : Decision := {| d_Decode := false; d_Audit := false; d_Refresh := false; d_Selected := []; d_State := [] |}.

(** [New]: [None] is an error. *)
Definition New (cfg : Config) : option Scheduler :=
  let cfg := normalizeConfig cfg in
  if negb (valid_config cfg) then None else
  if negb (forallb valid_sender (Senders cfg) && bool_decide (NoDup (map ID (Senders cfg)))) then None else
  if negb (forallb (fun c => validateCandidate c (MinimumAudit cfg)) (Candidates cfg)) then None else
  Some {| s_cfg := cfg; s_candidates := map (new_candidate cfg) (Candidates cfg); s_senders := map new_runtime (Senders cfg);
          s_selected := None; s_lastEnd := 0; s_started := false; s_lastDecision := no_decision; s_recoveryUntil := 0;
          s_deadlineDeficits := 0; s_countDeficits := 0; s_discontinuities := 0;
          s_rng := if RandomSeed cfg =? 0 then 0x9e3779b97f4a7c15 else RandomSeed cfg;
          s_quietActive := false; s_auditActive := false; s_quietCandidate := []; s_refreshUntil := 0; s_nextRefresh := 0;
          s_refreshes := 0; s_protocols := ∅; s_reanchorPending := ∅; s_watchdogDirty := true; s_nextWatchdogCheck := 0;
          s_forceFullQualificationRefresh := false |}.

(** ** Watchdogs *)

Definition learnWatchdog (cfg : Config) (sender : senderRuntime) : option senderRuntime :=
  if len (r_gaps sender) <? WatchdogMinIntervals cfg then Some sender else
  gap ← durationQuantile (r_gaps sender) (WatchdogQuantile cfg);
  let learned := int64_of (fmul (f64_of_int gap) (fadd fone (WatchdogMargin cfg))) in
  if learned <=? 0 then Some sender else
  let minimum := Z.quot (WatchdogWindow cfg) learned in
  let minimum := if minimum <? 1 then 1 else minimum in
  Some (sender <| r_learnedOverdue := learned |> <| r_learnedMinimumCount := minimum |> <| r_watchdogLearned := true |>).

Definition effectiveOverdue (sender : senderRuntime) : Z :=
  if Overdue (r_cfg sender) <? r_learnedOverdue sender then r_learnedOverdue sender else Overdue (r_cfg sender).

Definition effectiveCountWindow (cfg : Config) (sender : senderRuntime) : Z :=
  if 0 <? CountWindow (r_cfg sender) then CountWindow (r_cfg sender)
  else if r_watchdogLearned sender then WatchdogWindow cfg else 0.

Definition effectiveMinimumCount (sender : senderRuntime) : Z :=
  let result := MinimumCount (r_cfg sender) in
  if r_watchdogLearned sender && ((result =? 0) || (r_learnedMinimumCount sender <? result)) then r_learnedMinimumCount sender else result.

Definition sender_watched (sender : senderRuntime) : bool :=
  let c := r_cfg sender in
  ((0 <? Overdue c) && (0 <? CountWindow c) && (0 <? MinimumCount c)) || r_watchdogLearned sender.

Definition watchdogsReady (s : Scheduler) : bool := forallb sender_watched (s_senders s).

(** What [checkWatchdogs] gathers over the senders. *)
Record Watch := {
  w_failed : bool; w_next : Z; w_deadline : Z; w_count : Z; w_protocols : gmap (list Z) protocolRuntime }.
#[export] Instance Watch_settable : Settable Watch := fun w =>
  Build_Watch (w_failed w) (w_next w) (w_deadline w) (w_count w) (w_protocols w).

Definition scheduleCheck (now at_ : Z) (w : Watch) : Watch :=
  if at_ <=? now then w
  else if (w_next w =? 0) || (at_ <? w_next w) then w <| w_next := at_ |> else w.

(** The totals of a sender's protocol, if it has any. *)
Definition bump_protocol (name : list Z) (f : protocolRuntime -> protocolRuntime) (w : Watch) : Watch :=
  w <| w_protocols ::= alter f name |>.

(** The deadline of the newest obligation. *)
Definition check_deadline (now : Z) (st : senderRuntime * Watch) : senderRuntime * Watch :=
  let '(sender, w) := st in
  let overdue := effectiveOverdue sender in
  if r_seen sender && r_obligationOpen sender && (0 <? overdue) && (r_obligationDue sender <=? now) then
    if negb (r_overdueOpen sender) then
      (sender <| r_deadlineDeficits := u64 (r_deadlineDeficits sender + 1) |> <| r_obligationDeficits := u64 (r_obligationDeficits sender + 1) |>
              <| r_overdueOpen := true |> <| r_obligationOpen := false |>,
       bump_protocol (r_protocol sender) (fun p => p <| p_deadlineDeficits := u64 (p_deadlineDeficits p + 1) |>
                                                     <| p_obligationDeficits := u64 (p_obligationDeficits p + 1) |>)
         (w <| w_deadline := u64 (w_deadline w + 1) |> <| w_failed := true |>))
    else (sender, w)
  else if r_seen sender && r_obligationOpen sender && (0 <? overdue) then (sender, scheduleCheck now (r_obligationDue sender) w)
  else (sender, w).

(** How many leading times are below [lower]. *)
Fixpoint leading_below (lower : Z) (l : list Z) : Z :=
  match l with
  | [] => 0
  | t :: l => if t <? lower then leading_below lower l + 1 else 0
  end.

(** The first observation that is not below [lower], from [start] on. *)
Definition skip_old (lower start : Z) (observations : list Z) : Z :=
  let start := if len observations <? start then len observations else start in
  start + leading_below lower (drop (Z.to_nat start) observations).

(** The count in the rolling window. *)
Definition check_count (cfg : Config) (now : Z) (st : senderRuntime * Watch) : option (senderRuntime * Watch) :=
  let '(sender, w) := st in
  let window := effectiveCountWindow cfg sender in
  let minimum := effectiveMinimumCount sender in
  if r_seen sender && (0 <? minimum) && (0 <? window) && (now <? window) then Some (sender, scheduleCheck now window w)
  else if r_seen sender && (0 <? minimum) && (0 <? window) then
    let sender := sender <| r_countStart := skip_old (now - window) (r_countStart sender) (r_observations sender) |> in
    let count := len (r_observations sender) - r_countStart sender in
    let deficit := count <? minimum in
    if deficit && negb (r_countOpen sender) then
      Some (sender <| r_countDeficits := u64 (r_countDeficits sender + 1) |> <| r_countOpen := true |>,
            bump_protocol (r_protocol sender) (fun p => p <| p_countDeficits := u64 (p_countDeficits p + 1) |>)
              (w <| w_count := u64 (w_count w + 1) |> <| w_failed := true |>))
    else if negb deficit then
      expires ← index (r_observations sender) (len (r_observations sender) - minimum);
      Some (sender <| r_countOpen := false |>,
            if expires <=? i64 (i64 (max_i64 - window) - 1) then scheduleCheck now (i64 (i64 (expires + window) + 1)) w else w)
    else Some (sender, w)
  else Some (sender, w).

Fixpoint check_senders (cfg : Config) (now : Z) (l : list senderRuntime) (w : Watch) : option (list senderRuntime * Watch) :=
  match l with
  | [] => Some ([], w)
  | sender :: l =>
      '(sender, w) ← check_count cfg now (check_deadline now (sender, w));
      '(l, w) ← check_senders cfg now l w;
      Some (sender :: l, w)
  end.

(** ** Recovery *)

Definition enterRecovery (now : Z) (s : Scheduler) : Scheduler :=
  let until := i64 (now + RecoveryDuration (s_cfg s)) in
  s <| s_recoveryUntil := if s_recoveryUntil s <? until then until else s_recoveryUntil s |>
    <| s_selected := None |> <| s_quietActive := false |> <| s_auditActive := false |> <| s_quietCandidate := [] |>
    <| s_refreshUntil := 0 |> <| s_nextRefresh := 0 |>.

Definition recoverAtLeast (skip : f64) (now : Z) (s : Scheduler) : Scheduler :=
  s <| s_candidates ::= map (fun c =>
    if fge (steadySleep c) skip then
      (beginNewEpoch now true (c <| c_invalid := true |>)) <| c_recoveryUntil := i64 (now + RecoveryDuration (s_cfg s)) |>
    else c) |>.

Definition selected_candidate (s : Scheduler) : option candidate := i ← s_selected s; s_candidates s !! i.

Definition checkWatchdogs (now : Z) (s : Scheduler) : option Scheduler :=
  '(senders, w) ← check_senders (s_cfg s) now (s_senders s)
     {| w_failed := false; w_next := 0; w_deadline := s_deadlineDeficits s; w_count := s_countDeficits s; w_protocols := s_protocols s |};
  let s := s <| s_senders := senders |> <| s_watchdogDirty := false |> <| s_nextWatchdogCheck := w_next w |>
             <| s_deadlineDeficits := w_deadline w |> <| s_countDeficits := w_count w |> <| s_protocols := w_protocols w |> in
  match selected_candidate s with
  | Some c =>
      if w_failed w && bool_decide (cfg_Mode (s_cfg s) = ModeGated) && (s_recoveryUntil s <=? now)
      then Some (enterRecovery now (recoverAtLeast (steadySleep c) now s))
      else Some s
  | None => Some s
  end.

(** ** Qualification *)

(** The senders one after another, up to the first that fails.  A count of misses that
    makes the bound panic counts as a failure here: a run of a new scheduler reaches none
    in less than [2 ^ 45] calls, as [scheduler_never_panics] shows; a checkpoint that
    names one makes the code panic. *)
Fixpoint qualify_senders (alpha maxMiss : f64) (l : list (Z * senderModel)) : list (Z * senderModel) * bool :=
  match l with
  | [] => ([], true)
  | (id, m) :: l =>
      if m_events m =? 0 then ((id, m) :: l, false) else
      match confidenceUpperBound alpha m with
      | None => ((id, m) :: l, false)
      | Some (m, bound) =>
          if fgt bound maxMiss then ((id, m) :: l, false) else
          let '(l, ok) := qualify_senders alpha maxMiss l in ((id, m) :: l, ok)
      end
  end.

Definition qualifiesAt (cfg : Config) (target : f64) (c : candidate) : candidate * bool :=
  if c_invalid c then (c, false) else
  let '(c, learned) := allLearned c in
  if negb learned || (c_eligibleDuration c <=? 0) then (c, false) else
  let '(l, ok) := qualify_senders (fsub fone (Confidence cfg)) (fsub fone target) (c_senders c) in
  (c <| c_senders := l |>, ok).

Definition refresh_candidate (cfg : Config) (now : Z) (c : candidate) : candidate :=
  let c := if c_invalid c && (c_recoveryUntil c <=? now) then c <| c_invalid := false |> else c in
  if c_qualified c then
    let '(c, ok) := qualifiesAt cfg (CaptureTarget cfg) c in
    if ok then c else c <| c_qualified := false |> <| c_promotionReady := 0 |>
  else
    let '(c, ok) := qualifiesAt cfg (fadd (CaptureTarget cfg) (PromotionMargin cfg)) c in
    if negb ok then c <| c_promotionReady := 0 |> else
    let c := if c_promotionReady c =? 0 then c <| c_promotionReady := i64 (now + PromotionStability cfg) |> else c in
    if c_promotionReady c <=? now then c <| c_qualified := true |> else c.

Definition refreshQualifications (now : Z) (s : Scheduler) : Scheduler :=
  s <| s_candidates ::= map (refresh_candidate (s_cfg s) now) |>.

Definition qualificationDue (now : Z) (s : Scheduler) : bool :=
  existsb (fun c => (c_invalid c && (c_recoveryUntil c <=? now)) ||
                    (negb (c_qualified c) && (0 <? c_promotionReady c) && (c_promotionReady c <=? now))) (s_candidates s).

(** The best qualified candidate, the first of equals. *)
Definition better (best : option (nat * candidate)) (ic : nat * candidate) : option (nat * candidate) :=
  if negb (c_qualified (snd ic)) then best else
  match best with
  | None => Some ic
  | Some b => if fgt (effectiveSleep (snd ic)) (effectiveSleep (snd b)) then Some ic else best
  end.

Definition best_candidate (l : list candidate) : option nat := fst <$> foldl better None (imap (fun i c => (i, c)) l).

Definition chooseCandidate (s : Scheduler) : Scheduler :=
  if negb (bool_decide (cfg_Mode (s_cfg s) = ModeGated)) || (s_lastEnd s <? s_recoveryUntil s) ||
     negb (bool_decide (s_reanchorPending s = ∅)) || negb (watchdogsReady s)
  then s <| s_selected := None |>
  else s <| s_selected := best_candidate (s_candidates s) |>.

(** ** The state shown *)

Definition selectedName (s : Scheduler) : list Z := match selected_candidate s with Some c => Name (c_cfg c) | None => [] end.

Definition state (s : Scheduler) : list Z :=
  if bool_decide (cfg_Mode (s_cfg s) = ModeOff) then str "OFF"
  else if s_lastEnd s <? s_recoveryUntil s then str "RECOVERY"
  else if bool_decide (cfg_Mode (s_cfg s) = ModeGated) && bool_decide (s_selected s <> None) then str "GATED"
  else if existsb c_qualified (s_candidates s) then (if watchdogsReady s then str "QUALIFIED" else str "SEED")
  else str "SEED".

(** ** Advance *)

Definition reset_candidate (c : candidate) : candidate :=
  invalidateSchedule (map_models (fun _ => zero_model)
    (c <| c_lastEligible := false |> <| c_lastAwake := true |> <| c_eligibleDuration := 0 |> <| c_awakeDuration := 0 |>
       <| c_invalid := false |> <| c_qualified := false |> <| c_epoch := u64 (c_epoch c + 1) |> <| c_promotionReady := 0 |>
       <| c_recoveryUntil := 0 |> <| c_wakeScale := fone |>)).

Definition reset_sender (r : senderRuntime) : senderRuntime :=
  r <| r_protocol := [] |> <| r_lastSeen := 0 |> <| r_seen := false |> <| r_observations := [] |> <| r_overdueOpen := false |>
    <| r_countOpen := false |> <| r_gaps := [] |> <| r_learnedOverdue := 0 |> <| r_learnedMinimumCount := 0 |>
    <| r_watchdogLearned := false |> <| r_obligationDue := 0 |> <| r_obligationOpen := false |> <| r_countStart := 0 |>.

Definition resetLearning (s : Scheduler) : Scheduler :=
  s <| s_discontinuities := u64 (s_discontinuities s + 1) |> <| s_candidates ::= map reset_candidate |>
    <| s_senders ::= map reset_sender |> <| s_watchdogDirty := true |> <| s_nextWatchdogCheck := 0 |>
    <| s_refreshUntil := 0 |> <| s_nextRefresh := 0 |>.

(** Scoring one block for one candidate; whether its first eligible time came. *)
Definition score_candidate (start end_ : Z) (c : candidate) : candidate * bool :=
  let '(c, eligible) := allLearned c in
  let c := c <| c_lastEligible := eligible |> <| c_lastAwake := true |> in
  let duration := end_ - start in
  let '(c, changed) :=
    if eligible then
      let '(c, awake) := candidate_awakeDuring start end_ c in
      let c := c <| c_lastAwake := awake |> in
      let changed := c_eligibleDuration c =? 0 in
      let c := c <| c_eligibleDuration := i64 (c_eligibleDuration c + duration) |> in
      (if awake then c <| c_awakeDuration := i64 (c_awakeDuration c + duration) |> else c, changed)
    else (c, false) in
  let c := c <| c_totalDuration := i64 (c_totalDuration c + duration) |> in
  (if c_lastAwake c then c <| c_totalAwake := i64 (c_totalAwake c + duration) |> else c, changed).

Definition with_decision (d : Decision) (s : Scheduler) : Scheduler * Decision := (s <| s_lastDecision := d |>, d).

(** A call that is not contiguous: forget everything learned, and recover. *)
Definition discontinuity (start end_ : Z) (s : Scheduler) : Scheduler * Decision :=
  let now := if (start <? end_) && (0 <=? end_) then end_ else s_lastEnd s in
  let s := s <| s_lastEnd := now |> <| s_started := true |> in
  let s := enterRecovery now (resetLearning s) in
  with_decision {| d_Decode := true; d_Audit := false; d_Refresh := false; d_Selected := []; d_State := state s |} s.

(** The end of a refresh tightens the candidate that asked for it. *)
Definition end_refresh (start : Z) (s : Scheduler) : Scheduler :=
  if (0 <? s_refreshUntil s) && (s_refreshUntil s <=? start) then
    let s := match s_selected s with
             | Some i => s <| s_candidates ::= alter (tightenAfterRefresh start) i |> <| s_selected := None |>
             | None => s
             end in
    s <| s_refreshUntil := 0 |> <| s_nextRefresh := 0 |>
  else s.

(** The periodic refresh of the selected candidate. *)
Definition schedule_refresh (end_ : Z) (s : Scheduler) : Scheduler :=
  match selected_candidate s with
  | Some c =>
      if s_recoveryUntil s <=? end_ then
        let interval := refreshInterval (RefreshInterval (s_cfg s)) c in
        let s := if s_nextRefresh s =? 0 then s <| s_nextRefresh := i64 (end_ + interval) |> else s in
        if s_nextRefresh s <=? end_ then
          s <| s_refreshUntil := i64 (end_ + RefreshDuration (s_cfg s)) |> <| s_nextRefresh := i64 (end_ + interval) |>
            <| s_refreshes := u64 (s_refreshes s + 1) |>
        else s
      else s
  | None => s
  end.

Definition leave_quiet (s : Scheduler) : Scheduler :=
  s <| s_quietActive := false |> <| s_auditActive := false |> <| s_quietCandidate := [] |>.

(** The decision for a block, once candidates and watchdogs are up to date. *)
Definition decide_block (end_ : Z) (s : Scheduler) : Scheduler * Decision :=
  let decision := {| d_Decode := true; d_Audit := false; d_Refresh := false; d_Selected := selectedName s; d_State := state s |} in
  let s := schedule_refresh end_ s in
  match selected_candidate s with
  | Some c =>
      if end_ <? s_refreshUntil s then
        with_decision (decision <| d_Refresh := true |> <| d_State := state s |>) (leave_quiet s)
      else if bool_decide (cfg_Mode (s_cfg s) = ModeGated) && (s_recoveryUntil s <=? end_) && c_lastEligible c && negb (c_lastAwake c) then
        let s := if negb (s_quietActive s) || negb (bool_decide (s_quietCandidate s = Name (c_cfg c))) then
            let '(rng, unit) := randomUnit (s_rng s) in
            s <| s_quietActive := true |> <| s_quietCandidate := Name (c_cfg c) |> <| s_rng := rng |>
              <| s_auditActive := flt unit (auditFraction c) |>
          else s in
        with_decision (decision <| d_Decode := s_auditActive s |> <| d_Audit := s_auditActive s |>) s
      else with_decision decision (leave_quiet s)
  | None => with_decision decision (leave_quiet s)
  end.

(** Scoring the block for every candidate, the watchdogs, the qualifications. *)
Definition score_block (start end_ : Z) (s : Scheduler) : option Scheduler :=
  let scored := map (score_candidate start end_) (s_candidates s) in
  let qualificationChanged := existsb snd scored in
  let s := s <| s_candidates := map fst scored |> in
  s ← (if s_watchdogDirty s || ((0 <? s_nextWatchdogCheck s) && (s_nextWatchdogCheck s <=? end_)) then checkWatchdogs end_ s else Some s);
  Some (chooseCandidate
    (if s_forceFullQualificationRefresh s || qualificationChanged || qualificationDue end_ s then refreshQualifications end_ s else s)).

Definition Advance (start end_ : Z) (s : Scheduler) : option (Scheduler * Decision) :=
  if (start <? 0) || (end_ <=? start) || (s_started s && negb (start =? s_lastEnd s)) then Some (discontinuity start end_ s) else
  s ← score_block start end_ (end_refresh start (s <| s_started := true |> <| s_lastEnd := end_ |>));
  Some (decide_block end_ s).

(** ** Observe *)

(** The history of arrivals is kept for two windows. *)
Definition trim_observations (cfg : Config) (at_ : Z) (r : senderRuntime) : senderRuntime :=
  let window := effectiveCountWindow cfg r in
  if 0 <? window then
    let trimBefore := i64 (at_ - i64 (window * 2)) in
    let first := leading_below trimBefore (r_observations r) in
    if 0 <? first then
      r <| r_observations := drop (Z.to_nat first) (r_observations r) |>
        <| r_countStart := if r_countStart r - first <? 0 then 0 else r_countStart r - first |>
    else r
  else r.

(** The arrival in the sender's own record. *)
Definition observe_sender (cfg : Config) (protocol : list Z) (at_ : Z) (reanchor : bool) (r : senderRuntime) : option senderRuntime :=
  let previous := r_lastSeen r in
  let hadPrevious := r_seen r in
  let r := r <| r_protocol := protocol |> <| r_lastSeen := at_ |> <| r_seen := true |> <| r_total := u64 (r_total r + 1) |>
             <| r_overdueOpen := false |> in
  let r := if r_obligationOpen r then r <| r_obligationsClosed := u64 (r_obligationsClosed r + 1) |> <| r_obligationOpen := false |> else r in
  let r := r <| r_observations := r_observations r ++ [at_] |> in
  r ← (if hadPrevious && negb reanchor
       then learnWatchdog cfg (r <| r_gaps := push_limited (WatchdogHistory cfg) (r_gaps r) (i64 (at_ - previous)) |>)
       else Some r);
  let r := trim_observations cfg at_ r in
  let overdue := effectiveOverdue r in
  Some (if 0 <? overdue then
          r <| r_obligationDue := i64 (at_ + overdue) |> <| r_obligationOpen := true |>
            <| r_obligationsOpened := u64 (r_obligationsOpened r + 1) |>
        else r).

(** The arrival in one candidate: evidence when it was eligible, then the model. *)
Definition observe_candidate (id : Z) (protocol : list Z) (at_ : Z) (reanchored : bool) (c : candidate) : option candidate :=
  m ← find_model id c;
  if reanchored then Some (invalidateSchedule (set_model id (reanchor protocol at_ m) c)) else
  let m := if c_lastEligible c then
      let m := m <| m_events := u64 (m_events m + 1) |> in
      if negb (c_lastAwake c) then m <| m_misses := u64 (m_misses m + 1) |> else m
    else m in
  '(m, changed) ← model_observe protocol at_ (c_cfg c) (c_wakeScale c) m;
  let c := set_model id m c in
  Some (invalidateSchedule (if (changed : bool) then beginNewEpoch at_ true c else c)).

Definition count_protocol (protocol : list Z) (totals : gmap (list Z) protocolRuntime) : gmap (list Z) protocolRuntime :=
  if bool_decide (protocol = []) then totals else
  let t := default {| p_observations := 0; p_deadlineDeficits := 0; p_countDeficits := 0; p_obligationDeficits := 0 |} (totals !! protocol) in
  <[protocol := t <| p_observations := u64 (p_observations t + 1) |>]> totals.

Definition find_sender (id : Z) (s : Scheduler) : option senderRuntime := find (fun r => ID (r_cfg r) =? id) (s_senders s).

Definition set_sender (id : Z) (r : senderRuntime) (s : Scheduler) : Scheduler :=
  s <| s_senders ::= map (fun r' => if ID (r_cfg r') =? id then r else r') |>.

(** An arrival that the selected candidate would have slept through. *)
Definition recover_escape (forcedEscape : bool) (at_ : Z) (s : Scheduler) : Scheduler :=
  match selected_candidate s with
  | Some c =>
      if bool_decide (cfg_Mode (s_cfg s) = ModeGated) && (forcedEscape || (c_lastEligible c && negb (c_lastAwake c)))
      then enterRecovery (s_lastEnd s) (recoverAtLeast (steadySleep c) at_ s)
      else s
  | None => s
  end.

Definition observe (id : Z) (protocol : list Z) (at_ : Z) (forcedEscape : bool) (s : Scheduler) : option Scheduler :=
  match find_sender id s with
  | None => Some s
  | Some r =>
      if (at_ <? 0) || (r_seen r && (at_ <=? r_lastSeen r)) then
        Some (if r_seen r && (at_ <? r_lastSeen r) then enterRecovery (s_lastEnd s) s else s)
      else if negb (bool_decide (r_protocol r = [])) && negb (bool_decide (r_protocol r = protocol)) then
        Some (enterRecovery (s_lastEnd s) s)
      else
        let reanchored := bool_decide (id ∈ s_reanchorPending s) in
        r ← observe_sender (s_cfg s) protocol at_ reanchored r;
        candidates ← mapM (observe_candidate id protocol at_ reanchored) (s_candidates s);
        let s := set_sender id r s <| s_protocols ::= count_protocol protocol |> <| s_candidates := candidates |> in
        let s := if reanchored then s <| s_reanchorPending ::= fun p => p ∖ {[id]} |> else s in
        let s := recover_escape forcedEscape at_ (s <| s_watchdogDirty := true |>) in
        Some (chooseCandidate (refreshQualifications at_ s))
  end.

Definition Observe (id : Z) (protocol : list Z) (at_ : Z) (s : Scheduler) : option Scheduler := observe id protocol at_ false s.
Definition ObserveEscape (id : Z) (protocol : list Z) (at_ : Z) (s : Scheduler) : option Scheduler := observe id protocol at_ true s.

(** [PrepareResume] *)
Definition PrepareResume (s : Scheduler) : Scheduler :=
  leave_quiet (s <| s_reanchorPending := list_to_set (map (fun r => ID (r_cfg r)) (filter (fun r => r_seen r = true) (s_senders s))) |>
                 <| s_selected := None |>).
End Scheduler.
