(* ===== verification/DutyDefaults.v ===== *)
(** The default configuration of the duty scheduler
    (src/internal/dutyscheduler/defaults.go). *)

From stdpp Require Import sorting.
From S2P Require Import Prelude Float64 DutyMath Update DutyModel Scheduler.

(** [fmt.Sprintf("balanced-n%d", n)] *)
Definition balanced_name (n : Z) : list Z := str "balanced-n" ++ FormatUint n 10.

Definition millisecond : Z := 1000000.

Definition defaultCandidate (name : list Z) (history r900Floor otherFloor : Z) (quantile : f64) (margin : Z) : CandidateConfig :=
  {| Name := name; HistoryLimit := history; MinHistoryLimit := Z.min 8 history; WarmupIntervals := 4; R900Floor := r900Floor;
     OtherFloor := otherFloor; JitterQuantile := quantile; JitterMargin := margin; PreScale := fone; PostScale := fone;
     AuditFraction := fdec 10 100; ChangePointScale := fof 2 0; HistoryGrowAfter := 8; WakeScaleStep := fof 5 (-2);
     MaxWakeScale := fof 4 0 |}.

Definition DefaultCandidates : list CandidateConfig :=
  map (fun history => defaultCandidate (balanced_name history) history (500 * millisecond) (5 * second) (fdec 95 100) (500 * millisecond))
    [8; 16; 32; 64; 128] ++
  [defaultCandidate (str "tight-n64") 64 (250 * millisecond) (3 * second) (fdec 90 100) (250 * millisecond);
   defaultCandidate (str "conservative-n64") 64 second (8 * second) (fdec 99 100) second].

Definition DefaultSenderConfig (id : Z) : SenderConfig := {| ID := id; Overdue := 0; CountWindow := 0; MinimumCount := 0 |}.

Definition DefaultConfig (mode : Mode) (senderIDs : list Z) : Config :=
  {| cfg_Mode := mode; Senders := map DefaultSenderConfig (merge_sort Z.le senderIDs); Candidates := DefaultCandidates;
     CaptureTarget := fdec 995 1000; Confidence := fdec 95 100; MinimumAudit := fdec 10 100; RecoveryDuration := 10 * minute;
     RefreshInterval := 6 * hour; RefreshDuration := 10 * minute; PromotionMargin := fdec 25 100000;
     PromotionStability := 10 * minute; WatchdogHistory := 128; WatchdogMinIntervals := 16; WatchdogWindow := 10 * minute;
     WatchdogQuantile := fdec 99 100; WatchdogMargin := fof 1 (-2); RandomSeed := 0x72746c616d72 |}.
