(* ===== verification/SchedulerSpec.v ===== *)
(** What the duty scheduler promises: decoding is suppressed only behind every gate,
    and recovery is never cut short. *)

From S2P Require Import Prelude Float64 DutyMath Update DutyModel Scheduler.

(** ** Comparisons of floats *)

(** A float that is not NaN, as a triple that is ordered lexicographically. *)
Definition float_key (x : f64) : option (Z * Z * Z) :=
  match x with
  | S754_nan => None
  | S754_infinity s => Some (if s then -2 else 2, 0, 0)
  | S754_zero _ => Some (0, 0, 0)
  | S754_finite s m e => Some (if s then (-1, - e, Zneg m) else (1, e, Zpos m))
  end.

Definition key_lt (a b : Z * Z * Z) : Prop :=
  let '(a1, a2, a3) := a in let '(b1, b2, b3) := b in a1 < b1 \/ (a1 = b1 /\ (a2 < b2 \/ (a2 = b2 /\ a3 < b3))).

Lemma flt_key x y : flt x y = true <-> exists a b, float_key x = Some a /\ float_key y = Some b /\ key_lt a b.
Proof.
  unfold flt, SFltb. split.
  - destruct (SFcompare x y) as [[]|] eqn:E; try done. intros _.
    destruct x as [sx|sx| |sx mx ex], y as [sy|sy| |sy my ey]; try done; try destruct sx; try destruct sy; try done;
      eexists _, _; (split; [reflexivity|]; split; [reflexivity|]); cbn; cbn in E; try lia.
    + destruct (Z.compare_spec ex ey); try done; [|lia]. injection E as E.
      change (CompOpp (mx ?= my)%positive = Lt) in E. destruct (Pos.compare_spec mx my); try done; lia.
    + destruct (Z.compare_spec ex ey); try done; [|lia]. injection E as E.
      change ((mx ?= my)%positive = Lt) in E. destruct (Pos.compare_spec mx my); try done; lia.
  - intros (a & b & Ea & Eb & Hlt).
    destruct x as [sx|sx| |sx mx ex], y as [sy|sy| |sy my ey]; try done; try destruct sx; try destruct sy; try done;
      injection Ea as <-; injection Eb as <-; cbn in Hlt |- *; try done; try lia.
    + destruct (Z.compare_spec ex ey); try done; [|lia].
      change (match CompOpp (mx ?= my)%positive with Lt => true | _ => false end = true). destruct (Pos.compare_spec mx my); try done; lia.
    + destruct (Z.compare_spec ex ey); try done; [|lia].
      change (match (mx ?= my)%positive with Lt => true | _ => false end = true). destruct (Pos.compare_spec mx my); try done; lia.
Qed.

Lemma fle_flt x y : fle x y = true -> flt y x = false.
Proof.
  unfold fle, flt, SFleb, SFltb. destruct x as [sx|sx| |sx mx ex], y as [sy|sy| |sy my ey]; try done; try destruct sx; try destruct sy; try done; cbn.
  - rewrite (Z.compare_antisym ex ey). destruct (Z.compare_spec ex ey); cbn; try done.
    change (Pos.compare_cont Eq mx my) with (mx ?= my)%positive. change (Pos.compare_cont Eq my mx) with (my ?= mx)%positive.
    rewrite (Pos.compare_antisym mx my). by destruct (mx ?= my)%positive.
  - rewrite (Z.compare_antisym ex ey). destruct (Z.compare_spec ex ey); cbn; try done.
    change (Pos.compare_cont Eq mx my) with (mx ?= my)%positive. change (Pos.compare_cont Eq my mx) with (my ?= mx)%positive.
    rewrite (Pos.compare_antisym mx my). by destruct (mx ?= my)%positive.
Qed.

Lemma fle_key x y : fle x y = true -> exists a b, float_key x = Some a /\ float_key y = Some b /\ ~ key_lt b a.
Proof.
  intros E. assert (exists a b, float_key x = Some a /\ float_key y = Some b) as (a & b & Ea & Eb).
  { unfold fle, SFleb in E. destruct x, y; try done; by eexists _, _. }
  exists a, b. split; [done|]. split; [done|]. intros Hlt. apply fle_flt in E.
  assert (flt y x = true) as E' by (apply flt_key; by exists b, a). by rewrite E' in E.
Qed.

(** A bound that is not above a smaller limit is not above a larger one. *)
Lemma not_above bound lo hi : fle lo hi = true -> fgt bound lo = false -> fgt bound hi = false.
Proof.
  intros (a & b & Ea & Eb & Hle)%fle_key Hlo. destruct (fgt bound hi) eqn:E; [|done].
  unfold fgt in *. apply flt_key in E as (b' & k & Eb' & Ek & Hlt). rewrite Eb in Eb'. injection Eb' as <-.
  assert (SFltb lo bound = true) as E; [|by rewrite E in Hlo]. apply flt_key. exists a, k. split; [done|]. split; [done|].
  destruct a as [[a1 a2] a3], b as [[b1 b2] b3], k as [[k1 k2] k3]. cbn in *. lia.
Qed.

Section Spec.
Context `{GoMath}.

(** ** The caches are transparent *)

(** The evidence of one sender meets a miss limit. *)
Definition evidence (alpha maxMiss : f64) (m : senderModel) : bool :=
  negb (m_events m =? 0) && match upperMissBound (m_misses m) (m_events m) alpha with Some bound => negb (fgt bound maxMiss) | None => false end.

(** Qualification without the caches. *)
Definition qualifies (cfg : Config) (target : f64) (c : candidate) : bool :=
  negb (c_invalid c) && all_learned c && negb (c_eligibleDuration c <=? 0) &&
  forallb (fun '(_, m) => evidence (fsub fone (Confidence cfg)) (fsub fone target) m) (c_senders c).

(** A memoized bound is the bound of its evidence, at the one confidence in use. *)
Definition memo_ok (alpha : f64) (m : senderModel) : Prop :=
  m_boundValid m = true -> upperMissBound (m_boundMisses m) (m_boundEvents m) alpha = Some (m_boundUpper m).

Record cache_ok (cfg : Config) (c : candidate) : Prop := {
  ca_learned : c_eligibilityDirty c = false -> c_eligibleCached c = all_learned c;
  ca_memo : Forall (fun im => memo_ok (fsub fone (Confidence cfg)) (snd im)) (c_senders c) }.

Lemma allLearned_spec cfg c : cache_ok cfg c ->
  snd (allLearned c) = all_learned c /\ cache_ok cfg (fst (allLearned c)) /\ c_senders (fst (allLearned c)) = c_senders c /\
  c_cfg (fst (allLearned c)) = c_cfg c.
Proof.
  intros [K1 K2]. unfold allLearned. destruct (c_eligibilityDirty c) eqn:E; cbn.
  - split; [done|]. split; [|done]. by constructor.
  - split; [by apply K1|]. split; [|done]. constructor; [intros _; by apply K1|done].
Qed.

(** Two models that differ in the memo only. *)
Definition same_evidence (m m' : senderModel) : Prop :=
  m_learned m' = m_learned m /\ m_events m' = m_events m /\ m_misses m' = m_misses m.

Lemma confidenceUpperBound_spec alpha m : memo_ok alpha m ->
  snd <$> confidenceUpperBound alpha m = upperMissBound (m_misses m) (m_events m) alpha /\
  forall m' bound, confidenceUpperBound alpha m = Some (m', bound) -> memo_ok alpha m' /\ same_evidence m m'.
Proof.
  intros Hm. unfold confidenceUpperBound. destruct (_ && _ && _ && _) eqn:E.
  - rewrite !andb_true_iff, !Z.eqb_eq in E. destruct E as [[[E1 E2] E3] _]. cbn. split; [by rewrite <- (Hm E1), E2, E3|]. by intros m' bound [= <- <-].
  - destruct (upperMissBound _ _ _) as [b|] eqn:Eb; cbn; [|done]. split; [done|]. intros m' bound [= <- <-]. split; [|done]. intros _. exact Eb.
Qed.

Lemma qualify_senders_spec alpha maxMiss l : Forall (fun im => memo_ok alpha (snd im)) l ->
  snd (qualify_senders alpha maxMiss l) = forallb (fun '(_, m) => evidence alpha maxMiss m) l /\
  Forall (fun im => memo_ok alpha (snd im)) (fst (qualify_senders alpha maxMiss l)) /\
  Forall2 (fun a b => a.1 = b.1 /\ same_evidence a.2 b.2) l (fst (qualify_senders alpha maxMiss l)).
Proof.
  assert (forall l, Forall2 (fun a b : Z * senderModel => a.1 = b.1 /\ same_evidence a.2 b.2) l l) as Hrefl.
  { intros k. by apply Forall_Forall2_diag, Forall_true. }
  induction 1 as [|[id m] l Hm Hl IH]; cbn [qualify_senders]; [done|].
  cbn [forallb]. unfold evidence at 1.
  destruct (m_events m =? 0); [split; [done|]; split; [by constructor|apply Hrefl]|].
  pose proof (confidenceUpperBound_spec alpha m Hm) as [E1 E2]. rewrite <- E1. clear E1.
  destruct (confidenceUpperBound alpha m) as [[m' b]|]; cbn [fmap option_fmap option_map snd negb andb].
  2: { split; [done|]. split; [by constructor|apply Hrefl]. }
  destruct (E2 m' b eq_refl) as [E3 E4]. clear E2. destruct (fgt b maxMiss); cbn [negb andb].
  - split; [done|]. split; [by constructor|]. constructor; [done|apply Hrefl].
  - destruct (qualify_senders alpha maxMiss l) as [l' ok]. cbn [fst snd] in IH |- *. destruct IH as (-> & K1 & K2). split; [done|].
    split; [by constructor|]. by constructor.
Qed.

(** What does not change with the memo. *)
Lemma forallb_same (f : senderModel -> bool) l l' : (forall m m', same_evidence m m' -> f m' = f m) ->
  Forall2 (fun a b : Z * senderModel => a.1 = b.1 /\ same_evidence a.2 b.2) l l' ->
  forallb (fun '(_, m) => f m) l' = forallb (fun '(_, m) => f m) l.
Proof. intros Hf. induction 1 as [|[i m] [j m'] l l' [_ E] _ IH]; [done|]. cbn in *. by rewrite IH, (Hf m m'). Qed.

Lemma evidence_same alpha maxMiss m m' : same_evidence m m' -> evidence alpha maxMiss m' = evidence alpha maxMiss m.
Proof. intros (_ & E1 & E2). unfold evidence. by rewrite E1, E2. Qed.

(** The parts of a candidate that qualification reads or sets. *)
Record same_candidate (c c' : candidate) : Prop := {
  sc_cfg : c_cfg c' = c_cfg c;
  sc_invalid : c_invalid c' = c_invalid c;
  sc_qualified : c_qualified c' = c_qualified c;
  sc_eligible : c_eligibleDuration c' = c_eligibleDuration c;
  sc_ready : c_promotionReady c' = c_promotionReady c;
  sc_recovery : c_recoveryUntil c' = c_recoveryUntil c;
  sc_scale : c_wakeScale c' = c_wakeScale c;
  sc_last : c_lastEligible c' = c_lastEligible c /\ c_lastAwake c' = c_lastAwake c;
  sc_models : Forall2 (fun a b => a.1 = b.1 /\ same_evidence a.2 b.2) (c_senders c) (c_senders c') }.

Lemma same_candidate_refl c : same_candidate c c.
Proof. constructor; try done. by apply Forall_Forall2_diag, Forall_true. Qed.

Lemma qualifies_same cfg target c c' : same_candidate c c' -> qualifies cfg target c' = qualifies cfg target c.
Proof.
  intros [S1 S2 S3 S4 S5 S6 S7 S8 S9]. unfold qualifies, all_learned. rewrite S2, S4. f_equal; [f_equal; f_equal|].
  - apply forallb_same; [by intros m m' []|done].
  - apply forallb_same; [apply evidence_same|done].
Qed.

Lemma qualifiesAt_spec cfg target c : cache_ok cfg c ->
  snd (qualifiesAt cfg target c) = qualifies cfg target c /\ cache_ok cfg (fst (qualifiesAt cfg target c)) /\
  same_candidate c (fst (qualifiesAt cfg target c)).
Proof.
  intros Hc. unfold qualifiesAt, qualifies. destruct (c_invalid c) eqn:Ei; [by split; [|split; [|apply same_candidate_refl]]|].
  pose proof (allLearned_spec cfg c Hc) as (E1 & E2 & E3 & E4). pose proof (same_candidate_refl c) as Hrefl.
  assert (same_candidate c (fst (allLearned c))) as Hs.
  { unfold allLearned. destruct (negb (c_eligibilityDirty c)); [done|]. by destruct Hrefl. }
  destruct (allLearned c) as [c1 learned]. cbn [fst snd] in *. rewrite E1. cbn [andb negb].
  assert (c_eligibleDuration c1 = c_eligibleDuration c) as -> by apply Hs.
  destruct (all_learned c) eqn:Eall; cbn [negb orb andb]; [|done].
  destruct (c_eligibleDuration c <=? 0) eqn:Eel; cbn [negb andb]; [done|].
  rewrite E3. pose proof (qualify_senders_spec (fsub fone (Confidence cfg)) (fsub fone target) (c_senders c) (ca_memo _ _ Hc)) as (Q1 & Q2 & Q3).
  destruct (qualify_senders _ _ (c_senders c)) as [l ok]. cbn [fst snd] in *. split; [done|]. split.
  - constructor; [|done]. cbn. intros Hd. rewrite (ca_learned _ _ E2 Hd). unfold all_learned. cbn. rewrite E3. symmetry.
    apply forallb_same; [by intros m m' []|done].
  - destruct Hs as [S1 S2 S3 S4 S5 S6 S7 S8 S9]. by constructor.
Qed.

(** ** What every operation keeps *)

(** The promotion target is the stricter one. *)
Definition stricter_promotion (cfg : Config) : Prop :=
  fle (fsub fone (fadd (CaptureTarget cfg) (PromotionMargin cfg))) (fsub fone (CaptureTarget cfg)) = true.

Record cand_ok (cfg : Config) (lastEnd : Z) (c : candidate) : Prop := {
  co_cache : cache_ok cfg c;
  co_time : 0 <= c_eligibleDuration c <= lastEnd;
  co_evidence : c_qualified c = true -> qualifies cfg (CaptureTarget cfg) c = true }.

(** Without the evidence, as between an arrival and the refresh behind it. *)
Definition cand_raw (cfg : Config) (lastEnd : Z) (c : candidate) : Prop := cache_ok cfg c /\ 0 <= c_eligibleDuration c <= lastEnd.

Lemma cand_ok_raw cfg lastEnd c : cand_ok cfg lastEnd c -> cand_raw cfg lastEnd c.
Proof. intros []. by split. Qed.

Lemma qualifies_promoted cfg c : stricter_promotion cfg ->
  qualifies cfg (fadd (CaptureTarget cfg) (PromotionMargin cfg)) c = true -> qualifies cfg (CaptureTarget cfg) c = true.
Proof.
  intros Hs. unfold qualifies. rewrite !andb_true_iff. intros [Ha Hf]. split; [done|].
  rewrite forallb_forall in Hf |- *. intros [id m] Hin. specialize (Hf _ Hin). cbn in Hf |- *. unfold evidence in *.
  rewrite andb_true_iff in *. destruct Hf as [He Hb]. split; [done|]. destruct (upperMissBound _ _ _); [|done].
  rewrite negb_true_iff in *. by apply (not_above _ _ _ Hs).
Qed.

(** Changing only what qualification does not read. *)
Lemma cand_raw_same cfg lastEnd c c' :
  cand_raw cfg lastEnd c -> c_senders c' = c_senders c -> c_eligibleDuration c' = c_eligibleDuration c ->
  (c_eligibilityDirty c' = false -> c_eligibilityDirty c = false /\ c_eligibleCached c' = c_eligibleCached c) -> cand_raw cfg lastEnd c'.
Proof.
  intros [[K1 K2] Ht] Es Ee Ed. split; [|by rewrite Ee]. constructor; [|by rewrite Es].
  intros Hd. destruct (Ed Hd) as [E1 E2]. rewrite E2. unfold all_learned. rewrite Es. by apply K1.
Qed.

(** The models replaced one by one, with the schedule invalidated. *)
Lemma cand_raw_models cfg lastEnd c c' :
  cand_raw cfg lastEnd c -> c_eligibilityDirty c' = true -> c_eligibleDuration c' = c_eligibleDuration c ->
  Forall (fun im => memo_ok (fsub fone (Confidence cfg)) (snd im)) (c_senders c') -> cand_raw cfg lastEnd c'.
Proof. intros [_ Ht] Ed Ee Hm. split; [|by rewrite Ee]. constructor; [by rewrite Ed|done]. Qed.

Lemma map_models_memo alpha f c : (forall m, memo_ok alpha m -> memo_ok alpha (f m)) ->
  Forall (fun im => memo_ok alpha (snd im)) (c_senders c) -> Forall (fun im => memo_ok alpha (snd im)) (c_senders (map_models f c)).
Proof.
  intros Hf Hm. unfold map_models. cbn. apply Forall_fmap. eapply Forall_impl; [exact Hm|]. intros [id m]. cbn. apply Hf.
Qed.

Lemma beginNewEpoch_ok cfg lastEnd now widen c : cand_raw cfg lastEnd c -> cand_ok cfg lastEnd (beginNewEpoch now widen c).
Proof.
  intros Hc. pose proof Hc as [[K1 K2] Ht].
  assert (c_qualified (beginNewEpoch now widen c) = false /\ c_eligibilityDirty (beginNewEpoch now widen c) = true /\
    c_eligibleDuration (beginNewEpoch now widen c) = c_eligibleDuration c) as (E1 & E2 & E3) by (unfold beginNewEpoch; by destruct widen).
  assert (cand_raw cfg lastEnd (beginNewEpoch now widen c)) as [Kc Kt].
  { apply (cand_raw_models cfg lastEnd c); try done. unfold beginNewEpoch.
    set (f := fun m : senderModel => _). set (c1 := if widen then _ else _).
    change (Forall (fun im => memo_ok (fsub fone (Confidence cfg)) im.2) (c_senders (map_models f c1))).
    apply map_models_memo; [intros m Hm; unfold f; by destruct (widen && _)|]. unfold c1. by destruct widen. }
  constructor; [done|done|by rewrite E1].
Qed.

Lemma tightenAfterRefresh_ok cfg lastEnd now c : cand_ok cfg lastEnd c -> cand_ok cfg lastEnd (tightenAfterRefresh now c).
Proof.
  intros Hc. unfold tightenAfterRefresh. destruct (fle _ _); [done|]. apply beginNewEpoch_ok.
  pose proof (cand_ok_raw _ _ _ Hc) as [[K1 K2] Ht]. split; [|done].
  set (f := fun m : senderModel => _). constructor.
  - cbn. intros Hd. rewrite (K1 Hd). unfold all_learned. cbn. clear -f. induction (c_senders c) as [|[i m] l IH]; [done|]. cbn. rewrite IH. f_equal.
    unfold f. by destruct (m_learned m) eqn:E.
  - apply map_models_memo; [intros m Hm; unfold f; by destruct (m_learned m)|done].
Qed.

Lemma refresh_candidate_ok cfg lastEnd now c : stricter_promotion cfg -> cand_raw cfg lastEnd c -> cand_ok cfg lastEnd (refresh_candidate cfg now c).
Proof.
  intros Hs Hc. unfold refresh_candidate. set (c1 := if c_invalid c && _ then _ else c).
  assert (cand_raw cfg lastEnd c1) as [K1 T1]. { unfold c1. destruct (c_invalid c && _); [|done]. by apply (cand_raw_same cfg lastEnd c). }
  clearbody c1. clear c Hc.
  destruct (c_qualified c1) eqn:Eq.
  - pose proof (qualifiesAt_spec cfg (CaptureTarget cfg) c1 K1) as (E1 & E2 & E3). destruct (qualifiesAt cfg _ c1) as [c2 ok]. cbn [fst snd] in *.
    destruct ok; [constructor; [done|by rewrite (sc_eligible _ _ E3)|intros _; by rewrite (qualifies_same _ _ c1)]|].
    constructor; [destruct E2; by constructor|cbn; by rewrite (sc_eligible _ _ E3)|done].
  - set (target := fadd _ _). pose proof (qualifiesAt_spec cfg target c1 K1) as (E1 & E2 & E3). destruct (qualifiesAt cfg target c1) as [c2 ok]. cbn [fst snd] in *.
    assert (c_qualified c2 = false) as Eq2 by (by rewrite (sc_qualified _ _ E3)).
    assert (0 <= c_eligibleDuration c2 <= lastEnd) as T2 by (by rewrite (sc_eligible _ _ E3)).
    destruct ok; cbn [negb]; [|constructor; [destruct E2; by constructor|done|by cbn; rewrite Eq2]].
    assert (qualifies cfg (CaptureTarget cfg) c2 = true) as Hq by (apply qualifies_promoted; [done|]; rewrite (qualifies_same _ _ c1); done).
    set (c3 := if c_promotionReady c2 =? 0 then _ else c2).
    assert (cand_raw cfg lastEnd c3 /\ qualifies cfg (CaptureTarget cfg) c3 = true /\ c_qualified c3 = false) as ([K3 T3] & Q3 & N3).
    { unfold c3. destruct (_ =? 0); [|split; [by split|done]]. split; [|done]. by apply (cand_raw_same cfg lastEnd c2). }
    clearbody c3. destruct (_ <=? now); [|constructor; [done|done|by rewrite N3]].
    constructor; [destruct K3; by constructor|done|intros _; exact Q3].
Qed.

Lemma candidate_awakeDuring_same start end_ c : let c' := fst (candidate_awakeDuring start end_ c) in
  c_senders c' = c_senders c /\ c_eligibleDuration c' = c_eligibleDuration c /\ c_qualified c' = c_qualified c /\ c_invalid c' = c_invalid c /\
  c_eligibilityDirty c' = c_eligibilityDirty c /\ c_eligibleCached c' = c_eligibleCached c /\ c_promotionReady c' = c_promotionReady c /\
  c_recoveryUntil c' = c_recoveryUntil c.
Proof. unfold candidate_awakeDuring. cbv zeta. destruct (if c_wakeCacheValid c then _ else _); [done|]. by destruct (foldl _ _ _) as [[]]. Qed.

(** Scoring a block only adds time. *)
Lemma score_candidate_ok cfg lastEnd start end_ c :
  cand_ok cfg lastEnd c -> lastEnd <= start < end_ -> end_ < 2 ^ 63 ->
  let c' := fst (score_candidate start end_ c) in
  cand_ok cfg end_ c' /\ c_qualified c' = c_qualified c /\ c_senders c' = c_senders c /\ c_invalid c' = c_invalid c /\
  c_promotionReady c' = c_promotionReady c /\ c_recoveryUntil c' = c_recoveryUntil c /\
  c_eligibleDuration c' = c_eligibleDuration c + (if all_learned c then end_ - start else 0).
Proof.
  intros [Kc [T1 T2] Ke] Ht Hend. unfold score_candidate.
  pose proof (allLearned_spec cfg c Kc) as (E1 & E2 & E3 & _).
  assert (c_eligibleDuration (fst (allLearned c)) = c_eligibleDuration c /\ c_qualified (fst (allLearned c)) = c_qualified c /\
    c_invalid (fst (allLearned c)) = c_invalid c /\ c_promotionReady (fst (allLearned c)) = c_promotionReady c /\
    c_recoveryUntil (fst (allLearned c)) = c_recoveryUntil c /\
    (c_eligibilityDirty (fst (allLearned c)) = false)) as (A1 & A2 & A3 & A4 & A5 & A6).
  { unfold allLearned. by destruct (c_eligibilityDirty c) eqn:E. }
  destruct (allLearned c) as [c1 el]. cbn [fst snd] in *. subst el. rewrite <- A1 in *.
  pose proof (ca_learned _ _ E2 A6) as A7. pose proof (ca_memo _ _ E2) as A8.
  assert (forall c', c_senders c' = c_senders c -> c_eligibilityDirty c' = false -> c_eligibleCached c' = c_eligibleCached c1 ->
    c_eligibleDuration c' = c_eligibleDuration c1 + (if all_learned c then end_ - start else 0) -> c_qualified c' = c_qualified c ->
    c_invalid c' = c_invalid c -> cand_ok cfg end_ c') as Hok.
  { intros c' F1 F2 F3 F4 F5 F6. constructor.
    - constructor; [intros _; rewrite F3, A7; unfold all_learned; by rewrite F1, E3|by rewrite F1, <- E3].
    - rewrite F4. destruct (all_learned c); lia.
    - rewrite F5. intros Hq. specialize (Ke Hq). unfold qualifies, all_learned in *. rewrite F1, F4, F6. rewrite <- A1 in Ke.
      rewrite !andb_true_iff, !negb_true_iff, Z.leb_gt in Ke |- *. destruct Ke as [[[K1 K2] K3] K4]. split; [|done].
      split; [done|]. match goal with |- context [if ?b then _ else _] => destruct b end; lia. }
  destruct (all_learned c) eqn:Eal.
  - set (c2 := c1 <| c_lastEligible := true |> <| c_lastAwake := true |>).
    destruct (candidate_awakeDuring_same start end_ c2) as (B1 & B2 & B3 & B4 & B5 & B6 & B7 & B8).
    destruct (candidate_awakeDuring start end_ c2) as [c3 awake]. cbn [fst] in *.
    assert (i64 (c_eligibleDuration c3 + (end_ - start)) = c_eligibleDuration c1 + (end_ - start)) as Ei.
    { rewrite B2. unfold c2. cbn. apply i64_id. lia. }
    destruct awake; cbn; rewrite ?Ei; (split; [apply Hok; cbn; rewrite ?B1, ?B3, ?B4, ?B5, ?B6, ?Ei; done|]);
      rewrite ?B1, ?B3, ?B4, ?B7, ?B8; unfold c2; cbn; rewrite ?E3, ?A2, ?A3, ?A4, ?A5; done.
  - cbn. rewrite Z.add_0_r in *. split; [apply Hok; done|]. rewrite E3, A2, A3, A4, A5. done.
Qed.

(** ** The scheduler *)

Record inv (cfg : Config) (s : Scheduler) : Prop := {
  iv_cfg : s_cfg s = cfg;
  iv_clock : 0 <= s_lastEnd s /\ (s_started s = false -> s_lastEnd s = 0);
  iv_cands : Forall (cand_ok cfg (s_lastEnd s)) (s_candidates s) }.

(** The clock and what recovery guards do not move, and recovery never shrinks. *)
Record later (s s' : Scheduler) : Prop := {
  lt_cfg : s_cfg s' = s_cfg s;
  lt_end : s_lastEnd s' = s_lastEnd s;
  lt_started : s_started s' = s_started s;
  lt_recovery : s_recoveryUntil s <= s_recoveryUntil s' }.

Lemma later_refl s : later s s.
Proof. by constructor. Qed.

Lemma later_trans s1 s2 s3 : later s1 s2 -> later s2 s3 -> later s1 s3.
Proof. intros [A1 A2 A3 A4] [B1 B2 B3 B4]. constructor; congruence || lia. Qed.

Lemma inv_later cfg s s' : inv cfg s -> later s s' -> Forall (cand_ok cfg (s_lastEnd s)) (s_candidates s') -> inv cfg s'.
Proof. intros [I1 I2 I3] [L1 L2 L3 L4] Hc. constructor; rewrite ?L1, ?L2, ?L3; done. Qed.

Lemma enterRecovery_later now s : later s (enterRecovery now s).
Proof. constructor; try done. unfold enterRecovery. cbn. destruct (Z.ltb_spec (s_recoveryUntil s) (i64 (now + RecoveryDuration (s_cfg s)))); lia. Qed.

Lemma cand_ok_recovery cfg lastEnd c t : cand_ok cfg lastEnd c -> cand_ok cfg lastEnd (c <| c_recoveryUntil := t |>).
Proof. intros [[K1 K2] Ht Ke]. by constructor. Qed.

(** The invalidation of one candidate. *)
Lemma invalidated_ok cfg lastEnd now t c : cand_raw cfg lastEnd c ->
  cand_ok cfg lastEnd ((beginNewEpoch now true (c <| c_invalid := true |>)) <| c_recoveryUntil := t |>).
Proof. intros Hc. apply cand_ok_recovery, beginNewEpoch_ok. by apply (cand_raw_same cfg lastEnd c). Qed.

Lemma recoverAtLeast_candidates skip now s :
  s_candidates (recoverAtLeast skip now s) = map (fun c =>
    if fge (steadySleep c) skip then
      (beginNewEpoch now true (c <| c_invalid := true |>)) <| c_recoveryUntil := i64 (now + RecoveryDuration (s_cfg s)) |>
    else c) (s_candidates s).
Proof. reflexivity. Qed.

Lemma recoverAtLeast_ok cfg lastEnd skip now s :
  Forall (cand_ok cfg lastEnd) (s_candidates s) -> Forall (cand_ok cfg lastEnd) (s_candidates (recoverAtLeast skip now s)).
Proof.
  intros Hc. rewrite recoverAtLeast_candidates. apply Forall_fmap. eapply Forall_impl; [exact Hc|]. intros c Hok.
  unfold compose. destruct (fge _ _); [|done]. by apply invalidated_ok, cand_ok_raw.
Qed.

Lemma recoverAtLeast_raw cfg lastEnd skip now s :
  Forall (cand_raw cfg lastEnd) (s_candidates s) -> Forall (cand_raw cfg lastEnd) (s_candidates (recoverAtLeast skip now s)).
Proof.
  intros Hc. rewrite recoverAtLeast_candidates. apply Forall_fmap. eapply Forall_impl; [exact Hc|]. intros c Hok.
  unfold compose. destruct (fge _ _); [|done]. by apply cand_ok_raw, invalidated_ok.
Qed.

Lemma enterRecovery_candidates now s : s_candidates (enterRecovery now s) = s_candidates s.
Proof. done. Qed.

Lemma recoverAtLeast_later skip now s : later s (recoverAtLeast skip now s).
Proof. by constructor. Qed.

Lemma checkWatchdogs_cases now s s' : checkWatchdogs now s = Some s' -> exists s1, later s s1 /\ s_candidates s1 = s_candidates s /\
  (s' = s1 \/ exists skip, s' = enterRecovery now (recoverAtLeast skip now s1)).
Proof.
  unfold checkWatchdogs. intros ([l w] & _ & E)%bind_Some. set (s1 := s <| s_senders := l |> <| s_watchdogDirty := false |>
    <| s_nextWatchdogCheck := w_next w |> <| s_deadlineDeficits := w_deadline w |> <| s_countDeficits := w_count w |> <| s_protocols := w_protocols w |>) in E.
  assert (later s s1) as L1 by (by constructor). assert (s_candidates s1 = s_candidates s) as C1 by done. clearbody s1. exists s1. do 2 (split; [done|]).
  destruct (selected_candidate s1) as [c|]; [|apply (inj Some) in E as <-; by left].
  destruct (w_failed w && _ && _); apply (inj Some) in E as <-; [right; by eexists|by left].
Qed.

Lemma checkWatchdogs_later now s s' : checkWatchdogs now s = Some s' -> later s s'.
Proof.
  intros (s1 & L1 & _ & [->|(skip & ->)])%checkWatchdogs_cases; [done|].
  apply (later_trans _ s1); [done|]. eapply later_trans; [apply recoverAtLeast_later|apply enterRecovery_later].
Qed.

Lemma checkWatchdogs_ok cfg now s s' : inv cfg s -> checkWatchdogs now s = Some s' -> inv cfg s' /\ later s s'.
Proof.
  intros Hi E. pose proof (checkWatchdogs_later _ _ _ E) as L. split; [|done].
  destruct (checkWatchdogs_cases _ _ _ E) as (s1 & L1 & C1 & Hs). assert (inv cfg s1) as I1 by (apply (inv_later cfg s); [done|done|rewrite C1; apply Hi]).
  destruct Hs as [->|(skip & ->)]; [done|]. apply (inv_later cfg s); [done|done|]. rewrite enterRecovery_candidates, <- (lt_end _ _ L1).
  apply recoverAtLeast_ok, I1.
Qed.

Lemma refreshQualifications_ok cfg now s : stricter_promotion cfg -> s_cfg s = cfg ->
  Forall (cand_raw cfg (s_lastEnd s)) (s_candidates s) -> Forall (cand_ok cfg (s_lastEnd s)) (s_candidates (refreshQualifications now s)).
Proof.
  intros Hs Hcfg Hc. unfold refreshQualifications. cbn [upd s_candidates]. apply Forall_fmap. eapply Forall_impl; [exact Hc|]. intros c Hok.
  unfold compose. rewrite Hcfg. by apply refresh_candidate_ok.
Qed.

(** The chosen candidate is a qualified one. *)
Lemma best_candidate_spec l i : best_candidate l = Some i -> exists c, l !! i = Some c /\ c_qualified c = true.
Proof.
  unfold best_candidate. intros E. apply fmap_Some in E as ([j c] & E & ->). cbn.
  assert (forall k best, (forall p, best = Some p -> imap (fun i c => (i, c)) l !! fst p = Some p /\ c_qualified (snd p) = true) ->
    (forall x, x ∈ k -> imap (fun i c => (i, c)) l !! fst x = Some x) ->
    forall p, foldl better best k = Some p -> imap (fun i c => (i, c)) l !! fst p = Some p /\ c_qualified (snd p) = true) as Hloop.
  { clear. induction k as [|x k IH]; intros best Hb Hk p; cbn [foldl]; [apply Hb|]. apply IH.
    - intros q. unfold better. destruct (c_qualified x.2) eqn:Ex; cbn [negb]; [|apply Hb].
      assert (imap (λ i c, (i, c)) l !! x.1 = Some x) by (apply Hk, list_elem_of_here).
      destruct best as [b|]; [destruct (fgt _ _)|]; [intros [= <-]; done|apply Hb|intros [= <-]; done].
    - intros y Hy. apply Hk. by apply list_elem_of_further. }
  apply Hloop in E; [|done|].
  - cbn in E. destruct E as [E Hq]. rewrite list_lookup_imap in E. apply fmap_Some in E as (c' & E & [= <-]). by exists c.
  - intros x (k & Hk)%list_elem_of_lookup. pose proof Hk as Hk'. rewrite list_lookup_imap in Hk. apply fmap_Some in Hk as (c' & _ & ->). exact Hk'.
Qed.

(** What a selection means. *)
Definition chosen (s : Scheduler) : Prop :=
  forall i, s_selected s = Some i -> cfg_Mode (s_cfg s) = ModeGated /\ s_recoveryUntil s <= s_lastEnd s /\ s_reanchorPending s = ∅ /\
    watchdogsReady s = true /\ exists c, s_candidates s !! i = Some c /\ c_qualified c = true.

Lemma chooseCandidate_chosen s : chosen (chooseCandidate s) /\ later s (chooseCandidate s) /\ s_candidates (chooseCandidate s) = s_candidates s.
Proof.
  unfold chooseCandidate. destruct (negb _ || _ || _ || _) eqn:E; [by split|]. split; [|by split].
  rewrite !orb_false_iff, !negb_false_iff, !bool_decide_eq_true, Z.ltb_ge in E. destruct E as [[[E1 E2] E3] E4].
  intros i Hi. cbn in Hi. apply best_candidate_spec in Hi as (c & Hc & Hq). by eauto 10.
Qed.

Lemma end_refresh_ok cfg lastEnd start s : Forall (cand_ok cfg lastEnd) (s_candidates s) ->
  Forall (cand_ok cfg lastEnd) (s_candidates (end_refresh start s)) /\ later s (end_refresh start s) /\
  s_recoveryUntil (end_refresh start s) = s_recoveryUntil s.
Proof.
  intros Hc. unfold end_refresh. destruct (_ && _); [|split; [done|by split; [apply later_refl|]]].
  destruct (s_selected s) as [i|]; [|split; [done|by split; [constructor|]]]. split; [|by split; [constructor|]].
  cbn [upd s_candidates]. apply Forall_lookup_2. intros j c Hj. destruct (decide (j = i)) as [->|Hne].
  - rewrite list_lookup_alter_eq in Hj. apply fmap_Some in Hj as (c' & Hc' & ->). apply tightenAfterRefresh_ok. by eapply Forall_lookup_1.
  - rewrite list_lookup_alter_ne in Hj by done. by eapply Forall_lookup_1.
Qed.

(** ** Observe *)

Definition same_memo (m m' : senderModel) : Prop :=
  m_boundValid m' = m_boundValid m /\ m_boundUpper m' = m_boundUpper m /\ m_boundMisses m' = m_boundMisses m /\ m_boundEvents m' = m_boundEvents m.

Lemma same_memo_ok alpha m m' : same_memo m m' -> memo_ok alpha m -> memo_ok alpha m'.
Proof. intros (E1 & E2 & E3 & E4) Hm. unfold memo_ok. rewrite E1, E2, E3, E4. exact Hm. Qed.

Lemma record_arrival_memo protocol at_ cfg m : same_memo m (fst (record_arrival protocol at_ cfg m)).
Proof.
  unfold record_arrival. destruct (negb _ && negb _); destruct (m_seen _) eqn:?; try done; destruct (0 <? _); try done;
    destruct (m_learned _ && _); try done; unfold score_interval; by destruct (_ <? int64_of _).
Qed.

Lemma model_observe_memo protocol at_ cfg scale m m' changed :
  model_observe protocol at_ cfg scale m = Some (m', changed) -> same_memo m m'.
Proof.
  unfold model_observe. pose proof (record_arrival_memo protocol at_ cfg m) as Hm.
  destruct (record_arrival protocol at_ cfg m) as [m1 ch]. cbn [fst] in Hm.
  destruct (_ <? WarmupIntervals cfg); [by intros [= <- _]|].
  set (m2 := if m_effectiveHistory m1 =? 0 then _ else m1). assert (same_memo m m2) as H2 by (unfold m2; by destruct (_ =? 0)).
  clearbody m2. clear Hm m1. intros E. apply bind_Some in E as (m3 & E3 & E). apply bind_Some in E as (m4 & E4 & E). injection E as <- _.
  assert (same_memo m m3) as H3.
  { unfold grow_history in E3. destruct (_ && _); [|by injection E3 as <-].
    apply bind_Some in E3 as (ok & _ & E3). injection E3 as <-. by destruct ok. }
  clear E3 H2 m2. unfold fit_window in E4. apply bind_Some in E4 as (h & _ & E4). apply bind_Some in E4 as ([period res] & _ & E4).
  apply bind_Some in E4 as (q & _ & E4). injection E4 as <-. exact H3.
Qed.

Lemma find_model_memo alpha id c m : find_model id c = Some m ->
  Forall (fun im => memo_ok alpha (snd im)) (c_senders c) -> memo_ok alpha m.
Proof.
  unfold find_model. intros ([id' m'] & Hf & ->)%fmap_Some Hall. apply find_some in Hf as [Hin _].
  rewrite Forall_forall in Hall. by apply (Hall (id', m')), list_elem_of_In.
Qed.

Lemma set_model_memo alpha id m c : memo_ok alpha m -> Forall (fun im => memo_ok alpha (snd im)) (c_senders c) ->
  Forall (fun im => memo_ok alpha (snd im)) (c_senders (set_model id m c)).
Proof.
  intros Hm Hall. unfold set_model. cbn [upd c_senders]. apply Forall_fmap. eapply Forall_impl; [exact Hall|].
  intros [id' m'] Hm'. unfold compose. cbn in *. by destruct (id' =? id).
Qed.

Lemma observe_candidate_raw cfg lastEnd id protocol at_ reanchored c c' :
  cand_raw cfg lastEnd c -> observe_candidate id protocol at_ reanchored c = Some c' -> cand_raw cfg lastEnd c'.
Proof.
  intros Hc E. pose proof Hc as [[K1 K2] Ht]. apply bind_Some in E as (m & Hm & E). pose proof (find_model_memo _ _ _ _ Hm K2) as Hmm.
  destruct reanchored.
  - injection E as <-. apply (cand_raw_models cfg lastEnd c); try done. by apply set_model_memo.
  - set (m1 := if c_lastEligible c then _ else m) in E. assert (same_memo m m1) as H1.
    { unfold m1. destruct (c_lastEligible c); [|done]. by destruct (negb _). }
    clearbody m1. apply bind_Some in E as ([m2 changed] & Eo & E). injection E as <-. apply model_observe_memo in Eo.
    assert (memo_ok (fsub fone (Confidence cfg)) m2) as H2 by (apply (same_memo_ok _ m1); [done|]; by apply (same_memo_ok _ m)).
    assert (cand_raw cfg lastEnd (invalidateSchedule (set_model id m2 c))) as Hr.
    { apply (cand_raw_models cfg lastEnd c); try done. by apply set_model_memo. }
    destruct changed; [|done].
    assert (invalidateSchedule (beginNewEpoch at_ true (set_model id m2 c)) = beginNewEpoch at_ true (invalidateSchedule (set_model id m2 c))) as ->
      by reflexivity.
    by apply cand_ok_raw, beginNewEpoch_ok.
Qed.

Lemma mapM_Forall {A B} (P : A -> Prop) (Q : B -> Prop) (f : A -> option B) l k :
  (forall x y, P x -> f x = Some y -> Q y) -> Forall P l -> mapM f l = Some k -> Forall Q k.
Proof.
  intros Hf Hl E. apply mapM_Some in E. revert Hl. induction E as [|x y l k Hxy _ IH]; intros Hl; [done|].
  apply Forall_cons in Hl as [Hx Hl]. constructor; [by apply (Hf x)|by apply IH].
Qed.

Lemma recover_escape_ok cfg lastEnd forced at_ s : Forall (cand_raw cfg lastEnd) (s_candidates s) ->
  Forall (cand_raw cfg lastEnd) (s_candidates (recover_escape forced at_ s)) /\ later s (recover_escape forced at_ s).
Proof.
  intros Hc. unfold recover_escape. destruct (selected_candidate s) as [c|]; [|by split; [|apply later_refl]].
  destruct (_ && _); [|by split; [|apply later_refl]]. split.
  - change (s_candidates (enterRecovery (s_lastEnd s) (recoverAtLeast (steadySleep c) at_ s))) with (s_candidates (recoverAtLeast (steadySleep c) at_ s)).
    by apply recoverAtLeast_raw.
  - eapply later_trans; [|apply enterRecovery_later]. by constructor.
Qed.

Lemma observe_ok cfg id protocol at_ forced s s' : stricter_promotion cfg ->
  inv cfg s -> observe id protocol at_ forced s = Some s' -> inv cfg s' /\ later s s'.
Proof.
  intros Hs Hi. unfold observe. destruct (find_sender id s) as [r|]; [|by intros [= <-]; split; [|apply later_refl]].
  assert (inv cfg (enterRecovery (s_lastEnd s) s) /\ later s (enterRecovery (s_lastEnd s) s)) as Hrec.
  { pose proof (enterRecovery_later (s_lastEnd s) s). split; [|done]. by apply (inv_later cfg s); [| |apply Hi]. }
  destruct (_ || _); [destruct (_ && _); intros [= <-]; [done|by split; [|apply later_refl]]|].
  destruct (negb _ && negb _); [by intros [= <-]|].
  set (re := bool_decide _). intros E. apply bind_Some in E as (r' & _ & E). apply bind_Some in E as (cands & Hcands & E).
  set (s1 := set_sender id r' s <| s_protocols ::= count_protocol protocol |> <| s_candidates := cands |>) in E.
  set (s2 := if re then _ else s1) in E. set (s3 := s2 <| s_watchdogDirty := true |>) in E.
  assert (later s s3 /\ s_candidates s3 = cands) as [L3 C3] by (unfold s3, s2; destruct re; by split; [constructor|]).
  assert (Forall (cand_raw cfg (s_lastEnd s)) cands) as Hraw.
  { eapply mapM_Forall; [|apply Hi|exact Hcands]. intros c c' Hc. apply observe_candidate_raw. by apply cand_ok_raw. }
  rewrite <- C3 in Hraw. destruct (recover_escape_ok cfg (s_lastEnd s) forced at_ s3 Hraw) as [R4 L4].
  set (s4 := recover_escape forced at_ s3) in *. clearbody s3. clear s1 s2 Hcands C3. clearbody s4.
  injection E as <-. destruct (chooseCandidate_chosen (refreshQualifications at_ s4)) as (_ & L6 & C6).
  assert (later s (chooseCandidate (refreshQualifications at_ s4))) as L.
  { eapply later_trans; [exact L3|]. eapply later_trans; [exact L4|]. eapply later_trans; [|exact L6]. by constructor. }
  split; [|done]. apply (inv_later cfg s); [done|done|]. rewrite C6.
  assert (s_lastEnd s = s_lastEnd s4) as El by (rewrite (lt_end _ _ L4); symmetry; apply L3).
  rewrite El in *. apply refreshQualifications_ok; [done| |done]. rewrite (lt_cfg _ _ L4), (lt_cfg _ _ L3). apply Hi.
Qed.

(** ** Advance *)

Lemma reset_candidate_ok cfg lastEnd c : 0 <= lastEnd -> cand_ok cfg lastEnd (reset_candidate c).
Proof.
  intros Hl. constructor; [|cbn; lia|done]. constructor; [done|].
  unfold reset_candidate, invalidateSchedule, map_models. cbn [upd c_senders]. apply Forall_fmap, Forall_true. by intros [].
Qed.

Lemma resetLearning_ok cfg now s : s_cfg s = cfg -> 0 <= now -> s_lastEnd s = now -> s_started s = true -> inv cfg (resetLearning s).
Proof.
  intros Hc Hnow El Est. constructor; [done| |].
  { split; [change (0 <= s_lastEnd s); lia|change (s_started s = false -> s_lastEnd s = 0); by rewrite Est]. }
  unfold resetLearning. cbn [upd s_candidates s_lastEnd]. apply Forall_fmap, Forall_true. intros c. unfold compose.
  apply reset_candidate_ok. by rewrite El.
Qed.

Lemma enterRecovery_until cfg now s : s_cfg s = cfg -> i64 (now + RecoveryDuration cfg) <= s_recoveryUntil (enterRecovery now s).
Proof.
  intros <-. unfold enterRecovery. cbn [upd s_recoveryUntil].
  destruct (Z.ltb_spec (s_recoveryUntil s) (i64 (now + RecoveryDuration (s_cfg s)))); lia.
Qed.

Lemma enterRecovery_inv cfg now s : inv cfg s -> inv cfg (enterRecovery now s).
Proof. intros Hi. apply (inv_later cfg s); [done|apply enterRecovery_later|apply Hi]. Qed.

Lemma with_decision_inv cfg d s : inv cfg s -> inv cfg (fst (with_decision d s)).
Proof. intros [I1 I2 I3]. by constructor. Qed.

Lemma discontinuity_ok cfg start end_ s : inv cfg s ->
  let now := if (start <? end_) && (0 <=? end_) then end_ else s_lastEnd s in
  let s' := fst (discontinuity start end_ s) in
  inv cfg s' /\ s_recoveryUntil s <= s_recoveryUntil s' /\ i64 (now + RecoveryDuration cfg) <= s_recoveryUntil s' /\
  d_Decode (snd (discontinuity start end_ s)) = true.
Proof.
  intros [I1 [I2 I3] I4] now. unfold discontinuity. fold now.
  assert (0 <= now) as Hnow by (unfold now; destruct (Z.ltb_spec start end_), (Z.leb_spec 0 end_); cbn; lia).
  clearbody now. set (s0 := s <| s_lastEnd := now |> <| s_started := true |>).
  pose proof (resetLearning_ok cfg now s0 I1 Hnow eq_refl eq_refl) as H1.
  assert (s_recoveryUntil (resetLearning s0) = s_recoveryUntil s) as H2 by reflexivity.
  revert H1 H2. generalize (resetLearning s0). clear s0. intros s1 H1 H2. cbv zeta.
  pose proof (enterRecovery_inv cfg now s1 H1) as H3. pose proof (enterRecovery_until cfg now s1 (iv_cfg _ _ H1)) as H4.
  pose proof (lt_recovery _ _ (enterRecovery_later now s1)) as H5. revert H3 H4 H5. generalize (enterRecovery now s1). intros s2 H3 H4 H5.
  split; [by apply with_decision_inv|]. split; [cbn; lia|]. split; [cbn; lia|done].
Qed.

Lemma score_block_ok cfg start end_ lastEnd s s' : stricter_promotion cfg ->
  s_cfg s = cfg -> s_lastEnd s = end_ -> s_started s = true -> Forall (cand_ok cfg lastEnd) (s_candidates s) ->
  0 <= lastEnd <= start -> start < end_ < 2 ^ 63 -> score_block start end_ s = Some s' -> inv cfg s' /\ later s s' /\ chosen s'.
Proof.
  intros Hs Hcfg Hend Hst Hc Ht Ht2 E. unfold score_block in E.
  set (s1 := s <| s_candidates := _ |>) in E. assert (later s s1) as L1 by (by constructor).
  assert (inv cfg s1) as I1.
  { constructor; [done|split; [change (0 <= s_lastEnd s); lia|change (s_started s = false -> s_lastEnd s = 0); by rewrite Hst]|]. unfold s1. cbn [upd s_candidates s_lastEnd]. rewrite Hend.
    rewrite map_map. apply Forall_fmap. eapply Forall_impl; [exact Hc|]. intros c Hok. unfold compose.
    by destruct (score_candidate_ok cfg lastEnd start end_ c Hok ltac:(lia) ltac:(lia)) as [? _]. }
  clearbody s1. apply bind_Some in E as (s2 & E2 & E).
  assert (inv cfg s2 /\ later s s2) as [I2 L2].
  { destruct (_ || _) in E2; [|injection E2 as <-; done].
    apply (checkWatchdogs_ok cfg) in E2 as [? ?]; [|done]. split; [done|]. by apply (later_trans _ s1). }
  clear E2 L1 I1 s1. injection E as <-. set (b := _ || _ || _). set (s3 := if b then _ else s2).
  assert (inv cfg s3 /\ later s s3) as [I3 L3].
  { unfold s3. destruct b; [|done]. assert (later s2 (refreshQualifications end_ s2)) as L by (by constructor).
    split; [|by apply (later_trans _ s2)]. apply (inv_later cfg s2); [done|done|]. apply refreshQualifications_ok; [done|apply I2|].
    eapply Forall_impl; [apply I2|]. intros c. apply cand_ok_raw. }
  clearbody s3. destruct (chooseCandidate_chosen s3) as (H4 & L4 & C4).
  split; [|split; [by apply (later_trans _ s3)|done]]. apply (inv_later cfg s3); [done|done|]. rewrite C4. apply I3.
Qed.

Lemma schedule_refresh_same end_ s : let s' := schedule_refresh end_ s in
  later s s' /\ s_candidates s' = s_candidates s /\ s_selected s' = s_selected s /\ s_senders s' = s_senders s /\
  s_reanchorPending s' = s_reanchorPending s /\ s_recoveryUntil s' = s_recoveryUntil s.
Proof.
  unfold schedule_refresh. cbv zeta. destruct (selected_candidate s) as [c|]; [|by split; [apply later_refl|]].
  destruct (_ <=? end_); [|by split; [apply later_refl|]].
  destruct (s_nextRefresh s =? 0); destruct (_ <=? end_); (split; [by constructor|done]).
Qed.

(** The decision, and what a suppressed block entails. *)
Lemma decide_block_ok end_ s : let '(s', d) := decide_block end_ s in
  later s s' /\ s_candidates s' = s_candidates s /\ s_senders s' = s_senders s /\ s_reanchorPending s' = s_reanchorPending s /\
  s_recoveryUntil s' = s_recoveryUntil s /\
  (d_Decode d = false -> cfg_Mode (s_cfg s) = ModeGated /\ s_recoveryUntil s <= end_ /\ s_refreshUntil s' <= end_ /\
     d_Audit d = false /\ d_Refresh d = false /\ s_selected s' = s_selected s /\
     exists c, selected_candidate s = Some c /\ c_lastEligible c = true /\ c_lastAwake c = false).
Proof.
  unfold decide_block. set (d0 := Build_Decision _ _ _ _ _). destruct (schedule_refresh_same end_ s) as (L1 & C1 & S1 & R1 & P1 & U1).
  set (s1 := schedule_refresh end_ s) in *. clearbody s1.
  assert (forall s', later s1 s' -> later s s') as Hl by (intros s'; by apply later_trans).
  assert (selected_candidate s1 = selected_candidate s) as Esel by (unfold selected_candidate; by rewrite S1, C1).
  rewrite Esel. destruct (selected_candidate s) as [c|] eqn:Ec; [|unfold with_decision; split; [apply Hl; by constructor|done]].
  destruct (Z.ltb_spec end_ (s_refreshUntil s1)) as [Hlt|Hge]; [unfold with_decision; split; [apply Hl; by constructor|done]|].
  destruct (bool_decide (cfg_Mode (s_cfg s1) = ModeGated) && (s_recoveryUntil s1 <=? end_) && c_lastEligible c && negb (c_lastAwake c)) eqn:Eg;
    [|unfold with_decision; split; [apply Hl; by constructor|done]].
  rewrite !andb_true_iff, negb_true_iff, bool_decide_eq_true, Z.leb_le in Eg. destruct Eg as [[[G1 G2] G3] G4].
  rewrite (lt_cfg _ _ L1) in G1. rewrite U1 in G2.
  assert (forall s2, later s1 s2 -> s_candidates s2 = s_candidates s1 -> s_senders s2 = s_senders s1 -> s_reanchorPending s2 = s_reanchorPending s1 ->
    s_recoveryUntil s2 = s_recoveryUntil s1 -> s_refreshUntil s2 = s_refreshUntil s1 -> s_selected s2 = s_selected s1 ->
    let '(s', d) := with_decision (d0 <| d_Decode := s_auditActive s2 |> <| d_Audit := s_auditActive s2 |>) s2 in
    later s s' /\ s_candidates s' = s_candidates s /\ s_senders s' = s_senders s /\ s_reanchorPending s' = s_reanchorPending s /\
    s_recoveryUntil s' = s_recoveryUntil s /\
    (d_Decode d = false -> cfg_Mode (s_cfg s) = ModeGated /\ s_recoveryUntil s <= end_ /\ s_refreshUntil s' <= end_ /\
     d_Audit d = false /\ d_Refresh d = false /\ s_selected s' = s_selected s /\
     exists c, Some c = Some c /\ c_lastEligible c = true /\ c_lastAwake c = false)) as Hfin.
  { intros s2 F1 F2 F3 F4 F5 F6 F7. unfold with_decision. cbn [upd s_candidates s_senders s_reanchorPending s_recoveryUntil s_refreshUntil s_selected d_Decode d_Audit d_Refresh].
    rewrite F2, F3, F4, F5, F6, F7, C1, R1, P1, U1, S1. split; [apply Hl; destruct F1; by constructor|]. do 4 (split; [done|]).
    intros Hd. do 2 (split; [done|]). split; [lia|]. split; [done|]. do 2 (split; [done|]). by exists c. }
  destruct (negb (s_quietActive s1) || _).
  - destruct (randomUnit (s_rng s1)) as [rng unit].
    set (s2 := s1 <| s_quietActive := true |> <| s_quietCandidate := _ |> <| s_rng := rng |> <| s_auditActive := _ |>).
    assert (later s1 s2) as L2 by (by constructor). pose proof (Hfin s2 L2 eq_refl eq_refl eq_refl eq_refl eq_refl eq_refl) as Hf.
    unfold with_decision in *. destruct Hf as (A1 & A2 & A3 & A4 & A5 & A6). do 5 (split; [done|]). intros Hd. destruct (A6 Hd) as (B1 & B2 & B3 & B4 & B5 & B6 & _).
    do 6 (split; [done|]). by exists c.
  - pose proof (Hfin s1 (later_refl s1) eq_refl eq_refl eq_refl eq_refl eq_refl eq_refl) as Hf.
    unfold with_decision in *. destruct Hf as (A1 & A2 & A3 & A4 & A5 & A6). do 5 (split; [done|]). intros Hd. destruct (A6 Hd) as (B1 & B2 & B3 & B4 & B5 & B6 & _).
    do 6 (split; [done|]). by exists c.
Qed.

Lemma Advance_ok cfg start end_ s s' d : stricter_promotion cfg -> inv cfg s -> end_ < 2 ^ 63 -> Advance start end_ s = Some (s', d) ->
  inv cfg s' /\ s_recoveryUntil s <= s_recoveryUntil s' /\
  (d_Decode d = false -> s_lastEnd s' = end_ /\ chosen s' /\ s_refreshUntil s' <= end_ /\ d_Audit d = false /\ d_Refresh d = false /\
     exists c, selected_candidate s' = Some c /\ c_lastEligible c = true /\ c_lastAwake c = false).
Proof.
  intros Hs Hi Hend. unfold Advance. destruct ((start <? 0) || (end_ <=? start) || _) eqn:Ebad.
  - intros E. apply (inj Some) in E. pose proof (discontinuity_ok cfg start end_ s Hi) as (D1 & D2 & _ & D3). cbv zeta in *.
    rewrite E in D1, D2, D3. cbn [fst snd] in *. split; [done|]. split; [done|]. by rewrite D3.
  - rewrite !orb_false_iff, andb_false_iff, negb_false_iff, Z.ltb_ge, Z.leb_gt, Z.eqb_eq in Ebad. destruct Ebad as [[B1 B2] B3].
    intros E. apply bind_Some in E as (s2 & E2 & E). apply (inj Some) in E. destruct Hi as [I1 [I2 I3] I4].
    assert (0 <= s_lastEnd s <= start) as Hst by (destruct B3 as [B3|B3]; [rewrite (I3 B3)|]; lia).
    set (s1 := s <| s_started := true |> <| s_lastEnd := end_ |>) in E2.
    destruct (end_refresh_ok cfg (s_lastEnd s) start s1 I4) as (R1 & [R2 R3 R4 _] & R5).
    assert (s_cfg s1 = cfg /\ s_lastEnd s1 = end_ /\ s_started s1 = true /\ s_recoveryUntil s1 = s_recoveryUntil s) as (F1 & F2 & F3 & F4) by done.
    clearbody s1. revert R1 R2 R3 R4 R5 E2. generalize (end_refresh start s1). intros s1' R1 R2 R3 R4 R5 E2.
    apply (score_block_ok cfg start end_ (s_lastEnd s)) in E2 as (S1 & S2 & S3); [|done|congruence|congruence|congruence|done|done|lia].
    pose proof (decide_block_ok end_ s2) as Hd. rewrite E in Hd. destruct Hd as (D1 & D2 & D3 & D4 & D5 & D6).
    pose proof (lt_recovery _ _ S2) as S4. split; [apply (inv_later cfg s2); [done|done|rewrite D2; apply S1]|]. split; [lia|].
    intros Hdec. destruct (D6 Hdec) as (G1 & G2 & G3 & G4 & G5 & G6 & c & Gc & G7 & G8).
    split; [rewrite (lt_end _ _ D1), (lt_end _ _ S2); congruence|].
    split.
    { intros i Hsel. rewrite G6 in Hsel. unfold watchdogsReady. rewrite (lt_cfg _ _ D1), (lt_end _ _ D1), D2, D3, D4, D5. exact (S3 i Hsel). }
    do 3 (split; [done|]). exists c. split; [|done]. unfold selected_candidate in *. by rewrite G6, D2.
Qed.

(** ** Runs *)

(** The calls a receiver makes: a block, an arrival (found in a decoded block, or in
    one that had been skipped), the start from a checkpoint. *)
Inductive event :=
  | Block (start end_ : Z)
  | Arrival (id : Z) (protocol : list Z) (at_ : Z) (escape : bool)
  | Resume.

Definition step (s : Scheduler) (e : event) : option Scheduler :=
  match e with
  | Block start end_ => fst <$> Advance start end_ s
  | Arrival id protocol at_ escape => observe id protocol at_ escape s
  | Resume => Some (PrepareResume s)
  end.

(** Sample times are int64. *)
Definition event_ok (e : event) : Prop := match e with Block _ end_ => end_ < 2 ^ 63 | _ => True end.

Lemma step_ok cfg s e s' : stricter_promotion cfg -> inv cfg s -> event_ok e -> step s e = Some s' ->
  inv cfg s' /\ s_recoveryUntil s <= s_recoveryUntil s'.
Proof.
  intros Hs Hi He E. destruct e as [start end_|id protocol at_ escape|]; cbn [step] in E.
  - apply fmap_Some in E as ([s2 d] & E & ->). destruct (Advance_ok cfg start end_ s s2 d Hs Hi He E) as (K1 & K2 & _). done.
  - destruct (observe_ok cfg id protocol at_ escape s s' Hs Hi E) as [K1 K2]. split; [done|apply K2].
  - injection E as <-. split; [destruct Hi; by constructor|reflexivity].
Qed.

Lemma run_ok cfg events s s' : stricter_promotion cfg -> inv cfg s -> Forall event_ok events -> foldM step s events = Some s' ->
  inv cfg s' /\ s_recoveryUntil s <= s_recoveryUntil s'.
Proof.
  intros Hs Hi He. revert s Hi. induction He as [|e events Hev He IH]; intros s Hi E; cbn [foldM] in E; [by injection E as <-|].
  destruct (step s e) as [s1|] eqn:E1; [|done]. destruct (step_ok cfg s e s1 Hs Hi Hev E1) as [H1 L1].
  destruct (IH s1 H1 E) as [H2 L2]. split; [done|lia].
Qed.

Lemma New_inv cfg0 s : New cfg0 = Some s -> inv (normalizeConfig cfg0) s.
Proof.
  unfold New. set (cfg := normalizeConfig cfg0). clearbody cfg. repeat (destruct (negb _); [done|]). intros [= <-].
  constructor; [done|cbn; lia|]. cbn [s_candidates s_lastEnd]. apply Forall_fmap, Forall_true. intros c. unfold compose.
  constructor; [|cbn; lia|done]. constructor; [done|]. unfold new_candidate. cbn [c_senders]. by apply Forall_fmap, Forall_true.
Qed.
End Spec.

(** ** Properties *)

(** C8. Decoding is suppressed only behind every gate.  In any run from a new
    scheduler, a block is left undecoded only in gated mode, past every recovery and
    refresh, with no sender waiting to be re-anchored and a watchdog on each; then the
    selected candidate is asleep, has learned every sender, and every sender's
    evidence puts the exact upper confidence bound of its miss rate within the capture
    target. *)
Theorem suppression_is_gated `{GoMath} (cfg0 : Config) s0 events s start end_ s' d (cfg := normalizeConfig cfg0)
  (Hnew : New cfg0 = Some s0) (Hstrict : stricter_promotion cfg) (Hevents : Forall event_ok events)
  (Hrun : foldM step s0 events = Some s) (Hend : end_ < 2 ^ 63)
  (Hadvance : Advance start end_ s = Some (s', d)) (Hsuppressed : d_Decode d = false) :
  cfg_Mode cfg = ModeGated /\ s_recoveryUntil s' <= end_ /\ s_refreshUntil s' <= end_ /\ s_reanchorPending s' = ∅ /\
  Forall (fun r => sender_watched r = true) (s_senders s') /\ d_Audit d = false /\ d_Refresh d = false /\
  exists c, selected_candidate s' = Some c /\ c_lastAwake c = false /\ c_invalid c = false /\
    Forall (fun '(_, m) => m_learned m = true /\ m_events m <> 0 /\
              exists bound, upperMissBound (m_misses m) (m_events m) (fsub fone (Confidence cfg)) = Some bound /\
                fgt bound (fsub fone (CaptureTarget cfg)) = false)
      (c_senders c).
Proof.
  destruct (run_ok cfg events s0 s Hstrict (New_inv cfg0 s0 Hnew) Hevents Hrun) as [Hi _].
  destruct (Advance_ok cfg start end_ s s' d Hstrict Hi Hend Hadvance) as (Hi' & _ & Hd).
  destruct (Hd Hsuppressed) as (D1 & D2 & D3 & D4 & D5 & c & Dc & D6 & D7).
  unfold selected_candidate in Dc. apply bind_Some in Dc as (i & Hsel & Hc). destruct (D2 i Hsel) as (G1 & G2 & G3 & G4 & c' & Hc' & Hq).
  rewrite Hc in Hc'. injection Hc' as <-. destruct Hi' as [I1 _ I3]. rewrite I1 in G1. rewrite D1 in G2.
  do 4 (split; [done|]). split.
  { apply Forall_forall. intros r Hr. unfold watchdogsReady in G4. rewrite forallb_forall in G4. by apply G4, list_elem_of_In. }
  do 2 (split; [done|]). exists c. split; [unfold selected_candidate; by rewrite Hsel|]. split; [done|].
  pose proof (co_evidence _ _ _ (Forall_lookup_1 _ _ _ _ I3 Hc) Hq) as Hqual. unfold qualifies, all_learned in Hqual.
  rewrite !andb_true_iff, negb_true_iff, !forallb_forall in Hqual. destruct Hqual as [[[Q1 Q2] _] Q4]. split; [done|].
  apply Forall_forall. intros [id m] Hm%list_elem_of_In. pose proof (Q2 _ Hm) as L. pose proof (Q4 _ Hm) as E. cbn in L, E. unfold evidence in E.
  rewrite andb_true_iff, negb_true_iff, Z.eqb_neq in E. destruct E as [E1 E2]. destruct (upperMissBound _ _ _) as [bound|]; [|done].
  split; [done|]. split; [done|]. exists bound. split; [done|]. by apply negb_true_iff.
Qed.

(** A small scheduler: one sender every thirty seconds, one candidate. *)
Definition demo_math : GoMath :=
  {| math_Pow := fun _ _ => fone; math_Lgamma := fun x => x; math_Log := fun x => x; math_Log1p := fun x => x;
     math_Exp := fun x => x; int64_unrepresentable := fun _ => - 2 ^ 63 |}.

Definition demo_candidate : CandidateConfig :=
  {| Name := str "demo"; HistoryLimit := 4; MinHistoryLimit := 2; WarmupIntervals := 2; R900Floor := second; OtherFloor := second;
     JitterQuantile := fone; JitterMargin := 0; PreScale := fone; PostScale := fone; AuditFraction := fzero;
     ChangePointScale := fof 2 0; HistoryGrowAfter := 8; WakeScaleStep := fof 5 (-2); MaxWakeScale := fof 4 0 |}.

Definition demo_config : Config :=
  {| cfg_Mode := ModeGated; Senders := [{| ID := 7; Overdue := hour; CountWindow := hour; MinimumCount := 1 |}];
     Candidates := [demo_candidate]; CaptureTarget := fof 1 (-1); Confidence := fof 3 (-2); MinimumAudit := fzero;
     RecoveryDuration := second; RefreshInterval := 2 * hour; RefreshDuration := hour; PromotionMargin := fof 1 (-3);
     PromotionStability := 1; WatchdogHistory := 4; WatchdogMinIntervals := 2; WatchdogWindow := hour;
     WatchdogQuantile := fone; WatchdogMargin := fof 1 (-2); RandomSeed := 1 |}.

(** A block of ten seconds, and in the second of every three an arrival. *)
Definition demo_events (n : Z) : list event :=
  flat_map (fun k => Block (10 * second * k) (10 * second * (k + 1)) ::
    (if k mod 3 =? 1 then [Arrival 7 (str "SCM") (10 * second * k + 5 * second) false] else [])) (seqZ 0 n).


(** What the demo run does, evaluated: the block after [n] blocks and then the calls
    [es]. *)
Definition demo_run (n : Z) (es : list event) (start end_ : Z) : option Decision :=
  s0 ← New demo_config; s1 ← foldM (@step demo_math) s0 (demo_events n); s ← foldM (@step demo_math) s1 es;
  snd <$> @Advance demo_math start end_ s.

Lemma demo_run_Some n es start end_ d : demo_run n es start end_ = Some d ->
  exists s0 s1 s s', New demo_config = Some s0 /\ foldM (@step demo_math) s0 (demo_events n) = Some s1 /\
    foldM (@step demo_math) s1 es = Some s /\ @Advance demo_math start end_ s = Some (s', d).
Proof.
  intros (s0 & E0 & (s1 & E1 & (s & E2 & ([s' d'] & E3 & ->)%fmap_Some)%bind_Some)%bind_Some)%bind_Some. 
  by exists s0, s1, s, s'.
Qed.

Lemma demo_strict : stricter_promotion (normalizeConfig demo_config).
Proof. vm_compute. reflexivity. Qed.

Lemma demo_recovery : RecoveryDuration (normalizeConfig demo_config) = second.
Proof. vm_compute. reflexivity. Qed.

Lemma demo_events_ok n : n <= 1000 -> Forall event_ok (demo_events n).
Proof.
  intros Hn. apply Forall_forall. intros e He%list_elem_of_In. unfold demo_events in He.
  apply in_flat_map in He as (k & Hk%list_elem_of_In%elem_of_seqZ & [<-|He]); [cbn; unfold second; lia|].
  destruct (_ =? 1); [destruct He as [<-|[]]; exact I|destruct He].
Qed.

Lemma suppression_is_gated_witness :
  exists s0 s s' d, New demo_config = Some s0 /\ foldM (@step demo_math) s0 (demo_events 18) = Some s /\
    @Advance demo_math (180 * second) (190 * second) s = Some (s', d) /\ d_Decode d = false /\ s_recoveryUntil s' <= 190 * second.
Proof.
  assert (d_Decode <$> demo_run 18 [] (180 * second) (190 * second) = Some false) as (d & E & Hd)%fmap_Some by (vm_compute; reflexivity).
  destruct (demo_run_Some _ _ _ _ _ E) as (s0 & s & s1 & s' & E0 & E1 & [= <-] & E3).
  exists s0, s, s', d. do 3 (split; [assumption|]). split; [by symmetry|].
  by destruct (@suppression_is_gated demo_math demo_config s0 (demo_events 18) s (180 * second) (190 * second) s' d E0
    demo_strict (demo_events_ok 18 ltac:(lia)) E1 eq_refl E3 (eq_sym Hd)) as (_ & K & _).
Defined.

(** The calls that must make the scheduler fail open, and the time from which
    recovery is counted: a block that does not continue the one before, an arrival
    that goes back in time or changes its protocol, an arrival that the gate had, or
    would have, slept through. *)
Definition recovery_from `{GoMath} (s : Scheduler) (e : event) : option Z :=
  match e with
  | Block start end_ =>
      if (start <? 0) || (end_ <=? start) || (s_started s && negb (start =? s_lastEnd s))
      then Some (if (start <? end_) && (0 <=? end_) then end_ else s_lastEnd s) else None
  | Arrival id protocol at_ escape =>
      r ← find_sender id s;
      if r_seen r && (at_ <? r_lastSeen r) then Some (s_lastEnd s)
      else if (at_ <? 0) || (r_seen r && (at_ =? r_lastSeen r)) then None
      else if negb (bool_decide (r_protocol r = [])) && negb (bool_decide (r_protocol r = protocol)) then Some (s_lastEnd s)
      else
        c ← selected_candidate s;
        if bool_decide (cfg_Mode (s_cfg s) = ModeGated) && (escape || (c_lastEligible c && negb (c_lastAwake c))) then Some (s_lastEnd s) else None
  | Resume => None
  end.

Section Recovery.
Context `{GoMath}.

Lemma observe_candidate_last id protocol at_ re c c' : observe_candidate id protocol at_ re c = Some c' ->
  c_lastEligible c' = c_lastEligible c /\ c_lastAwake c' = c_lastAwake c.
Proof.
  intros (m & _ & E)%bind_Some. destruct re; [by injection E as <-|].
  apply bind_Some in E as ([m2 changed] & _ & E). injection E as <-. by destruct changed.
Qed.

Lemma observe_tail_until at_ s t : t <= s_recoveryUntil s ->
  t <= s_recoveryUntil (chooseCandidate (refreshQualifications at_ s)).
Proof.
  intros Ht. destruct (chooseCandidate_chosen (refreshQualifications at_ s)) as (_ & L & _). pose proof (lt_recovery _ _ L) as Hl.
  assert (s_recoveryUntil (refreshQualifications at_ s) = s_recoveryUntil s) as E by done. lia.
Qed.

Lemma observe_recovers cfg id protocol at_ escape s s' now : inv cfg s ->
  recovery_from s (Arrival id protocol at_ escape) = Some now -> observe id protocol at_ escape s = Some s' ->
  i64 (now + RecoveryDuration cfg) <= s_recoveryUntil s'.
Proof.
  intros Hi Hr E. pose proof (iv_cfg _ _ Hi) as Hcfg. pose proof (enterRecovery_until cfg (s_lastEnd s) s Hcfg) as Hu.
  cbn [recovery_from] in Hr. unfold observe in E. destruct (find_sender id s) as [r|]; [|done]. cbn [mbind option_bind] in Hr.
  destruct (r_seen r && (at_ <? r_lastSeen r)) eqn:E1.
  { injection Hr as <-. apply andb_prop in E1 as [E1 E2]. rewrite E1 in E. rewrite Z.ltb_lt in E2.
    rewrite (proj2 (Z.leb_le at_ _)) in E by lia. rewrite orb_true_r in E. by injection E as <-. }
  destruct ((at_ <? 0) || (r_seen r && (at_ =? r_lastSeen r))) eqn:E2; [done|].
  assert ((at_ <? 0) || (r_seen r && (at_ <=? r_lastSeen r)) = false) as E3.
  { rewrite orb_false_iff in E2 |- *. destruct E2 as [? E2]. split; [done|]. destruct (r_seen r); [|done]. cbn in *.
    apply Z.ltb_ge in E1. apply Z.eqb_neq in E2. apply Z.leb_gt. lia. }
  rewrite E3 in E. destruct (negb _ && negb _); [injection Hr as <-; by injection E as <-|].
  apply bind_Some in Hr as (c & Hc & Hr). apply bind_Some in Hc as (i & Hsel & Hc). set (re := bool_decide (id ∈ _)) in E.
  apply bind_Some in E as (r' & _ & E). apply bind_Some in E as (cands & Hcands & E).
  set (s1 := set_sender id r' s <| s_protocols ::= count_protocol protocol |> <| s_candidates := cands |>) in E.
  set (s2 := if re then _ else s1) in E. set (s3 := s2 <| s_watchdogDirty := true |>) in E.
  destruct (_ && (escape || _)) eqn:Eg in Hr; [|done]. injection Hr as <-. injection E as <-.
  apply observe_tail_until. apply mapM_Some in Hcands. destruct (Forall2_lookup_l _ _ _ _ _ Hcands Hc) as (c' & Hc' & Ho).
  apply observe_candidate_last in Ho as [L1 L2].
  assert (s_lastEnd s3 = s_lastEnd s /\ s_cfg s3 = s_cfg s /\ selected_candidate s3 = Some c') as (F1 & F2 & F3).
  { unfold s3, s2. destruct re; (split; [done|split; [done|]]); unfold selected_candidate;
      replace (s_selected _) with (Some i) by (by rewrite <- Hsel); exact Hc'. }
  clearbody s3. unfold recover_escape. rewrite F3, F2, L1, L2, Eg. rewrite F1.
  apply enterRecovery_until. by rewrite <- Hcfg, <- F2.
Qed.

Lemma step_recovers cfg s e s' now : inv cfg s -> recovery_from s e = Some now -> step s e = Some s' ->
  i64 (now + RecoveryDuration cfg) <= s_recoveryUntil s'.
Proof.
  intros Hi Hr E. destruct e as [start end_|id protocol at_ escape|]; [|by apply (observe_recovers cfg id protocol at_ escape s)|done].
  cbn [step] in E. unfold Advance in E. cbn [recovery_from] in Hr. destruct (_ || _); [|done]. injection Hr as <-.
  cbn [fmap option_fmap option_map] in E. apply (inj Some) in E as <-. apply discontinuity_ok, Hi.
Qed.
End Recovery.

(** C9. Recovery is never cut short.  From a call that must fail open, counted at
    sample time [now], every block that ends before [now] plus the recovery duration is
    decoded, whatever happens in between. *)
Theorem recovery_decodes_everything `{GoMath} (cfg0 : Config) s0 before s1 e now s2 after s start end_ s' d (cfg := normalizeConfig cfg0)
  (Hnew : New cfg0 = Some s0) (Hstrict : stricter_promotion cfg) (Hbefore : Forall event_ok before) (Hafter : Forall event_ok after)
  (Hrun : foldM step s0 before = Some s1) (He : event_ok e) (Hstep : step s1 e = Some s2)
  (Hrecovery : recovery_from s1 e = Some now) (Hnow : 0 <= now + RecoveryDuration cfg < 2 ^ 63)
  (Hrun2 : foldM step s2 after = Some s) (Hadvance : Advance start end_ s = Some (s', d)) (Hend : end_ < now + RecoveryDuration cfg) :
  d_Decode d = true.
Proof.
  destruct (run_ok cfg before s0 s1 Hstrict (New_inv cfg0 s0 Hnew) Hbefore Hrun) as [Hi1 _].
  destruct (step_ok cfg s1 e s2 Hstrict Hi1 He Hstep) as [Hi2 _].
  pose proof (step_recovers cfg s1 e s2 now Hi1 Hrecovery Hstep) as Hu. rewrite i64_id in Hu by lia.
  destruct (run_ok cfg after s2 s Hstrict Hi2 Hafter Hrun2) as [Hi Hmono].
  destruct (Advance_ok cfg start end_ s s' d Hstrict Hi ltac:(lia) Hadvance) as (_ & Hmono' & Hd).
  destruct (d_Decode d) eqn:Ed; [done|]. destruct (Hd eq_refl) as (D1 & D2 & _ & _ & _ & c & Dc & _).
  unfold selected_candidate in Dc. apply bind_Some in Dc as (i & Hsel & _). destruct (D2 i Hsel) as (_ & G2 & _). lia.
Qed.

(** An escaped arrival while the gate sleeps, then a block within the second. *)
Lemma recovery_decodes_everything_witness :
  exists s0 s1 s2 s' d, New demo_config = Some s0 /\ foldM (@step demo_math) s0 (demo_events 18) = Some s1 /\
    @step demo_math s1 (Arrival 7 (str "SCM") (179 * second) true) = Some s2 /\
    @Advance demo_math (180 * second) (180 * second + 1) s2 = Some (s', d) /\ d_Decode d = true.
Proof.
  set (e := Arrival 7 (str "SCM") (179 * second) true).
  assert ((s0 ← New demo_config; s1 ← foldM (@step demo_math) s0 (demo_events 18); @recovery_from demo_math s1 e) = Some (180 * second)) as Hr
    by (vm_compute; reflexivity).
  assert (is_Some (demo_run 18 [e] (180 * second) (180 * second + 1))) as [d E]
    by (apply is_Some_alt; vm_compute; exact I).
  destruct (demo_run_Some _ _ _ _ _ E) as (s0 & s1 & s & s' & E0 & E1 & E2 & E3). rewrite E0 in Hr. cbn [mbind option_bind] in Hr.
  rewrite E1 in Hr. cbn [mbind option_bind] in Hr. apply bind_Some in E2 as (s2 & E2 & [= <-]).
  exists s0, s1, s2, s', d. do 4 (split; [assumption|]).
  assert (0 <= 180 * second + RecoveryDuration (normalizeConfig demo_config) < 2 ^ 63) as Hnow by (rewrite demo_recovery; unfold second; lia).
  assert (180 * second + 1 < 180 * second + RecoveryDuration (normalizeConfig demo_config)) as Hend by (rewrite demo_recovery; unfold second; lia).
  assert (foldM (@step demo_math) s2 [] = Some s2) as I2 by reflexivity.
  exact (@recovery_decodes_everything demo_math demo_config s0 (demo_events 18) s1 e (180 * second) s2 [] s2
    (180 * second) (180 * second + 1) s' d E0 demo_strict (demo_events_ok 18 ltac:(lia)) (List.Forall_nil _) E1 I E2 Hr Hnow I2
    E3 Hend).
Defined.
