(* ===== verification/SchedulerTotal.v ===== *)
(** The duty scheduler never panics: every index it computes lies in its list, whatever
    blocks and arrivals it is given. *)

From stdpp Require Import sorting.
From S2P Require Import Prelude Float64 DutyMath DutyMathSpec Update DutyModel Scheduler FloatSpec SchedulerSpec.

(** ** Totality of the numerical part *)

Section Numbers.
Context `{GoMath}.

Lemma medianFloat_total values : is_Some (medianFloat values).
Proof.
  unfold medianFloat. destruct values as [|v values]; [by eexists|]. assert (0 < len (v :: values)) as Hpos by (unfold len; cbn; lia).
  revert Hpos. generalize (v :: values) as l. intros l Hpos.
  assert (len (merge_sort flt_rel l) = len l) as El by (unfold len; by rewrite (merge_sort_Permutation flt_rel l)). cbv zeta. rewrite El.
  pose proof (Z.div_mod (len l) 2 ltac:(lia)) as Ed. pose proof (Z.mod_pos_bound (len l) 2 ltac:(lia)) as Hmod.
  destruct (Z.eqb_spec (len l mod 2) 0) as [E|E]; [|apply index_lt; lia].
  assert (is_Some (index (merge_sort flt_rel l) (len l / 2 - 1))) as [a ->] by (apply index_lt; lia).
  assert (is_Some (index (merge_sort flt_rel l) (len l / 2))) as [b ->] by (apply index_lt; lia). by eexists.
Qed.

Lemma refine_period_total values period : is_Some (refine_period values period).
Proof.
  unfold refine_period. set (normalized := map _ values). destruct (medianFloat_total normalized) as [center ->]. cbn [mbind option_bind].
  destruct (medianFloat_total (map (fun value => fabs (fsub value center)) normalized)) as [mad ->]. cbn [mbind option_bind]. apply medianFloat_total.
Qed.

Lemma foldM_total {A B} (P : A -> Prop) (f : A -> B -> option A) l : forall a,
  (forall a b, P a -> exists a', f a b = Some a' /\ P a') -> P a -> exists a', foldM f a l = Some a' /\ P a'.
Proof.
  induction l as [|b l IH]; intros a Hf Ha; cbn [foldM]; [by exists a|]. destruct (Hf a b Ha) as (a' & -> & Ha'). by apply IH.
Qed.

Lemma robustPeriod_total history : history <> [] -> exists period residuals, robustPeriod history = Some (period, residuals) /\ len residuals = len history.
Proof.
  intros Hne. unfold robustPeriod. destruct history as [|d history]; [done|]. cbn [head mbind option_bind]. set (values := map f64_of_int _).
  set (base := foldl _ _ _). destruct (foldM_total (fun _ => True) (fun period (_ : Z) => refine_period values period) (seqZ 0 4) (f64_of_int base)) as (period & E & _); [|done|].
  { intros a b _. destruct (refine_period_total values a) as [a' Ea]. by exists a'. }
  unfold foldM in E |- *. rewrite E. cbn [mbind option_bind]. eexists _, _. split; [done|]. unfold len, values. by rewrite !length_map.
Qed.

Lemma last_n_total {A} n (l : list A) : 0 <= n <= len l -> exists k, last_n n l = Some k /\ len k = n.
Proof.
  intros Hn. unfold last_n. rewrite slice_suffix by lia. eexists. split; [done|]. unfold len in *. rewrite length_drop. lia.
Qed.

Lemma compatibleHistory_total history recent extended tolerance : is_Some (compatibleHistory history recent extended tolerance).
Proof.
  unfold compatibleHistory. destruct (Z.ltb_spec recent 2); [by eexists|]. destruct (Z.leb_spec extended recent); [by eexists|].
  destruct (Z.ltb_spec (len history) extended); [by eexists|]. cbn [orb].
  destruct (last_n_total recent history ltac:(lia)) as (h1 & -> & E1). cbn [mbind option_bind].
  destruct (robustPeriod_total h1) as (p1 & rs1 & -> & _); [intros ->; unfold len in E1; cbn in E1; lia|]. cbn [mbind option_bind].
  destruct (last_n_total extended history ltac:(lia)) as (h2 & -> & E2). cbn [mbind option_bind].
  destruct (robustPeriod_total h2) as (p2 & rs2 & -> & _); [intros ->; unfold len in E2; cbn in E2; lia|]. cbn [mbind option_bind].
  by destruct (_ || _).
Qed.

Lemma nextHistoryLimit_bounds current maximum : current < maximum -> current < nextHistoryLimit current maximum <= maximum.
Proof.
  intros Hm. unfold nextHistoryLimit. destruct (filter _ _) as [|candidate l] eqn:E; [lia|].
  assert (candidate ∈ filter (fun candidate => current < candidate) [8; 16; 32; 64; 128]) as Hf by (rewrite E; by left).
  apply list_elem_of_filter in Hf as [Hf _]. lia.
Qed.
End Numbers.

(** ** Models and candidates

    [k] bounds the misses, of which there is at most one for a call. *)

Section Models.
Context `{GoMath} (k : Z).

(** The part of a validated candidate that its indices rest on. *)
Record candidate_cfg_ok (cfg : CandidateConfig) : Prop := {
  cc_min : 2 <= MinHistoryLimit cfg <= HistoryLimit cfg;
  cc_max : HistoryLimit cfg <= 2 ^ 53;
  cc_warmup : 2 <= WarmupIntervals cfg;
  cc_jitter : probability (JitterQuantile cfg) }.

Record model_ok (cfg : CandidateConfig) (m : senderModel) : Prop := {
  mo_history : len (m_history m) <= HistoryLimit cfg;
  mo_effective : 0 <= m_effectiveHistory m <= len (m_history m);
  mo_misses : 0 <= m_misses m <= k }.

Lemma len_push limit l x : 0 <= limit -> len (push_limited limit l x) = Z.min limit (len l + 1).
Proof.
  intros Hl. unfold push_limited. set (pushed := l ++ [x]). assert (len pushed = len l + 1) as Ek by (unfold pushed; by rewrite len_app).
  pose proof (len_nonneg l). destruct (Z.ltb_spec limit (len pushed)); [|lia]. unfold len in *. rewrite length_drop. lia.
Qed.

Lemma score_interval_ok cfg delta m : candidate_cfg_ok cfg -> model_ok cfg m -> let m' := fst (score_interval cfg delta m) in
  m_history m' = m_history m /\ 0 <= m_effectiveHistory m' <= Z.min (HistoryLimit cfg) (len (m_history m) + 1) /\ m_misses m' = m_misses m.
Proof.
  intros [] []. unfold score_interval. pose proof (len_nonneg (m_history m)). cbv zeta. destruct (_ <? int64_of _); (split; [done|]; split; [|done]); cbn [fst]; cbn; lia.
Qed.

Lemma record_arrival_ok protocol at_ cfg m : candidate_cfg_ok cfg -> model_ok cfg m -> model_ok cfg (fst (record_arrival protocol at_ cfg m)).
Proof.
  intros Hc Hm. pose proof Hc as []. unfold record_arrival. set (m1c := if negb _ && _ then _ else (m, false)).
  assert (model_ok cfg (fst m1c)) as H1. { unfold m1c. destruct (_ && _); [|done]. destruct Hm. constructor; unfold len; cbn; lia. }
  clearbody m1c. destruct m1c as [m1 changed]. cbn [fst] in H1. clear m Hm. cbv zeta.
  set (m2 := m1 <| m_protocol := protocol |>). assert (model_ok cfg m2) as H2 by (by destruct H1; constructor). clearbody m2.
  assert (forall m, model_ok cfg m -> model_ok cfg (m <| m_last := at_ |> <| m_seen := true |>)) as Hlast by (intros ? []; by constructor).
  destruct (m_seen m2); [|by apply Hlast]. destruct (0 <? _); [|by apply Hlast].
  set (sc := if m_learned m2 && _ then _ else (m2, false)). set (delta := i64 _) in *.
  assert (m_history (fst sc) = m_history m2 /\ 0 <= m_effectiveHistory (fst sc) <= Z.min (HistoryLimit cfg) (len (m_history m2) + 1) /\ m_misses (fst sc) = m_misses m2) as (E1 & E2 & E3).
  { unfold sc. destruct (_ && _); [by apply score_interval_ok|]. destruct H2. cbn [fst]. split; [done|]. split; [lia|done]. }
  clearbody sc. destruct sc as [m3 drifted]. cbn [fst] in *. apply Hlast. destruct H2. constructor; cbn; rewrite ?E1, ?E3, ?len_push; lia.
Qed.

Lemma model_observe_total protocol at_ cfg scale m : candidate_cfg_ok cfg -> model_ok cfg m ->
  exists m' changed, model_observe protocol at_ cfg scale m = Some (m', changed) /\ model_ok cfg m'.
Proof.
  intros Hc Hm. pose proof Hc as []. unfold model_observe. pose proof (record_arrival_ok protocol at_ cfg m Hc Hm) as H1.
  destruct (record_arrival protocol at_ cfg m) as [m1 changed]. cbn [fst] in H1. destruct (Z.ltb_spec (len (m_history m1)) (WarmupIntervals cfg)); [by exists m1, changed|].
  cbv zeta. set (m2 := if _ =? 0 then _ else m1).
  assert (model_ok cfg m2 /\ 0 < m_effectiveHistory m2) as [H2 P2].
  { unfold m2. destruct H1. destruct (Z.eqb_spec (m_effectiveHistory m1) 0); (split; [constructor|]); cbn; lia. }
  clearbody m2. assert (exists m3, grow_history cfg m2 = Some m3 /\ model_ok cfg m3 /\ 0 < m_effectiveHistory m3) as (m3 & -> & H3 & P3).
  { unfold grow_history. destruct (_ && _) eqn:Eg; [|by exists m2]. apply andb_prop in Eg as [_ Eg%Z.ltb_lt].
    pose proof (nextHistoryLimit_bounds _ _ Eg). set (next := nextHistoryLimit _ _) in *.
    destruct (compatibleHistory_total (m_history m2) (m_effectiveHistory m2) next (maxDuration (m_preWake m2) (m_postWake m2))) as [ok ->].
    cbn [mbind option_bind]. eexists. split; [done|]. destruct H2. destruct ok; (split; [constructor|]); cbn; lia. }
  clear m2 H2 P2. destruct H3. assert (exists m4, fit_window cfg scale protocol at_ m3 = Some m4 /\ model_ok cfg m4) as (m4 & E4 & H4).
  { unfold fit_window. destruct (last_n_total (m_effectiveHistory m3) (m_history m3) ltac:(lia)) as (h & -> & Eh). cbn [mbind option_bind].
    destruct (robustPeriod_total h) as (period & residuals & -> & Er); [intros ->; unfold len in Eh; cbn in Eh; lia|]. cbn [mbind option_bind].
    destruct (durationQuantile_total residuals (JitterQuantile cfg)) as [q ->]; [done|lia|]. cbn [mbind option_bind]. eexists. split; [done|].
    by constructor. }
  cbn [mbind option_bind]. rewrite E4. by exists m4, changed.
Qed.

(** A candidate keeps its configuration and its senders. *)
Record candidate_ok (ids : list Z) (c : candidate) : Prop := {
  ck_cfg : candidate_cfg_ok (c_cfg c);
  ck_ids : map fst (c_senders c) = ids;
  ck_models : Forall (fun im => model_ok (c_cfg c) (snd im)) (c_senders c) }.

Lemma candidate_ok_same ids c c' : candidate_ok ids c -> c_cfg c' = c_cfg c -> c_senders c' = c_senders c -> candidate_ok ids c'.
Proof. intros [] E1 E2. constructor; by rewrite ?E1, ?E2. Qed.

Lemma invalidateSchedule_ok ids c : candidate_ok ids c -> candidate_ok ids (invalidateSchedule c).
Proof. intros Hc. by apply (candidate_ok_same ids c). Qed.

Lemma map_models_ok ids f c : (forall m, model_ok (c_cfg c) m -> model_ok (c_cfg c) (f m)) -> candidate_ok ids c -> candidate_ok ids (map_models f c).
Proof.
  intros Hf [H1 H2 H3]. constructor; [done|..]; unfold map_models; cbn.
  - rewrite map_map, <- H2. apply map_ext. by intros [].
  - apply Forall_fmap. eapply Forall_impl; [exact H3|]. intros [i m]. apply Hf.
Qed.

Lemma model_ok_same cfg m m' : model_ok cfg m -> m_history m' = m_history m -> m_effectiveHistory m' = m_effectiveHistory m ->
  m_misses m' = m_misses m \/ m_misses m' = 0 -> model_ok cfg m'.
Proof. intros [] E1 E2 E3. constructor; rewrite ?E1, ?E2; try done. destruct E3 as [->| ->]; lia. Qed.

Lemma beginNewEpoch_total ids now widen c : candidate_ok ids c -> candidate_ok ids (beginNewEpoch now widen c).
Proof.
  intros Hc. unfold beginNewEpoch. cbv zeta. set (c1 := if widen then _ else _). set (f := fun m : senderModel => _).
  assert (candidate_ok ids c1) as H1 by (unfold c1; destruct widen; by apply (candidate_ok_same ids c)).
  change (candidate_ok ids (invalidateSchedule (map_models f c1 <| c_recoveryUntil := now |>))). apply invalidateSchedule_ok, (candidate_ok_same ids (map_models f c1)); [|done|done]. apply map_models_ok; [|done].
  intros m Hm. unfold f. cbv zeta. destruct (widen && _); (apply (model_ok_same _ m); auto).
Qed.

Lemma tightenAfterRefresh_total ids now c : candidate_ok ids c -> candidate_ok ids (tightenAfterRefresh now c).
Proof.
  intros Hc. unfold tightenAfterRefresh. destruct (fle _ _); [done|]. cbv zeta. apply beginNewEpoch_total, map_models_ok; [|by apply (candidate_ok_same ids c)].
  intros m Hm. destruct (m_learned m); [(apply (model_ok_same _ m); auto)|done].
Qed.

Lemma find_model_total ids id c : candidate_ok ids c -> id ∈ ids -> exists m, find_model id c = Some m /\ model_ok (c_cfg c) m.
Proof.
  intros [_ E Hm] Hin. unfold find_model. rewrite <- E in Hin. clear E. induction Hm as [|[i m] l Hm Hl IH]; [by apply not_elem_of_nil in Hin|].
  cbn [find]. destruct (Z.eqb_spec i id) as [->|Hne]; [by exists m|]. apply IH. cbn in Hin. by apply elem_of_cons in Hin as [->|Hin].
Qed.

Lemma set_model_ok ids id m c : model_ok (c_cfg c) m -> candidate_ok ids c -> candidate_ok ids (set_model id m c).
Proof.
  intros Hm [H1 H2 H3]. constructor; [done|..]; unfold set_model; cbn.
  - rewrite map_map, <- H2. apply map_ext. by intros [].
  - apply Forall_fmap. eapply Forall_impl; [exact H3|]. intros [i m'] ?. cbn. by destruct (i =? id).
Qed.

(** The bounds of the models are defined. *)
Lemma confidence_total cfg alpha m : k < 2 ^ 45 -> model_ok cfg m -> is_Some (confidenceUpperBound alpha m).
Proof.
  intros Hk []. unfold confidenceUpperBound. destruct (_ && _ && _ && _); [by eexists|].
  destruct (upperMissBound_Some (m_misses m) (m_events m) alpha) as [bound ->]; [lia|unfold countable, makeslice_ok; lia|]. by eexists.
Qed.
End Models.

Section Arrivals.
Context `{GoMath}.

Lemma model_ok_more k k' cfg m : k <= k' -> model_ok k cfg m -> model_ok k' cfg m.
Proof. intros Hk []. constructor; [done..|lia]. Qed.

Lemma candidate_ok_more k k' ids c : k <= k' -> candidate_ok k ids c -> candidate_ok k' ids c.
Proof. intros Hk []. constructor; [done..|]. eapply Forall_impl; [done|]. intros im. by apply model_ok_more. Qed.

(** An arrival adds at most one miss. *)
Lemma observe_candidate_total k ids id protocol at_ re c : candidate_ok k ids c -> id ∈ ids ->
  exists c', observe_candidate id protocol at_ re c = Some c' /\ candidate_ok (k + 1) ids c'.
Proof.
  intros Hc0 Hin. unfold observe_candidate. destruct (find_model_total k ids id c Hc0 Hin) as (m & -> & Hm). cbn [mbind option_bind].
  assert (candidate_ok (k + 1) ids c) as Hc by (apply (candidate_ok_more k); [lia|done]).
  assert (model_ok (k + 1) (c_cfg c) m) as Hm1 by (apply (model_ok_more k); [lia|done]).
  destruct re; [eexists; split; [done|]; apply invalidateSchedule_ok, set_model_ok; [apply (model_ok_same _ _ m); auto|done]|].
  set (m1 := if c_lastEligible c then _ else m). assert (model_ok (k + 1) (c_cfg c) m1) as H1.
  { unfold m1. destruct (c_lastEligible c); [|done]. cbv zeta. destruct (negb _); [|apply (model_ok_same _ _ m); auto].
    destruct Hm. constructor; cbn; [done..|]. pose proof (Z.mod_le (m_misses m + 1) (2 ^ 64) ltac:(lia) ltac:(lia)).
    pose proof (Z.mod_pos_bound (m_misses m + 1) (2 ^ 64) ltac:(lia)). unfold u64, wrap_u. lia. }
  destruct (model_observe_total (k + 1) protocol at_ (c_cfg c) (c_wakeScale c) m1 (ck_cfg _ _ _ Hc) H1) as (m2 & changed & -> & H2). cbn [mbind option_bind].
  eexists. split; [done|]. apply invalidateSchedule_ok. pose proof (set_model_ok (k + 1) ids id m2 c H2 Hc) as Hs.
  destruct changed; [by apply beginNewEpoch_total|done].
Qed.
End Arrivals.

(** ** Senders and the scheduler *)

Section Senders.
Context `{GoMath}.

Record config_ok (cfg : Config) : Prop := {
  cg_history : 2 <= WatchdogHistory cfg <= 2 ^ 53;
  cg_intervals : 2 <= WatchdogMinIntervals cfg;
  cg_quantile : probability (WatchdogQuantile cfg) }.

Record sender_ok (cfg : Config) (r : senderRuntime) : Prop := {
  so_start : 0 <= r_countStart r;
  so_gaps : len (r_gaps r) <= WatchdogHistory cfg }.

Lemma leading_below_bounds lower l : 0 <= leading_below lower l <= len l.
Proof. induction l as [|t l IH]; cbn [leading_below]; [done|]. rewrite len_cons. destruct (_ <? _); lia. Qed.

Lemma check_deadline_sender now r w : let r' := fst (check_deadline now (r, w)) in
  r_countStart r' = r_countStart r /\ r_gaps r' = r_gaps r /\ r_cfg r' = r_cfg r.
Proof. unfold check_deadline. cbv zeta. destruct (_ && _); [by destruct (negb _)|]. by destruct (_ && _). Qed.

(** The expiry that the count looks up is one of the observations counted. *)
Lemma check_count_total cfg now r w : sender_ok cfg r ->
  exists r' w', check_count cfg now (r, w) = Some (r', w') /\ sender_ok cfg r' /\ r_cfg r' = r_cfg r.
Proof.
  intros [Hs Hg]. unfold check_count. cbv zeta. set (window := effectiveCountWindow cfg r). set (minimum := effectiveMinimumCount r).
  destruct (r_seen r && (0 <? minimum) && (0 <? window) && (now <? window)); [by eexists _, _|].
  destruct (r_seen r && (0 <? minimum) && (0 <? window)) eqn:E; [|by eexists _, _]. rewrite !andb_true_iff, !Z.ltb_lt in E. destruct E as [[_ Hmin] _].
  set (start := skip_old _ _ _). assert (0 <= start) as Hstart.
  { unfold start, skip_old. cbv zeta. pose proof (len_nonneg (r_observations r)). set (k := if _ <? _ then _ else _).
    pose proof (leading_below_bounds (now - window) (drop (Z.to_nat k) (r_observations r))). unfold k in *. destruct (_ <? _); lia. }
  set (r1 := r <| r_countStart := start |>). destruct (_ && _); [eexists _, _; by split|].
  destruct (Z.ltb_spec (len (r_observations r1) - r_countStart r1) minimum) as [|Hcount]; cbn [negb]; [by eexists _, _|].
  assert (is_Some (index (r_observations r1) (len (r_observations r1) - minimum))) as [expires ->].
  { apply index_lt. unfold r1 in *. cbn in *. lia. }
  cbn [mbind option_bind]. by eexists _, _.
Qed.

Lemma check_senders_total cfg now l : forall w, Forall (sender_ok cfg) l ->
  exists l' w', check_senders cfg now l w = Some (l', w') /\ Forall (sender_ok cfg) l' /\ map r_cfg l' = map r_cfg l.
Proof.
  induction l as [|r l IH]; intros w Hl; cbn [check_senders]; [by eexists _, _|]. apply Forall_cons in Hl as [[Hs Hg] Hl].
  pose proof (check_deadline_sender now r w) as (D1 & D2 & D3). destruct (check_deadline now (r, w)) as [r1 w1]. cbn [fst] in *.
  destruct (check_count_total cfg now r1 w1) as (r2 & w2 & -> & H2 & E2); [constructor; congruence|]. cbn [mbind option_bind].
  destruct (IH w2 Hl) as (l' & w' & -> & H3 & E3). cbn [mbind option_bind]. eexists _, _. split; [done|]. split; [by constructor|]. cbn. congruence.
Qed.

Lemma learnWatchdog_total cfg r : config_ok cfg -> sender_ok cfg r -> exists r', learnWatchdog cfg r = Some r' /\ sender_ok cfg r' /\ r_cfg r' = r_cfg r.
Proof.
  intros [] Hr. unfold learnWatchdog. destruct (_ <? _); [by exists r|].
  destruct (durationQuantile_total (r_gaps r) (WatchdogQuantile cfg)) as [gap ->]; [done|destruct Hr; lia|]. cbn [mbind option_bind]. cbv zeta.
  destruct (_ <=? 0); [by exists r|]. eexists. split; [done|]. split; [|done]. by destruct Hr; constructor.
Qed.

Lemma trim_observations_ok cfg at_ r : sender_ok cfg r -> sender_ok cfg (trim_observations cfg at_ r) /\ r_cfg (trim_observations cfg at_ r) = r_cfg r.
Proof.
  intros [Hs Hg]. unfold trim_observations. cbv zeta. destruct (0 <? _); [|by repeat split]. destruct (0 <? _); [|by repeat split].
  set (first := leading_below _ _). split; [|done]. constructor; cbn; [|done]. destruct (Z.ltb_spec (r_countStart r - first) 0); lia.
Qed.

Lemma observe_sender_total cfg protocol at_ re r : config_ok cfg -> sender_ok cfg r ->
  exists r', observe_sender cfg protocol at_ re r = Some r' /\ sender_ok cfg r' /\ r_cfg r' = r_cfg r.
Proof.
  intros Hc [Hs Hg]. unfold observe_sender. cbv zeta. set (r1 := if r_obligationOpen _ then _ else _).
  assert (r_countStart r1 = r_countStart r /\ r_gaps r1 = r_gaps r /\ r_cfg r1 = r_cfg r) as (E1 & E2 & E3) by (unfold r1; by destruct (r_obligationOpen _)).
  clearbody r1. set (r2 := r1 <| r_observations := _ |>). assert (sender_ok cfg r2 /\ r_cfg r2 = r_cfg r) as [H2 C2].
  { split; [|done]. constructor; cbn; congruence. }
  clearbody r2. assert (exists r3, (if r_seen r && negb re then learnWatchdog cfg (r2 <| r_gaps := push_limited (WatchdogHistory cfg) (r_gaps r2) (i64 (at_ - r_lastSeen r)) |>)
    else Some r2) = Some r3 /\ sender_ok cfg r3 /\ r_cfg r3 = r_cfg r) as (r3 & -> & H3 & C3).
  { destruct (_ && _); [|by exists r2]. destruct H2. set (r3 := r2 <| r_gaps := _ |>).
    destruct (learnWatchdog_total cfg r3) as (r4 & E4 & H4 & C4); [done|constructor; [done|]; unfold r3; cbn; destruct Hc; rewrite len_push; lia|].
    exists r4. split; [done|]. split; [done|]. by rewrite C4. }
  cbn [mbind option_bind]. destruct (trim_observations_ok cfg at_ r3 H3) as [[] E4]. eexists. split; [done|]. rewrite <- C3, <- E4. destruct (0 <? _); by split.
Qed.
End Senders.

Section Total.
Context `{GoMath} (k : Z).

Definition sender_ids (cfg : Config) : list Z := map ID (Senders cfg).

Record scheduler_ok (cfg : Config) (s : Scheduler) : Prop := {
  sk_cfg : s_cfg s = cfg;
  sk_candidates : Forall (candidate_ok k (sender_ids cfg)) (s_candidates s);
  sk_senders : Forall (sender_ok cfg) (s_senders s);
  sk_ids : map (fun r => ID (r_cfg r)) (s_senders s) = sender_ids cfg }.

Lemma scheduler_ok_same cfg s s' : scheduler_ok cfg s -> s_cfg s' = s_cfg s -> s_senders s' = s_senders s ->
  s_candidates s' = s_candidates s -> scheduler_ok cfg s'.
Proof. intros [] E1 E2 E3. constructor; by rewrite ?E1, ?E2, ?E3. Qed.

Lemma scheduler_ok_candidates cfg s s' : scheduler_ok cfg s -> s_cfg s' = s_cfg s -> s_senders s' = s_senders s ->
  Forall (candidate_ok k (sender_ids cfg)) (s_candidates s') -> scheduler_ok cfg s'.
Proof. intros [] E1 E2 E3. constructor; by rewrite ?E1, ?E2. Qed.

(** Mapping the candidates. *)
Lemma map_candidates_ok cfg f l : (forall c, candidate_ok k (sender_ids cfg) c -> candidate_ok k (sender_ids cfg) (f c)) ->
  Forall (candidate_ok k (sender_ids cfg)) l -> Forall (candidate_ok k (sender_ids cfg)) (map f l).
Proof. intros Hf Hl. apply Forall_fmap. eapply Forall_impl; [exact Hl|]. exact Hf. Qed.

Lemma enterRecovery_total cfg now s : scheduler_ok cfg s -> scheduler_ok cfg (enterRecovery now s).
Proof. intros Hs. by apply (scheduler_ok_same cfg s). Qed.

Lemma recoverAtLeast_total cfg skip now s : scheduler_ok cfg s -> scheduler_ok cfg (recoverAtLeast skip now s).
Proof.
  intros Hs. apply (scheduler_ok_candidates cfg s); [done|done|done|]. rewrite recoverAtLeast_candidates. apply map_candidates_ok; [|apply Hs].
  intros c Hc. destruct (fge _ _); [|done].
  assert (candidate_ok k (sender_ids cfg) (c <| c_invalid := true |>)) as H1%(beginNewEpoch_total _ _ now true) by (by apply (candidate_ok_same _ _ c)).
  revert H1. generalize (beginNewEpoch now true (c <| c_invalid := true |>)) as d. intros d Hd. by apply (candidate_ok_same _ _ d).
Qed.

Lemma checkWatchdogs_total cfg now s : scheduler_ok cfg s -> exists s', checkWatchdogs now s = Some s' /\ scheduler_ok cfg s'.
Proof.
  intros [Hcfg Hc Hs Hids]. unfold checkWatchdogs. set (w0 := Build_Watch _ _ _ _ _).
  destruct (check_senders_total cfg now (s_senders s) w0 Hs) as (l & w & E & Hl & El). rewrite Hcfg, E. cbn [mbind option_bind]. cbv zeta.
  set (s1 := s <| s_senders := l |> <| s_watchdogDirty := _ |> <| s_nextWatchdogCheck := _ |> <| s_deadlineDeficits := _ |> <| s_countDeficits := _ |> <| s_protocols := _ |>).
  assert (scheduler_ok cfg s1) as H1 by (constructor; [done|done|done|]; cbn; by rewrite <- Hids, <- !(map_map r_cfg ID), El). clearbody s1.
  destruct (selected_candidate s1); [|by exists s1]. destruct (_ && _); [|by exists s1]. eexists. split; [done|]. by apply enterRecovery_total, recoverAtLeast_total.
Qed.

(** Qualification touches the memos only. *)
Lemma qualify_senders_ok ccfg alpha maxMiss l : Forall (fun im => model_ok k ccfg (snd im)) l ->
  map fst (fst (qualify_senders alpha maxMiss l)) = map fst l /\ Forall (fun im => model_ok k ccfg (snd im)) (fst (qualify_senders alpha maxMiss l)).
Proof.
  induction 1 as [|[id m] l Hm Hl [IH1 IH2]]; cbn [qualify_senders]; [done|]. destruct (m_events m =? 0); [by split; [|constructor]|].
  assert (forall m' b, confidenceUpperBound alpha m = Some (m', b) -> model_ok k ccfg m') as Hmb.
  { intros m' b. unfold confidenceUpperBound. destruct (_ && _ && _ && _); [by intros [= <- <-]|]. intros (bound & _ & [= <- <-])%bind_Some. (apply (model_ok_same _ _ m); auto). }
  destruct (confidenceUpperBound alpha m) as [[m' b]|]; [|by split; [|constructor]]. specialize (Hmb m' b eq_refl). destruct (fgt b maxMiss); [by split; [|constructor]|].
  destruct (qualify_senders alpha maxMiss l) as [l' ok]. cbn in *. split; [congruence|by constructor].
Qed.

Lemma qualifiesAt_ok cfg target ids c : candidate_ok k ids c -> candidate_ok k ids (fst (qualifiesAt cfg target c)).
Proof.
  intros Hc. unfold qualifiesAt. destruct (c_invalid c); [done|].
  assert (candidate_ok k ids (fst (allLearned c))) as H1 by (unfold allLearned; destruct (negb _); [done|by apply (candidate_ok_same _ _ c)]).
  destruct (allLearned c) as [c1 learned]. cbn [fst] in H1. destruct (negb learned || _); [done|].
  pose proof (qualify_senders_ok (c_cfg c1) (fsub fone (Confidence cfg)) (fsub fone target) (c_senders c1) (ck_models _ _ _ H1)) as [Q1 Q2].
  destruct (qualify_senders _ _ _) as [l ok]. cbn [fst] in *. destruct H1. constructor; [done| |done]. cbn. congruence.
Qed.

Lemma refresh_candidate_total cfg now ids c : candidate_ok k ids c -> candidate_ok k ids (refresh_candidate cfg now c).
Proof.
  intros Hc. unfold refresh_candidate. cbv zeta. set (c1 := if c_invalid c && _ then _ else c).
  assert (candidate_ok k ids c1) as H1 by (unfold c1; destruct (_ && _); [by apply (candidate_ok_same _ _ c)|done]). clearbody c1.
  destruct (c_qualified c1).
  - pose proof (qualifiesAt_ok cfg (CaptureTarget cfg) ids c1 H1) as H2. destruct (qualifiesAt cfg _ c1) as [c2 ok]. cbn [fst] in H2.
    destruct ok; [done|by apply (candidate_ok_same _ _ c2)].
  - set (target := fadd _ _). pose proof (qualifiesAt_ok cfg target ids c1 H1) as H2. destruct (qualifiesAt cfg target c1) as [c2 ok]. cbn [fst] in H2.
    destruct ok; cbn [negb]; [|by apply (candidate_ok_same _ _ c2)]. set (c3 := if c_promotionReady c2 =? 0 then _ else c2).
    assert (candidate_ok k ids c3) as H3 by (unfold c3; destruct (_ =? 0); [by apply (candidate_ok_same _ _ c2)|done]). clearbody c3.
    destruct (_ <=? now); [by apply (candidate_ok_same _ _ c3)|done].
Qed.

Lemma refreshQualifications_total cfg now s : scheduler_ok cfg s -> scheduler_ok cfg (refreshQualifications now s).
Proof.
  intros Hs. apply (scheduler_ok_candidates cfg s); [done|done|done|]. apply map_candidates_ok; [|apply Hs]. intros c. apply refresh_candidate_total.
Qed.

Lemma chooseCandidate_total cfg s : scheduler_ok cfg s -> scheduler_ok cfg (chooseCandidate s).
Proof. intros Hs. unfold chooseCandidate. destruct (_ || _); by apply (scheduler_ok_same cfg s). Qed.

Lemma score_candidate_total ids start end_ c : candidate_ok k ids c -> candidate_ok k ids (fst (score_candidate start end_ c)).
Proof.
  intros Hc. assert (c_senders (fst (score_candidate start end_ c)) = c_senders c /\ c_cfg (fst (score_candidate start end_ c)) = c_cfg c) as [E1 E2]; [|by apply (candidate_ok_same _ _ c)].
  unfold score_candidate. assert (c_senders (fst (allLearned c)) = c_senders c /\ c_cfg (fst (allLearned c)) = c_cfg c) as [F1 F2] by (unfold allLearned; by destruct (negb _)).
  destruct (allLearned c) as [c1 el]. cbn [fst] in *. rewrite <- F1, <- F2. clear. destruct el; cbv zeta.
  - set (c2 := c1 <| c_lastEligible := _ |> <| c_lastAwake := _ |>).
    assert (c_senders (fst (candidate_awakeDuring start end_ c2)) = c_senders c1 /\ c_cfg (fst (candidate_awakeDuring start end_ c2)) = c_cfg c1) as [G1 G2].
    { unfold candidate_awakeDuring. cbv zeta. destruct (if c_wakeCacheValid c2 then _ else _); [done|]. by destruct (foldl _ _ _) as [[]]. }
    destruct (candidate_awakeDuring start end_ c2) as [c3 awake]. cbn [fst] in *. by destruct awake.
  - done.
Qed.

(** ** The calls *)

Lemma end_refresh_total cfg start s : scheduler_ok cfg s -> scheduler_ok cfg (end_refresh start s).
Proof.
  intros Hs. unfold end_refresh. destruct (_ && _); [|done]. cbv zeta. destruct (s_selected s) as [i|]; [|by apply (scheduler_ok_same cfg s)].
  set (s1 := s <| s_candidates ::= _ |> <| s_selected := None |>). assert (scheduler_ok cfg s1) as H1; [|by apply (scheduler_ok_same cfg s1)].
  apply (scheduler_ok_candidates cfg s); [done|done|done|]. unfold s1. cbn. apply Forall_alter; [apply Hs|]. intros c _ Hc. by apply tightenAfterRefresh_total.
Qed.

Lemma score_block_total cfg start end_ s : scheduler_ok cfg s -> exists s', score_block start end_ s = Some s' /\ scheduler_ok cfg s'.
Proof.
  intros Hs. unfold score_block. cbv zeta. set (s1 := s <| s_candidates := _ |>). assert (scheduler_ok cfg s1) as H1.
  { apply (scheduler_ok_candidates cfg s); [done|done|done|]. unfold s1. cbn. rewrite map_map. apply map_candidates_ok; [|apply Hs]. intros c. apply score_candidate_total. }
  clearbody s1. assert (exists s2, (if s_watchdogDirty s1 || ((0 <? s_nextWatchdogCheck s1) && (s_nextWatchdogCheck s1 <=? end_)) then checkWatchdogs end_ s1 else Some s1) = Some s2 /\
    scheduler_ok cfg s2) as (s2 & -> & H2) by (destruct (_ || _); [by apply checkWatchdogs_total|by exists s1]).
  cbn [mbind option_bind]. eexists. split; [done|]. apply chooseCandidate_total. destruct (_ || _); [by apply refreshQualifications_total|done].
Qed.

Lemma decide_block_total cfg end_ s : scheduler_ok cfg s -> scheduler_ok cfg (fst (decide_block end_ s)).
Proof.
  intros Hs. unfold decide_block. cbv zeta. set (s1 := schedule_refresh end_ s). assert (scheduler_ok cfg s1) as H1.
  { unfold s1, schedule_refresh. destruct (selected_candidate s); [|done]. destruct (_ <=? end_); [|done]. cbv zeta. set (s2 := if _ =? 0 then _ else s).
    assert (scheduler_ok cfg s2) as H2 by (unfold s2; destruct (_ =? 0); by apply (scheduler_ok_same cfg s)). clearbody s2.
    destruct (_ <=? end_); by apply (scheduler_ok_same cfg s2). }
  clearbody s1. destruct (selected_candidate s1); [|by apply (scheduler_ok_same cfg s1)]. destruct (end_ <? _); [by apply (scheduler_ok_same cfg s1)|].
  destruct (_ && _); [|by apply (scheduler_ok_same cfg s1)]. destruct (_ || _); [|by apply (scheduler_ok_same cfg s1)].
  destruct (randomUnit (s_rng s1)) as [rng unit]. by apply (scheduler_ok_same cfg s1).
Qed.

Lemma resetLearning_total cfg s : scheduler_ok cfg s -> scheduler_ok cfg (resetLearning s).
Proof.
  intros [H1 H2 H3 H4]. constructor; [done|..]; unfold resetLearning; cbn.
  - apply map_candidates_ok; [|done]. intros c Hc. unfold reset_candidate. apply invalidateSchedule_ok, map_models_ok; [|by apply (candidate_ok_same _ _ c)].
    intros m []. destruct Hc as [[] _ _]. constructor; unfold len; cbn; lia.
  - apply Forall_fmap. eapply Forall_impl; [exact H3|]. intros r []. constructor; unfold len; cbn; pose proof (len_nonneg (r_gaps r)); lia.
  - by rewrite map_map.
Qed.

Lemma with_decision_total cfg d s : scheduler_ok cfg s -> scheduler_ok cfg (fst (with_decision d s)).
Proof. intros Hs. by apply (scheduler_ok_same cfg s). Qed.

Lemma discontinuity_total cfg start end_ s : scheduler_ok cfg s -> scheduler_ok cfg (fst (discontinuity start end_ s)).
Proof.
  intros Hs. unfold discontinuity. cbv zeta. apply with_decision_total, enterRecovery_total, resetLearning_total. by apply (scheduler_ok_same cfg s).
Qed.

Lemma Advance_total cfg start end_ s : scheduler_ok cfg s -> exists s' d, Advance start end_ s = Some (s', d) /\ scheduler_ok cfg s'.
Proof.
  intros Hs. unfold Advance. destruct (_ || _).
  - pose proof (discontinuity_total cfg start end_ s Hs). destruct (discontinuity start end_ s) as [s' d]. by exists s', d.
  - set (s1 := s <| s_started := true |> <| s_lastEnd := end_ |>). assert (scheduler_ok cfg s1) as H1 by (by apply (scheduler_ok_same cfg s)). clearbody s1.
    destruct (score_block_total cfg start end_ (end_refresh start s1) (end_refresh_total cfg start s1 H1)) as (s2 & -> & H2). cbn [mbind option_bind].
    pose proof (decide_block_total cfg end_ s2 H2). destruct (decide_block end_ s2) as [s' d]. by exists s', d.
Qed.

End Total.

Section Calls.
Context `{GoMath}.

Lemma mapM_total {A} (P Q : A -> Prop) (f : A -> option A) l : (forall x, P x -> exists y, f x = Some y /\ Q y) -> Forall P l ->
  exists l', mapM f l = Some l' /\ Forall Q l'.
Proof.
  intros Hf Hl. assert (exists l', Forall2 (fun x y => f x = Some y) l l' /\ Forall Q l') as (l' & E & Hk).
  { induction Hl as [|x l Hx Hl (l' & E & Hk)]; [by exists []|]. destruct (Hf x Hx) as (y & Ey & Hy). exists (y :: l'). by split; constructor. }
  exists l'. split; [by apply mapM_Some|done].
Qed.

Lemma scheduler_ok_more k k' cfg s : k <= k' -> scheduler_ok k cfg s -> scheduler_ok k' cfg s.
Proof. intros Hk []. constructor; [done| |done..]. eapply Forall_impl; [done|]. intros c. by apply candidate_ok_more. Qed.

Lemma observe_total k cfg id protocol at_ escape s : config_ok cfg -> scheduler_ok k cfg s -> exists s', observe id protocol at_ escape s = Some s' /\ scheduler_ok (k + 1) cfg s'.
Proof.
  intros Hcfg Hs0. assert (scheduler_ok (k + 1) cfg s) as Hs by (apply (scheduler_ok_more k); [lia|done]). unfold observe. destruct (find_sender id s) as [r|] eqn:Ef; [|by exists s]. apply find_some in Ef as [Hin Hid%Z.eqb_eq].
  destruct ((at_ <? 0) || _); [eexists; split; [done|]; destruct (_ && _); [by apply enterRecovery_total|done]|].
  destruct (negb _ && negb _); [eexists; split; [done|]; by apply enterRecovery_total|]. cbv zeta. set (re := bool_decide _).
  pose proof Hs as [K1 K2 K3 K4]. rewrite K1. assert (sender_ok cfg r) as Hr by (rewrite Forall_forall in K3; by apply K3, list_elem_of_In).
  destruct (observe_sender_total cfg protocol at_ re r Hcfg Hr) as (r' & -> & Hr' & Er'). cbn [mbind option_bind].
  assert (id ∈ sender_ids cfg) as Hids. { rewrite <- K4, <- Hid. apply list_elem_of_In, in_map_iff. by exists r. }
  destruct (mapM_total (candidate_ok k (sender_ids cfg)) (candidate_ok (k + 1) (sender_ids cfg)) (observe_candidate id protocol at_ re) (s_candidates s)) as (l & -> & Hl); [intros c Hc; by apply observe_candidate_total|apply Hs0|].
  cbn [mbind option_bind]. set (s1 := set_sender id r' s <| s_protocols ::= _ |> <| s_candidates := l |>).
  assert (scheduler_ok (k + 1) cfg s1) as H1.
  { constructor; [done|done|..]; unfold s1, set_sender; cbn.
    - apply Forall_fmap. eapply Forall_impl; [exact K3|]. intros r0 Hr0. unfold compose. by destruct (_ =? id).
    - rewrite map_map, <- K4. apply map_ext. intros r0. destruct (Z.eqb_spec (ID (r_cfg r0)) id) as [->|]; [|done]. by rewrite Er'. }
  clearbody s1. set (s2 := if re then _ else s1). assert (scheduler_ok (k + 1) cfg s2) as H2 by (unfold s2; destruct re; by apply (scheduler_ok_same (k + 1) cfg s1)). clearbody s2.
  eexists. split; [done|]. apply chooseCandidate_total, refreshQualifications_total. set (s3 := s2 <| s_watchdogDirty := true |>).
  assert (scheduler_ok (k + 1) cfg s3) as H3 by (by apply (scheduler_ok_same (k + 1) cfg s2)). clearbody s3. unfold recover_escape. destruct (selected_candidate s3); [|done].
  destruct (_ && _); [|done]. by apply enterRecovery_total, recoverAtLeast_total.
Qed.

Lemma step_total k cfg s e : config_ok cfg -> scheduler_ok k cfg s -> exists s', step s e = Some s' /\ scheduler_ok (k + 1) cfg s'.
Proof.
  intros Hcfg Hs0. assert (scheduler_ok (k + 1) cfg s) as Hs by (apply (scheduler_ok_more k); [lia|done]).
  destruct e as [start end_|id protocol at_ escape|]; cbn [step].
  - destruct (Advance_total (k + 1) cfg start end_ s Hs) as (s' & d & -> & Hs'). by exists s'.
  - by apply observe_total.
  - eexists. split; [done|]. by apply (scheduler_ok_same (k + 1) cfg s).
Qed.

(** ** Construction *)

(** The limits a configuration names are integers that float64 counts exactly, and its
    quantiles are binary64 numbers. *)
Record config_in_range (cfg : Config) : Prop := {
  cr_watchdog : WatchdogHistory cfg <= 2 ^ 53;
  cr_quantile : valid_binary 53 1024 (WatchdogQuantile cfg) = true;
  cr_candidates : Forall (fun c => HistoryLimit c <= 2 ^ 53 /\ valid_binary 53 1024 (JitterQuantile c) = true) (Candidates cfg) }.

Lemma normalize_in_range cfg : config_in_range cfg -> config_in_range (normalizeConfig cfg).
Proof.
  intros []. constructor; cbn.
  - unfold or_default. destruct (_ =? 0); [lia|done].
  - unfold or_fdefault. destruct (SFeqb _ _); [by vm_compute|done].
  - by apply Forall_fmap.
Qed.

Lemma valid_config_ok cfg : valid_config cfg = true -> config_in_range cfg -> config_ok cfg.
Proof.
  intros Hv []. unfold valid_config in Hv. rewrite !andb_true_iff in Hv. destruct Hv as [[[_ Hw] _] _].
  rewrite negb_true_iff, !orb_false_iff, !negb_false_iff, !Z.ltb_ge in Hw. destruct Hw as [[[[[[[[? ?] ?] ?] Hf] Hz] H1] _] _].
  constructor; [lia|done|]. by constructor.
Qed.

Lemma valid_candidate_ok cfg audit : validateCandidate cfg audit = true -> HistoryLimit cfg <= 2 ^ 53 -> valid_binary 53 1024 (JitterQuantile cfg) = true ->
  candidate_cfg_ok cfg.
Proof.
  intros Hv Hl Hb. unfold validateCandidate in Hv. rewrite !andb_true_iff in Hv. destruct Hv as [[[[Hh _] Hq] _] _].
  rewrite negb_true_iff, !orb_false_iff, !Z.ltb_ge in Hh. destruct Hh as [[[[[_ ?] ?] ?] ?] ?].
  rewrite negb_true_iff, !orb_false_iff, !negb_false_iff in Hq. destruct Hq as [[[[[[Hf _] _] Hz] Hone] _] _]. constructor; [lia|done|done|]. by constructor.
Qed.

Lemma New_total cfg0 s : New cfg0 = Some s -> config_in_range cfg0 -> config_ok (normalizeConfig cfg0) /\ scheduler_ok 0 (normalizeConfig cfg0) s.
Proof.
  intros E Hr%normalize_in_range. revert E Hr. unfold New. generalize (normalizeConfig cfg0) as cfg. intros cfg E Hr.
  destruct (valid_config cfg) eqn:Ev; [|done]. cbn [negb] in E. pose proof (valid_config_ok cfg Ev Hr) as Hok. split; [done|].
  destruct (negb (forallb _ _ && _)); [done|]. destruct (forallb (fun c => validateCandidate c (MinimumAudit cfg)) (Candidates cfg)) eqn:Ec; [|done]. cbn [negb] in E.
  injection E as <-. rewrite forallb_forall in Ec. constructor; cbn.
  - done.
  - apply Forall_fmap, Forall_forall. intros c Hc. unfold compose. pose proof (cr_candidates _ Hr) as Hf. rewrite Forall_forall in Hf. destruct (Hf c Hc) as [F1 F2].
    pose proof (valid_candidate_ok c (MinimumAudit cfg) (Ec c ltac:(by apply list_elem_of_In)) F1 F2) as Hcc. constructor; [done|..]; cbn.
    + rewrite map_map. done.
    + apply Forall_fmap, Forall_true. intros sc. destruct Hcc. constructor; unfold len; cbn; lia.
  - apply Forall_fmap, Forall_true. intros sc. destruct Hok. constructor; unfold len; cbn; lia.
  - rewrite map_map. done.
Qed.

Lemma run_total cfg events : forall k s, config_ok cfg -> scheduler_ok k cfg s -> exists s', foldM step s events = Some s' /\ scheduler_ok (k + len events) cfg s'.
Proof.
  induction events as [|e events IH]; intros k s Hcfg Hs; cbn [foldM]; [exists s; split; [done|]; apply (scheduler_ok_more k); [unfold len; cbn; lia|done]|].
  destruct (step_total k cfg s e Hcfg Hs) as (s1 & -> & H1). destruct (IH (k + 1) s1 Hcfg H1) as (s' & E & H2).
  exists s'. split; [exact E|]. rewrite len_cons. apply (scheduler_ok_more (k + 1 + len events)); [lia|exact H2].
Qed.
End Calls.

(** ** The property *)

(** C7. The scheduler never panics and its memory is bounded.  Whatever blocks and
    arrivals are given to a new scheduler, in any order and at any times, every call
    returns: the ranks of the quantiles, the windows into the histories, the expiry of a
    count and the models of a sender are all found.  After any run every history is within
    its candidate's limit, with the effective part inside it, and every record of gaps is
    within the watchdog's; and within [2 ^ 45] calls the confidence bound of every model is
    defined, as the slice of its terms can be made. *)
Theorem scheduler_never_panics `{GoMath} (cfg0 : Config) s0 (events : list event)
  (Hnew : New cfg0 = Some s0) (Hrange : config_in_range cfg0) :
  exists s, foldM step s0 events = Some s /\
    Forall (fun c => Forall (fun '(_, m) => len (m_history m) <= HistoryLimit (c_cfg c) /\ 0 <= m_effectiveHistory m <= len (m_history m)) (c_senders c))
      (s_candidates s) /\
    Forall (fun r => len (r_gaps r) <= WatchdogHistory (normalizeConfig cfg0)) (s_senders s) /\
    map (fun r => ID (r_cfg r)) (s_senders s) = map ID (Senders cfg0) /\
    (len events < 2 ^ 45 -> Forall (fun c => Forall (fun '(_, m) => forall alpha, is_Some (confidenceUpperBound alpha m)) (c_senders c)) (s_candidates s)).
Proof.
  destruct (New_total cfg0 s0 Hnew Hrange) as [Hcfg Hs]. destruct (run_total _ events 0 s0 Hcfg Hs) as (s & E & [_ H2 H3 H4]).
  exists s. split; [done|]. split; [|split; [|split; [done|]]].
  - eapply Forall_impl; [exact H2|]. intros c [_ _ Hm]. eapply Forall_impl; [exact Hm|]. by intros [i m] [].
  - eapply Forall_impl; [exact H3|]. by intros r [].
  - intros Hb. eapply Forall_impl; [exact H2|]. intros c [_ _ Hm]. eapply Forall_impl; [exact Hm|]. intros [i m] Hok alpha.
    by apply (confidence_total (0 + len events) (c_cfg c)).
Qed.

(** Blocks out of order, arrivals in the past, of an unknown sender, of another protocol. *)
Definition wild_events : list event :=
  demo_events 18 ++ [Block (-5) 3; Arrival 7 (str "SCM") 1 true; Arrival 8 [] 5 false; Arrival 7 (str "IDM") (200 * second) false; Block 7 7; Resume;
    Arrival 7 (str "SCM") (300 * second) true; Block 0 (2 ^ 70)].

Lemma scheduler_never_panics_witness :
  exists s0 s, New demo_config = Some s0 /\ foldM (@step demo_math) s0 wild_events = Some s /\
    Forall (fun r => len (r_gaps r) <= 4) (s_senders s).
Proof.
  assert (is_Some (New demo_config)) as [s0 E0] by (apply is_Some_alt; vm_compute; exact I).
  assert (config_in_range demo_config) as Hr by (constructor; [cbn; lia|by vm_compute|constructor; [split; [cbn; lia|by vm_compute]|constructor]]).
  destruct (@scheduler_never_panics demo_math demo_config s0 wild_events E0 Hr) as (s & E & _ & Hg & _). by exists s0, s.
Defined.
