(* ===== verification/DutyState.v ===== *)
(** The checkpoint of the duty scheduler (src/internal/dutyscheduler/state.go): the
    exported state, and the three restores of a complete state.  The JSON encoding and
    the hash of the configuration are parameters. *)

From stdpp Require Import sorting.
From S2P Require Import Prelude Float64 DutyMath Update DutyModel Scheduler.

(** ** Results *)

Inductive state_error :=
  | ErrStateSchemaMismatch (schema : list Z)
  | ErrStateConfigurationMismatch
  | ErrFingerprint
  | ErrNew
  | ErrInvalid (what : list Z).

Definition Result (A : Type) : Type := state_error + A.
#[export] Instance Result_ret : MRet Result := fun A x => inr x.
#[export] Instance Result_bind : MBind Result := fun A B f r => match r with inl e => inl e | inr x => f x end.

Definition reject (bad : bool) (what : string) : Result unit := if bad then inl (ErrInvalid (str what)) else inr tt.
Definition of_option {A} (e : state_error) (o : option A) : Result A := match o with Some x => inr x | None => inl e end.

(** [foldM] for results. *)
Fixpoint foldR {A B} (f : B -> A -> Result B) (b : B) (l : list A) : Result B :=
  match l with [] => inr b | a :: l => b ← f b a; foldR f b l end.

(** ** The exported state *)

Record SenderState := {
  ss_ID : Z; ss_Protocol : list Z; ss_LastSeenNS : Z; ss_Seen : bool; ss_ObservationsNS : list Z; ss_Total : Z;
  ss_OverdueOpen : bool; ss_CountOpen : bool; ss_DeadlineDeficits : Z; ss_CountDeficits : Z; ss_GapsNS : list Z;
  ss_LearnedOverdueNS : Z; ss_LearnedMinimumCount : Z; ss_WatchdogLearned : bool; ss_ObligationDueNS : Z;
  ss_ObligationOpen : bool; ss_ObligationsOpened : Z; ss_ObligationsClosed : Z; ss_ObligationDeficits : Z }.

Record ProtocolState := {
  ps_Name : list Z; ps_Observations : Z; ps_DeadlineDeficits : Z; ps_CountDeficits : Z; ps_ObligationDeficits : Z }.

Record SenderModelState := {
  ms_ID : Z; ms_Protocol : list Z; ms_HistoryNS : list Z; ms_LastNS : Z; ms_Seen : bool; ms_Learned : bool; ms_PeriodNS : Z;
  ms_AnchorNS : Z; ms_PreWakeNS : Z; ms_PostWakeNS : Z; ms_Events : Z; ms_Misses : Z; ms_EffectiveHistory : Z;
  ms_StableIntervals : Z; ms_ChangePoints : Z }.

Record CandidateState := {
  cs_Name : list Z; cs_LastEligible : bool; cs_LastAwake : bool; cs_TotalDurationNS : Z; cs_TotalAwakeNS : Z;
  cs_EligibleDurationNS : Z; cs_AwakeDurationNS : Z; cs_Invalid : bool; cs_Qualified : bool; cs_Epoch : Z; cs_WakeScale : f64;
  cs_PromotionReadyNS : Z; cs_RecoveryUntilNS : Z; cs_Senders : list SenderModelState }.

Record State := {
  st_Schema : list Z; st_ConfigSHA256 : list Z; st_LastEndNS : Z; st_Started : bool; st_RecoveryUntilNS : Z;
  st_DeadlineDeficits : Z; st_CountDeficits : Z; st_Discontinuities : Z; st_RefreshUntilNS : Z; st_NextRefreshNS : Z;
  st_Refreshes : Z; st_RNG : Z; st_Senders : list SenderState; st_Candidates : list CandidateState; st_Protocols : list ProtocolState }.

Definition StateSchema : list Z := str "rtlamr-duty-scheduler-state-v2".

(** [json.Marshal] of a configuration, and [sha256.Sum256]. *)
Class Fingerprint := { json_config : Config -> option (list Z); sha256 : list Z -> list Z }.

(** [hex.EncodeToString] *)
Definition hex_digit (d : Z) : Z := if d <? 10 then 48 + d else 87 + d.
Definition EncodeToString (bytes : list Z) : list Z := flat_map (fun b => [hex_digit (b / 16); hex_digit (b mod 16)]) bytes.

(** The order of [sort.Strings]: by bytes, a prefix first. *)
Fixpoint string_leb (a b : list Z) : bool :=
  match a, b with
  | [], _ => true
  | _, [] => false
  | x :: a, y :: b => (x <? y) || ((x =? y) && string_leb a b)
  end.
Definition string_le (a b : list Z) : Prop := string_leb a b = true.
#[export] Instance string_le_dec : RelDecision string_le := fun a b => bool_eq_dec (string_leb a b) true.

Section State.
Context `{GoMath} `{Fingerprint}.

Definition configSHA256 (cfg : Config) : option (list Z) := contents ← json_config cfg; Some (EncodeToString (sha256 contents)).

Definition sortedSenderIDs (s : Scheduler) : list Z := merge_sort Z.le (map (fun r => ID (r_cfg r)) (s_senders s)).

Definition export_sender (id : Z) (r : senderRuntime) : SenderState :=
  {| ss_ID := id; ss_Protocol := r_protocol r; ss_LastSeenNS := r_lastSeen r; ss_Seen := r_seen r;
     ss_ObservationsNS := r_observations r; ss_Total := r_total r; ss_OverdueOpen := r_overdueOpen r; ss_CountOpen := r_countOpen r;
     ss_DeadlineDeficits := r_deadlineDeficits r; ss_CountDeficits := r_countDeficits r; ss_GapsNS := r_gaps r;
     ss_LearnedOverdueNS := r_learnedOverdue r; ss_LearnedMinimumCount := r_learnedMinimumCount r;
     ss_WatchdogLearned := r_watchdogLearned r; ss_ObligationDueNS := r_obligationDue r; ss_ObligationOpen := r_obligationOpen r;
     ss_ObligationsOpened := r_obligationsOpened r; ss_ObligationsClosed := r_obligationsClosed r;
     ss_ObligationDeficits := r_obligationDeficits r |}.

Definition export_protocol (name : list Z) (p : protocolRuntime) : ProtocolState :=
  {| ps_Name := name; ps_Observations := p_observations p; ps_DeadlineDeficits := p_deadlineDeficits p;
     ps_CountDeficits := p_countDeficits p; ps_ObligationDeficits := p_obligationDeficits p |}.

Definition export_model (id : Z) (m : senderModel) : SenderModelState :=
  {| ms_ID := id; ms_Protocol := m_protocol m; ms_HistoryNS := m_history m; ms_LastNS := m_last m; ms_Seen := m_seen m;
     ms_Learned := m_learned m; ms_PeriodNS := m_period m; ms_AnchorNS := m_anchor m; ms_PreWakeNS := m_preWake m;
     ms_PostWakeNS := m_postWake m; ms_Events := m_events m; ms_Misses := m_misses m; ms_EffectiveHistory := m_effectiveHistory m;
     ms_StableIntervals := m_stableIntervals m; ms_ChangePoints := m_changePoints m |}.

Definition export_candidate (ids : list Z) (c : candidate) : option CandidateState :=
  models ← mapM (fun id => m ← find_model id c; Some (export_model id m)) ids;
  Some {| cs_Name := Name (c_cfg c); cs_LastEligible := c_lastEligible c; cs_LastAwake := c_lastAwake c;
          cs_TotalDurationNS := c_totalDuration c; cs_TotalAwakeNS := c_totalAwake c;
          cs_EligibleDurationNS := c_eligibleDuration c; cs_AwakeDurationNS := c_awakeDuration c; cs_Invalid := c_invalid c;
          cs_Qualified := c_qualified c; cs_Epoch := c_epoch c; cs_WakeScale := c_wakeScale c;
          cs_PromotionReadyNS := c_promotionReady c; cs_RecoveryUntilNS := c_recoveryUntil c; cs_Senders := models |}.

Definition export_protocols (protocols : gmap (list Z) protocolRuntime) : option (list ProtocolState) :=
  mapM (fun name => p ← protocols !! name; Some (export_protocol name p)) (merge_sort string_le (map fst (map_to_list protocols))).

(** [ExportState]: [None] is a run-time panic. *)
Definition ExportState (s : Scheduler) : option (Result State) :=
  match configSHA256 (s_cfg s) with
  | None => Some (inl ErrFingerprint)
  | Some fingerprint =>
      let ids := sortedSenderIDs s in
      senders ← mapM (fun id => r ← find_sender id s; Some (export_sender id r)) ids;
      protocols ← export_protocols (s_protocols s);
      candidates ← mapM (export_candidate ids) (s_candidates s);
      Some (inr {| st_Schema := StateSchema; st_ConfigSHA256 := fingerprint; st_LastEndNS := s_lastEnd s; st_Started := s_started s;
                   st_RecoveryUntilNS := s_recoveryUntil s; st_DeadlineDeficits := s_deadlineDeficits s;
                   st_CountDeficits := s_countDeficits s; st_Discontinuities := s_discontinuities s;
                   st_RefreshUntilNS := s_refreshUntil s; st_NextRefreshNS := s_nextRefresh s; st_Refreshes := s_refreshes s;
                   st_RNG := s_rng s; st_Senders := senders; st_Candidates := candidates; st_Protocols := protocols |})
  end.

(** ** applyState *)

(** The clock of the state is not one of a scheduler. *)
Definition bad_clock (st : State) : bool :=
  (st_LastEndNS st <? 0) || (st_RecoveryUntilNS st <? 0) || (st_RefreshUntilNS st <? 0) || (st_NextRefreshNS st <? 0) ||
  (negb (st_Started st) && negb (st_LastEndNS st =? 0)) || (st_RNG st =? 0).

Definition bad_sender_clock (lastEnd : Z) (ss : SenderState) : bool :=
  (ss_LastSeenNS ss <? 0) || (ss_Seen ss && (lastEnd <? ss_LastSeenNS ss)) ||
  (negb (ss_Seen ss) && (negb (ss_LastSeenNS ss =? 0) || negb (bool_decide (ss_Protocol ss = [])))).

Definition bad_learned (ss : SenderState) : bool :=
  (ss_LearnedOverdueNS ss <? 0) || (ss_LearnedMinimumCount ss <? 0) || (ss_ObligationDueNS ss <? 0) ||
  (ss_ObligationsOpened ss <? ss_ObligationsClosed ss) || (ss_ObligationsOpened ss <? ss_ObligationDeficits ss).

(** One observation: later than the one before, and not after the end. *)
Definition restore_observation (lastEnd : Z) (acc : Z * list Z) (observed : Z) : Result (Z * list Z) :=
  let '(previous, observations) := acc in
  _ ← reject ((observed <? 0) || (observed <=? previous) || (lastEnd <? observed)) "dutyscheduler: invalid sender observations";
  inr (observed, observations ++ [observed]).

Definition restore_gap (limit : Z) (gaps : list Z) (gap : Z) : Result (list Z) :=
  _ ← reject ((gap <=? 0) || (limit <=? len gaps)) "dutyscheduler: invalid sender gap history";
  inr (gaps ++ [gap]).

Definition restore_sender (cfg : Config) (lastEnd : Z) (ss : SenderState) (r : senderRuntime) : Result senderRuntime :=
  _ ← reject (bad_sender_clock lastEnd ss) "dutyscheduler: invalid sender clock";
  _ ← reject (ss_Total ss <? len (ss_ObservationsNS ss)) "dutyscheduler: invalid sender observation total";
  '(_, observations) ← foldR (restore_observation lastEnd) (-1, r_observations r) (ss_ObservationsNS ss);
  _ ← reject (bad_learned ss) "dutyscheduler: invalid learned sender state";
  gaps ← foldR (restore_gap (WatchdogHistory cfg)) (r_gaps r) (ss_GapsNS ss);
  inr (r <| r_observations := observations |> <| r_protocol := ss_Protocol ss |> <| r_lastSeen := ss_LastSeenNS ss |>
         <| r_seen := ss_Seen ss |> <| r_total := ss_Total ss |> <| r_overdueOpen := ss_OverdueOpen ss |>
         <| r_countOpen := ss_CountOpen ss |> <| r_deadlineDeficits := ss_DeadlineDeficits ss |>
         <| r_countDeficits := ss_CountDeficits ss |> <| r_gaps := gaps |> <| r_learnedOverdue := ss_LearnedOverdueNS ss |>
         <| r_learnedMinimumCount := ss_LearnedMinimumCount ss |> <| r_watchdogLearned := ss_WatchdogLearned ss |>
         <| r_obligationDue := ss_ObligationDueNS ss |> <| r_obligationOpen := ss_ObligationOpen ss |>
         <| r_obligationsOpened := ss_ObligationsOpened ss |> <| r_obligationsClosed := ss_ObligationsClosed ss |>
         <| r_obligationDeficits := ss_ObligationDeficits ss |>).

(** The senders, with the ids already seen. *)
Definition apply_sender (lastEnd : Z) (acc : gset Z * Scheduler) (ss : SenderState) : Result (gset Z * Scheduler) :=
  let '(seen, s) := acc in
  r ← of_option (ErrInvalid (str "dutyscheduler: invalid state sender inventory")) (find_sender (ss_ID ss) s);
  _ ← reject (bool_decide (ss_ID ss ∈ seen)) "dutyscheduler: invalid state sender inventory";
  r ← restore_sender (s_cfg s) lastEnd ss r;
  inr ({[ss_ID ss]} ∪ seen, set_sender (ss_ID ss) r s).

Definition apply_protocol (acc : gset (list Z) * gmap (list Z) protocolRuntime) (p : ProtocolState)
  : Result (gset (list Z) * gmap (list Z) protocolRuntime) :=
  let '(seen, protocols) := acc in
  _ ← reject (bool_decide (ps_Name p = []) || bool_decide (ps_Name p ∈ seen)) "dutyscheduler: invalid protocol state";
  inr ({[ps_Name p]} ∪ seen,
       <[ps_Name p := {| p_observations := ps_Observations p; p_deadlineDeficits := ps_DeadlineDeficits p;
                         p_countDeficits := ps_CountDeficits p; p_obligationDeficits := ps_ObligationDeficits p |}]> protocols).

Definition validDurations (total awake eligible eligibleAwake : Z) : bool :=
  (0 <=? total) && (0 <=? awake) && (0 <=? eligible) && (0 <=? eligibleAwake) && (awake <=? total) && (eligible <=? total) &&
  (eligibleAwake <=? eligible).

Definition validateModelState (ms : SenderModelState) (cfg : CandidateConfig) (lastEnd : Z) : Result unit :=
  _ ← reject ((ms_LastNS ms <? 0) || (ms_PeriodNS ms <? 0) || (ms_AnchorNS ms <? 0) || (ms_PreWakeNS ms <? 0) || (ms_PostWakeNS ms <? 0) ||
              (ms_Events ms <? ms_Misses ms) || (ms_EffectiveHistory ms <? 0) || (len (ms_HistoryNS ms) <? ms_EffectiveHistory ms) ||
              (ms_StableIntervals ms <? 0)) "dutyscheduler: invalid sender model";
  _ ← reject ((HistoryLimit cfg <? len (ms_HistoryNS ms)) ||
              (negb (ms_Seen ms) && (negb (ms_LastNS ms =? 0) || negb (bool_decide (ms_Protocol ms = [])) || ms_Learned ms)) ||
              (lastEnd <? ms_LastNS ms)) "dutyscheduler: invalid sender model history";
  _ ← reject (existsb (fun interval => interval <=? 0) (ms_HistoryNS ms)) "dutyscheduler: invalid sender model interval";
  _ ← reject (ms_Learned ms && (negb (ms_Seen ms) || (ms_PeriodNS ms <=? 0) || (len (ms_HistoryNS ms) <? WarmupIntervals cfg)))
        "dutyscheduler: invalid learned sender model";
  reject (ms_Learned ms && (ms_EffectiveHistory ms <? WarmupIntervals cfg)) "dutyscheduler: invalid effective history".

Definition restore_model (ms : SenderModelState) (m : senderModel) : senderModel :=
  m <| m_protocol := ms_Protocol ms |> <| m_last := ms_LastNS ms |> <| m_seen := ms_Seen ms |> <| m_learned := ms_Learned ms |>
    <| m_period := ms_PeriodNS ms |> <| m_anchor := ms_AnchorNS ms |> <| m_preWake := ms_PreWakeNS ms |>
    <| m_postWake := ms_PostWakeNS ms |> <| m_events := ms_Events ms |> <| m_misses := ms_Misses ms |>
    <| m_effectiveHistory := ms_EffectiveHistory ms |> <| m_stableIntervals := ms_StableIntervals ms |>
    <| m_changePoints := ms_ChangePoints ms |> <| m_history := m_history m ++ ms_HistoryNS ms |>.

Definition apply_model (lastEnd : Z) (acc : gset Z * candidate) (ms : SenderModelState) : Result (gset Z * candidate) :=
  let '(seen, c) := acc in
  m ← of_option (ErrInvalid (str "dutyscheduler: invalid model sender inventory")) (find_model (ms_ID ms) c);
  _ ← reject (bool_decide (ms_ID ms ∈ seen)) "dutyscheduler: invalid model sender inventory";
  _ ← validateModelState ms (c_cfg c) lastEnd;
  inr ({[ms_ID ms]} ∪ seen, set_model (ms_ID ms) (restore_model ms m) c).

Definition bad_adaptive (cs : CandidateState) (cfg : CandidateConfig) : bool :=
  (cs_Epoch cs =? 0) || negb (finite (cs_WakeScale cs)) || flt (cs_WakeScale cs) fone || fgt (cs_WakeScale cs) (MaxWakeScale cfg) ||
  (cs_PromotionReadyNS cs <? 0) || (cs_RecoveryUntilNS cs <? 0).

(** The fields of a candidate but its models. *)
Definition restore_counters (cs : CandidateState) (c : candidate) : candidate :=
  c <| c_lastEligible := cs_LastEligible cs |> <| c_lastAwake := cs_LastAwake cs |> <| c_totalDuration := cs_TotalDurationNS cs |>
    <| c_totalAwake := cs_TotalAwakeNS cs |> <| c_eligibleDuration := cs_EligibleDurationNS cs |>
    <| c_awakeDuration := cs_AwakeDurationNS cs |> <| c_invalid := cs_Invalid cs |> <| c_qualified := cs_Qualified cs |>
    <| c_epoch := cs_Epoch cs |> <| c_wakeScale := cs_WakeScale cs |> <| c_promotionReady := cs_PromotionReadyNS cs |>
    <| c_recoveryUntil := cs_RecoveryUntilNS cs |>.

Definition apply_candidate (lastEnd : Z) (cs : CandidateState) (c : candidate) : Result candidate :=
  _ ← reject (negb (bool_decide (cs_Name cs = Name (c_cfg c))) || negb (len (cs_Senders cs) =? len (c_senders c)))
        "dutyscheduler: invalid state candidate inventory";
  _ ← reject (negb (validDurations (cs_TotalDurationNS cs) (cs_TotalAwakeNS cs) (cs_EligibleDurationNS cs) (cs_AwakeDurationNS cs)))
        "dutyscheduler: invalid candidate durations";
  _ ← reject (bad_adaptive cs (c_cfg c)) "dutyscheduler: invalid adaptive candidate state";
  '(_, c) ← foldR (apply_model lastEnd) (∅, restore_counters cs c) (cs_Senders cs);
  inr c.

(** The candidates, place by place. *)
Fixpoint apply_candidates (lastEnd : Z) (states : list CandidateState) (candidates : list candidate) : Result (list candidate) :=
  match states, candidates with
  | cs :: states, c :: candidates =>
      c ← apply_candidate lastEnd cs c; rest ← apply_candidates lastEnd states candidates; inr (c :: rest)
  | _, _ => inr candidates
  end.

(** The fields of the scheduler but its senders; nothing is selected. *)
Definition restore_totals (st : State) (protocols : gmap (list Z) protocolRuntime) (candidates : list candidate) (s : Scheduler) : Scheduler :=
  leave_quiet (s <| s_protocols := protocols |> <| s_candidates := candidates |> <| s_lastEnd := st_LastEndNS st |>
    <| s_started := st_Started st |> <| s_recoveryUntil := st_RecoveryUntilNS st |>
    <| s_deadlineDeficits := st_DeadlineDeficits st |> <| s_countDeficits := st_CountDeficits st |>
    <| s_discontinuities := st_Discontinuities st |> <| s_refreshUntil := st_RefreshUntilNS st |>
    <| s_nextRefresh := st_NextRefreshNS st |> <| s_refreshes := st_Refreshes st |> <| s_rng := st_RNG st |>
    <| s_selected := None |>).

(** A gated scheduler enters recovery; then the candidates qualify anew. *)
Definition reenter (s : Scheduler) : Scheduler :=
  let s := if bool_decide (cfg_Mode (s_cfg s) = ModeGated) then enterRecovery (s_lastEnd s) s else s in
  chooseCandidate (refreshQualifications (s_lastEnd s) s).

Definition applyState (st : State) (s : Scheduler) : Result Scheduler :=
  _ ← reject (bad_clock st) "dutyscheduler: invalid state clock";
  _ ← reject (negb (len (st_Senders st) =? len (s_senders s)) || negb (len (st_Candidates st) =? len (s_candidates s)))
        "dutyscheduler: state inventory mismatch";
  '(_, s) ← foldR (apply_sender (st_LastEndNS st)) (∅, s) (st_Senders st);
  '(_, protocols) ← foldR apply_protocol (∅, s_protocols s) (st_Protocols st);
  candidates ← apply_candidates (st_LastEndNS st) (st_Candidates st) (s_candidates s);
  let s := restore_totals st protocols candidates s in
  inr (reenter s).

(** ** The restores: the scheduler afterwards, and the error *)

Definition check_schema (st : State) : Result unit :=
  if bool_decide (st_Schema st = StateSchema) then inr tt else inl (ErrStateSchemaMismatch (st_Schema st)).

Definition check_fingerprint (cfg : Config) (st : State) : Result unit :=
  fingerprint ← of_option ErrFingerprint (configSHA256 cfg);
  if bool_decide (st_ConfigSHA256 st = fingerprint) then inr tt else inl ErrStateConfigurationMismatch.

(** [*s = *restored] only when there is no error. *)
Definition commit (s : Scheduler) (restored : Result Scheduler) : Scheduler * option state_error :=
  match restored with inl e => (s, Some e) | inr restored => (restored, None) end.

Definition RestoreState (st : State) (s : Scheduler) : Scheduler * option state_error :=
  commit s (_ ← check_schema st; _ ← check_fingerprint (s_cfg s) st; restored ← of_option ErrNew (New (s_cfg s)); applyState st restored).

(** Qualification restarts under the new capture target. *)
Definition requalify (s : Scheduler) : Scheduler :=
  let s := leave_quiet (s <| s_candidates ::= map (fun c => c <| c_qualified := false |> <| c_promotionReady := 0 |>) |>
                         <| s_selected := None |>) in
  chooseCandidate (refreshQualifications (s_lastEnd s) s).

Definition RestoreCaptureTargetState (st : State) (previousCaptureTarget : f64) (s : Scheduler) : Scheduler * option state_error :=
  commit s (
    _ ← check_schema st;
    let previousConfig := (s_cfg s) <| CaptureTarget := previousCaptureTarget |> in
    _ ← of_option ErrNew (New previousConfig);
    _ ← check_fingerprint previousConfig st;
    restored ← of_option ErrNew (New (s_cfg s));
    restored ← applyState st restored;
    inr (requalify restored)).

Definition RestoreShadowState (st : State) (s : Scheduler) : Scheduler * option state_error :=
  commit s (
    _ ← reject (negb (bool_decide (cfg_Mode (s_cfg s) = ModeGated))) "dutyscheduler: shadow promotion requires gated mode";
    _ ← check_schema st;
    _ ← check_fingerprint ((s_cfg s) <| cfg_Mode := ModeShadow |>) st;
    restored ← of_option ErrNew (New (s_cfg s));
    applyState st restored).
End State.
