(* ===== verification/DutySnapshot.v ===== *)
(** The report of the duty scheduler ([Snapshot] in src/internal/dutyscheduler/
    scheduler.go) and the import of an old one ([RestoreLegacySnapshot] in
    src/internal/dutyscheduler/state.go). *)

From S2P Require Import Prelude Float64 DutyMath Update DutyModel Scheduler DutyState.

Record SenderSnapshot := {
  sn_Protocol : list Z; sn_EligibleEvents : Z; sn_WouldMiss : Z; sn_RequiredEligibleEvents : Z; sn_RemainingEligibleEvents : Z;
  sn_UpperMissBound : f64; sn_PeriodNS : Z; sn_PreWakeNS : Z; sn_PostWakeNS : Z; sn_EffectiveHistory : Z; sn_ChangePoints : Z }.

Record CandidateSnapshot := {
  cn_Name : list Z; cn_HistoryLimit : Z; cn_Eligible : bool; cn_Qualified : bool; cn_ContractQualified : bool; cn_Invalid : bool;
  cn_Epoch : Z; cn_WakeScale : f64; cn_AuditFraction : f64; cn_PromotionReadyNS : Z; cn_RecoveryUntilNS : Z;
  cn_ProjectedSleepFraction : f64; cn_SteadySleepFraction : f64; cn_EffectiveSleepFraction : f64; cn_TotalDurationNS : Z;
  cn_TotalAwakeDurationNS : Z; cn_EligibleDurationNS : Z; cn_AwakeDurationNS : Z; cn_Senders : gmap Z SenderSnapshot }.

Record ObservedSenderSnapshot := {
  on_Protocol : list Z; on_Observations : Z; on_LastSeenNS : Z; on_DeadlineDeficits : Z; on_CountDeficits : Z; on_OverdueOpen : bool;
  on_CountOpen : bool; on_WatchdogLearned : bool; on_LearnedOverdueNS : Z; on_LearnedMinimumCount : Z; on_ObligationDueNS : Z;
  on_ObligationsOpened : Z; on_ObligationsClosed : Z; on_ObligationDeficits : Z }.

(** [ProtocolSnapshot] has the fields of [protocolRuntime]. *)
Record Snapshot := {
  sp_Mode : Mode; sp_State : list Z; sp_Selected : list Z; sp_SampleTimeNS : Z; sp_RecoveryUntilNS : Z; sp_DeadlineDeficits : Z;
  sp_CountDeficits : Z; sp_Discontinuities : Z; sp_Refreshes : Z; sp_RefreshUntilNS : Z; sp_NextRefreshNS : Z;
  sp_ObservedSenders : gmap Z ObservedSenderSnapshot; sp_Protocols : gmap (list Z) protocolRuntime;
  sp_Candidates : list CandidateSnapshot }.

Section Snapshot.
Context `{GoMath}.

Definition observed_sender (r : senderRuntime) : ObservedSenderSnapshot :=
  {| on_Protocol := r_protocol r; on_Observations := r_total r; on_LastSeenNS := r_lastSeen r;
     on_DeadlineDeficits := r_deadlineDeficits r; on_CountDeficits := r_countDeficits r; on_OverdueOpen := r_overdueOpen r;
     on_CountOpen := r_countOpen r; on_WatchdogLearned := r_watchdogLearned r; on_LearnedOverdueNS := r_learnedOverdue r;
     on_LearnedMinimumCount := r_learnedMinimumCount r; on_ObligationDueNS := r_obligationDue r;
     on_ObligationsOpened := r_obligationsOpened r; on_ObligationsClosed := r_obligationsClosed r;
     on_ObligationDeficits := r_obligationDeficits r |}.

(** One model: the bound goes through its memo.  [None] when the search for the
    required observations panics or does not end. *)
Definition snapshot_model (cfg : Config) (m : senderModel) : option (senderModel * SenderSnapshot) :=
  required ← match RequiredObservations (m_misses m) (CaptureTarget cfg) (Confidence cfg) with Returned n => Some n | _ => None end;
  let remaining := if m_events m <? required then required - m_events m else 0 in
  '(m, bound) ← confidenceUpperBound (fsub fone (Confidence cfg)) m;
  Some (m, {| sn_Protocol := m_protocol m; sn_EligibleEvents := m_events m; sn_WouldMiss := m_misses m;
              sn_RequiredEligibleEvents := required; sn_RemainingEligibleEvents := remaining; sn_UpperMissBound := bound;
              sn_PeriodNS := m_period m; sn_PreWakeNS := m_preWake m; sn_PostWakeNS := m_postWake m;
              sn_EffectiveHistory := m_effectiveHistory m; sn_ChangePoints := m_changePoints m |}).

Definition snapshot_candidate (cfg : Config) (c : candidate) : option (candidate * CandidateSnapshot) :=
  let '(c, eligible) := allLearned c in
  let '(c, contract) := qualifiesAt cfg (CaptureTarget cfg) c in
  models ← mapM (fun '(id, m) => '(m, sn) ← snapshot_model cfg m; Some ((id, m), (id, sn))) (c_senders c);
  let c := c <| c_senders := map fst models |> in
  Some (c, {| cn_Name := Name (c_cfg c); cn_HistoryLimit := HistoryLimit (c_cfg c); cn_Eligible := eligible;
              cn_Qualified := c_qualified c; cn_ContractQualified := contract; cn_Invalid := c_invalid c; cn_Epoch := c_epoch c;
              cn_WakeScale := c_wakeScale c; cn_AuditFraction := auditFraction c; cn_PromotionReadyNS := c_promotionReady c;
              cn_RecoveryUntilNS := c_recoveryUntil c; cn_ProjectedSleepFraction := projectedSleep c;
              cn_SteadySleepFraction := steadySleep c; cn_EffectiveSleepFraction := effectiveSleep c;
              cn_TotalDurationNS := c_totalDuration c; cn_TotalAwakeDurationNS := c_totalAwake c;
              cn_EligibleDurationNS := c_eligibleDuration c; cn_AwakeDurationNS := c_awakeDuration c;
              cn_Senders := list_to_map (map snd models) |}).

(** [Snapshot]: the report, and the scheduler with its memos. *)
Definition take_snapshot (s : Scheduler) : option (Scheduler * Snapshot) :=
  candidates ← mapM (snapshot_candidate (s_cfg s)) (s_candidates s);
  Some (s <| s_candidates := map fst candidates |>,
        {| sp_Mode := cfg_Mode (s_cfg s); sp_State := state s; sp_Selected := selectedName s; sp_SampleTimeNS := s_lastEnd s;
           sp_RecoveryUntilNS := s_recoveryUntil s; sp_DeadlineDeficits := s_deadlineDeficits s;
           sp_CountDeficits := s_countDeficits s; sp_Discontinuities := s_discontinuities s; sp_Refreshes := s_refreshes s;
           sp_RefreshUntilNS := s_refreshUntil s; sp_NextRefreshNS := s_nextRefresh s;
           sp_ObservedSenders := list_to_map (map (fun r => (ID (r_cfg r), observed_sender r)) (s_senders s));
           sp_Protocols := s_protocols s; sp_Candidates := map snd candidates |}).

(** [Configuration]: Go copies the slices, values of the model are copies. *)
Definition Configuration (s : Scheduler) : Config := s_cfg s.

(** ** RestoreLegacySnapshot *)

(** The maps are walked in some order; each key is its own sender. *)
Definition legacy_sender (s : Scheduler) (entry : Z * ObservedSenderSnapshot) : Result Scheduler :=
  let '(id, old) := entry in
  r ← of_option (ErrInvalid (str "dutyscheduler: legacy sender inventory mismatch")) (find_sender id s);
  inr (set_sender id (r <| r_total := on_Observations old |> <| r_deadlineDeficits := on_DeadlineDeficits old |>
                        <| r_countDeficits := on_CountDeficits old |>) s).

Definition legacy_model (c : candidate) (entry : Z * SenderSnapshot) : Result candidate :=
  let '(id, old) := entry in
  m ← of_option (ErrInvalid (str "dutyscheduler: invalid legacy model")) (find_model id c);
  _ ← reject (sn_EligibleEvents old <? sn_WouldMiss old) "dutyscheduler: invalid legacy model";
  inr (set_model id (m <| m_events := sn_EligibleEvents old |> <| m_misses := sn_WouldMiss old |>) c).

Definition legacy_candidate (old : CandidateSnapshot) (c : candidate) : Result candidate :=
  _ ← reject (negb (bool_decide (cn_Name old = Name (c_cfg c))) || negb (cn_HistoryLimit old =? HistoryLimit (c_cfg c)) ||
              negb (Z.of_nat (size (cn_Senders old)) =? len (c_senders c))) "dutyscheduler: legacy candidate inventory mismatch";
  _ ← reject (negb (validDurations (cn_TotalDurationNS old) (cn_TotalAwakeDurationNS old) (cn_EligibleDurationNS old) (cn_AwakeDurationNS old)))
        "dutyscheduler: invalid legacy candidate durations";
  let c := c <| c_totalDuration := cn_TotalDurationNS old |> <| c_totalAwake := cn_TotalAwakeDurationNS old |>
             <| c_eligibleDuration := cn_EligibleDurationNS old |> <| c_awakeDuration := cn_AwakeDurationNS old |>
             <| c_invalid := cn_Invalid old |> in
  foldR legacy_model c (map_to_list (cn_Senders old)).

Fixpoint legacy_candidates (olds : list CandidateSnapshot) (candidates : list candidate) : Result (list candidate) :=
  match olds, candidates with
  | old :: olds, c :: candidates => c ← legacy_candidate old c; rest ← legacy_candidates olds candidates; inr (c :: rest)
  | _, _ => inr candidates
  end.

Definition compatible_mode (snapshot : Snapshot) (cfg : Config) : bool :=
  bool_decide (sp_Mode snapshot = cfg_Mode cfg) ||
  (bool_decide (sp_Mode snapshot = ModeShadow) && bool_decide (cfg_Mode cfg = ModeGated)).

(** A gated scheduler enters recovery; the candidates qualify anew. *)
Definition legacy_reenter (s : Scheduler) : Scheduler :=
  let s := if bool_decide (cfg_Mode (s_cfg s) = ModeGated) then enterRecovery (s_lastEnd s) s else s in
  refreshQualifications (s_lastEnd s) s.

Definition RestoreLegacySnapshot (snapshot : Snapshot) (s : Scheduler) : Scheduler * option state_error :=
  commit s (
    _ ← reject (negb (compatible_mode snapshot (s_cfg s)) || (sp_SampleTimeNS snapshot <? 0) ||
                negb (Z.of_nat (size (sp_ObservedSenders snapshot)) =? len (s_senders s)) ||
                negb (len (sp_Candidates snapshot) =? len (s_candidates s))) "dutyscheduler: incompatible legacy snapshot";
    restored ← of_option ErrNew (New (s_cfg s));
    restored ← foldR legacy_sender restored (map_to_list (sp_ObservedSenders snapshot));
    candidates ← legacy_candidates (sp_Candidates snapshot) (s_candidates restored);
    let restored := restored <| s_candidates := candidates |> <| s_lastEnd := sp_SampleTimeNS snapshot |>
      <| s_started := 0 <? sp_SampleTimeNS snapshot |> <| s_deadlineDeficits := sp_DeadlineDeficits snapshot |>
      <| s_countDeficits := sp_CountDeficits snapshot |> <| s_discontinuities := u64 (sp_Discontinuities snapshot + 1) |> in
    inr (legacy_reenter restored)).
End Snapshot.
