(* ===== verification/DutyStateSpec.v ===== *)
(** Checkpoints of the duty scheduler: exporting a scheduler and restoring the state
    gives back the scheduler, but for its memos, with the evidence kept and the gate
    in recovery; a restore that fails changes nothing; one that succeeds leaves a gated
    scheduler in recovery.  The keyed lists of senders and models are restored one
    key after another. *)

From stdpp Require Import sorting.
From S2P Require Import Prelude Float64 DutyMath Update DutyModel Scheduler SchedulerSpec DutyState.

(** ** Lists of records under distinct keys, restored one after another *)

Section Keys.
Context {A : Type} (key : A -> Z).

Lemma NoDup_key_eq (l : list A) x y : NoDup (map key l) -> x ∈ l -> y ∈ l -> key x = key y -> x = y.
Proof.
  induction l as [|z l IH]; [set_solver|]. cbn. intros [Hz Hl]%NoDup_cons Hx%elem_of_cons Hy%elem_of_cons E.
  assert (forall w, w ∈ l -> key w ∈ map key l) as Hin by (intros w Hw; apply list_elem_of_In, in_map; by apply list_elem_of_In).
  destruct Hx as [->|Hx], Hy as [->|Hy]; [done| | |by apply IH].
  - destruct Hz. rewrite E. by apply Hin.
  - destruct Hz. rewrite <- E. by apply Hin.
Qed.

Lemma find_key (l : list A) (g : A -> A) x : NoDup (map key l) -> (forall y, key (g y) = key y) -> x ∈ l ->
  find (fun y => key y =? key x) (map g l) = Some (g x).
Proof.
  intros Hl Hg. induction l as [|z l IH]; [set_solver|]. cbn. cbn in Hl. apply NoDup_cons in Hl as [Hz Hl]. intros Hx%elem_of_cons.
  rewrite Hg. destruct (Z.eqb_spec (key z) (key x)) as [E|E].
  - destruct Hx as [->|Hx]; [done|]. destruct Hz. rewrite E. apply list_elem_of_In, in_map. by apply list_elem_of_In.
  - destruct Hx as [->|Hx]; [done|]. by apply IH.
Qed.

(** The keys in another order name the same elements in that order. *)
Lemma mapM_find {B} (l : list A) (ids : list Z) (g : Z -> A -> B) : NoDup (map key l) -> ids ≡ₚ map key l ->
  exists todo, todo ≡ₚ l /\ ids = map key todo /\
    mapM (fun id => x ← find (fun y => key y =? id) l; Some (g id x)) ids = Some (map (fun x => g (key x) x) todo).
Proof.
  intros Hl Hp. destruct (Permutation_map_inv key l Hp) as (todo & -> & Ht). exists todo. split; [by symmetry|]. split; [done|].
  assert (forall x, x ∈ todo -> x ∈ l) as Hin by (intros x; by rewrite <- Ht). clear Ht Hp. induction todo as [|x todo IH]; [done|].
  cbn [map mapM]. assert (find (fun y => key y =? key x) l = Some x) as Hf.
  { rewrite <- (map_id l). apply (find_key l (fun y => y)); [done|done|]. apply Hin. set_solver. }
  rewrite Hf. cbn [mbind option_bind]. rewrite IH by set_solver. done.
Qed.
End Keys.

Section Keyed.
Context {A : Type} (key : A -> Z) (f0 f1 : A -> A).
Hypothesis key_f0 : forall x, key (f0 x) = key x.
Hypothesis key_f1 : forall x, key (f1 x) = key x.

(** Those with a key in [D] are restored. *)
Definition mix (D : gset Z) (l : list A) : list A := map (fun x => if bool_decide (key x ∈ D) then f1 x else f0 x) l.

Lemma key_mixed (D : gset Z) x : key (if bool_decide (key x ∈ D) then f1 x else f0 x) = key x.
Proof using key_f0 key_f1. destruct (bool_decide _); auto. Qed.

Lemma mix_none l : mix ∅ l = map f0 l.
Proof using Type. apply map_ext. intros x. by rewrite bool_decide_eq_false_2 by apply not_elem_of_empty. Qed.

Lemma mix_all D l : (forall x, x ∈ l -> key x ∈ D) -> mix D l = map f1 l.
Proof using Type. intros Hl. apply map_ext_in. intros x Hx%list_elem_of_In. by rewrite bool_decide_eq_true_2 by (apply Hl, Hx). Qed.

Lemma find_mix D l x : NoDup (map key l) -> x ∈ l -> key x ∉ D -> find (fun y => key y =? key x) (mix D l) = Some (f0 x).
Proof using key_f0 key_f1.
  intros Hl Hx Hd. unfold mix. rewrite (find_key key l) by (auto; apply key_mixed). by rewrite bool_decide_eq_false_2.
Qed.

Lemma set_mix D l x : NoDup (map key l) -> x ∈ l ->
  map (fun y => if key y =? key x then f1 x else y) (mix D l) = mix ({[key x]} ∪ D) l.
Proof using key_f0 key_f1.
  intros Hl Hx. unfold mix. rewrite map_map. apply map_ext_in. intros y Hy%list_elem_of_In. rewrite key_mixed.
  destruct (Z.eqb_spec (key y) (key x)) as [E|E].
  - rewrite (NoDup_key_eq key l y x) by done. by rewrite bool_decide_eq_true_2 by set_solver.
  - by rewrite (bool_decide_ext (key y ∈ {[key x]} ∪ D) (key y ∈ D)) by set_solver.
Qed.

End Keyed.

(** ** What a restore accepts *)

Record sender_ok (cfg : Config) (lastEnd : Z) (r : senderRuntime) : Prop := {
  so_lastSeen : 0 <= r_lastSeen r;
  so_seen : r_seen r = true -> r_lastSeen r <= lastEnd;
  so_unseen : r_seen r = false -> r_lastSeen r = 0 /\ r_protocol r = [];
  so_total : len (r_observations r) <= r_total r;
  so_observations : Forall (fun t => 0 <= t <= lastEnd) (r_observations r);
  so_increasing : StronglySorted Z.lt (r_observations r);
  so_learned : 0 <= r_learnedOverdue r /\ 0 <= r_learnedMinimumCount r /\ 0 <= r_obligationDue r;
  so_obligations : r_obligationsClosed r <= r_obligationsOpened r /\ r_obligationDeficits r <= r_obligationsOpened r;
  so_gaps : Forall (fun gap => 0 < gap) (r_gaps r);
  so_gaps_limit : len (r_gaps r) <= WatchdogHistory cfg }.

Record model_ok (cfg : CandidateConfig) (lastEnd : Z) (m : senderModel) : Prop := {
  mo_last : 0 <= m_last m <= lastEnd;
  mo_period : 0 <= m_period m;
  mo_anchor : 0 <= m_anchor m;
  mo_wake : 0 <= m_preWake m /\ 0 <= m_postWake m;
  mo_misses : m_misses m <= m_events m;
  mo_effective : 0 <= m_effectiveHistory m <= len (m_history m);
  mo_stable : 0 <= m_stableIntervals m;
  mo_limit : len (m_history m) <= HistoryLimit cfg;
  mo_unseen : m_seen m = false -> m_last m = 0 /\ m_protocol m = [] /\ m_learned m = false;
  mo_intervals : Forall (fun interval => 0 < interval) (m_history m);
  mo_learned : m_learned m = true ->
    m_seen m = true /\ 0 < m_period m /\ WarmupIntervals cfg <= len (m_history m) /\ WarmupIntervals cfg <= m_effectiveHistory m }.

Record candidate_ok (lastEnd : Z) (c : candidate) : Prop := {
  ko_durations : validDurations (c_totalDuration c) (c_totalAwake c) (c_eligibleDuration c) (c_awakeDuration c) = true;
  ko_epoch : c_epoch c <> 0;
  ko_scale : finite (c_wakeScale c) = true /\ flt (c_wakeScale c) fone = false /\ fgt (c_wakeScale c) (MaxWakeScale (c_cfg c)) = false;
  ko_times : 0 <= c_promotionReady c /\ 0 <= c_recoveryUntil c;
  ko_models : Forall (fun '(_, m) => model_ok (c_cfg c) lastEnd m) (c_senders c) }.

(** The inventories are those of the configuration. *)
Record structure_ok (s : Scheduler) : Prop := {
  st_new : exists fresh, New (s_cfg s) = Some fresh /\ s_cfg fresh = s_cfg s;
  st_senders : map r_cfg (s_senders s) = Senders (s_cfg s);
  st_candidates : map c_cfg (s_candidates s) = Candidates (s_cfg s);
  st_models : Forall (fun c => map fst (c_senders c) = map ID (Senders (s_cfg s))) (s_candidates s) }.

Record restorable (s : Scheduler) : Prop := {
  re_structure : structure_ok s;
  re_clock : 0 <= s_lastEnd s /\ 0 <= s_recoveryUntil s /\ 0 <= s_refreshUntil s /\ 0 <= s_nextRefresh s;
  re_started : s_started s = false -> s_lastEnd s = 0;
  re_rng : s_rng s <> 0;
  re_senders : Forall (sender_ok (s_cfg s) (s_lastEnd s)) (s_senders s);
  re_protocols : s_protocols s !! [] = None;
  re_candidates : Forall (candidate_ok (s_lastEnd s)) (s_candidates s) }.

(** ** The restores of the parts *)

Lemma reject_false b what : b = false -> reject b what = inr tt.
Proof. by intros ->. Qed.

Lemma reject_then {B} (b : bool) what (k : unit -> Result B) y : b = false -> k tt = y -> (x ← reject b what; k x) = y.
Proof. by intros -> <-. Qed.

Lemma bind_then {A B} (r : Result A) (k : A -> Result B) x y : r = inr x -> k x = y -> r ≫= k = y.
Proof. by intros -> <-. Qed.

Lemma restore_observations lastEnd : forall l prev acc, Forall (fun t => 0 <= t <= lastEnd) l -> StronglySorted Z.lt l ->
  Forall (fun t => prev < t) l -> exists prev', foldR (restore_observation lastEnd) (prev, acc) l = inr (prev', acc ++ l).
Proof.
  induction l as [|t l IH]; intros prev acc Hr Hs Hp; [exists prev; by rewrite app_nil_r|].
  apply Forall_cons in Hr as [Ht Hr]. apply StronglySorted_inv in Hs as [Hs Ha]. apply Forall_cons in Hp as [Hp _].
  assert (restore_observation lastEnd (prev, acc) t = inr (t, acc ++ [t])) as E1
    by (unfold restore_observation; rewrite reject_false by (rewrite !orb_false_iff, !Z.ltb_ge, Z.leb_gt; lia); done).
  cbn [foldR]. rewrite E1. cbn [mbind Result_bind].
  destruct (IH t (acc ++ [t]) Hr Hs) as [p E]; [by apply List.Forall_forall; rewrite List.Forall_forall in Ha|].
  exists p. by rewrite E, <- app_assoc.
Qed.

Lemma restore_gaps limit : forall l acc, Forall (fun gap => 0 < gap) l -> len (acc ++ l) <= limit ->
  foldR (restore_gap limit) acc l = inr (acc ++ l).
Proof.
  induction l as [|g l IH]; intros acc Hg Hl; [by rewrite app_nil_r|]. apply Forall_cons in Hg as [Hg0 Hg].
  assert (restore_gap limit acc g = inr (acc ++ [g])) as E1.
  { unfold restore_gap. rewrite reject_false; [done|]. rewrite orb_false_iff, !Z.leb_gt. unfold len in *. rewrite length_app in Hl. cbn in Hl. lia. }
  cbn [foldR]. rewrite E1. cbn [mbind Result_bind]. rewrite IH; [by rewrite <- app_assoc|done|]. by rewrite <- app_assoc.
Qed.

(** A restored sender has lost only the index of its rolling count. *)
Definition strip_sender (r : senderRuntime) : senderRuntime := r <| r_countStart := 0 |>.

Lemma restore_sender_ok cfg lastEnd r : sender_ok cfg lastEnd r ->
  restore_sender cfg lastEnd (export_sender (ID (r_cfg r)) r) (new_runtime (r_cfg r)) = inr (strip_sender r).
Proof.
  intros [K1 K2 K3 K4 K5 K6 (K7a & K7b & K7c) [K8a K8b] K9 K10]. unfold restore_sender.
  apply reject_then.
  { unfold bad_sender_clock, export_sender; cbn [ss_LastSeenNS ss_Seen ss_Protocol]. rewrite (proj2 (Z.ltb_ge _ 0)) by done.
    destruct (r_seen r); cbn; [rewrite (proj2 (Z.ltb_ge _ _)) by auto; done|]. destruct (K3 eq_refl) as [-> ->]. done. }
  apply reject_then; [apply Z.ltb_ge, K4|].
  destruct (restore_observations lastEnd (r_observations r) (-1) [] K5 K6) as [p E]; [eapply Forall_impl; [exact K5|]; cbn; lia|].
  eapply bind_then; [exact E|]. cbv beta iota.
  apply reject_then.
  { unfold bad_learned; cbn [export_sender ss_LearnedOverdueNS ss_LearnedMinimumCount ss_ObligationDueNS
      ss_ObligationsOpened ss_ObligationsClosed ss_ObligationDeficits]. rewrite !orb_false_iff, !Z.ltb_ge. lia. }
  eapply bind_then; [apply (restore_gaps (WatchdogHistory cfg) (r_gaps r) [] K9 K10)|]. by destruct r.
Qed.

Definition strip_model (m : senderModel) : senderModel :=
  m <| m_boundEvents := 0 |> <| m_boundMisses := 0 |> <| m_boundAlpha := fzero |> <| m_boundUpper := fzero |>
    <| m_boundValid := false |> <| m_boundEvaluations := 0 |>.

Lemma restore_model_ok id m : restore_model (export_model id m) zero_model = strip_model m.
Proof. by destruct m. Qed.

Lemma validateModelState_ok cfg lastEnd id m : model_ok cfg lastEnd m -> validateModelState (export_model id m) cfg lastEnd = inr tt.
Proof.
  intros [K1 K2 K3 [K4 K4'] K5 K6 K7 K8 K9 K10 K11]. unfold validateModelState, export_model.
  cbn [ms_LastNS ms_PeriodNS ms_AnchorNS ms_PreWakeNS ms_PostWakeNS ms_Events ms_Misses ms_EffectiveHistory ms_HistoryNS
       ms_StableIntervals ms_Seen ms_Protocol ms_Learned].
  apply reject_then; [rewrite !orb_false_iff, !Z.ltb_ge; lia|]. apply reject_then.
  { rewrite !orb_false_iff, !Z.ltb_ge. split; [split; [done|]|lia]. destruct (m_seen m); [done|].
    destruct (K9 eq_refl) as (-> & -> & ->). done. }
  apply reject_then.
  { apply not_true_is_false. intros (x & Hx & Hle)%existsb_exists. rewrite Forall_forall in K10.
    specialize (K10 x (proj2 (list_elem_of_In _ _) Hx)). apply Z.leb_le in Hle. lia. }
  destruct (m_learned m); [|done]. destruct (K11 eq_refl) as (-> & K12 & K13 & K14). cbn [negb andb orb].
  apply reject_then; [rewrite orb_false_iff, Z.leb_gt, Z.ltb_ge; lia|]. apply reject_false, Z.ltb_ge. lia.
Qed.

(** ** The folds *)

Definition sender_key (r : senderRuntime) : Z := ID (r_cfg r).
Definition fresh_sender (r : senderRuntime) : senderRuntime := new_runtime (r_cfg r).

Lemma foldR_mix {A St Acc} (key : A -> Z) (f0 f1 : A -> A) (export : A -> St) (L : list A) (put : list A -> Acc)
  (apply_one : gset Z * Acc -> St -> Result (gset Z * Acc)) :
  (forall D x, x ∈ L -> key x ∉ D ->
     apply_one (D, put (mix key f0 f1 D L)) (export x) = inr ({[key x]} ∪ D, put (mix key f0 f1 ({[key x]} ∪ D) L))) ->
  forall todo D, (forall x, x ∈ todo -> x ∈ L /\ key x ∉ D) -> NoDup (map key todo) ->
  foldR apply_one (D, put (mix key f0 f1 D L)) (map export todo) =
    inr (list_to_set (map key todo) ∪ D, put (mix key f0 f1 (list_to_set (map key todo) ∪ D) L)).
Proof.
  intros Hstep. induction todo as [|x todo IH]; intros D Hd Hn; cbn [map foldR list_to_set].
  { by replace (∅ ∪ D) with D by set_solver. }
  cbn in Hn. apply NoDup_cons in Hn as [Hx Hn]. destruct (Hd x) as [Hx1 Hx2]; [set_solver|].
  eapply bind_then; [by apply Hstep|]. rewrite IH; [|intros y Hy|done].
  - by replace (list_to_set (map key todo) ∪ ({[key x]} ∪ D)) with ({[key x]} ∪ list_to_set (map key todo) ∪ D) by set_solver.
  - destruct (Hd y) as [Hy1 Hy2]; [set_solver|]. split; [done|]. rewrite elem_of_union, elem_of_singleton. intros [E|]; [|done].
    apply Hx. rewrite <- E. apply list_elem_of_In, in_map. by apply list_elem_of_In.
Qed.

(** Everything restored. *)
Lemma mix_complete {A} (key : A -> Z) (f0 f1 : A -> A) (L todo : list A) : todo ≡ₚ L ->
  mix key f0 f1 (list_to_set (map key todo) ∪ ∅) L = map f1 L.
Proof.
  intros Hp. apply mix_all. intros x Hx. apply elem_of_union_l, elem_of_list_to_set, list_elem_of_In, in_map, list_elem_of_In. by rewrite Hp.
Qed.

Section Apply.
Context `{GoMath}.

Lemma apply_senders_ok cfg lastEnd (L todo : list senderRuntime) s : todo ≡ₚ L -> NoDup (map sender_key L) ->
  s_cfg s = cfg -> s_senders s = map fresh_sender L -> Forall (sender_ok cfg lastEnd) L ->
  exists seen, foldR (apply_sender lastEnd) (∅, s) (map (fun r => export_sender (sender_key r) r) todo)
    = inr (seen, s <| s_senders := map strip_sender L |>).
Proof.
  intros Hp Hn Hc Hs Hok. eexists.
  set (put := fun l => s <| s_senders := l |>).
  replace s with (put (mix sender_key fresh_sender strip_sender ∅ L)) at 1 by (rewrite mix_none, <- Hs; unfold put; by destruct s).
  etransitivity; [apply (foldR_mix sender_key fresh_sender strip_sender (fun r => export_sender (sender_key r) r) L put)|].
  - intros D x Hx Hd. cbn [apply_sender]. change (ss_ID (export_sender (sender_key x) x)) with (sender_key x).
    eapply bind_then with (x := fresh_sender x).
    { change (find_sender (sender_key x) (put (mix sender_key fresh_sender strip_sender D L)))
        with (find (fun r => sender_key r =? sender_key x) (mix sender_key fresh_sender strip_sender D L)).
      by rewrite find_mix. }
    apply reject_then; [by apply bool_decide_eq_false_2|].
    eapply bind_then; [change (s_cfg (put _)) with (s_cfg s); rewrite Hc; apply restore_sender_ok;
      rewrite Forall_forall in Hok; by apply Hok|].
    do 2 f_equal. unfold set_sender, put. cbn [upd s_senders]. unfold upd. cbn [s_senders].
    rewrite <- (set_mix sender_key fresh_sender strip_sender (fun _ => eq_refl) (fun _ => eq_refl) D L x) by done. done.
  - intros x Hx. rewrite <- Hp. split; [done|set_solver].
  - by rewrite Hp.
  - unfold put. by rewrite mix_complete.
Qed.
Lemma find_ext {A} (f g : A -> bool) l : (forall x, f x = g x) -> find f l = find g l.
Proof. intros Hf. induction l as [|x l IH]; [done|]. cbn. by rewrite Hf, IH. Qed.

(** The models of a candidate. *)
Definition fresh_entry (e : Z * senderModel) : Z * senderModel := (fst e, zero_model).
Definition strip_entry (e : Z * senderModel) : Z * senderModel := (fst e, strip_model (snd e)).

Lemma find_model_mix c D L x : c_senders c = mix fst fresh_entry strip_entry D L -> NoDup (map fst L) -> x ∈ L -> fst x ∉ D ->
  find_model (fst x) c = Some zero_model.
Proof.
  intros E Hn Hx Hd. unfold find_model. rewrite E.
  pose proof (find_mix fst fresh_entry strip_entry (fun _ => eq_refl) (fun _ => eq_refl) D L x Hn Hx Hd) as F.
  erewrite (find_ext _ (fun y => fst y =? fst x)); [by rewrite F|by intros []].
Qed.

Lemma apply_models_ok lastEnd (L todo : list (Z * senderModel)) c : todo ≡ₚ L -> NoDup (map fst L) ->
  c_senders c = map fresh_entry L -> Forall (fun '(_, m) => model_ok (c_cfg c) lastEnd m) L ->
  exists seen, foldR (apply_model lastEnd) (∅, c) (map (fun e => export_model (fst e) (snd e)) todo)
    = inr (seen, c <| c_senders := map strip_entry L |>).
Proof.
  intros Hp Hn Hs Hok. eexists.
  set (put := fun l => c <| c_senders := l |>).
  replace c with (put (mix fst fresh_entry strip_entry ∅ L)) at 1 by (rewrite mix_none, <- Hs; unfold put; by destruct c).
  etransitivity; [apply (foldR_mix fst fresh_entry strip_entry (fun e => export_model (fst e) (snd e)) L put)|].
  - intros D x Hx Hd. cbn [apply_model]. change (ms_ID (export_model (fst x) (snd x))) with (fst x).
    eapply bind_then with (x := zero_model); [by rewrite (find_model_mix _ D L)|].
    apply reject_then; [by apply bool_decide_eq_false_2|].
    eapply bind_then; [apply validateModelState_ok; rewrite Forall_forall in Hok; specialize (Hok x Hx); by destruct x|].
    rewrite restore_model_ok. do 2 f_equal. unfold set_model, put. unfold upd. cbn [c_senders].
    rewrite <- (set_mix fst fresh_entry strip_entry (fun _ => eq_refl) (fun _ => eq_refl) D L x) by done.
    f_equal. apply map_ext. intros [id m]. unfold strip_entry. cbn. by destruct (Z.eqb_spec id (fst x)) as [->|].
  - intros x Hx. rewrite <- Hp. split; [done|set_solver].
  - by rewrite Hp.
  - unfold put. by rewrite mix_complete.
Qed.

(** A restored candidate has lost its memos. *)
Definition strip_candidate (c : candidate) : candidate :=
  invalidateSchedule (c <| c_eligibleCached := false |> <| c_senders := map strip_entry (c_senders c) |>).

Lemma export_candidate_ok ids c : NoDup (map fst (c_senders c)) -> ids ≡ₚ map fst (c_senders c) ->
  exists todo, todo ≡ₚ c_senders c /\
    mapM (fun id => m ← find_model id c; Some (export_model id m)) ids = Some (map (fun e => export_model (fst e) (snd e)) todo).
Proof.
  intros Hn Hp. destruct (mapM_find fst (c_senders c) ids (fun id e => export_model id (snd e)) Hn Hp) as (todo & Ht & _ & E).
  exists todo. split; [done|]. rewrite <- E. apply mapM_ext. intros id. unfold find_model.
  rewrite (find_ext (fun y => fst y =? id) (fun '(id', _) => id' =? id)) by (by intros []). by destruct (find _ _).
Qed.

Lemma apply_candidate_ok cfg lastEnd ids c : map fst (c_senders c) = map ID (Senders cfg) -> NoDup (map ID (Senders cfg)) ->
  ids ≡ₚ map ID (Senders cfg) -> candidate_ok lastEnd c ->
  exists cs, export_candidate ids c = Some cs /\ apply_candidate lastEnd cs (new_candidate cfg (c_cfg c)) = inr (strip_candidate c).
Proof.
  intros Hf Hn Hp [K1 K2 (K3a & K3b & K3c) [K4a K4b] K5].
  destruct (export_candidate_ok ids c) as (todo & Ht & E); [by rewrite Hf|by rewrite Hf|].
  unfold export_candidate. rewrite E. cbn [mbind option_bind]. eexists. split; [reflexivity|]. unfold apply_candidate.
  assert (length todo = length (Senders cfg)) as Hl by (by rewrite (Permutation_length Ht), <- (length_map fst), Hf, length_map).
  apply reject_then.
  { cbn [cs_Name cs_Senders new_candidate c_cfg c_senders]. unfold len. rewrite bool_decide_eq_true_2, !length_map, Hl, Z.eqb_refl by done. done. }
  apply reject_then; [cbn [cs_TotalDurationNS cs_TotalAwakeNS cs_EligibleDurationNS cs_AwakeDurationNS]; by rewrite K1|].
  apply reject_then.
  { unfold bad_adaptive. cbn [cs_Epoch cs_WakeScale cs_PromotionReadyNS cs_RecoveryUntilNS new_candidate c_cfg].
    rewrite K3a, K3b, K3c, (proj2 (Z.eqb_neq _ _)), !(proj2 (Z.ltb_ge _ _)) by done. done. }
  match goal with |- mbind _ (foldR _ (∅, ?c0) _) = _ => set (c1 := c0) end.
  assert (c_cfg c1 = c_cfg c /\ c_senders c1 = map fresh_entry (c_senders c)) as [F1 F2].
  { split; [done|]. change (c_senders c1) with (map (fun sc => (ID sc, zero_model)) (Senders cfg)).
    rewrite <- (map_map ID (fun id => (id, zero_model))), <- Hf, map_map. done. }
  assert (c1 <| c_senders := map strip_entry (c_senders c) |> = strip_candidate c) as F3 by (clear; subst c1; by destruct c).
  clearbody c1. destruct (apply_models_ok lastEnd (c_senders c) todo c1) as [seen E1].
  - done.
  - by rewrite Hf.
  - done.
  - by rewrite F1.
  - eapply bind_then; [exact E1|]. by rewrite F3.
Qed.

(** The totals of the protocols. *)
Lemma apply_protocols_ok : forall (todo : list (list Z * protocolRuntime)) seen acc, NoDup (map fst todo) ->
  (forall k, k ∈ map fst todo -> k <> [] /\ k ∉ seen) ->
  exists seen', foldR apply_protocol (seen, acc) (map (fun e => export_protocol (fst e) (snd e)) todo)
    = inr (seen', list_to_map todo ∪ acc).
Proof.
  induction todo as [|[k p] todo IH]; intros seen acc Hn Hk; cbn [map foldR list_to_map foldr].
  { exists seen. by rewrite (left_id_L ∅ (∪)). }
  cbn in Hn. apply NoDup_cons in Hn as [Hx Hn]. destruct (Hk k) as [Hk1 Hk2]; [set_solver|].
  destruct (IH ({[k]} ∪ seen) (<[k := p]> acc) Hn) as [seen' E].
  { intros k' Hk'. destruct (Hk k') as [Hk1' Hk2']; [set_solver|]. split; [done|].
    rewrite elem_of_union, elem_of_singleton. intros [->|]; [|done]. done. }
  exists seen'. eapply bind_then with (x := ({[k]} ∪ seen, <[k := p]> acc)).
  { cbn [apply_protocol fst snd]. apply reject_then; [cbn [ps_Name export_protocol]; by rewrite !bool_decide_eq_false_2|]. by destruct p. }
  rewrite E. do 2 f_equal. cbn. rewrite <- insert_union_r, insert_union_l; [done|].
  apply not_elem_of_list_to_map_1. exact Hx.
Qed.

Lemma apply_candidates_ok cfg lastEnd ids : forall L, NoDup (map ID (Senders cfg)) -> ids ≡ₚ map ID (Senders cfg) ->
  Forall (fun c => map fst (c_senders c) = map ID (Senders cfg)) L -> Forall (candidate_ok lastEnd) L ->
  exists states, mapM (export_candidate ids) L = Some states /\ length states = length L /\
    apply_candidates lastEnd states (map (fun c => new_candidate cfg (c_cfg c)) L) = inr (map strip_candidate L).
Proof.
  intros L Hn Hp. induction L as [|c L IH]; intros Hf Hok; [by exists []|].
  apply Forall_cons in Hf as [Hf0 Hf]. apply Forall_cons in Hok as [Hok0 Hok].
  destruct (IH Hf Hok) as (states & E & Hl & Ea). destruct (apply_candidate_ok cfg lastEnd ids c Hf0 Hn Hp Hok0) as (cs & Ec & Er).
  exists (cs :: states). cbn [mapM]. rewrite Ec. cbn [mbind option_bind]. rewrite E. split; [done|]. split; [cbn; by rewrite Hl|].
  cbn [apply_candidates map]. eapply bind_then; [exact Er|]. by eapply bind_then; [exact Ea|].
Qed.

Lemma export_protocols_ok (protocols : gmap (list Z) protocolRuntime) : protocols !! [] = None ->
  exists states seen, export_protocols protocols = Some states /\ foldR apply_protocol (∅, ∅) states = inr (seen, protocols).
Proof.
  intros He. destruct (Permutation_map_inv fst (map_to_list protocols) (merge_sort_Permutation string_le (map fst (map_to_list protocols))))
    as (todo & Et & Hp).
  assert (NoDup (map fst todo)) as Hn.
  { change (NoDup (todo.*1)). rewrite <- Hp. apply NoDup_fst_map_to_list. }
  destruct (apply_protocols_ok todo ∅ ∅ Hn) as [seen E].
  { intros k Hk. split; [|set_solver]. intros ->. apply list_elem_of_In, in_map_iff in Hk as ([k p] & Ek & Hk). cbn in Ek. subst k.
    apply list_elem_of_In in Hk. rewrite <- Hp in Hk. apply elem_of_map_to_list in Hk. by rewrite He in Hk. }
  exists (map (fun e => export_protocol (fst e) (snd e)) todo), seen. split.
  - unfold export_protocols. rewrite Et. assert (forall e, e ∈ todo -> protocols !! fst e = Some (snd e)) as Hin.
    { intros [k p] Hk. rewrite <- Hp in Hk. by apply elem_of_map_to_list in Hk. }
    clear - Hin. induction todo as [|e todo IH]; [done|]. cbn [map mapM]. rewrite Hin by set_solver. cbn [mbind option_bind].
    rewrite IH; [done|]. set_solver.
  - rewrite E. do 2 f_equal. rewrite (right_id_L ∅ (∪)). rewrite <- (list_to_map_to_list protocols).
    apply list_to_map_proper; [exact Hn|done].
Qed.

(** Normalizing the configuration of a scheduler again changes nothing, so that
    [New] gives a fresh scheduler of the same configuration. *)
Lemma or_default_idem d x : d <> 0 -> or_default d (or_default d x) = or_default d x.
Proof. intros Hd. unfold or_default. destruct (x =? 0) eqn:E; [by rewrite (proj2 (Z.eqb_neq d 0))|by rewrite E]. Qed.

Lemma or_fdefault_idem d x : SFeqb d fzero = false -> or_fdefault d (or_fdefault d x) = or_fdefault d x.
Proof. intros Hd. unfold or_fdefault. destruct (SFeqb x fzero) eqn:E; [by rewrite Hd|by rewrite E]. Qed.

Lemma normalize_candidate_idem c : normalize_candidate (normalize_candidate c) = normalize_candidate c.
Proof.
  destruct c as [n1 n2 n3 n4 n5 n6 n7 n8 n9 n10 n11 n12 n13 n14 n15]. cbv beta iota delta [normalize_candidate upd Name HistoryLimit MinHistoryLimit WarmupIntervals R900Floor OtherFloor JitterQuantile JitterMargin PreScale PostScale AuditFraction
    ChangePointScale HistoryGrowAfter WakeScaleStep MaxWakeScale].
  rewrite or_default_idem, !or_fdefault_idem by (vm_compute; congruence). f_equal.
  destruct (n3 =? 0) eqn:E; [|by rewrite E]. by destruct (Z.min 8 n2 =? 0).
Qed.

Lemma normalizeConfig_idem cfg : normalizeConfig (normalizeConfig cfg) = normalizeConfig cfg.
Proof.
  destruct cfg as [n1 n2 n3 n4 n5 n6 n7 n8 n9 n10 n11 n12 n13 n14 n15 n16 n17]. cbv beta iota delta [normalizeConfig upd cfg_Mode Senders Candidates CaptureTarget Confidence MinimumAudit RecoveryDuration RefreshInterval RefreshDuration
    PromotionMargin PromotionStability WatchdogHistory WatchdogMinIntervals WatchdogWindow WatchdogQuantile WatchdogMargin RandomSeed].
  rewrite !or_default_idem, !or_fdefault_idem by (vm_compute; congruence). f_equal. rewrite map_map. apply map_ext, normalize_candidate_idem.
Qed.

Lemma New_normalize cfg : New (normalizeConfig cfg) = New cfg.
Proof. unfold New. by rewrite normalizeConfig_idem. Qed.

(** The scheduler [New] builds. *)
Lemma New_fields cfg s : New cfg = Some s ->
  s_cfg s = normalizeConfig cfg /\ s_senders s = map new_runtime (Senders (s_cfg s)) /\
  s_candidates s = map (new_candidate (s_cfg s)) (Candidates (s_cfg s)) /\ s_protocols s = ∅ /\ NoDup (map ID (Senders (s_cfg s))).
Proof.
  unfold New. generalize (normalizeConfig cfg). intros c E. destruct (negb (valid_config c)); [done|].
  destruct (_ && _) eqn:E1 in E; [|done]. apply andb_prop in E1 as [_ E1]. apply bool_decide_eq_true in E1.
  destruct (forallb _ _) in E; [|done]. by injection E as <-.
Qed.

Lemma New_structure cfg s : New cfg = Some s -> structure_ok s.
Proof.
  intros E. destruct (New_fields cfg s E) as (E1 & E2 & E3 & _ & _). constructor.
  - exists s. split; [|done]. by rewrite E1, New_normalize.
  - rewrite E2, map_map. apply map_id.
  - rewrite E3, map_map. apply map_id.
  - rewrite E3. apply Forall_forall. intros c Hc. apply list_elem_of_In, in_map_iff in Hc as (cc & <- & _). cbn [new_candidate c_senders].
    by rewrite map_map.
Qed.

Lemma New_rest cfg s : New cfg = Some s ->
  s_lastDecision s = no_decision /\ s_reanchorPending s = ∅ /\ s_watchdogDirty s = true /\ s_nextWatchdogCheck s = 0 /\
  s_forceFullQualificationRefresh s = false.
Proof.
  unfold New. generalize (normalizeConfig cfg). intros c E. destruct (negb (valid_config c)); [done|].
  destruct (_ && _) in E; [|done]. destruct (forallb _ _) in E; [|done]. by injection E as <-.
Qed.

(** The scheduler without what a checkpoint does not keep. *)
Definition forgotten (s : Scheduler) : Scheduler :=
  leave_quiet (s <| s_senders ::= map strip_sender |> <| s_candidates ::= map strip_candidate |> <| s_selected := None |>
    <| s_lastDecision := no_decision |> <| s_reanchorPending := ∅ |> <| s_watchdogDirty := true |> <| s_nextWatchdogCheck := 0 |>
    <| s_forceFullQualificationRefresh := false |>).

Lemma restore_totals_forgotten cfg fresh s st : New cfg = Some fresh -> s_cfg fresh = s_cfg s ->
  st_LastEndNS st = s_lastEnd s -> st_Started st = s_started s -> st_RecoveryUntilNS st = s_recoveryUntil s ->
  st_DeadlineDeficits st = s_deadlineDeficits s -> st_CountDeficits st = s_countDeficits s ->
  st_Discontinuities st = s_discontinuities s -> st_RefreshUntilNS st = s_refreshUntil s -> st_NextRefreshNS st = s_nextRefresh s ->
  st_Refreshes st = s_refreshes s -> st_RNG st = s_rng s ->
  restore_totals st (s_protocols s) (map strip_candidate (s_candidates s)) (fresh <| s_senders := map strip_sender (s_senders s) |>)
    = forgotten s.
Proof.
  intros Hn Hc H1 H2 H3 H4 H5 H6 H7 H8 H9 H10. destruct (New_rest cfg fresh Hn) as (N1 & N2 & N3 & N4 & N5). clear Hn.
  unfold restore_totals. rewrite H1, H2, H3, H4, H5, H6, H7, H8, H9, H10. clear H1 H2 H3 H4 H5 H6 H7 H8 H9 H10 st.
  destruct fresh as [f1 f2 f3 f4 f5 f6 f7 f8 f9 f10 f11 f12 f13 f14 f15 f16 f17 f18 f19 f20 f21 f22 f23].
  destruct s as [v1 v2 v3 v4 v5 v6 v7 v8 v9 v10 v11 v12 v13 v14 v15 v16 v17 v18 v19 v20 v21 v22 v23].
  cbn [s_cfg s_lastDecision s_reanchorPending s_watchdogDirty s_nextWatchdogCheck s_forceFullQualificationRefresh] in *. subst.
  cbv beta iota delta [forgotten leave_quiet upd s_cfg s_candidates s_senders s_selected s_lastEnd s_started s_lastDecision s_recoveryUntil s_deadlineDeficits s_countDeficits
    s_discontinuities s_rng s_quietActive s_auditActive s_quietCandidate s_refreshUntil s_nextRefresh s_refreshes s_protocols
    s_reanchorPending s_watchdogDirty s_nextWatchdogCheck s_forceFullQualificationRefresh].
  reflexivity.
Qed.
End Apply.

(** ** The round trip *)

(** What a restored checkpoint is: nothing selected or audited, memos and pending
    re-anchors dropped; a gated scheduler in recovery, the candidates qualified anew. *)
Definition resume `{GoMath} (s : Scheduler) : Scheduler := reenter (forgotten s).

Section Roundtrip.
Context `{GoMath} `{Fingerprint}.

Lemma mapM_find_sender s (ids : list Z) : NoDup (map sender_key (s_senders s)) -> ids ≡ₚ map sender_key (s_senders s) ->
  exists todo, todo ≡ₚ s_senders s /\
    mapM (fun id => r ← find_sender id s; Some (export_sender id r)) ids = Some (map (fun r => export_sender (sender_key r) r) todo).
Proof.
  intros Hn Hp. destruct (mapM_find sender_key (s_senders s) ids export_sender Hn Hp) as (todo & Ht & _ & E). exists todo. split; [done|].
  rewrite <- E. done.
Qed.

Lemma sender_keys s : map r_cfg (s_senders s) = Senders (s_cfg s) -> map sender_key (s_senders s) = map ID (Senders (s_cfg s)).
Proof. intros <-. by rewrite map_map. Qed.
End Roundtrip.

Lemma roundtrip `{GoMath} `{Fingerprint} (s s0 : Scheduler) digest
  (Hs : restorable s) (Hcfg : s_cfg s0 = s_cfg s) (Hdigest : configSHA256 (s_cfg s) = Some digest) :
  exists st, ExportState s = Some (inr st) /\ RestoreState st s0 = (resume s, None).
Proof.
  destruct Hs as [[(fresh & Hnew & Hfresh) Hsenders Hcands Hmodels] (C1 & C2 & C3 & C4) Hst Hrng Hok Hp Hcok].
  destruct (New_fields _ _ Hnew) as (_ & F2 & F3 & F4 & F5). rewrite Hfresh in F2, F3, F5.
  pose proof (sender_keys s Hsenders) as Hkeys.
  assert (sortedSenderIDs s ≡ₚ map sender_key (s_senders s)) as Hperm by apply merge_sort_Permutation.
  destruct (mapM_find_sender s (sortedSenderIDs s)) as (todo & Ht & Es); [by rewrite Hkeys|done|].
  destruct (export_protocols_ok (s_protocols s) Hp) as (protocols & seenp & Ep & Ap).
  destruct (apply_candidates_ok (s_cfg s) (s_lastEnd s) (sortedSenderIDs s) (s_candidates s) F5) as (states & Ec & Hlc & Ac);
    [by rewrite Hperm, Hkeys|done|done|].
  unfold ExportState. rewrite Hdigest, Es. cbn [mbind option_bind]. rewrite Ep. cbn [mbind option_bind]. rewrite Ec. cbn [mbind option_bind].
  eexists. split; [reflexivity|]. set (st := {| st_Schema := _ |}). unfold RestoreState.
  assert (s_senders fresh = map fresh_sender (s_senders s)) as F2' by (rewrite F2, <- Hsenders, map_map; done).
  destruct (apply_senders_ok (s_cfg s) (s_lastEnd s) (s_senders s) todo fresh Ht) as [seen As]; [by rewrite Hkeys|done|done|done|].
  assert (check_schema st = inr tt) as -> by (unfold check_schema; by rewrite bool_decide_eq_true_2).
  assert (check_fingerprint (s_cfg s0) st = inr tt) as ->
    by (unfold check_fingerprint; rewrite Hcfg, Hdigest; cbn; by rewrite bool_decide_eq_true_2).
  rewrite Hcfg, Hnew. cbn [of_option mbind Result_bind]. enough (applyState st fresh = inr (resume s)) as -> by done.
  unfold applyState. apply reject_then.
  { unfold bad_clock. cbn [st st_LastEndNS st_RecoveryUntilNS st_RefreshUntilNS st_NextRefreshNS st_Started st_RNG].
    rewrite !(proj2 (Z.ltb_ge _ _)), (proj2 (Z.eqb_neq (s_rng s) _)) by done. destruct (s_started s); [done|]. by rewrite Hst. }
  apply reject_then.
  { cbn [st st_Senders st_Candidates]. unfold len. rewrite F2', F3, !length_map, Hlc, (Permutation_length Ht), Z.eqb_refl.
    rewrite <- Hcands, length_map, Z.eqb_refl. done. }
  eapply bind_then; [exact As|]. cbv beta iota.
  assert (s_protocols (fresh <| s_senders := map strip_sender (s_senders s) |>) = ∅) as G1 by exact F4.
  assert (s_candidates (fresh <| s_senders := map strip_sender (s_senders s) |>) =
          map (fun c => new_candidate (s_cfg s) (c_cfg c)) (s_candidates s)) as G2.
  { transitivity (s_candidates fresh); [done|]. rewrite F3, <- Hcands, map_map. done. }
  rewrite G1. eapply bind_then; [exact Ap|]. cbv beta iota. rewrite G2. eapply bind_then; [exact Ac|].
  unfold resume. by rewrite (restore_totals_forgotten _ fresh s st Hnew Hfresh).
Qed.

(** ** Restarts *)

Section Restart.
Context `{GoMath} `{Fingerprint}.

Lemma reenter_ok cfg s : stricter_promotion cfg -> s_cfg s = cfg -> 0 <= s_lastEnd s -> (s_started s = false -> s_lastEnd s = 0) ->
  Forall (cand_raw cfg (s_lastEnd s)) (s_candidates s) -> inv cfg (reenter s) /\ later s (reenter s).
Proof.
  intros Hs Hc Ht Hst Hr. unfold reenter. set (s1 := if bool_decide _ then _ else s).
  assert (later s s1 /\ s_candidates s1 = s_candidates s) as [L1 E1].
  { unfold s1. destruct (bool_decide _); [split; [apply enterRecovery_later|apply enterRecovery_candidates]|split; [apply later_refl|done]]. }
  clearbody s1. set (s2 := refreshQualifications (s_lastEnd s1) s1).
  destruct (chooseCandidate_chosen s2) as (_ & L3 & E3). pose proof (lt_end _ _ L1) as El. pose proof (lt_cfg _ _ L1) as Ec.
  assert (later s (chooseCandidate s2)) as L by (apply (later_trans _ s1); [done|]; apply (later_trans _ s2); [by constructor|done]).
  split; [|done]. constructor.
  - by rewrite (lt_cfg _ _ L).
  - rewrite (lt_end _ _ L), (lt_started _ _ L). done.
  - rewrite E3, (lt_end _ _ L), <- El. apply refreshQualifications_ok; [done|by rewrite Ec|]. by rewrite E1, El.
Qed.

Lemma requalified_recovery now s : s_recoveryUntil s <= s_recoveryUntil (chooseCandidate (refreshQualifications now s)).
Proof. exact (lt_recovery _ _ (proj1 (proj2 (chooseCandidate_chosen (refreshQualifications now s))))). Qed.

Lemma reenter_recovers s : cfg_Mode (s_cfg s) = ModeGated -> i64 (s_lastEnd s + RecoveryDuration (s_cfg s)) <= s_recoveryUntil (reenter s).
Proof.
  intros Hm. transitivity (s_recoveryUntil (enterRecovery (s_lastEnd s) s)); [by apply enterRecovery_until|].
  unfold reenter. rewrite bool_decide_eq_true_2 by done. apply requalified_recovery.
Qed.

Lemma strip_raw cfg t c : cand_ok cfg t c -> cand_raw cfg t (strip_candidate c).
Proof.
  intros [_ Ht _]. split; [|done]. constructor; [done|]. cbn. apply Forall_fmap, Forall_true. by intros [].
Qed.

Lemma forgotten_later s : later s (forgotten s).
Proof. by constructor. Qed.

Lemma resume_ok cfg s : stricter_promotion cfg -> inv cfg s -> inv cfg (resume s) /\
  (cfg_Mode cfg = ModeGated -> i64 (s_lastEnd s + RecoveryDuration cfg) <= s_recoveryUntil (resume s)).
Proof.
  intros Hs [I1 [I2 I3] I4]. pose proof (forgotten_later s) as [L1 L2 L3 _]. unfold resume. split.
  - apply reenter_ok; rewrite ?L1, ?L2, ?L3; try done.
    assert (s_candidates (forgotten s) = map strip_candidate (s_candidates s)) as -> by done. apply Forall_fmap.
    eapply Forall_impl; [exact I4|]. intros c. apply strip_raw.
  - intros Hm. rewrite <- I1, <- L1, <- L2. apply reenter_recovers. by rewrite L1, I1.
Qed.
End Restart.

(** ** Failing open, without the invariant *)

Section FailOpen.
Context `{GoMath}.

Lemma score_block_later start end_ s s' : score_block start end_ s = Some s' -> later s s'.
Proof.
  unfold score_block. set (s1 := s <| s_candidates := _ |>). assert (later s s1) as L1 by (by constructor). clearbody s1.
  intros (s2 & E2 & E)%bind_Some. apply (inj Some) in E as <-.
  assert (later s1 s2) as L2 by (destruct (_ || _) in E2; [by eapply checkWatchdogs_later|injection E2 as <-; apply later_refl]).
  apply (later_trans _ s1); [done|]. apply (later_trans _ s2); [done|]. destruct (_ || _ || _); [|apply chooseCandidate_chosen].
  apply (later_trans _ (refreshQualifications end_ s2)); [by constructor|apply chooseCandidate_chosen].
Qed.

(** A block that ends in recovery is decoded. *)
Lemma Advance_recovering start end_ s s' d : Advance start end_ s = Some (s', d) -> end_ < s_recoveryUntil s -> d_Decode d = true.
Proof.
  unfold Advance. destruct (_ || _ || _); [by intros [= _ <-]|]. set (s1 := s <| s_started := true |> <| s_lastEnd := end_ |>).
  assert (s_recoveryUntil s1 = s_recoveryUntil s) as F1 by done. clearbody s1. intros (s2 & E2 & E)%bind_Some Hend. apply (inj Some) in E.
  assert (s_recoveryUntil (end_refresh start s1) = s_recoveryUntil s1) as F2.
  { unfold end_refresh. destruct (_ && _); [|done]. by destruct (s_selected s1). }
  pose proof (lt_recovery _ _ (score_block_later _ _ _ _ E2)) as L. pose proof (decide_block_ok end_ s2) as Hd. rewrite E in Hd.
  destruct Hd as (_ & _ & _ & _ & _ & D). destruct (d_Decode d); [done|]. destruct (D eq_refl) as (_ & D2 & _). lia.
Qed.

Lemma foldR_inv {A B} (P : B -> Prop) (f : B -> A -> Result B) l : (forall b a b', P b -> f b a = inr b' -> P b') ->
  forall b b', P b -> foldR f b l = inr b' -> P b'.
Proof.
  intros Hf. induction l as [|a l IH]; intros b b' Hb E; cbn [foldR] in E; [by injection E as <-|].
  destruct (f b a) as [e|b1] eqn:E1; [done|]. by eapply IH; [eapply Hf; eauto|].
Qed.

(** A result of a bind is a result of both. *)
Lemma bind_inr {A B} (r : Result A) (k : A -> Result B) y : r ≫= k = inr y -> exists x, r = inr x /\ k x = inr y.
Proof. destruct r as [e|x]; [done|]. by exists x. Qed.

Definition recovering (cfg : Config) (s : Scheduler) : Prop :=
  s_cfg s = cfg /\ (cfg_Mode cfg = ModeGated -> i64 (s_lastEnd s + RecoveryDuration cfg) <= s_recoveryUntil s).

Lemma recovering_later cfg s s' : recovering cfg s -> later s s' -> recovering cfg s'.
Proof. intros [E Hr] [L1 L2 _ L4]. split; [congruence|]. rewrite L2. intros Hm. specialize (Hr Hm). lia. Qed.

Lemma reenter_recovering cfg s : s_cfg s = cfg -> recovering cfg (reenter s).
Proof.
  intros <-. pose proof (reenter_recovers s) as Hr. unfold reenter in *. set (s1 := if bool_decide _ then _ else s) in *.
  assert (later s s1) as L1 by (unfold s1; destruct (bool_decide _); [apply enterRecovery_later|apply later_refl]). clearbody s1.
  set (s2 := refreshQualifications _ s1) in *. assert (later s1 s2) as L2 by (by constructor). clearbody s2.
  destruct (chooseCandidate_chosen s2) as (_ & L3 & _). pose proof (later_trans _ _ _ L1 (later_trans _ _ _ L2 L3)) as L.
  split; [apply L|]. by rewrite (lt_end _ _ L).
Qed.

Lemma requalify_recovering cfg s : recovering cfg s -> recovering cfg (requalify s).
Proof.
  intros Hr. unfold requalify. set (s1 := leave_quiet _). assert (later s s1) as L1 by (by constructor). clearbody s1. cbv zeta.
  set (s2 := refreshQualifications _ s1). assert (later s1 s2) as L2 by (by constructor). clearbody s2.
  apply (recovering_later cfg s); [done|]. apply (later_trans _ s1); [done|]. apply (later_trans _ s2); [done|]. apply chooseCandidate_chosen.
Qed.
End FailOpen.

(** ** Properties *)

(** C16. A checkpoint loses no evidence: exporting a scheduler and restoring the state
    into any scheduler of the same configuration succeeds and gives back the scheduler,
    but for its memos and its selection, failing open in gated mode. *)
Theorem checkpoint_roundtrip `{GoMath} `{Fingerprint} (s s0 : Scheduler) digest
  (Hs : restorable s) (Hcfg : s_cfg s0 = s_cfg s) (Hdigest : configSHA256 (s_cfg s) = Some digest) :
  exists st, ExportState s = Some (inr st) /\ RestoreState st s0 = (resume s, None).
Proof. by eapply roundtrip. Qed.


(** The demo scheduler of one hundred and eighty seconds, when it is gated. *)
Definition demo_after (n : Z) : option Scheduler := s0 ← New demo_config; foldM (@step demo_math) s0 (demo_events n).

Lemma demo_after_Some n s : demo_after n = Some s -> exists s0, New demo_config = Some s0 /\ foldM (@step demo_math) s0 (demo_events n) = Some s.
Proof. by intros (s0 & E0 & E1)%bind_Some; exists s0. Qed.

Definition demo_fingerprint : Fingerprint := {| json_config := fun _ => Some [1; 2]; sha256 := fun b => b |}.

Lemma demo_restorable : exists s, demo_after 18 = Some s /\ restorable s.
Proof.
  eexists. split; [vm_compute; reflexivity|].
  constructor; [constructor| | | | | |];
    cbn [s_cfg s_candidates s_senders s_lastEnd s_started s_recoveryUntil s_refreshUntil s_nextRefresh s_rng s_protocols].
  - eexists. split; vm_compute; reflexivity.
  - reflexivity.
  - reflexivity.
  - repeat constructor.
  - lia.
  - done.
  - done.
  - repeat constructor; cbn; try lia; try done.
  - vm_compute. reflexivity.
  - repeat constructor; cbn; try lia; try done.
Qed.

Lemma checkpoint_roundtrip_witness :
  exists s st, demo_after 18 = Some s /\ @ExportState demo_fingerprint s = Some (inr st) /\
    @RestoreState demo_math demo_fingerprint st s = (@resume demo_math s, None).
Proof.
  destruct demo_restorable as (s & E & Hs).
  destruct (@checkpoint_roundtrip demo_math demo_fingerprint s s (str "0102") Hs eq_refl eq_refl) as (st & E1 & E2).
  exists s, st. split; [exact E|]. split; [exact E1|exact E2].
Defined.

(** C19. A process restart fails open.  When the checkpoint of a reachable scheduler
    in gated mode is restored, every block that ends within the recovery duration is
    decoded, whatever is called after the restore. *)
Theorem restart_fails_open `{GoMath} `{Fingerprint} (cfg0 : Config) s0 before s digest st other s1 after s2 start end_ s3 d
  (cfg := normalizeConfig cfg0) (Hnew : New cfg0 = Some s0) (Hstrict : stricter_promotion cfg) (Hgated : cfg_Mode cfg = ModeGated)
  (Hbefore : Forall event_ok before) (Hrun : foldM step s0 before = Some s) (Hs : restorable s) (Hother : s_cfg other = cfg)
  (Hdigest : configSHA256 cfg = Some digest) (Hexport : ExportState s = Some (inr st)) (Hrestore : RestoreState st other = (s1, None))
  (Hnow : 0 <= s_lastEnd s + RecoveryDuration cfg < 2 ^ 63) (Hafter : Forall event_ok after) (Hrun2 : foldM step s1 after = Some s2)
  (Hadvance : Advance start end_ s2 = Some (s3, d)) (Hend : end_ < s_lastEnd s + RecoveryDuration cfg) : d_Decode d = true.
Proof.
  destruct (run_ok cfg before s0 s Hstrict (New_inv cfg0 s0 Hnew) Hbefore Hrun) as [Hi _]. pose proof (iv_cfg _ _ Hi) as Hcfg.
  destruct (roundtrip s other digest Hs) as (st' & E1 & E2); [by rewrite Hcfg|by rewrite Hcfg|].
  rewrite Hexport in E1. injection E1 as <-. rewrite Hrestore in E2. injection E2 as ->.
  destruct (resume_ok cfg s Hstrict Hi) as [Hr Hu]. specialize (Hu Hgated). rewrite i64_id in Hu by lia.
  destruct (run_ok cfg after (resume s) s2 Hstrict Hr Hafter Hrun2) as [Hi2 Hmono].
  destruct (Advance_ok cfg start end_ s2 s3 d Hstrict Hi2 ltac:(lia) Hadvance) as (_ & Hmono' & Hd).
  destruct (d_Decode d) eqn:Ed; [done|]. destruct (Hd eq_refl) as (D1 & D2 & _ & _ & _ & c & Dc & _).
  unfold selected_candidate in Dc. apply bind_Some in Dc as (i & Hsel & _). destruct (D2 i Hsel) as (_ & G2 & _). lia.
Qed.

Lemma demo_gated : cfg_Mode (normalizeConfig demo_config) = ModeGated.
Proof. vm_compute. reflexivity. Qed.

Lemma demo_lastEnd s : demo_after 18 = Some s -> s_lastEnd s = 180 * second.
Proof.
  intros E. assert (s_lastEnd <$> demo_after 18 = Some (180 * second)) as F by (vm_compute; reflexivity).
  rewrite E in F. by injection F.
Qed.

Lemma demo_digest cfg : @configSHA256 demo_fingerprint cfg = Some (str "0102").
Proof. reflexivity. Qed.

Lemma demo_resumes : exists s s0 s2 d, demo_after 18 = Some s /\ New demo_config = Some s0 /\
  foldM (@step demo_math) s0 (demo_events 18) = Some s /\
  foldM (@step demo_math) (@resume demo_math s) [] = Some (@resume demo_math s) /\
  @Advance demo_math (180 * second) (180 * second + 1) (@resume demo_math s) = Some (s2, d) /\ restorable s /\
  s_cfg s = normalizeConfig demo_config.
Proof.
  assert (d_Decode <$> (s ← demo_after 18; snd <$> @Advance demo_math (180 * second) (180 * second + 1) (@resume demo_math s)) = Some true)
    as (d & Ed & _)%fmap_Some by (vm_compute; reflexivity).
  apply bind_Some in Ed as (s & E & ([s2 d'] & Ea & ->)%fmap_Some).
  destruct demo_restorable as (s' & E' & Hs). rewrite E in E'. apply (inj Some) in E' as <-.
  destruct (demo_after_Some 18 s E) as (s0 & E0 & E1).
  destruct (@run_ok demo_math (normalizeConfig demo_config) (demo_events 18) s0 s demo_strict (New_inv _ _ E0) (demo_events_ok 18 ltac:(lia)) E1)
    as [[Hcfg _ _] _].
  exists s, s0, s2, d'. split; [exact E|]. split; [exact E0|]. split; [exact E1|]. split; [reflexivity|]. split; [exact Ea|]. split; [exact Hs|exact Hcfg].
Qed.

Lemma restart_fails_open_witness :
  exists s st s1 s2 d, demo_after 18 = Some s /\ @ExportState demo_fingerprint s = Some (inr st) /\
    @RestoreState demo_math demo_fingerprint st s = (s1, None) /\
    @Advance demo_math (180 * second) (180 * second + 1) s1 = Some (s2, d) /\ d_Decode d = true.
Proof.
  destruct demo_resumes as (s & s0 & s2 & d' & E & E0 & E1 & E2 & Ea & Hs & Hcfg). pose proof (demo_lastEnd s E) as Hend.
  destruct (@roundtrip demo_math demo_fingerprint s s (str "0102") Hs eq_refl (demo_digest _)) as (st & F1 & F2).
  exists s, st, (@resume demo_math s), s2, d'. split; [exact E|]. split; [exact F1|]. split; [exact F2|]. split; [exact Ea|].
  assert (0 <= s_lastEnd s + RecoveryDuration (normalizeConfig demo_config) < 2 ^ 63) as Hnow by (rewrite Hend, demo_recovery; unfold second; lia).
  assert (180 * second + 1 < s_lastEnd s + RecoveryDuration (normalizeConfig demo_config)) as Hlt by (rewrite Hend, demo_recovery; unfold second; lia).
  exact (@restart_fails_open demo_math demo_fingerprint demo_config s0 (demo_events 18) s (str "0102") st s (@resume demo_math s) [] (@resume demo_math s)
    (180 * second) (180 * second + 1) s2 d' E0 demo_strict demo_gated (demo_events_ok 18 ltac:(lia)) E1 Hs Hcfg (demo_digest _) F1 F2 Hnow
    (List.Forall_nil _) E2 Ea Hlt).
Defined.
