(* ===== verification/DutyRestore.v ===== *)
(** Every restore of the duty scheduler, complete or legacy: all or nothing, and a
    gated scheduler fails open. *)

From S2P Require Import Prelude Float64 DutyMath Update DutyModel Scheduler SchedulerSpec DutyState DutySnapshot DutyStateSpec.

Section Restores.
Context `{GoMath} `{Fingerprint}.

(** The restores a process can start with, each with its result. *)
Inductive restore_call (s : Scheduler) : Scheduler * option state_error -> Prop :=
  | Complete st : restore_call s (RestoreState st s)
  | CaptureTargetChange st previous : restore_call s (RestoreCaptureTargetState st previous s)
  | ShadowPromotion st : restore_call s (RestoreShadowState st s)
  | Legacy snapshot : restore_call s (RestoreLegacySnapshot snapshot s).

Lemma New_cfg cfg s : New cfg = Some s -> s_cfg s = normalizeConfig cfg.
Proof. by intros (E & _)%New_fields. Qed.

Lemma apply_senders_cfg lastEnd l seen s seen' s' : foldR (apply_sender lastEnd) (seen, s) l = inr (seen', s') -> s_cfg s' = s_cfg s.
Proof.
  intros E. eapply (foldR_inv (fun acc => s_cfg (snd acc) = s_cfg s)) in E; [exact E| |done].
  clear. intros [seen1 s1] ss [seen2 s2] Hs E. cbn [apply_sender] in E. cbn [snd] in *.
  apply bind_inr in E as (r & _ & E). apply bind_inr in E as (u & _ & E). apply bind_inr in E as (r' & _ & E). by injection E as _ <-.
Qed.

Lemma applyState_recovering st s s' : applyState st s = inr s' -> recovering (s_cfg s) s'.
Proof.
  intros (u & _ & (u' & _ & ([seen s1] & E1 & ([seen2 protocols] & _ & (cands & _ & E)%bind_inr)%bind_inr)%bind_inr)%bind_inr)%bind_inr.
  apply apply_senders_cfg in E1. injection E as <-. apply reenter_recovering. by rewrite <- E1.
Qed.

Lemma legacy_senders_cfg l s s' : foldR legacy_sender s l = inr s' -> s_cfg s' = s_cfg s.
Proof.
  intros E. eapply (foldR_inv (fun acc => s_cfg acc = s_cfg s)) in E; [exact E| |done].
  clear. intros s1 [id old] s2 Hs E. cbn [legacy_sender] in E. apply bind_inr in E as (r & _ & E). by injection E as <-.
Qed.

Lemma of_option_inr {A} e (o : option A) x : of_option e o = inr x -> o = Some x.
Proof. destruct o; [by intros [= ->]|done]. Qed.

Lemma commit_cases s r s' err : commit s r = (s', err) -> (s' = s /\ exists e, err = Some e) \/ (r = inr s' /\ err = None).
Proof. destruct r as [e|x]; cbn; intros [= <- <-]; [left|right]; eauto. Qed.

(** The legacy import: the recovery of a gated scheduler, then the qualifications. *)
Lemma legacy_recovering cfg s : s_cfg s = cfg -> recovering cfg (legacy_reenter s).
Proof.
  intros <-. unfold legacy_reenter. set (s1 := if bool_decide _ then _ else s). assert (recovering (s_cfg s) s1) as Hr.
  { unfold s1. destruct (bool_decide _) eqn:E; [|by split; [|apply bool_decide_eq_false in E]].
    pose proof (enterRecovery_until (s_cfg s) (s_lastEnd s) s eq_refl) as Hu. by split. }
  clearbody s1. apply (recovering_later _ s1); [done|]. by constructor.
Qed.

Lemma restore_call_cases s s' err : restore_call s (s', err) ->
  (s' = s /\ exists e, err = Some e) \/ (err = None /\ recovering (normalizeConfig (s_cfg s)) s').
Proof.
  remember (s', err) as p eqn:Ep. intros Hc. destruct Hc.
  - apply commit_cases in Ep as [?|[E ->]]; [by left|right]. split; [done|].
    apply bind_inr in E as (u & _ & E). apply bind_inr in E as (u' & _ & E). apply bind_inr in E as (s0 & E0%of_option_inr & E).
    apply applyState_recovering in E. by rewrite (New_cfg _ _ E0) in E.
  - apply commit_cases in Ep as [?|[E ->]]; [by left|right]. split; [done|].
    apply bind_inr in E as (u & _ & E). apply bind_inr in E as (p0 & _ & E). apply bind_inr in E as (u' & _ & E).
    apply bind_inr in E as (s0 & E0%of_option_inr & E). apply bind_inr in E as (s1 & E1 & E). injection E as <-.
    apply requalify_recovering. apply applyState_recovering in E1. by rewrite (New_cfg _ _ E0) in E1.
  - apply commit_cases in Ep as [?|[E ->]]; [by left|right]. split; [done|].
    apply bind_inr in E as (u & _ & E). apply bind_inr in E as (u1 & _ & E). apply bind_inr in E as (u' & _ & E).
    apply bind_inr in E as (s0 & E0%of_option_inr & E). apply applyState_recovering in E. by rewrite (New_cfg _ _ E0) in E.
  - apply commit_cases in Ep as [?|[E ->]]; [by left|right]. split; [done|].
    apply bind_inr in E as (u & _ & E). apply bind_inr in E as (s0 & E0%of_option_inr & E).
    apply bind_inr in E as (s1 & E1 & E). apply bind_inr in E as (cands & _ & E). injection E as <-.
    apply legacy_recovering. rewrite <- (New_cfg _ _ E0), <- (legacy_senders_cfg _ _ _ E1). done.
Qed.
End Restores.

(** C25. Restores are all or nothing, and a successful one fails open.  A restore that
    reports an error leaves the scheduler as it was; one that does not keeps its
    configuration, and in gated mode decodes every block that ends before the recovery
    duration has passed, counted from the restored sample time. *)
Theorem restore_all_or_nothing `{GoMath} `{Fingerprint} (s s' : Scheduler) (err : option state_error)
  (Hrestore : restore_call s (s', err)) :
  match err with
  | Some _ => s' = s
  | None => s_cfg s' = normalizeConfig (s_cfg s) /\
      (cfg_Mode (s_cfg s') = ModeGated -> forall start end_ s2 d, Advance start end_ s' = Some (s2, d) ->
         end_ < i64 (s_lastEnd s' + RecoveryDuration (s_cfg s')) -> d_Decode d = true)
  end.
Proof.
  destruct (restore_call_cases s s' err Hrestore) as [[-> (e & ->)]|[-> [Hc Hr]]]; [done|]. split; [done|].
  intros Hm start end_ s2 d E Hend. rewrite Hc in Hm, Hend. specialize (Hr Hm).
  apply (Advance_recovering start end_ s' s2 d E). lia.
Qed.

(** A state of another schema is refused. *)
Lemma restore_all_or_nothing_witness :
  exists s st, demo_after 18 = Some s /\ @RestoreState demo_math demo_fingerprint st s = (s, Some (ErrStateSchemaMismatch (str "v1"))).
Proof.
  destruct demo_restorable as (s & E & _).
  set (st := {| st_Schema := str "v1"; st_ConfigSHA256 := []; st_LastEndNS := 0; st_Started := false; st_RecoveryUntilNS := 0;
    st_DeadlineDeficits := 0; st_CountDeficits := 0; st_Discontinuities := 0; st_RefreshUntilNS := 0; st_NextRefreshNS := 0;
    st_Refreshes := 0; st_RNG := 1; st_Senders := []; st_Candidates := []; st_Protocols := [] |}).
  exists s, st. split; [exact E|]. destruct (@RestoreState demo_math demo_fingerprint st s) as [s' err] eqn:Er.
  pose proof (@restore_all_or_nothing demo_math demo_fingerprint s s' err) as Ht. rewrite <- Er in Ht.
  specialize (Ht (@Complete demo_math demo_fingerprint s st)). cbn in Er. injection Er as E1 E2. subst err. f_equal. exact Ht.
Defined.
