(* ===== verification/DutyRuntime.v ===== *)
(** The runtime of the duty scheduler (src/duty_runtime.go): the sample clock, the
    collar of recent raw blocks that a skipped run is replayed from, the counters, the
    estimate of the remaining time to trust, and the report.  Wall-clock times are
    nanoseconds, the zero time is [None]; the text of a time is a parameter.  The collar
    holds values: with the kernel ring a block's bytes belong to the source, which
    keeps as many blocks as [useBorrowedCollar] asks for.  [None] is a run-time panic. *)

From stdpp Require Import sorting.
From S2P Require Import Prelude Float64 Packet DutyMath Update DutyModel Scheduler DutyDefaults DutyState DutySnapshot.

(** [a / b] and [a % b] of int64. *)
Definition go_quot (a b : Z) : option Z := if b =? 0 then None else Some (i64 (Z.quot a b)).
Definition go_rem (a b : Z) : option Z := if b =? 0 then None else Some (Z.rem a b).

Definition dutyCollarDuration : Z := 100 * millisecond.

Definition warmup_blocks (cfg : PacketConfig) : option Z := go_quot (i64 (i64 (BufferLength cfg + BlockSize cfg) - 1)) (BlockSize cfg).

Definition dutyCollarBlockCount (cfg : PacketConfig) : option Z :=
  let span := i64 (second * BlockSize cfg) in
  collarBlocks ← go_quot (i64 (i64 (i64 (SampleRate cfg * dutyCollarDuration) + span) - 1)) span;
  warmupBlocks ← warmup_blocks cfg;
  Some (if collarBlocks <=? warmupBlocks then i64 (warmupBlocks + 1) else collarBlocks).

Record dutyCollarBlock := {
  cb_data : list Z; cb_sampleStart : Z; cb_sampleEnd : Z; cb_wallTime : option Z; cb_decoded : bool; cb_rawValid : bool }.

(** [dutyCollarBlock{}] with its buffer. *)
Definition empty_block (blockBytes : Z) : dutyCollarBlock :=
  {| cb_data := make blockBytes 0; cb_sampleStart := 0; cb_sampleEnd := 0; cb_wallTime := None; cb_decoded := false; cb_rawValid := false |}.

Record dutyResumeInfo := {
  ri_Status : list Z; ri_SourceFile : list Z; ri_SourceSHA256 : list Z; ri_SourceSchema : list Z; ri_SourceCreatedUTC : list Z;
  ri_SourceSequence : Z; ri_SkippedCheckpoints : Z; ri_PendingReceipt : bool }.
#[export] Instance dutyResumeInfo_settable : Settable dutyResumeInfo := fun r =>
  Build_dutyResumeInfo (ri_Status r) (ri_SourceFile r) (ri_SourceSHA256 r) (ri_SourceSchema r) (ri_SourceCreatedUTC r)
    (ri_SourceSequence r) (ri_SkippedCheckpoints r) (ri_PendingReceipt r).

Definition fresh_resume (status : list Z) : dutyResumeInfo :=
  {| ri_Status := status; ri_SourceFile := []; ri_SourceSHA256 := []; ri_SourceSchema := []; ri_SourceCreatedUTC := [];
     ri_SourceSequence := 0; ri_SkippedCheckpoints := 0; ri_PendingReceipt := false |}.

(** The fields that copy settings of the scheduler's configuration (capture target,
    confidence, audit, recovery, refresh, promotion, watchdog) are set once, with it:
    they are read off [rt_schedulerConfig]. *)
Record dutyRuntime := {
  rt_mode : Mode; rt_scheduler : Scheduler; rt_schedulerConfig : Config; rt_senderIDs : gset Z;
  rt_sampleRate : Z; rt_blockSamples : Z; rt_blockBytes : Z; rt_sampleTime : Z; rt_sampleRemainder : Z;
  rt_collar : list dutyCollarBlock; rt_collarCount : Z; rt_collarNext : Z; rt_warmupBlocks : Z; rt_borrowRaw : bool;
  rt_wasSkipped : bool; rt_skippedRun : Z;
  rt_decodedBlocks : Z; rt_skippedBlocks : Z; rt_auditedBlocks : Z; rt_refreshBlocks : Z; rt_rebuilds : Z; rt_replayedBlocks : Z;
  rt_startedUTC : Z; rt_checkpointDir : list Z; rt_checkpointInterval : Z; rt_nextCheckpointUTC : option Z;
  rt_checkpointSequence : Z; rt_checkpointFailures : Z; rt_resume : dutyResumeInfo }.
#[export] Instance dutyRuntime_settable : Settable dutyRuntime := fun d =>
  Build_dutyRuntime (rt_mode d) (rt_scheduler d) (rt_schedulerConfig d) (rt_senderIDs d)
    (rt_sampleRate d) (rt_blockSamples d) (rt_blockBytes d) (rt_sampleTime d) (rt_sampleRemainder d)
    (rt_collar d) (rt_collarCount d) (rt_collarNext d) (rt_warmupBlocks d) (rt_borrowRaw d)
    (rt_wasSkipped d) (rt_skippedRun d)
    (rt_decodedBlocks d) (rt_skippedBlocks d) (rt_auditedBlocks d) (rt_refreshBlocks d) (rt_rebuilds d) (rt_replayedBlocks d)
    (rt_startedUTC d) (rt_checkpointDir d) (rt_checkpointInterval d) (rt_nextCheckpointUTC d)
    (rt_checkpointSequence d) (rt_checkpointFailures d) (rt_resume d).

(** ** The estimate *)

Record dutySenderETA := {
  se_ID : Z; se_Protocol : list Z; se_EligibleEvents : Z; se_WouldMiss : Z; se_RequiredEligibleEvents : Z;
  se_RemainingEligibleEvents : Z; se_EligibleEventsPerHour : f64; se_EstimatedRemainingSeconds : option f64 }.

Record dutyCandidateETA := {
  ce_Name : list Z; ce_Status : list Z; ce_EstimatedRemainingSeconds : option f64; ce_LimitingSenderID : Z; ce_Senders : list dutySenderETA }.
#[export] Instance dutyCandidateETA_settable : Settable dutyCandidateETA := fun c =>
  Build_dutyCandidateETA (ce_Name c) (ce_Status c) (ce_EstimatedRemainingSeconds c) (ce_LimitingSenderID c) (ce_Senders c).

Record dutyTrustETA := {
  te_Status : list Z; te_Assumption : list Z; te_Candidate : list Z; te_LimitingSenderID : Z; te_EstimatedRemainingSeconds : option f64;
  te_EstimatedReadyUTC : list Z; te_Candidates : list dutyCandidateETA }.
#[export] Instance dutyTrustETA_settable : Settable dutyTrustETA := fun t =>
  Build_dutyTrustETA (te_Status t) (te_Assumption t) (te_Candidate t) (te_LimitingSenderID t) (te_EstimatedRemainingSeconds t)
    (te_EstimatedReadyUTC t) (te_Candidates t).

(** ** The report *)

Record dutyRuntimeReport := {
  rp_Schema : list Z; rp_CreatedUTC : list Z; rp_SessionStartedUTC : list Z; rp_ReportKind : list Z; rp_CheckpointSequence : Z;
  rp_CheckpointFailures : Z; rp_Mode : Mode; rp_CaptureTarget : f64; rp_Confidence : f64; rp_MinimumAudit : f64;
  rp_RecoveryDurationNS : Z; rp_RefreshIntervalNS : Z; rp_RefreshDurationNS : Z; rp_PromotionMargin : f64; rp_PromotionStabilityNS : Z;
  rp_WatchdogHistory : Z; rp_WatchdogMinIntervals : Z; rp_WatchdogWindowNS : Z; rp_WatchdogQuantile : f64; rp_WatchdogMargin : f64;
  rp_SenderIDs : list Z; rp_SampleRate : Z; rp_BlockSamples : Z;
  rp_BlockBytes : Z; rp_CollarBlocks : Z; rp_WarmupBlocks : Z; rp_SampleRemainder : Z; rp_DecodedBlocks : Z; rp_SkippedBlocks : Z;
  rp_AuditedBlocks : Z; rp_RefreshBlocks : Z; rp_Rebuilds : Z; rp_ReplayedBlocks : Z; rp_TrustETA : dutyTrustETA;
  rp_Snapshot : Snapshot; rp_Resume : dutyResumeInfo; rp_SchedulerState : State }.

Section Runtime.
Context `{GoMath} `{Fingerprint}.
(** The text of a time, the order in which Go walks the senders of candidate [i], and
    the encoding and storing of a report (encoding/json and the files of package os):
    whether it succeeds. *)
Context (RFC3339Nano : Z -> list Z) (walk_senders : nat -> gmap Z SenderSnapshot -> list (Z * SenderSnapshot))
  (store_report : dutyRuntimeReport -> bool).

(** ** Construction *)

Definition fresh_runtime (now : Z) (cfg : PacketConfig) (ids : list Z) (schedulerConfig : Config) (scheduler : Scheduler)
    (collarBlocks warmupBlocks : Z) : dutyRuntime :=
  {| rt_mode := cfg_Mode schedulerConfig; rt_scheduler := scheduler; rt_schedulerConfig := Configuration scheduler;
     rt_senderIDs := list_to_set ids; rt_sampleRate := SampleRate cfg; rt_blockSamples := BlockSize cfg;
     rt_blockBytes := BlockSize2 cfg; rt_sampleTime := 0; rt_sampleRemainder := 0;
     rt_collar := make collarBlocks (empty_block (BlockSize2 cfg)); rt_collarCount := 0; rt_collarNext := 0;
     rt_warmupBlocks := warmupBlocks; rt_borrowRaw := false; rt_wasSkipped := false; rt_skippedRun := 0;
     rt_decodedBlocks := 0; rt_skippedBlocks := 0; rt_auditedBlocks := 0; rt_refreshBlocks := 0; rt_rebuilds := 0;
     rt_replayedBlocks := 0; rt_startedUTC := now; rt_checkpointDir := []; rt_checkpointInterval := 0;
     rt_nextCheckpointUTC := None; rt_checkpointSequence := 0; rt_checkpointFailures := 0; rt_resume := fresh_resume (str "FRESH") |}.

(** [newDutyRuntimeWithConfig]; [now] is the wall clock. *)
Definition newDutyRuntimeWithConfig (now : Z) (cfg : PacketConfig) (ids : list Z) (schedulerConfig : Config)
  : option (Result dutyRuntime) :=
  match New schedulerConfig with
  | None => Some (inl ErrNew)
  | Some scheduler =>
      if (SampleRate cfg <=? 0) || (BlockSize cfg <=? 0) || (BlockSize2 cfg <=? 0) || (BufferLength cfg <=? 0)
      then Some (inl (ErrInvalid (str "dutyscheduler: invalid decoder geometry"))) else
      collarBlocks ← dutyCollarBlockCount cfg;
      warmupBlocks ← warmup_blocks cfg;
      if collarBlocks <? 0 then None else
      Some (inr (fresh_runtime now cfg ids schedulerConfig scheduler collarBlocks warmupBlocks))
  end.

(** [newDutyRuntimeWithCaptureTarget]: no runtime when the scheduler is off. *)
Definition newDutyRuntimeWithCaptureTarget (now : Z) (modeText : list Z) (cfg : PacketConfig) (ids : list Z) (captureTarget : f64)
  : option (Result (option dutyRuntime)) :=
  if bool_decide (modeText = ModeOff) then Some (inr None) else
  r ← newDutyRuntimeWithConfig now cfg ids ((DefaultConfig modeText ids) <| CaptureTarget := captureTarget |>);
  Some (match r with inl e => inl e | inr d => inr (Some d) end).

(** [newDutyRuntime] *)
Definition newDutyRuntime (now : Z) (modeText : list Z) (cfg : PacketConfig) (ids : list Z) : option (Result (option dutyRuntime)) :=
  newDutyRuntimeWithCaptureTarget now modeText cfg ids (CaptureTarget (DefaultConfig modeText ids)).

Definition without_data (b : dutyCollarBlock) : dutyCollarBlock :=
  {| cb_data := []; cb_sampleStart := cb_sampleStart b; cb_sampleEnd := cb_sampleEnd b; cb_wallTime := cb_wallTime b;
     cb_decoded := cb_decoded b; cb_rawValid := cb_rawValid b |}.

(** [useBorrowedCollar]: from then on blocks are kept by reference. *)
Definition useBorrowedCollar (retainedBlocks : Z) (d : dutyRuntime) : Result dutyRuntime :=
  if retainedBlocks <? len (rt_collar d) then inl (ErrInvalid (str "dutyscheduler: source retains too few blocks"))
  else inr (d <| rt_collar ::= map without_data |> <| rt_borrowRaw := true |>).

(** ** One block *)

(** The clock of [beginBlock]: nanoseconds, and the remainder in units of 1/rate. *)
Definition tick_clock (d : dutyRuntime) : option dutyRuntime :=
  let numerator := i64 (i64 (rt_blockSamples d * second) + rt_sampleRemainder d) in
  delta ← go_quot numerator (rt_sampleRate d);
  remainder ← go_rem numerator (rt_sampleRate d);
  Some (d <| rt_sampleRemainder := remainder |> <| rt_sampleTime := i64 (rt_sampleTime d + delta) |>).

(** [beginBlock] *)
Definition beginBlock (d : dutyRuntime) : option (dutyRuntime * Z * Z * Decision) :=
  let start := rt_sampleTime d in
  d ← tick_clock d;
  '(scheduler, decision) ← Advance start (rt_sampleTime d) (rt_scheduler d);
  Some (d <| rt_scheduler := scheduler |>, start, rt_sampleTime d, decision).

(** [needsRebuild] *)
Definition needsRebuild (d : dutyRuntime) (decision : Decision) : bool :=
  bool_decide (rt_mode d = ModeGated) && rt_wasSkipped d && d_Decode decision.

(** The collar entry of a block. *)
Definition fill_entry (borrowRaw : bool) (block : list Z) (start end_ : Z) (wallTime : option Z) (decision : Decision)
    (entry : dutyCollarBlock) : dutyCollarBlock :=
  {| cb_data := if d_Decode decision then (if borrowRaw then [] else cb_data entry)
                else if borrowRaw then block else gocopy (cb_data entry) block;
     cb_sampleStart := start; cb_sampleEnd := end_; cb_wallTime := wallTime; cb_decoded := d_Decode decision;
     cb_rawValid := negb (d_Decode decision) |}.

Definition store_block (block : list Z) (start end_ : Z) (wallTime : option Z) (decision : Decision) (d : dutyRuntime) : option dutyRuntime :=
  entry ← index (rt_collar d) (rt_collarNext d);
  collar ← store (rt_collar d) (rt_collarNext d) (fill_entry (rt_borrowRaw d) block start end_ wallTime decision entry);
  let next := rt_collarNext d + 1 in
  Some (d <| rt_collar := collar |> <| rt_collarNext := if next =? len collar then 0 else next |>
          <| rt_collarCount := if rt_collarCount d <? len collar then rt_collarCount d + 1 else rt_collarCount d |>).

Definition count_block (decision : Decision) (d : dutyRuntime) : dutyRuntime :=
  let d := if d_Decode decision then d <| rt_decodedBlocks := u64 (rt_decodedBlocks d + 1) |> <| rt_skippedRun := 0 |>
           else d <| rt_skippedBlocks := u64 (rt_skippedBlocks d + 1) |> <| rt_skippedRun := i64 (rt_skippedRun d + 1) |> in
  let d := if d_Audit decision then d <| rt_auditedBlocks := u64 (rt_auditedBlocks d + 1) |> else d in
  let d := if d_Refresh decision then d <| rt_refreshBlocks := u64 (rt_refreshBlocks d + 1) |> else d in
  d <| rt_wasSkipped := negb (d_Decode decision) |>.

(** [finishBlock] *)
Definition finishBlock (block : list Z) (start end_ : Z) (wallTime : option Z) (decision : Decision) (d : dutyRuntime) : option dutyRuntime :=
  d ← store_block block start end_ wallTime decision d;
  Some (count_block decision d).

(** [orderedCollar]: oldest first. *)
Definition orderedCollar (d : dutyRuntime) : option (list dutyCollarBlock) :=
  let start := rt_collarNext d - rt_collarCount d in
  let start := if start <? 0 then start + len (rt_collar d) else start in
  mapM (fun offset =>
    let idx := start + offset in
    index (rt_collar d) (if len (rt_collar d) <=? idx then idx - len (rt_collar d) else idx)) (seqZ 0 (rt_collarCount d)).

(** [observe] and [observeEscape] of the runtime: only senders of the inventory. *)
Definition rt_observe (escaped : bool) (id : Z) (protocolName : list Z) (at_ : Z) (d : dutyRuntime) : option dutyRuntime :=
  if decide (id ∈ rt_senderIDs d) then
    scheduler ← (if escaped then ObserveEscape else Observe) id protocolName at_ (rt_scheduler d);
    Some (d <| rt_scheduler := scheduler |>)
  else Some d.

Definition recordRebuild (replayed : Z) (d : dutyRuntime) : dutyRuntime :=
  d <| rt_rebuilds := u64 (rt_rebuilds d + 1) |> <| rt_replayedBlocks := u64 (rt_replayedBlocks d + u64 replayed) |>.

(** ** [trustETA] *)

Definition senderETA_le (a b : dutySenderETA) : Prop := se_ID a <= se_ID b.
#[local] Instance senderETA_le_dec : RelDecision senderETA_le.
Proof. unfold RelDecision, senderETA_le. apply _. Defined.

(** One sender of a candidate: whether all rates are known, the longest wait, its
    sender, the estimates. *)
Definition sender_eta (c : CandidateSnapshot) (st : bool * f64 * Z * list dutySenderETA) (entry : Z * SenderSnapshot)
  : bool * f64 * Z * list dutySenderETA :=
  let '(known, longest, limiting, etas) := st in
  let '(id, sender) := entry in
  let rate := if 0 <? cn_EligibleDurationNS c then
      fdiv (fmul (f64_of_int (sn_EligibleEvents sender)) (f64_of_int hour)) (f64_of_int (cn_EligibleDurationNS c)) else fzero in
  let eta estimate :=
    {| se_ID := id; se_Protocol := sn_Protocol sender; se_EligibleEvents := sn_EligibleEvents sender; se_WouldMiss := sn_WouldMiss sender;
       se_RequiredEligibleEvents := sn_RequiredEligibleEvents sender; se_RemainingEligibleEvents := sn_RemainingEligibleEvents sender;
       se_EligibleEventsPerHour := rate; se_EstimatedRemainingSeconds := estimate |} in
  if sn_RemainingEligibleEvents sender =? 0 then (known, longest, limiting, etas ++ [eta (Some fzero)])
  else if fgt rate fzero then
    let seconds := fmul (fdiv (f64_of_int (sn_RemainingEligibleEvents sender)) rate) (f64_of_int (hour / second)) in
    if fgt seconds longest then (known, seconds, id, etas ++ [eta (Some seconds)])
    else (known, longest, limiting, etas ++ [eta (Some seconds)])
  else (false, longest, limiting, etas ++ [eta None]).

(** The estimate so far, and the best time when one is set. *)
Definition settle (status : list Z) (now : Z) (c : CandidateSnapshot) (t : dutyTrustETA) : dutyTrustETA :=
  t <| te_Status := status |> <| te_Candidate := cn_Name c |> <| te_EstimatedRemainingSeconds := Some fzero |>
    <| te_EstimatedReadyUTC := RFC3339Nano now |>.

Definition QUALIFIED : list Z := str "QUALIFIED".
Definition CONTRACT_QUALIFIED : list Z := str "CONTRACT_QUALIFIED".

Definition candidate_eta (now : Z) (st : dutyTrustETA * option f64) (ic : nat * CandidateSnapshot) : dutyTrustETA * option f64 :=
  let '(result, best) := st in
  let '(i, c) := ic in
  let '(known, longest, limiting, etas) :=
    foldl (sender_eta c) (cn_Eligible c && (0 <? cn_EligibleDurationNS c), fzero, 0, []) (walk_senders i (cn_Senders c)) in
  let eta := {| ce_Name := cn_Name c; ce_Status := str "LEARNING"; ce_EstimatedRemainingSeconds := None; ce_LimitingSenderID := limiting;
                ce_Senders := merge_sort senderETA_le etas |} in
  let push (result : dutyTrustETA) eta := result <| te_Candidates ::= fun l => l ++ [eta] |> in
  if cn_Invalid c then (push result (eta <| ce_Status := str "INVALID" |>), best)
  else if cn_Qualified c then
    (push (if negb (bool_decide (te_Status result = QUALIFIED)) then settle QUALIFIED now c result else result)
       (eta <| ce_Status := QUALIFIED |> <| ce_EstimatedRemainingSeconds := Some fzero |>), best)
  else if cn_ContractQualified c then
    (push (if negb (bool_decide (te_Status result = QUALIFIED)) && negb (bool_decide (te_Status result = CONTRACT_QUALIFIED))
           then settle CONTRACT_QUALIFIED now c result else result)
       (eta <| ce_Status := CONTRACT_QUALIFIED |> <| ce_EstimatedRemainingSeconds := Some fzero |>), best)
  else if known && finite longest then
    let eta := eta <| ce_Status := str "ESTIMATING" |> <| ce_EstimatedRemainingSeconds := Some longest |> in
    if negb (bool_decide (te_Status result = QUALIFIED)) && negb (bool_decide (te_Status result = CONTRACT_QUALIFIED)) &&
       match best with None => true | Some seconds => flt longest seconds end
    then (push (result <| te_Status := str "ESTIMATING" |> <| te_Candidate := cn_Name c |> <| te_LimitingSenderID := limiting |>
                  <| te_EstimatedRemainingSeconds := Some longest |>
                  <| te_EstimatedReadyUTC := RFC3339Nano (now + int64_of (fmul longest (f64_of_int second))) |>) eta, Some longest)
    else (push result eta, best)
  else (push result eta, best).

Definition trustETA (snapshot : Snapshot) (now : Z) : dutyTrustETA :=
  fst (foldl (candidate_eta now)
    ({| te_Status := str "LEARNING";
        te_Assumption := str "conditional estimate if no additional scheduler would-misses occur; qualification uses actual observations";
        te_Candidate := []; te_LimitingSenderID := 0; te_EstimatedRemainingSeconds := None; te_EstimatedReadyUTC := []; te_Candidates := [] |}, None)
    (imap pair (sp_Candidates snapshot))).

(** ** Reports and checkpoints *)

Definition sorted_ids (d : dutyRuntime) : list Z := merge_sort Z.le (elements (rt_senderIDs d)).

(** [makeReport]: taking the snapshot leaves its memos in the scheduler. *)
Definition makeReport (now : Z) (kind : list Z) (d : dutyRuntime) : option (dutyRuntime * Result dutyRuntimeReport) :=
  '(scheduler, snapshot) ← take_snapshot (rt_scheduler d);
  let d := d <| rt_scheduler := scheduler |> in
  exported ← ExportState scheduler;
  let cfg := rt_schedulerConfig d in
  Some (d, state ← exported;
    inr {| rp_Schema := str "rtlamr-duty-scheduler-live-v4"; rp_CreatedUTC := RFC3339Nano now;
           rp_SessionStartedUTC := RFC3339Nano (rt_startedUTC d); rp_ReportKind := kind;
           rp_CheckpointSequence := rt_checkpointSequence d; rp_CheckpointFailures := rt_checkpointFailures d; rp_Mode := rt_mode d;
           rp_CaptureTarget := CaptureTarget cfg; rp_Confidence := Confidence cfg; rp_MinimumAudit := MinimumAudit cfg;
           rp_RecoveryDurationNS := RecoveryDuration cfg; rp_RefreshIntervalNS := RefreshInterval cfg;
           rp_RefreshDurationNS := RefreshDuration cfg; rp_PromotionMargin := PromotionMargin cfg;
           rp_PromotionStabilityNS := PromotionStability cfg; rp_WatchdogHistory := WatchdogHistory cfg;
           rp_WatchdogMinIntervals := WatchdogMinIntervals cfg; rp_WatchdogWindowNS := WatchdogWindow cfg;
           rp_WatchdogQuantile := WatchdogQuantile cfg; rp_WatchdogMargin := WatchdogMargin cfg;
           rp_SenderIDs := sorted_ids d; rp_SampleRate := rt_sampleRate d; rp_BlockSamples := rt_blockSamples d;
           rp_BlockBytes := rt_blockBytes d; rp_CollarBlocks := len (rt_collar d); rp_WarmupBlocks := rt_warmupBlocks d;
           rp_SampleRemainder := rt_sampleRemainder d; rp_DecodedBlocks := rt_decodedBlocks d; rp_SkippedBlocks := rt_skippedBlocks d;
           rp_AuditedBlocks := rt_auditedBlocks d; rp_RefreshBlocks := rt_refreshBlocks d; rp_Rebuilds := rt_rebuilds d;
           rp_ReplayedBlocks := rt_replayedBlocks d; rp_TrustETA := trustETA snapshot now; rp_Snapshot := snapshot;
           rp_Resume := rt_resume d; rp_SchedulerState := state |}).

(** [writeCheckpoint]: the runtime, and whether there was no error. *)
Definition writeCheckpoint (now : Z) (kind : list Z) (d : dutyRuntime) : option (dutyRuntime * bool) :=
  '(d, report) ← makeReport now kind (d <| rt_checkpointSequence := u64 (rt_checkpointSequence d + 1) |>);
  Some (d, match report with inl _ => false | inr report => store_report report end).

(** [maybeCheckpoint] *)
Definition maybeCheckpoint (now : Z) (d : dutyRuntime) : option (dutyRuntime * bool) :=
  if bool_decide (rt_checkpointDir d = []) then Some (d, true) else
  if match rt_nextCheckpointUTC d with Some next => now <? next | None => false end then Some (d, true) else
  let kind := if ri_PendingReceipt (rt_resume d) then str "resume"
              else if rt_checkpointSequence d =? 0 then str "startup" else str "hourly" in
  '(d, ok) ← writeCheckpoint now kind d;
  if (ok : bool) then
    Some (d <| rt_resume ::= fun r => r <| ri_PendingReceipt := false |> |>
            <| rt_nextCheckpointUTC := Some (now + rt_checkpointInterval d) |>, true)
  else Some (d <| rt_checkpointFailures := u64 (rt_checkpointFailures d + 1) |> <| rt_nextCheckpointUTC := Some (now + 5 * minute) |>, false).

(** [writeFinalCheckpoint] *)
Definition writeFinalCheckpoint (now : Z) (d : dutyRuntime) : option (dutyRuntime * bool) :=
  if bool_decide (rt_checkpointDir d = []) then Some (d, true) else writeCheckpoint now (str "final") d.
End Runtime.
