(* ===== verification/DutyCheckpoint.v ===== *)
(** Resuming from the checkpoints of a directory (src/duty_checkpoint.go): which files
    are read, how a report is checked against the runtime and restored into a fresh
    scheduler, and which session is resumed.  The files, their JSON and the parsing of
    times are parameters.  [None] is a run-time panic. *)

From stdpp Require Import sorting.
From S2P Require Import Prelude Float64 Packet DutyMath Update DutyModel Scheduler DutyDefaults DutyState DutySnapshot DutyRuntime.

Definition dutyCheckpointMaxBytes : Z := 4 * 2 ^ 20.

(** ** The sample clock of a number of blocks *)

Definition dutySampleClock (blocks blockSamples sampleRate : Z) : Result (Z * Z) :=
  if (blockSamples <=? 0) || (sampleRate <=? 0) || (max_i64 / second <? blockSamples)
  then inl (ErrInvalid (str "dutyscheduler: invalid sample geometry")) else
  let numerator := i64 (blockSamples * second) in
  let whole := Z.quot numerator sampleRate in
  let remainderPerBlock := Z.rem numerator sampleRate in
  if (max_i64 <? blocks) || (whole <? 0) || ((0 <? whole) && (Z.quot max_i64 whole <? blocks)) ||
     ((0 <? remainderPerBlock) && (Z.quot max_i64 remainderPerBlock <? blocks))
  then inl (ErrInvalid (str "dutyscheduler: sample clock overflow")) else
  let remainderProduct := i64 (i64 blocks * remainderPerBlock) in
  let nanoseconds := i64 (i64 (i64 blocks * whole) + Z.quot remainderProduct sampleRate) in
  if nanoseconds <? 0 then inl (ErrInvalid (str "dutyscheduler: sample clock overflow"))
  else inr (nanoseconds, Z.rem remainderProduct sampleRate).

(** ** Evidence *)

Definition minimum_events (senders : gmap Z SenderSnapshot) : Z :=
  map_fold (fun _ s minimum => if sn_EligibleEvents s <? minimum then sn_EligibleEvents s else minimum) max_u64 senders.

Definition dutyEvidenceCount (snapshot : Snapshot) : Z :=
  foldl (fun best c =>
    if bool_decide (size (cn_Senders c) = 0%nat) then best else
    let minimum := minimum_events (cn_Senders c) in
    if negb (minimum =? max_u64) && (best <? minimum) then minimum else best) 0 (sp_Candidates snapshot).

Definition compatible_modes (source target : Mode) : bool :=
  bool_decide (target = source) || (bool_decide (source = ModeShadow) && bool_decide (target = ModeGated)).

Definition same_observed (restored : gmap Z ObservedSenderSnapshot) (entry : Z * ObservedSenderSnapshot) : bool :=
  match restored !! entry.1 with
  | None => false
  | Some got => (on_Observations got =? on_Observations entry.2) && (on_DeadlineDeficits got =? on_DeadlineDeficits entry.2) &&
                (on_CountDeficits got =? on_CountDeficits entry.2)
  end.

Definition same_evidence_counts (restored : gmap Z SenderSnapshot) (entry : Z * SenderSnapshot) : bool :=
  match restored !! entry.1 with
  | None => false
  | Some got => (sn_EligibleEvents got =? sn_EligibleEvents entry.2) && (sn_WouldMiss got =? sn_WouldMiss entry.2)
  end.

Definition same_candidate_evidence (got want : CandidateSnapshot) : bool :=
  bool_decide (cn_Name got = cn_Name want) && (cn_HistoryLimit got =? cn_HistoryLimit want) && eqb (cn_Invalid got) (cn_Invalid want) &&
  (cn_TotalDurationNS got =? cn_TotalDurationNS want) && (cn_TotalAwakeDurationNS got =? cn_TotalAwakeDurationNS want) &&
  (cn_EligibleDurationNS got =? cn_EligibleDurationNS want) && (cn_AwakeDurationNS got =? cn_AwakeDurationNS want) &&
  bool_decide (size (cn_Senders got) = size (cn_Senders want)) &&
  forallb (same_evidence_counts (cn_Senders got)) (map_to_list (cn_Senders want)).

Definition dutyCheckpointEvidenceMatches (restored source : Snapshot) : bool :=
  compatible_modes (sp_Mode source) (sp_Mode restored) && (sp_SampleTimeNS restored =? sp_SampleTimeNS source) &&
  (sp_DeadlineDeficits restored =? sp_DeadlineDeficits source) && (sp_CountDeficits restored =? sp_CountDeficits source) &&
  bool_decide (size (sp_ObservedSenders restored) = size (sp_ObservedSenders source)) &&
  (len (sp_Candidates restored) =? len (sp_Candidates source)) &&
  forallb (same_observed (sp_ObservedSenders restored)) (map_to_list (sp_ObservedSenders source)) &&
  forallb (fun '(got, want) => same_candidate_evidence got want) (zip (sp_Candidates restored) (sp_Candidates source)).

(** ** One checkpoint *)

Record dutyCheckpointCandidate := {
  dc_path : list Z; dc_sha256 : list Z; dc_report : dutyRuntimeReport; dc_scheduler : Scheduler; dc_sampleRemainder : Z;
  dc_evidence : Z; dc_exact : bool; dc_targetMigration : bool; dc_policyMigration : bool; dc_modeMigration : bool }.

(** What Lstat and ReadFile say of a file. *)
Record file_info := { fi_regular : bool; fi_symlink : bool; fi_size : Z; fi_contents : option (list Z) }.

Record dir_entry := { de_name : list Z; de_dir : bool }.

Definition live_v2 : list Z := str "rtlamr-duty-scheduler-live-v2".
Definition live_v3 : list Z := str "rtlamr-duty-scheduler-live-v3".
Definition live_v4 : list Z := str "rtlamr-duty-scheduler-live-v4".

(** Whether a report carries a complete scheduler state. *)
Definition has_state (report : dutyRuntimeReport) : bool := bool_decide (rp_Schema report = live_v3) || bool_decide (rp_Schema report = live_v4).

(** [s > t] of strings. *)
Definition string_gtb (s t : list Z) : bool := negb (string_leb s t).

Section Checkpoint.
Context `{GoMath} `{Fingerprint}.
Context (ParseTime : list Z -> option Z) (Lstat : list Z -> option file_info) (Unmarshal : list Z -> option dutyRuntimeReport).

(** [validateCheckpointReport] *)
Definition validateCheckpointReport (report : dutyRuntimeReport) (d : dutyRuntime) : Result unit :=
  _ ← reject (negb (bool_decide (rp_Schema report = live_v2)) && negb (has_state report)) "dutyscheduler: unsupported checkpoint report";
  _ ← reject (negb (compatible_modes (rp_Mode report) (rt_mode d)) || negb (bool_decide (sp_Mode (rp_Snapshot report) = rp_Mode report)) ||
              negb (rp_SampleRate report =? rt_sampleRate d) || negb (rp_BlockSamples report =? rt_blockSamples d) ||
              negb (rp_BlockBytes report =? rt_blockBytes d) || negb (rp_CollarBlocks report =? len (rt_collar d)) ||
              negb (rp_WarmupBlocks report =? rt_warmupBlocks d)) "dutyscheduler: checkpoint runtime mismatch";
  created ← of_option (ErrInvalid (str "dutyscheduler: invalid checkpoint creation time")) (ParseTime (rp_CreatedUTC report));
  started ← of_option (ErrInvalid (str "dutyscheduler: invalid checkpoint session time")) (ParseTime (rp_SessionStartedUTC report));
  _ ← reject (created <? started) "dutyscheduler: invalid checkpoint session time";
  _ ← reject (negb (bool_decide (rp_ReportKind report ∈ [str "startup"; str "hourly"; str "final"; str "resume"])))
        "dutyscheduler: invalid checkpoint report kind";
  _ ← reject (rp_CheckpointSequence report =? 0) "dutyscheduler: invalid checkpoint sequence";
  _ ← reject (negb (bool_decide (rp_SenderIDs report = sorted_ids d))) "dutyscheduler: checkpoint sender inventory mismatch";
  _ ← reject ((max_u64 - rp_SkippedBlocks report <? rp_DecodedBlocks report) || (sp_SampleTimeNS (rp_Snapshot report) <? 0))
        "dutyscheduler: invalid checkpoint work";
  reject (has_state report && negb (st_LastEndNS (rp_SchedulerState report) =? sp_SampleTimeNS (rp_Snapshot report)))
    "dutyscheduler: checkpoint state clock mismatch".

(** ** [readCheckpoint] *)

(** How a report was restored. *)
Record restoration := { re_exact : bool; re_target : bool; re_policy : bool; re_mode : bool; re_full : bool }.
Definition restored_exactly := {| re_exact := true; re_target := false; re_policy := false; re_mode := false; re_full := true |}.
Definition restored_target := {| re_exact := false; re_target := true; re_policy := false; re_mode := false; re_full := true |}.
Definition restored_policy := {| re_exact := false; re_target := false; re_policy := true; re_mode := false; re_full := false |}.
Definition restored_mode (full : bool) := {| re_exact := false; re_target := false; re_policy := false; re_mode := true; re_full := full |}.
Definition restored_legacy := {| re_exact := false; re_target := false; re_policy := false; re_mode := false; re_full := false |}.

(** The import of the snapshot alone. *)
Definition import_legacy (how : restoration) (report : dutyRuntimeReport) (s : Scheduler) : Result (Scheduler * restoration) :=
  match RestoreLegacySnapshot (rp_Snapshot report) s with (_, Some e) => inl e | (s, None) => inr (s, how) end.

(** The switch over the ways a report can be restored. *)
Definition restore_report (report : dutyRuntimeReport) (d : dutyRuntime) (s : Scheduler) : Result (Scheduler * restoration) :=
  if has_state report then
    match RestoreState (rp_SchedulerState report) s with
    | (s, None) => inr (s, restored_exactly)
    | (s, Some e) =>
        let mismatch := match e with ErrStateConfigurationMismatch => true | _ => false end in
        if bool_decide (rp_Mode report = ModeShadow) && bool_decide (rt_mode d = ModeGated) then
          match RestoreShadowState (rp_SchedulerState report) s with
          | (s, None) => inr (s, restored_mode true)
          | (s, Some _) => import_legacy (restored_mode false) report s
          end
        else if mismatch && bool_decide (rp_Mode report = rt_mode d) &&
                negb (SFeqb (rp_CaptureTarget report) (CaptureTarget (rt_schedulerConfig d))) then
          match RestoreCaptureTargetState (rp_SchedulerState report) (rp_CaptureTarget report) s with
          | (s, None) => inr (s, restored_target)
          | (s, Some _) => import_legacy restored_policy report s
          end
        else if mismatch || match e with ErrStateSchemaMismatch _ => true | _ => false end then import_legacy restored_policy report s
        else inl e
    end
  else import_legacy restored_legacy report s.

(** The clock of the report against the clock of its blocks: the remainder. *)
Definition check_clock (report : dutyRuntimeReport) (how : restoration) (d : dutyRuntime) : Result Z :=
  match dutySampleClock (u64 (rp_DecodedBlocks report + rp_SkippedBlocks report)) (rt_blockSamples d) (rt_sampleRate d) with
  | inl _ => inl (ErrInvalid (str "dutyscheduler: checkpoint sample clock mismatch"))
  | inr (expectedTime, remainder) =>
      _ ← reject (negb (expectedTime =? sp_SampleTimeNS (rp_Snapshot report))) "dutyscheduler: checkpoint sample clock mismatch";
      _ ← reject ((re_exact how || re_target how) && negb (rp_SampleRemainder report =? remainder))
            "dutyscheduler: checkpoint sample remainder mismatch";
      inr remainder
  end.

(** [readCheckpoint] of the contents of a file. *)
Definition restore_contents (path contents : list Z) (report : dutyRuntimeReport) (d : dutyRuntime) : option (Result dutyCheckpointCandidate) :=
  match (_ ← validateCheckpointReport report d; s ← of_option ErrNew (New (rt_schedulerConfig d)); restore_report report d s) with
  | inl e => Some (inl e)
  | inr (s, how) =>
      '(s, snapshot) ← take_snapshot s;
      Some (_ ← reject (negb (dutyCheckpointEvidenceMatches snapshot (rp_Snapshot report))) "dutyscheduler: checkpoint state/evidence mismatch";
            remainder ← check_clock report how d;
            inr {| dc_path := path; dc_sha256 := EncodeToString (sha256 contents); dc_report := report;
                   dc_scheduler := if re_full how then PrepareResume s else s; dc_sampleRemainder := remainder;
                   dc_evidence := dutyEvidenceCount (rp_Snapshot report); dc_exact := re_exact how; dc_targetMigration := re_target how;
                   dc_policyMigration := re_policy how; dc_modeMigration := re_mode how |})
  end.

Definition readCheckpoint (path : list Z) (d : dutyRuntime) : option (Result dutyCheckpointCandidate) :=
  let load : Result (list Z * dutyRuntimeReport) :=
    info ← of_option (ErrInvalid (str "lstat")) (Lstat path);
    _ ← reject (negb (fi_regular info) || fi_symlink info || (fi_size info <=? 0) || (dutyCheckpointMaxBytes <? fi_size info))
          "dutyscheduler: invalid checkpoint file";
    contents ← of_option (ErrInvalid (str "read")) (fi_contents info);
    report ← of_option (ErrInvalid (str "json")) (Unmarshal contents);
    inr (contents, report) in
  match load with inl e => Some (inl e) | inr (contents, report) => restore_contents path contents report d end.

(** ** [restoreBestCheckpoint] *)

Definition is_checkpoint_name (name : list Z) : bool :=
  bool_decide (str "checkpoint-" `prefix_of` name) && bool_decide (str ".json" `suffix_of` name).

(** The newest checkpoint of each session, and how many were skipped. *)
Definition scan_entry (dir : list Z) (d : dutyRuntime) (st : gmap (list Z) dutyCheckpointCandidate * Z) (e : dir_entry)
  : option (gmap (list Z) dutyCheckpointCandidate * Z) :=
  let '(bySession, skipped) := st in
  if de_dir e || negb (is_checkpoint_name (de_name e)) then Some st else
  r ← readCheckpoint (dir ++ str "/" ++ de_name e) d;
  match r with
  | inl _ => Some (bySession, u64 (skipped + 1))
  | inr c =>
      let session := rp_SessionStartedUTC (dc_report c) in
      let newer := match bySession !! session with
                   | None => true
                   | Some previous => rp_CheckpointSequence (dc_report previous) <? rp_CheckpointSequence (dc_report c)
                   end in
      Some (if newer then <[session := c]> bySession else bySession, skipped)
  end.

(** The order in which sessions are preferred. *)
Definition stronger (d : dutyRuntime) (a b : dutyCheckpointCandidate) : bool :=
  let gated c := bool_decide (rp_Mode (dc_report c) = ModeGated) in
  let blocks c := u64 (rp_DecodedBlocks (dc_report c) + rp_SkippedBlocks (dc_report c)) in
  if bool_decide (rt_mode d = ModeGated) && negb (eqb (gated a) (gated b)) then gated a
  else if negb (dc_evidence a =? dc_evidence b) then dc_evidence b <? dc_evidence a
  else if negb (blocks a =? blocks b) then blocks b <? blocks a
  else string_gtb (rp_CreatedUTC (dc_report a)) (rp_CreatedUTC (dc_report b)).

Definition resume_status (c : dutyCheckpointCandidate) : list Z :=
  if dc_exact c then str "RESTORED_EXACT" else if dc_modeMigration c then str "RESTORED_SHADOW_TO_GATED"
  else if dc_targetMigration c then str "RESTORED_CAPTURE_TARGET" else if dc_policyMigration c then str "RESTORED_POLICY_MIGRATION"
  else str "RESTORED_LEGACY".

(** [filepath.Base] of a path that does not end in a slash. *)
Definition Base (path : list Z) : list Z := foldl (fun name c => if c =? 47 then [] else name ++ [c]) [] path.

(** The runtime that goes on from a checkpoint. *)
Definition resume_from (chosen : dutyCheckpointCandidate) (started skipped : Z) (d : dutyRuntime) : dutyRuntime :=
  let report := dc_report chosen in
  d <| rt_scheduler := dc_scheduler chosen |> <| rt_sampleTime := sp_SampleTimeNS (rp_Snapshot report) |>
    <| rt_sampleRemainder := dc_sampleRemainder chosen |> <| rt_decodedBlocks := rp_DecodedBlocks report |>
    <| rt_skippedBlocks := rp_SkippedBlocks report |> <| rt_auditedBlocks := rp_AuditedBlocks report |>
    <| rt_refreshBlocks := rp_RefreshBlocks report |> <| rt_rebuilds := rp_Rebuilds report |>
    <| rt_replayedBlocks := rp_ReplayedBlocks report |> <| rt_startedUTC := started |>
    <| rt_checkpointSequence := rp_CheckpointSequence report |> <| rt_checkpointFailures := rp_CheckpointFailures report |>
    <| rt_resume := {| ri_Status := resume_status chosen; ri_SourceFile := Base (dc_path chosen); ri_SourceSHA256 := dc_sha256 chosen;
                       ri_SourceSchema := rp_Schema report; ri_SourceCreatedUTC := rp_CreatedUTC report;
                       ri_SourceSequence := rp_CheckpointSequence report; ri_SkippedCheckpoints := skipped; ri_PendingReceipt := true |} |>.

(** [sort.Slice] over the values of the map, whose walk order it also hides. *)
Context (sort_Slice : (dutyCheckpointCandidate -> dutyCheckpointCandidate -> bool) -> list dutyCheckpointCandidate -> list dutyCheckpointCandidate).

Definition restoreBestCheckpoint (entries : list dir_entry) (d : dutyRuntime) : option (dutyRuntime * Result unit) :=
  '(bySession, skipped) ← foldM (scan_entry (rt_checkpointDir d) d) (∅, 0) entries;
  match sort_Slice (stronger d) (map snd (map_to_list bySession)) with
  | [] =>
      let status := if 0 <? skipped then str "FRESH_CHECKPOINTS_INVALID" else ri_Status (rt_resume d) in
      Some (d <| rt_resume ::= fun r => r <| ri_Status := status |> <| ri_SkippedCheckpoints := skipped |> |>, inr tt)
  | chosen :: _ =>
      match ParseTime (rp_SessionStartedUTC (dc_report chosen)) with
      | None => Some (d, inl (ErrInvalid (str "time")))
      | Some started => Some (resume_from chosen started skipped d, inr tt)
      end
  end.
End Checkpoint.
