(* ===== verification/Capture.v ===== *)
(** The bounded capture of raw blocks (src/continuous_capture.go) and the message
    filters of the command line (src/flags.go).  What the capture's writer does with a
    block is a parameter. *)

From S2P Require Import Prelude Packet DutyModel DutyRuntime.

(** ** Captures *)

Record blockCapture := { bc_blockBytes : Z; bc_blocksRemaining : Z; bc_blocksWritten : Z }.

Inductive capture_error := ErrBlockLength | ErrWriter | ErrShortWrite | ErrSync.

(** [newBlockCapture] for a writer that is not nil: [None] is an error. *)
Definition newBlockCapture (sampleRate blockBytes duration : Z) : option blockCapture :=
  if (sampleRate <=? 0) || (blockBytes <=? 0) || (duration <=? 0) then None else
  let targetBytes := Z.quot (i64 (i64 (i64 (i64 (sampleRate * 2) * duration) + second) - 1)) second in
  let blocks := Z.quot (i64 (i64 (targetBytes + blockBytes) - 1)) blockBytes in
  Some {| bc_blockBytes := blockBytes; bc_blocksRemaining := blocks; bc_blocksWritten := 0 |}.

(** [WriteBlock]; [written] is what [Write] reports, [synced] whether [Sync], which a
    writer may not have, succeeds. *)
Definition WriteBlock (written : list Z -> option Z) (synced : bool) (block : list Z) (c : blockCapture) : blockCapture * option capture_error :=
  if bc_blocksRemaining c =? 0 then (c, None) else
  if negb (len block =? bc_blockBytes c) then (c, Some ErrBlockLength) else
  match written block with
  | None => (c, Some ErrWriter)
  | Some n =>
      if negb (n =? len block) then (c, Some ErrShortWrite) else
      let c := {| bc_blockBytes := bc_blockBytes c; bc_blocksRemaining := bc_blocksRemaining c - 1; bc_blocksWritten := bc_blocksWritten c + 1 |} in
      (c, if (bc_blocksRemaining c =? 0) && negb synced then Some ErrSync else None)
  end.

Definition Complete (c : blockCapture) : bool := bc_blocksRemaining c =? 0.
Definition BytesWritten (c : blockCapture) : Z := i64 (bc_blocksWritten c * bc_blockBytes c).

(** ** Filters

    The three filters of the command line, in the order in which they were given.
    The set of meter ids is one map, which the id filter shares with the receive loop:
    the filters are names for a shared store. *)

Inductive filter_kind := ByMeterID | ByMeterType | Unique.

Record FilterStore := { f_meterID : gset Z; f_meterType : gset Z; f_unique : gmap Z (list Z) }.

Definition with_meterID (ids : gset Z) (f : FilterStore) : FilterStore :=
  {| f_meterID := ids; f_meterType := f_meterType f; f_unique := f_unique f |}.

(** [UniqueFilter.Filter]: a meter's checksum is remembered when it changes. *)
Definition Unique_Filter (uf : gmap Z (list Z)) (msg : Message) : bool * gmap Z (list Z) :=
  match uf !! MeterID msg with
  | Some val => if bool_decide (val = MsgChecksum msg) then (false, uf) else (true, <[MeterID msg := MsgChecksum msg]> uf)
  | None => (true, <[MeterID msg := MsgChecksum msg]> uf)
  end.

Definition filter_step (k : filter_kind) (f : FilterStore) (msg : Message) : bool * FilterStore :=
  match k with
  | ByMeterID => (bool_decide (MeterID msg ∈ f_meterID f), f)
  | ByMeterType => (bool_decide (MeterType msg ∈ f_meterType f), f)
  | Unique =>
      let '(ok, unique) := Unique_Filter (f_unique f) msg in
      (ok, {| f_meterID := f_meterID f; f_meterType := f_meterType f; f_unique := unique |})
  end.

(** [FilterChain.Match] over the shared store: an empty chain matches, the first
    refusal ends the walk. *)
Fixpoint chain_Match (fc : list filter_kind) (f : FilterStore) (msg : Message) : bool * FilterStore :=
  match fc with
  | [] => (true, f)
  | k :: fc =>
      let '(ok, f) := filter_step k f msg in
      if negb ok then (false, f) else chain_Match fc f msg
  end.

(** [UintMap.Set]: numbers up to the first that does not parse are kept. *)
Fixpoint split_commas (s acc : list Z) : list (list Z) :=
  match s with
  | [] => [acc]
  | c :: s => if c =? 44 then acc :: split_commas s [] else split_commas s (acc ++ [c])
  end.

Fixpoint set_values (values : list (list Z)) (m : gset Z) : gset Z * option parse_error :=
  match values with
  | [] => (m, None)
  | v :: values =>
      match ParseUint v 10 64 with
      | (_, Some e) => (m, Some e)
      | (n, None) => set_values values ({[n]} ∪ m)
      end
  end.

Definition UintMap_Set (value : list Z) (m : gset Z) : gset Z * option parse_error := set_values (split_commas value []) m.
