(* ===== verification/Receive.v ===== *)
(** The receive loop (src/main.go: processBlock, processDecodedMessages,
    rebuildDutyDecoder, Run): blocks are captured, gated by the duty scheduler, decoded,
    and their messages observed, filtered, deduplicated against the previous block and
    encoded.  The decoder, the scheduler's runtime and the filters are those of the
    other files; the parsers read the windows of the decoder itself (see "The decoder in
    place" in Prelude).  The world the loop reads and writes is a record of answers, one per
    use.  [None] is a run-time panic. *)

From S2P Require Import Prelude Float64 Packet Layout Search Ring History Signal Register Decode Update DutyMath DutyModel Scheduler DutyState DutySnapshot DutyRuntime Capture.

Abbreviation Log := (@LogMessage Z).

(** What the world answers at its n-th use: the order of a walk over the preambles, the
    time, whether a message is encoded, whether samples are written, what the capture's
    writer reports. *)
Record World := {
  w_walk : nat -> list (list Z); w_now : nat -> Z; w_encode : nat -> Log -> bool; w_samples : nat -> list Z -> bool;
  w_capture : nat -> list Z -> option Z; w_sync : nat -> bool }.

Inductive receive_error :=
  | ErrCapture (e : capture_error)
  | ErrEncode
  | ErrRawSamples
  | ErrLacksRawIQ
  | ErrSource
  | ErrBatch (length : Z)
  | ErrRelease.

Record receiverRunState := {
  rs_sampleBuf : list Z; rs_recordSamples : bool; rs_sampleLength : Z; rs_prev : gset Digest; rs_next : gset Digest;
  rs_dutyPrev : gset Digest; rs_dutyNext : gset Digest }.
#[export] Instance receiverRunState_settable : Settable receiverRunState := fun s =>
  Build_receiverRunState (rs_sampleBuf s) (rs_recordSamples s) (rs_sampleLength s) (rs_prev s) (rs_next s) (rs_dutyPrev s) (rs_dutyNext s).

(** [receiverRunState] as [Run] makes it. *)
Definition new_run_state (recordSamples : bool) : receiverRunState :=
  {| rs_sampleBuf := []; rs_recordSamples := recordSamples; rs_sampleLength := 0; rs_prev := ∅; rs_next := ∅; rs_dutyPrev := ∅; rs_dutyNext := ∅ |}.

Section Receive.
Context {S : Type} `{ParserOps S Message} `{SearchPlatform} `{DualPlatform} `{MagnitudePlatform} `{ManchesterPlatform}.
Context `{GoMath} `{Fingerprint}.
Context (RFC3339Nano : Z -> list Z) (walk_senders : nat -> gmap Z SenderSnapshot -> list (Z * SenderSnapshot))
  (store_report : dutyRuntimeReport -> bool) (world : World).

(** The receiver, the state of its run, what it has encoded and written, and how often
    it has used the world. *)
Record Rcvr := {
  rv_d : Decoder S; rv_fc : list filter_kind; rv_filters : FilterStore; rv_capture : option blockCapture;
  rv_duty : option dutyRuntime; rv_single : bool; rv_err : option receive_error; rv_cancelled : bool;
  rv_state : receiverRunState; rv_log : list Log; rv_samples : list Z; rv_tick : nat }.
#[export] Instance Rcvr_settable : Settable Rcvr := fun r =>
  Build_Rcvr (rv_d r) (rv_fc r) (rv_filters r) (rv_capture r) (rv_duty r) (rv_single r) (rv_err r) (rv_cancelled r)
    (rv_state r) (rv_log r) (rv_samples r) (rv_tick r).

Definition used (r : Rcvr) : Rcvr := r <| rv_tick ::= Datatypes.S |>.

(** ** Messages of one block *)

(** The scheduler sees a message that was not in the previous block. *)
Definition observe_message (dutyPrev : gset Digest) (sampleAt : Z) (escaped : bool) (st : dutyRuntime * gset Digest) (msg : Message)
  : option (dutyRuntime * gset Digest) :=
  let '(d, dutyNext) := st in
  let digest := NewDigest msg in
  d ← (if decide (digest ∈ dutyPrev) then Some d else rt_observe escaped (MeterID msg) (MsgType msg) sampleAt d);
  Some (d, {[digest]} ∪ dutyNext).

Definition observe_messages (messages : list Message) (sampleAt : Z) (observe escaped : bool) (r : Rcvr) : option Rcvr :=
  match rv_duty r with
  | None => Some r
  | Some d =>
      '(d, dutyNext) ← (if observe then foldM (observe_message (rs_dutyPrev (rv_state r)) sampleAt escaped) (d, ∅) messages else Some (d, ∅));
      Some (r <| rv_duty := Some d |> <| rv_state ::= fun s => s <| rs_dutyNext := dutyNext |> |>)
  end.

(** The offset of the sample file, which alone can seek. *)
Definition sample_offset (r : Rcvr) : Z := if rs_recordSamples (rv_state r) then len (rv_samples r) else 0.

(** One message of the publishing loop: the receiver, and how the loop goes on. *)
Inductive progress := Skip | Published | Stop | Failed.

Definition publish_message (eventTime : option Z) (r : Rcvr) (msg : Message) : Rcvr * progress :=
  let '(ok, filters) := chain_Match (rv_fc r) (rv_filters r) msg in
  let r := r <| rv_filters := filters |> in
  if negb ok then (r, Skip) else
  let n := rv_tick r in
  let r := used r in
  let logMsg := {| lm_Time := match eventTime with None => w_now world n | Some t => t end; lm_Offset := sample_offset r;
                   lm_Length := rs_sampleLength (rv_state r); lm_Type := MsgType msg; lm_Message := msg |} in
  let digest := NewDigest msg in
  let r := r <| rv_state ::= fun s => s <| rs_next ::= fun next => {[digest]} ∪ next |> |> in
  if decide (digest ∈ rs_prev (rv_state r)) then (r, Skip) else
  if negb (w_encode world n logMsg) then (r <| rv_err := Some ErrEncode |>, Failed) else
  let r := r <| rv_err := None |> <| rv_log ::= fun l => l ++ [logMsg] |> in
  if rv_single r then
    if decide (f_meterID (rv_filters r) = ∅) then (r, Stop)
    else (r <| rv_filters ::= fun f => with_meterID (f_meterID f ∖ {[MeterID msg]}) f |>, Published)
  else (r, Published).

(** The loop: whether a packet was published, whether to keep running. *)
Fixpoint publish_messages (eventTime : option Z) (messages : list Message) (r : Rcvr) (pktFound : bool) : Rcvr * bool * bool :=
  match messages with
  | [] => (r, pktFound, true)
  | msg :: messages =>
      match publish_message eventTime r msg with
      | (r, Skip) => publish_messages eventTime messages r pktFound
      | (r, Published) => publish_messages eventTime messages r true
      | (r, Stop) => (r, true, true)
      | (r, Failed) => (r, false, false)
      end
  end.

(** The maps of the previous and the current block change places. *)
Definition swap_digests (r : Rcvr) : Rcvr :=
  let s := rv_state r in
  let r := r <| rv_state := s <| rs_next := rs_prev s |> <| rs_prev := rs_next s |> |> in
  match rv_duty r with
  | None => r
  | Some _ => r <| rv_state ::= fun t => t <| rs_dutyNext := rs_dutyPrev s |> <| rs_dutyPrev := rs_dutyNext s |> |>
  end.

(** [processDecodedMessages] *)
Definition processDecodedMessages (messages : list Message) (sampleAt : Z) (eventTime : option Z) (publish observe escaped : bool) (r : Rcvr)
  : option (Rcvr * bool * bool) :=
  let r := r <| rv_state ::= fun s => s <| rs_next := ∅ |> |> in
  r ← observe_messages messages sampleAt observe escaped r;
  let '(r, pktFound, keepRunning) := if publish then publish_messages eventTime messages r false else (r, false, true) in
  Some (if keepRunning then (swap_digests r, pktFound, true) else (r, false, false)).

(** ** Decoding *)

Definition decode_block (block : list Z) (r : Rcvr) : option (Rcvr * list Message) :=
  '(d, messages) ← Decode (w_walk world (rv_tick r)) (rv_d r) block;
  Some (used (r <| rv_d := d |>), messages).

Definition set_duty (f : dutyRuntime -> dutyRuntime) (r : Rcvr) : Rcvr := r <| rv_duty ::= fmap f |>.

(** A short sleep: the skipped blocks are decoded. *)
Fixpoint replay_skipped (entries : list dutyCollarBlock) (r : Rcvr) (pktFound : bool) : option (Rcvr * bool * bool) :=
  match entries with
  | [] => Some (r, pktFound, true)
  | entry :: entries =>
      '(r, messages) ← decode_block (cb_data entry) r;
      '(r, found, keepRunning) ← processDecodedMessages messages (cb_sampleEnd entry) (cb_wallTime entry) true true true r;
      if (keepRunning : bool) then replay_skipped entries r (pktFound || found) else Some (r, pktFound || found, false)
  end.

(** A long sleep: the whole collar is decoded; what the first blocks give is not
    published. *)
Fixpoint replay_collar (warmupBlocks : Z) (idx : Z) (entries : list dutyCollarBlock) (r : Rcvr) (pktFound : bool) : option (Rcvr * bool * bool) :=
  match entries with
  | [] => Some (r, pktFound, true)
  | entry :: entries =>
      if negb (cb_rawValid entry) then Some (r <| rv_err := Some ErrLacksRawIQ |>, pktFound, false) else
      '(r, messages) ← decode_block (cb_data entry) r;
      let publish := negb (cb_decoded entry) && (warmupBlocks <=? idx) in
      '(r, found, keepRunning) ← processDecodedMessages messages (cb_sampleEnd entry) (cb_wallTime entry) publish publish publish r;
      if (keepRunning : bool) then replay_collar warmupBlocks (idx + 1) entries r (pktFound || found) else Some (r, pktFound || found, false)
  end.

Definition clear_digests (r : Rcvr) : Rcvr :=
  r <| rv_state ::= fun s => s <| rs_prev := ∅ |> <| rs_next := ∅ |> <| rs_dutyPrev := ∅ |> <| rs_dutyNext := ∅ |> |>.

(** [rebuildDutyDecoder] *)
Definition rebuildDutyDecoder (duty : dutyRuntime) (r : Rcvr) : option (Rcvr * bool * bool) :=
  entries ← orderedCollar duty;
  let skipped := rt_skippedRun duty in
  let recent := drop (Z.to_nat (len entries - skipped)) entries in
  if (0 <? skipped) && (skipped <=? len entries) && forallb (fun e => negb (cb_decoded e) && cb_rawValid e) recent then
    '(r, pktFound, keepRunning) ← replay_skipped recent r false;
    Some (if (keepRunning : bool) then (set_duty (recordRebuild skipped) r, pktFound, true) else (r, pktFound, false))
  else
    d ← Reset (rv_d r);
    '(r, pktFound, keepRunning) ← replay_collar (rt_warmupBlocks duty) 0 entries (clear_digests (r <| rv_d := d |>)) false;
    Some (if (keepRunning : bool) then (set_duty (recordRebuild (len entries)) r, pktFound, true) else (r, pktFound, false)).

(** ** [processBlock] *)

Definition capture_block (block : list Z) (r : Rcvr) : Rcvr * bool :=
  match rv_capture r with
  | Some c =>
      if Complete c then (r, true) else
      let '(c, err) := WriteBlock (w_capture world (rv_tick r)) (w_sync world (rv_tick r)) block c in
      let r := used (r <| rv_capture := Some c |>) in
      match err with Some e => (r <| rv_err := Some (ErrCapture e) |>, false) | None => (r, true) end
  | None => (r, true)
  end.

(** The buffer of raw samples drops its oldest block when it is full. *)
Definition buffer_block (block : list Z) (r : Rcvr) : Rcvr :=
  let s := rv_state r in
  let full := Z.shiftl (BufferLength (Cfg (rv_d r))) 1 <? rs_sampleLength s in
  let kept := if full && rs_recordSamples s then drop (length block) (rs_sampleBuf s) else rs_sampleBuf s in
  r <| rv_state := s <| rs_sampleLength := (if full then rs_sampleLength s - len block else rs_sampleLength s) + len block |>
                     <| rs_sampleBuf := if rs_recordSamples s then kept ++ block else kept |> |>.

Definition decode_and_process (block : list Z) (sampleAt : Z) (observe : bool) (r : Rcvr) : option (Rcvr * bool * bool) :=
  '(r, messages) ← decode_block block r;
  processDecodedMessages messages sampleAt None true observe false r.

(** The end of a gated block: the collar, and a checkpoint when one is due, whose
    failure is only logged. *)
Definition finish_gated (block : list Z) (start end_ : Z) (decision : Decision) (r : Rcvr) : option Rcvr :=
  duty ← rv_duty r;
  let wallNow := w_now world (rv_tick r) in
  duty ← finishBlock block start end_ (Some wallNow) decision duty;
  '(duty, _) ← maybeCheckpoint RFC3339Nano walk_senders store_report wallNow duty;
  Some (used (r <| rv_duty := Some duty |>)).

Definition gated_block (block : list Z) (duty : dutyRuntime) (r : Rcvr) : option (Rcvr * bool * bool) :=
  '(duty, start, end_, decision) ← beginBlock duty;
  let r := r <| rv_duty := Some duty |> in
  '(r, replayedFound, keepRunning) ← (if needsRebuild duty decision then rebuildDutyDecoder duty r else Some (r, false, true));
  if negb keepRunning then Some (r, replayedFound, false) else
  '(r, currentFound, keepRunning) ← (if d_Decode decision then decode_and_process block end_ true r else Some (r, false, true));
  if negb keepRunning then Some (r, replayedFound || currentFound, false) else
  r ← finish_gated block start end_ decision r;
  Some (r, replayedFound || currentFound, true).

(** The samples of a packet are written, and a single shot may be complete. *)
Definition write_samples_of_packet (r : Rcvr) : Rcvr * bool :=
  if negb (w_samples world (rv_tick r) (rs_sampleBuf (rv_state r))) then (used (r <| rv_err := Some ErrRawSamples |>), false) else
  let r := used (r <| rv_samples ::= fun l => l ++ rs_sampleBuf (rv_state r) |>) in
  if rv_single r && bool_decide (f_meterID (rv_filters r) = ∅) then (r <| rv_cancelled := true |>, false) else (r, true).

Definition processBlock (block : list Z) (r : Rcvr) : option (Rcvr * bool) :=
  let '(r, captured) := capture_block block r in
  if negb captured then Some (r, false) else
  let r := buffer_block block r in
  '(r, pktFound, keepRunning) ← match rv_duty r with
                               | None => decode_and_process block 0 false r
                               | Some duty => gated_block block duty r
                               end;
  if negb keepRunning then Some (r, false) else
  Some (if (pktFound : bool) && rs_recordSamples (rv_state r) then write_samples_of_packet r else (r, true)).

(** ** [Run]: one batch of the source *)

(** Block after block, until one ends the run. *)
Fixpoint process_blocks (blocks : list (list Z)) (r : Rcvr) : option (Rcvr * bool) :=
  match blocks with
  | [] => Some (r, true)
  | block :: blocks =>
      '(r, keepRunning) ← processBlock block r;
      if (keepRunning : bool) then process_blocks blocks r else Some (r, false)
  end.

(** The blocks of a batch. *)
Fixpoint split_blocks (n : nat) (size : nat) (batch : list Z) : list (list Z) :=
  match n with O => [] | Datatypes.S n => take size batch :: split_blocks n size (drop size batch) end.

(** What [source.Next] gives and whether [source.Release] succeeds. *)
Definition process_batch (next : option (list Z)) (released : bool) (r : Rcvr) : option (Rcvr * bool) :=
  match next with
  | None => Some (if rv_cancelled r then r else r <| rv_err := Some ErrSource |>, false)
  | Some batch =>
      let blockBytes := BlockSize2 (Cfg (rv_d r)) in
      if negb (len batch =? 0) && (blockBytes =? 0) then None else
      if (len batch =? 0) || negb (Z.rem (len batch) blockBytes =? 0) then Some (r <| rv_err := Some (ErrBatch (len batch)) |>, false) else
      '(r, keepRunning) ← process_blocks (split_blocks (Z.to_nat (Z.quot (len batch) blockBytes)) (Z.to_nat blockBytes) batch) r;
      if negb released then
        Some (match rv_err r with None => r <| rv_err := Some ErrRelease |> | Some _ => r end, false)
      else Some (r, keepRunning)
  end.

(** ** [Run] and [main]: the receive loop, and the select that waits for its end

    The loop is at its look at the context, behind it with a batch to ask for, or has
    returned.  [main] waits, or has taken one case of its select and closes the receiver,
    whose context it cancels first.  The two run concurrently; [timeLimit] is the flag
    -duration. *)

Inductive loop_position := AtSelect | AtBatch | Returned.
Inductive stop_reason := SignalReceived | TimeLimitReached | ContextCancelled.
Inductive run_event :=
  | LoopSelects
  | LoopTakesBatch (next : option (list Z)) (released : bool)
  | MainStops (reason : stop_reason).

Record program := { pg_rcvr : Rcvr; pg_loop : loop_position; pg_stopped : option stop_reason }.

(** The deferred cancel of the loop and the first call of [Close]. *)
Definition cancel (r : Rcvr) : Rcvr := r <| rv_cancelled := true |>.

(** One step; [None] is a step that cannot happen now, or a panic. *)
Definition run_step (timeLimit : Z) (p : program) (e : run_event) : option program :=
  match e with
  | LoopSelects =>
      match pg_loop p with
      | AtSelect => Some {| pg_rcvr := pg_rcvr p; pg_loop := if rv_cancelled (pg_rcvr p) then Returned else AtBatch; pg_stopped := pg_stopped p |}
      | _ => None
      end
  | LoopTakesBatch next released =>
      match pg_loop p with
      | AtBatch =>
          '(r, keepRunning) ← process_batch next released (pg_rcvr p);
          Some (if (keepRunning : bool) then {| pg_rcvr := r; pg_loop := AtSelect; pg_stopped := pg_stopped p |}
                else {| pg_rcvr := cancel r; pg_loop := Returned; pg_stopped := pg_stopped p |})
      | _ => None
      end
  | MainStops reason =>
      let ready := match reason with
                   | SignalReceived => true
                   | TimeLimitReached => negb (timeLimit =? 0)
                   | ContextCancelled => rv_cancelled (pg_rcvr p)
                   end in
      match pg_stopped p with
      | None => if ready then Some {| pg_rcvr := cancel (pg_rcvr p); pg_loop := pg_loop p; pg_stopped := Some reason |} else None
      | Some _ => None
      end
  end.

(** [Run] starts the loop. *)
Definition start_run (r : Rcvr) : program := {| pg_rcvr := r; pg_loop := AtSelect; pg_stopped := None |}.
End Receive.
Arguments Rcvr S : clear implicits.
Arguments program S : clear implicits.

(** [receiverSampleRate] *)
Definition receiverSampleRate (bytesRead elapsed : Z) : Z :=
  if (bytesRead <=? 0) || (elapsed <=? 0) then 0 else Z.quot (i64 (bytesRead * second)) (i64 (2 * elapsed)).
