(* ===== verification/Replay.v ===== *)
(** Convergence of the decoder: two receivers that are fed the same blocks agree, from
    whatever states, once the blocks cover the buffer.  This is what a replay of the
    collar relies on (src/duty_runtime.go, src/main.go). *)

From S2P Require Import Prelude Float64 Packet Layout Search Ring History Signal Register Decode Receiver.

(** ** Lists that agree on their last elements *)

Definition same_tail {A} (n : Z) (l l' : list A) : Prop := length l = length l' /\ tail_of n l = tail_of n l'.

Lemma same_tail_refl {A} n (l : list A) : same_tail n l l.
Proof. done. Qed.

Lemma same_tail_zero {A} (l l' : list A) : length l = length l' -> same_tail 0 l l'.
Proof. intros E. split; [done|]. unfold tail_of. rewrite !drop_ge by lia. done. Qed.

Lemma drop_more {A} (l l' : list A) n m : drop n l = drop n l' -> (n <= m)%nat -> drop m l = drop m l'.
Proof. intros E Hm. replace m with (n + (m - n))%nat by lia. by rewrite <- !drop_drop, E. Qed.

Lemma same_tail_le {A} n m (l l' : list A) : same_tail n l l' -> m <= n -> same_tail m l l'.
Proof. intros [E T] Hm. split; [done|]. unfold tail_of in *. rewrite E in *. eapply drop_more; [exact T|lia]. Qed.

Lemma same_tail_all {A} n (l l' : list A) : same_tail n l l' -> len l <= n -> l = l'.
Proof.
  intros [E T] Hn. unfold tail_of, len in *. rewrite <- E in T. by replace (length l - Z.to_nat n)%nat with 0%nat in T by lia.
Qed.

Lemma length_push_same {A} (l l' b b' : list A) : length l = length l' -> length b = length b' -> length (push l b) = length (push l' b').
Proof. intros E E'. unfold push. rewrite !length_app, !length_drop. lia. Qed.

Lemma same_tail_push {A} n (l l' b : list A) : same_tail n l l' -> 0 <= n -> same_tail (n + len b) (push l b) (push l' b).
Proof.
  intros [E T] Hn. split; [by apply length_push_same|]. unfold tail_of, push, len in *. rewrite E in T.
  rewrite !length_app, !length_drop, E. set (k := (_ - _)%nat).
  assert (forall x : list A, length x = length l' -> drop k (drop (length b) x ++ b) = drop (k + length b) x ++ b) as Hd.
  { intros x Ex. destruct (decide (k <= length x - length b)%nat) as [Hk|Hk].
    - rewrite drop_app_le by (rewrite length_drop; lia). rewrite drop_drop. do 2 f_equal. lia.
    - unfold k in Hk. lia. }
  rewrite !Hd by done. f_equal. eapply drop_more; [exact T|]. unfold k. lia.
Qed.

(** ** Histories *)

Definition same_samples (n : Z) (a a' : History) : Prop :=
  match a, a' with
  | RecentMagnitudes h, RecentMagnitudes h' => same_tail n h h'
  | RecentPowers h, RecentPowers h' => same_tail n h h'
  | _, _ => False
  end.

Lemma same_samples_refl n a : same_samples n a a.
Proof. destruct a; apply same_tail_refl. Qed.

Lemma same_samples_le n m a a' : same_samples n a a' -> m <= n -> same_samples m a a'.
Proof. destruct a, a'; try done; apply same_tail_le. Qed.

(** Two histories of the same form and size. *)
Definition same_form (a a' : History) : Prop := same_samples 0 a a'.

Lemma same_form_of n a a' : 0 <= n -> same_samples n a a' -> same_form a a'.
Proof. intros Hn E. by eapply same_samples_le. Qed.

Definition block_ok (cfg : PacketConfig) (block : list Z) : Prop := Forall is_byte block /\ len block = BlockSize2 cfg.

(** The samples of a block depend on its bytes only. *)
Lemma demodulate_samples cfg input : block_ok cfg input -> 0 < BlockSize cfg -> BlockSize2 cfg = 2 * BlockSize cfg ->
  exists fm pm, len fm = BlockSize cfg /\ len pm = BlockSize cfg /\ forall a a2 bits, demodulate cfg a input = Some (a2, bits) ->
    match a with
    | RecentMagnitudes h => a2 = RecentMagnitudes (push h fm) /\
        FilterGo (tail_of (SymbolLength cfg + BlockSize cfg) (push h fm)) (BlockSize cfg) (ChipLength cfg) = Some bits
    | RecentPowers h => a2 = RecentPowers (push h pm) /\
        power16ManchesterReference (BlockSize cfg) (tail_of (SymbolLength cfg + BlockSize cfg) (push h pm)) (ChipLength cfg) = Some bits
    end.
Proof.
  intros [Hb Hl] HB HB2. set (n := Z.to_nat (BlockSize cfg)). assert (Z.of_nat n = BlockSize cfg) as En by lia.
  destruct (magnitudeLUTGo_spec input n NewMagLUT Hb) as (fm & Ef & Lf & _); [lia|done|].
  destruct (power16IQReference_exact input n Hb) as (pm & Ep & Lp & _); [lia|]. rewrite En in Ef, Ep.
  exists fm, pm. split; [unfold len; lia|]. split; [unfold len; lia|]. intros [h|h] a2 bits E; unfold demodulate in E.
  - rewrite Ef in E. cbn [mbind option_bind] in E. apply bind_Some in E as (x & Ex & E). apply (inj Some) in E. by injection E as <- <-.
  - rewrite take_ge, Ep in E by (unfold len in *; lia). cbn [mbind option_bind] in E. apply bind_Some in E as (x & Ex & E).
    apply (inj Some) in E. by injection E as <- <-.
Qed.

(** The new samples of two receivers agree; their decisions do when the last symbol of
    samples did. *)
Lemma demodulate_agree cfg k a a' input b b' a2 a2' :
  block_ok cfg input -> 0 < BlockSize cfg -> BlockSize2 cfg = 2 * BlockSize cfg -> 0 <= k -> same_samples k a a' ->
  demodulate cfg a input = Some (a2, b) -> demodulate cfg a' input = Some (a2', b') ->
  same_samples (k + BlockSize cfg) a2 a2' /\ (SymbolLength cfg <= k -> b = b').
Proof.
  intros Hin HB HB2 Hk Hs E E'. destruct (demodulate_samples cfg input Hin HB HB2) as (fm & pm & Lf & Lp & D).
  apply D in E, E'. assert (forall A (h h' m : list A), same_tail k h h' -> len m = BlockSize cfg -> same_tail (k + BlockSize cfg) (push h m) (push h' m) /\
    (SymbolLength cfg <= k -> tail_of (SymbolLength cfg + BlockSize cfg) (push h m) = tail_of (SymbolLength cfg + BlockSize cfg) (push h' m))) as Hpush.
  { intros A h h' m Hh Hm. rewrite <- Hm. pose proof (same_tail_push k h h' m Hh Hk) as Hp. split; [done|].
    intros Hsym. eapply same_tail_le in Hp; [exact (proj2 Hp)|lia]. }
  destruct a as [h|h], a' as [h'|h']; try done; destruct E as [-> E], E' as [-> E']; cbn [same_samples] in *.
  - destruct (Hpush _ _ _ _ Hs Lf) as [P1 P2]. split; [exact P1|]. intros Hsym. rewrite (P2 Hsym), E' in E. by injection E.
  - destruct (Hpush _ _ _ _ Hs Lp) as [P1 P2]. split; [exact P1|]. intros Hsym. rewrite (P2 Hsym), E' in E. by injection E.
Qed.

(** ** Hearing blocks *)

(** The decisions and the samples after one more block, and after several. *)
Definition hear (cfg : PacketConfig) (st : list Z * History) (block : list Z) : option (list Z * History) :=
  '(a, bits) ← demodulate cfg (snd st) block; Some (push (fst st) bits, a).

Definition heard (cfg : PacketConfig) (st : list Z * History) (blocks : list (list Z)) : option (list Z * History) := foldM (hear cfg) st blocks.

Lemma heard_snoc cfg st blocks block : heard cfg st (blocks ++ [block]) = (st ← heard cfg st blocks; hear cfg st block).
Proof.
  unfold heard. revert st. induction blocks as [|b blocks IH]; intros st; cbn [app foldM mbind option_bind].
  - by destruct (hear cfg st block).
  - destruct (hear cfg st b); [apply IH|done].
Qed.

(** Two states that agree on the last [j] decisions and [k] samples. *)
Record agree (j k : Z) (st st' : list Z * History) : Prop := {
  ag_bits : same_tail j (fst st) (fst st');
  ag_samples : same_samples k (snd st) (snd st') }.

Lemma agree_refl j k st : agree j k st st.
Proof. split; [apply same_tail_refl|apply same_samples_refl]. Qed.

Lemma agree_le j k j' k' st st' : agree j k st st' -> j' <= j -> k' <= k -> agree j' k' st st'.
Proof. intros [A B] Hj Hk. split; [by eapply same_tail_le|by eapply same_samples_le]. Qed.

Section Replay.
Context {S M : Type} `{ParserOps S M} `{SearchPlatform} `{DualPlatform} `{MagnitudePlatform} `{ManchesterPlatform}.

Lemma ready_block2 (d : Decoder S) w a : ready d w a -> 0 < BlockSize (Cfg d) /\ BlockSize2 (Cfg d) = 2 * BlockSize (Cfg d).
Proof. intros Hr. split; [apply (geo_block _ (bg_geometry _ (d_bytes _ _ (rd_decoder _ _ _ Hr))))|apply Hr]. Qed.

(** A ready decoder can hear any block, whatever its parsers do with it. *)
Lemma ready_hears (d : Decoder S) st block : ready d (fst st) (snd st) -> block_ok (Cfg d) block ->
  exists bits st' d', demodulate (Cfg d) (snd st) block = Some (snd st', bits) /\ fst st' = push (fst st) bits /\ len bits = BlockSize (Cfg d) /\
    hear (Cfg d) st block = Some st' /\ ready d' (fst st') (snd st') /\ Cfg d' = Cfg d /\ retained (samples d') = retained (samples d) /\
    registry d' = registry d.
Proof.
  intros Hr [Hb Hl]. destruct (ready_advances view [] d _ _ block Hr Hb ltac:(lia)) as (a' & bits & d1 & E1 & E2 & E3 & E4 & E5 & E6 & E7 & E8 & _).
  exists bits, (push (fst st) bits, a'), d1. cbn [fst snd]. split; [done|]. split; [done|]. split; [done|]. split; [unfold hear; by rewrite E1|].
  split; [|done]. destruct Hr as [_ _ K1 K2 K3 K4]. constructor; [done|done|..]; by rewrite E7.
Qed.

(** Decode hears the block, and takes one abstract step. *)
Lemma Decode_hears order (d d' : Decoder S) st block (ms : list M) :
  ready d (fst st) (snd st) -> block_ok (Cfg d) block -> order ≡ₚ elements (dom (preambles (registry d))) ->
  Decode order d block = Some (d', ms) ->
  exists st', hear (Cfg d) st block = Some st' /\ ready d' (fst st') (snd st') /\ Cfg d' = Cfg d /\
    retained (samples d') = retained (samples d) /\ preambles (registry d') = preambles (registry d) /\ shape d d' /\
    abstract_step (Cfg d) (retained (samples d)) (preambles (registry d))
      {| a_window := fst st; a_history := snd st; a_objects := objects (registry d) |} block
      (Some ({| a_window := fst st'; a_history := snd st'; a_objects := objects (registry d') |}, ms)).
Proof.
  intros Hr [Hb Hl] Ho E. assert (BlockSize2 (Cfg d) <= len block) as Hl' by lia.
  pose proof (Decode_step order d _ _ block Hr Hb Hl' Ho) as Hs. cbv zeta in Hs. rewrite E in Hs.
  destruct Hs as (w' & a' & K1 & K2 & K3 & K4 & K5). exists (w', a').
  split; [|split; [done|split; [done|split; [done|split; [done|split; [by eapply Decode_shape|done]]]]]].
  inversion K5 as [? a2 bits v ? Ed _ Ex]. cbn [a_window a_history a_objects] in *.
  apply bind_Some in Ex as ([objs ms'] & _ & Ex). apply (inj Some) in Ex. injection Ex as Ew Ea _ _.
  unfold hear. rewrite Ed. cbn [mbind option_bind]. by rewrite Ew, Ea.
Qed.

(** One block brings two receivers closer: all of its samples agree, and its decisions
    when a symbol of samples did. *)
Lemma hear_agree cfg j k st st' block st2 st2' : block_ok cfg block -> 0 < BlockSize cfg -> BlockSize2 cfg = 2 * BlockSize cfg ->
  0 <= j -> 0 <= k -> agree j k st st' -> hear cfg st block = Some st2 -> hear cfg st' block = Some st2' ->
  (forall a bits, demodulate cfg (snd st) block = Some (a, bits) -> len bits = BlockSize cfg) ->
  (forall a bits, demodulate cfg (snd st') block = Some (a, bits) -> len bits = BlockSize cfg) ->
  agree (if SymbolLength cfg <=? k then j + BlockSize cfg else 0) (k + BlockSize cfg) st2 st2'.
Proof.
  intros Hb HB HB2 Hj Hk [A1 A2] E E' HL HL'. apply bind_Some in E as ([a bits] & Ed & E). apply bind_Some in E' as ([a' bits'] & Ed' & E').
  apply (inj Some) in E as <-, E' as <-. pose proof (HL _ _ Ed) as L. pose proof (HL' _ _ Ed') as L'.
  destruct (demodulate_agree cfg k _ _ block _ _ _ _ Hb HB HB2 Hk A2 Ed Ed') as [K1 K2]. split; [|exact K1]. cbn [fst].
  destruct (Z.leb_spec (SymbolLength cfg) k) as [Hs|Hs].
  - rewrite <- (K2 Hs), <- L. by apply same_tail_push.
  - apply same_tail_zero, length_push_same; [apply A1|]. unfold len in *. lia.
Qed.

(** A step of one receiver is a step of another that hears the same. *)
Lemma abstract_step_agree cfg ov preambles st st' st2 st2' objs objs2 block (ms : list M) :
  abstract_step cfg ov preambles {| a_window := fst st; a_history := snd st; a_objects := objs |} block
    (Some ({| a_window := fst st2; a_history := snd st2; a_objects := objs2 |}, ms)) ->
  hear cfg st' block = Some st2' -> agree (len (fst st2)) (BufferLength cfg) st2 st2' ->
  abstract_step cfg ov preambles {| a_window := fst st'; a_history := snd st'; a_objects := objs |} block
    (Some ({| a_window := fst st2'; a_history := snd st2'; a_objects := objs2 |}, ms)).
Proof.
  intros Hstep E [A1 A2]. apply same_tail_all in A1; [|done].
  inversion Hstep as [order a bits v Ho Ed Hv Ex]. cbn [a_window a_history a_objects] in *.
  apply bind_Some in Ex as ([objs' ms'] & Esp & Ex). apply (inj Some) in Ex. injection Ex as Ew Ea Eo Em. subst objs' ms'.
  apply bind_Some in E as ([a' bits'] & Ed' & E). apply (inj Some) in E as <-. cbn [fst snd] in *.
  pose proof (reception (M := M) cfg ov preambles {| a_window := fst st'; a_history := snd st'; a_objects := objs |} block order a' bits' v Ho Ed') as K.
  cbn [a_window a_objects] in K. rewrite <- A1, <- Ew, Esp in K. cbn [mbind option_bind] in K. rewrite <- A1, <- Ew. apply K.
  subst a. destruct Hv as [V1 V2]. split; [done|]. intros idx n Hi Hn Hin. specialize (V2 idx n Hi Hn Hin).
  destruct (snd st2) as [h|h], a' as [h'|h']; try done; cbn [same_samples] in A2; destruct A2 as [_ A2]; by rewrite <- A2.
Qed.

(** A block is heard by any ready receiver, and keeps the size of its state. *)
Lemma ready_window (d : Decoder S) w a : ready d w a -> len w = BufferLength (Cfg d).
Proof.
  intros Hr. pose proof (rd_decoder _ _ _ Hr) as Hd. rewrite <- (d_window _ _ Hd). unfold window, len. rewrite length_ring.
  by destruct (d_ring _ _ Hd) as [E _].
Qed.

Lemma ready_samples (d : Decoder S) w a : ready d w a ->
  BlockSize (Cfg d) <= match a with RecentMagnitudes h => len h | RecentPowers h => len h end.
Proof.
  intros Hr. pose proof (ready_block2 _ _ _ Hr) as [HB _].
  assert (forall A (h : Strips A) hist, history_ok (Cfg d) h hist -> BlockSize (Cfg d) <= len hist) as Hh.
  { intros A h hist Hok. rewrite (h_hist _ _ _ Hok). pose proof (h_count _ _ _ Hok). pose proof (proj1 (h_overlap _ _ _ Hok)). nia. }
  pose proof (rd_samples _ _ _ Hr) as Hs. pose proof (rd_chip _ _ _ Hr). pose proof (rd_symbol _ _ _ Hr). unfold samples_ok in Hs.
  destruct (samples d), a; try done; [|by apply (Hh _ _ _ (proj1 Hs))|by apply (Hh _ _ _ (proj1 Hs))].
  destruct Hs as [<- Hs]. lia.
Qed.

Lemma hear_form (d : Decoder S) st st' block : ready d (fst st) (snd st) -> block_ok (Cfg d) block -> hear (Cfg d) st block = Some st' ->
  same_form (snd st) (snd st').
Proof.
  intros Hr Hb E. pose proof (ready_block2 _ _ _ Hr) as [HB HB2]. pose proof (ready_samples _ _ _ Hr) as Hl.
  apply bind_Some in E as ([a bits] & Ed & E). apply (inj Some) in E as <-. cbn [snd].
  destruct (demodulate_samples _ _ Hb HB HB2) as (fm & pm & Lf & Lp & D). apply D in Ed.
  destruct (snd st) as [h|h], Ed as [-> _]; apply same_tail_zero; unfold push, len in *; rewrite length_app, length_drop; lia.
Qed.

(** ** A decoder in tune with a reference receiver *)

Section Tuned.
(** The allocated decoder, its state, and the state that the reference receiver is in
    before the first block. *)
Context (d0 : Decoder S) (st0 : list Z * History).

Definition reference (blocks : list (list Z)) (ref : list Z * History) : Prop :=
  heard (Cfg d0) st0 blocks = Some ref /\ agree 0 0 st0 ref /\ exists dr : Decoder S, ready dr (fst ref) (snd ref) /\ Cfg dr = Cfg d0.

(** [d] agrees with the reference receiver, which has heard [blocks], on the last [j]
    decisions and [k] samples; and Reset takes it back to [d0]. *)
Record tuned (blocks : list (list Z)) (j k : Z) (d : Decoder S) : Prop := {
  tu_cfg : Cfg d = Cfg d0;
  tu_retained : retained (samples d) = retained (samples d0);
  tu_preambles : preambles (registry d) = preambles (registry d0);
  tu_reset : Reset d = Some (with_registry d0 (registry d));
  tu_state : exists st ref, ready d (fst st) (snd st) /\ reference blocks ref /\ agree j k st ref }.

(** What the reference receiver may give for a block after [blocks]: the messages of one
    of its steps, with some parsers. *)
Definition genuine (blocks : list (list Z)) (block : list Z) (ms : list M) : Prop :=
  exists ref objs A', heard (Cfg d0) st0 blocks = Some ref /\
    abstract_step (Cfg d0) (retained (samples d0)) (preambles (registry d0))
      {| a_window := fst ref; a_history := snd ref; a_objects := objs |} block (Some (A', ms)).

Definition next_bits (j k : Z) : Z := if SymbolLength (Cfg d0) <=? k then j + BlockSize (Cfg d0) else 0.

Lemma reference_hears blocks ref block : reference blocks ref -> block_ok (Cfg d0) block ->
  exists ref', hear (Cfg d0) ref block = Some ref' /\ reference (blocks ++ [block]) ref'.
Proof.
  intros (E & [A1 A2] & dr & Hr & Ec) Hb. rewrite <- Ec in Hb.
  destruct (ready_hears dr ref block Hr Hb) as (bits & ref' & dr' & Ed & Ew & El & Eh & Hr' & Ec' & _). pose proof (hear_form dr ref ref' block Hr Hb Eh) as Hform.
  rewrite Ec in Eh. exists ref'. split; [done|]. split; [by rewrite heard_snoc, E|]. split; [|exists dr'; by rewrite Ec', Ec].
  pose proof (ready_window _ _ _ Hr). pose proof (ready_window _ _ _ Hr'). rewrite Ec' in *. split.
  - apply same_tail_zero. destruct A1 as [A1 _]. unfold len in *. lia.
  - destruct (snd st0), (snd ref), (snd ref'); try done; cbn in *; apply same_tail_zero; destruct A2, Hform; congruence.
Qed.

Lemma demodulated_length (d : Decoder S) st block a bits : ready d (fst st) (snd st) -> Cfg d = Cfg d0 -> block_ok (Cfg d0) block ->
  demodulate (Cfg d0) (snd st) block = Some (a, bits) -> len bits = BlockSize (Cfg d0).
Proof.
  intros Hr Ec Hb E. rewrite <- Ec in *. destruct (ready_hears d st block Hr Hb) as (bits' & st' & d' & Ed & _ & El & _).
  rewrite E in Ed. by injection Ed as _ ->.
Qed.

(** Decoding a block keeps the decoder in tune; once it agrees on the whole buffer its
    messages are genuine. *)
Lemma tuned_step order blocks j k d block d' (ms : list M) :
  tuned blocks j k d -> 0 <= j -> 0 <= k -> block_ok (Cfg d0) block -> order ≡ₚ elements (dom (preambles (registry d0))) ->
  Decode order d block = Some (d', ms) ->
  tuned (blocks ++ [block]) (next_bits j k) (k + BlockSize (Cfg d0)) d' /\
  (BufferLength (Cfg d0) <= next_bits j k -> BufferLength (Cfg d0) <= k + BlockSize (Cfg d0) -> genuine blocks block ms).
Proof.
  intros [Ec Et Ep Er (st & ref & Hr & Href & Hag)] Hj Hk Hb Ho E. pose proof (ready_block2 _ _ _ Hr) as [HB HB2]. rewrite Ec in HB, HB2.
  rewrite <- Ec in Hb. rewrite <- Ep in Ho. destruct (Decode_hears order d d' st block ms Hr Hb Ho E) as (st' & Eh & Hr' & Ec' & Et' & Ep' & Hsh & Hstep).
  rewrite Ec in Hb, Eh, Ec', Hstep. rewrite Et in Et', Hstep. rewrite Ep in Ep', Hstep.
  destruct (reference_hears blocks ref block Href Hb) as (ref' & Eh' & Href'). pose proof Href as (Eref & _ & dr & Hrr & Ecr).
  assert (agree (next_bits j k) (k + BlockSize (Cfg d0)) st' ref') as Hag'.
  { apply (hear_agree (Cfg d0) j k st ref block); try done; intros a bits; by eapply demodulated_length. }
  split; [|intros H1' H2'; exists ref, (objects (registry d)); eexists; split; [done|]].
  - constructor; try done; [|by exists st', ref']. by rewrite (Reset_shape _ _ Hsh), Er.
  - apply (abstract_step_agree _ _ _ st ref st' ref' _ _ block ms Hstep Eh'). eapply agree_le; [exact Hag'| |done].
    rewrite (ready_window _ _ _ Hr'), Ec'. done.
Qed.

(** Reset forgets everything. *)
Lemma tuned_reset blocks j k d d' : ready d0 (fst st0) (snd st0) -> Reset d0 = Some d0 -> tuned blocks j k d -> Reset d = Some d' ->
  forall blocks' ref, reference blocks' ref -> tuned blocks' 0 0 d'.
Proof.
  intros H0' H00 [Ec Et Ep Er (st & _ & Hr & _)] E blocks' ref Href. rewrite Er in E. injection E as <-. constructor; try done.
  - rewrite (Reset_shape d0); [by rewrite H00|]. constructor; try done. cbn [with_registry samples]. unfold samples_shape, strips_shape, packed_shape. by destruct (samples d0).
  - exists st0, ref. split; [|split; [done|apply Href]]. destruct H0' as [[] K1 K2 K3 K4 K5]. pose proof (rd_decoder _ _ _ Hr) as [_ R1 Rd _ R0 _ R2 _ _ _ _ _ _ _].
    rewrite Ec in R2, R0, Rd. constructor; [|exact K1|done..]. constructor; done.
Qed.
End Tuned.
End Replay.
