(* ===== verification/DutyRuntimeSpec.v ===== *)
(** What the runtime of the duty scheduler keeps: the collar is a window of the last
    blocks, and the sample clock is that of the number of blocks. *)

From S2P Require Import Prelude Float64 Packet Search Ring Signal Decode Update DutyMath DutyModel Scheduler DutyDefaults DutyState DutySnapshot DutyRuntime DutyCheckpoint.

(** ** The collar *)

Lemma lookup_ring_at {A} start k (l : list A) : (start <= length l)%nat -> (k < length l)%nat ->
  ring start l !! k = l !! (if (start + k <? length l)%nat then start + k else start + k - length l)%nat.
Proof.
  intros Hs Hk. unfold ring. destruct (Nat.ltb_spec (start + k) (length l)).
  - rewrite lookup_app_l by (rewrite length_drop; lia). by rewrite lookup_drop.
  - rewrite lookup_app_r by (rewrite length_drop; lia). rewrite length_drop, lookup_take_lt by lia. f_equal. lia.
Qed.

Section Collar.

Record ring_fine (d : dutyRuntime) : Prop := {
  rf_next : 0 <= rt_collarNext d < len (rt_collar d);
  rf_count : 0 <= rt_collarCount d <= len (rt_collar d);
  rf_filling : rt_collarCount d < len (rt_collar d) -> rt_collarNext d = rt_collarCount d }.

(** The entries of the collar, oldest first. *)
Definition ordered (d : dutyRuntime) : list dutyCollarBlock :=
  if rt_collarCount d <? len (rt_collar d) then take (Z.to_nat (rt_collarNext d)) (rt_collar d)
  else ring (Z.to_nat (rt_collarNext d)) (rt_collar d).

Lemma length_ordered d : ring_fine d -> len (ordered d) = rt_collarCount d.
Proof.
  intros [R1 R2 R3]. unfold ordered. destruct (Z.ltb_spec (rt_collarCount d) (len (rt_collar d))); unfold len in *.
  - rewrite length_take. rewrite R3 in * by done. lia.
  - rewrite length_ring. lia.
Qed.

Lemma orderedCollar_spec d : ring_fine d -> orderedCollar d = Some (ordered d).
Proof.
  intros Hf. pose proof (length_ordered d Hf) as Hl. destruct Hf as [R1 R2 R3]. unfold orderedCollar.
  set (start := if _ <? 0 then _ else _). set (f := fun offset : Z => index _ _).
  assert (forall k, (k < Z.to_nat (rt_collarCount d))%nat -> f (Z.of_nat k) = ordered d !! k) as Hk.
  { intros k Hk. unfold f, start, ordered, index, len in *. clear f start.
    destruct (Z.ltb_spec (rt_collarCount d) (Z.of_nat (length (rt_collar d)))) as [Hc|Hc].
    - rewrite R3 by done. replace (rt_collarCount d - rt_collarCount d) with 0 by lia. cbn [Z.ltb Z.compare].
      destruct (Z.leb_spec (Z.of_nat (length (rt_collar d))) (0 + Z.of_nat k)); [lia|]. rewrite (proj2 (Z.leb_le 0 _)) by lia.
      rewrite lookup_take_lt by lia. f_equal. lia.
    - destruct (Z.ltb_spec (rt_collarNext d - rt_collarCount d) 0); [|lia].
      replace (rt_collarNext d - rt_collarCount d + Z.of_nat (length (rt_collar d)) + Z.of_nat k) with (rt_collarNext d + Z.of_nat k) by lia.
      rewrite lookup_ring_at by lia. destruct (Z.leb_spec (Z.of_nat (length (rt_collar d))) (rt_collarNext d + Z.of_nat k));
        (rewrite (proj2 (Z.leb_le _ _)) by lia); destruct (Nat.ltb_spec (Z.to_nat (rt_collarNext d) + k) (length (rt_collar d))); try lia; f_equal; lia. }
  destruct (mapM_seqZ f (Z.to_nat (rt_collarCount d))) as (l & El & Ll & Hlk).
  { intros k Hk'. rewrite Hk by done. apply lookup_lt_is_Some. unfold len in Hl. lia. }
  rewrite Z2Nat.id in El by lia. rewrite El. f_equal. apply list_eq. intros k. destruct (decide (k < Z.to_nat (rt_collarCount d))%nat) as [Hlt|Hge].
  - rewrite Hlk, Hk; done.
  - rewrite !lookup_ge_None_2; [done|unfold len in Hl; lia|lia].
Qed.

Lemma ring_decomposed {A} (a b : list A) x : ring (length a) (a ++ x :: b) = x :: b ++ a.
Proof. unfold ring. by rewrite drop_app_length, take_app_length. Qed.

Lemma ring_advanced {A} (a b : list A) x e : ring (Datatypes.S (length a)) (a ++ e :: b) = drop 1 (ring (length a) (a ++ x :: b)) ++ [e].
Proof.
  rewrite ring_decomposed. cbn [drop]. unfold ring. replace (Datatypes.S (length a)) with (length (a ++ [e])) by (rewrite length_app; cbn; lia).
  replace (a ++ e :: b) with ((a ++ [e]) ++ b) by (by rewrite <- app_assoc). by rewrite drop_app_length, take_app_length, app_assoc.
Qed.

Lemma tail_of_all {A} n (l : list A) : len l <= n -> tail_of n l = l.
Proof. intros Hn. unfold tail_of, len in *. by replace (length l - Z.to_nat n)%nat with 0%nat by lia. Qed.

(** Storing a block slides the window of the collar. *)
Lemma store_block_spec block start end_ wallTime decision d : ring_fine d ->
  exists entry collar next count, let e := fill_entry (rt_borrowRaw d) block start end_ wallTime decision entry in
    let d' := d <| rt_collar := collar |> <| rt_collarNext := next |> <| rt_collarCount := count |> in
    store_block block start end_ wallTime decision d = Some d' /\ entry ∈ rt_collar d /\ ring_fine d' /\ length collar = length (rt_collar d) /\
    (forall x, x ∈ collar -> x ∈ rt_collar d \/ x = e) /\ ordered d' = tail_of (len (rt_collar d)) (ordered d ++ [e]).
Proof.
  intros Hf. pose proof (length_ordered d Hf) as Hlo. destruct Hf as [R1 R2 R3].
  destruct (index_lt (rt_collar d) (rt_collarNext d) R1) as [entry Ei]. set (e := fill_entry (rt_borrowRaw d) block start end_ wallTime decision entry).
  pose proof Ei as [_ El]%index_Some. set (n := Z.to_nat (rt_collarNext d)) in *. set (collar := <[n := e]> (rt_collar d)).
  assert (store (rt_collar d) (rt_collarNext d) e = Some collar) as Es.
  { unfold store. by rewrite (proj2 (Z.leb_le 0 _)), (proj2 (Z.ltb_lt _ _)) by lia. }
  assert (length collar = length (rt_collar d)) as Ec by apply length_insert.
  exists entry, collar, (if rt_collarNext d + 1 =? len collar then 0 else rt_collarNext d + 1),
    (if rt_collarCount d <? len collar then rt_collarCount d + 1 else rt_collarCount d). cbv zeta. fold e.
  split; [unfold store_block; rewrite Ei; cbn [mbind option_bind]; fold e; by rewrite Es|].
  split; [by eapply list_elem_of_lookup_2|].
  assert (len collar = len (rt_collar d)) as Ec' by (unfold len; by rewrite Ec).
  pose proof (take_drop_middle _ _ _ El) as Hcut. assert (n < length (rt_collar d))%nat as Hn by (by eapply lookup_lt_Some).
  set (a := take n (rt_collar d)) in *. set (b := drop (Datatypes.S n) (rt_collar d)) in *.
  assert (length a = n) as La by (unfold a; rewrite length_take; lia).
  assert (collar = a ++ e :: b) as Ecol by (unfold collar; rewrite <- Hcut; by rewrite <- La, insert_app_r_alt, Nat.sub_diag by lia).
  split; [constructor; cbn; rewrite Ec' in *; repeat case_match; lia|]. split; [done|]. split.
  { intros x. rewrite Ecol, <- Hcut. rewrite !elem_of_app, !elem_of_cons. tauto. }
  unfold ordered in *. cbn [rt_collar rt_collarNext rt_collarCount upd]. rewrite Ec'.
  destruct (Z.ltb_spec (rt_collarCount d) (len (rt_collar d))) as [Hc|Hc].
  - rewrite tail_of_all by (rewrite len_app; cbn; unfold len in *; rewrite length_take in *; cbn; lia). change (Z.to_nat (rt_collarNext d)) with n. fold a.
    assert (a ++ [e] = take (Datatypes.S n) collar) as ->.
    { rewrite Ecol. replace (Datatypes.S n) with (length a + 1)%nat by lia. rewrite take_app_add. done. }
    destruct (Z.ltb_spec (rt_collarCount d + 1) (len (rt_collar d))); destruct (Z.eqb_spec (rt_collarNext d + 1) (len (rt_collar d))); try lia.
    + f_equal. lia.
    + rewrite take_ge by (unfold len in *; lia). unfold ring. by rewrite drop_0, take_0, app_nil_r.
  - rewrite (proj2 (Z.ltb_ge _ _)) by lia. fold n. unfold tail_of. rewrite length_app, length_ring. cbn [length].
    replace (length (rt_collar d) + 1 - Z.to_nat (len (rt_collar d)))%nat with 1%nat by (unfold len; lia).
    rewrite drop_app_le by (rewrite length_ring; lia). rewrite <- Hcut, <- La, <- (ring_advanced a b entry e), Hcut, <- Ecol.
    destruct (Z.eqb_spec (rt_collarNext d + 1) (len (rt_collar d))) as [E|E]; [|f_equal; lia].
    unfold ring. rewrite drop_0, take_0, app_nil_r, drop_ge, take_ge by (unfold len in *; lia). done.
Qed.

(** ** The skipped run *)

(** An entry that a skipped block can be replayed from. *)
Definition raw (e : dutyCollarBlock) (block : list Z) : Prop := cb_data e = block /\ cb_decoded e = false /\ cb_rawValid e = true.

Lemma no_tail n (es : list dutyCollarBlock) : Forall2 raw (tail_of 0 es) (tail_of n []).
Proof. unfold tail_of. rewrite !drop_ge by (cbn; lia). constructor. Qed.

(** The part of the runtime that gating depends on. *)
Definition gate_part (d : dutyRuntime) :=
  (rt_collar d, rt_collarCount d, rt_collarNext d, rt_warmupBlocks d, rt_borrowRaw d, rt_wasSkipped d, rt_skippedRun d, rt_blockBytes d, rt_mode d).

(** After [blocks], of which the last [sleeping] were not decoded: the collar ends with
    the raw bytes of as many of them as it holds. *)
Record gate_ok (blocks sleeping : list (list Z)) (d : dutyRuntime) : Prop := {
  ga_ring : ring_fine d;
  ga_warmup : 0 <= rt_warmupBlocks d < len (rt_collar d);
  ga_buffers : Forall (fun e => rt_borrowRaw d = false -> len (cb_data e) = rt_blockBytes d) (rt_collar d);
  ga_count : rt_collarCount d = Z.min (len blocks) (len (rt_collar d));
  ga_skipped : rt_skippedRun d = len sleeping /\ rt_wasSkipped d = negb (len sleeping =? 0);
  ga_sleeping : len sleeping <= len blocks;
  ga_raw : Forall2 raw (tail_of (len sleeping) (ordered d)) (tail_of (len (rt_collar d)) sleeping) }.

Lemma gate_ok_ext blocks sleeping d d' : gate_part d = gate_part d' -> gate_ok blocks sleeping d -> gate_ok blocks sleeping d'.
Proof.
  intros E [[] K1 K2 K3 K4 K5 K6]. unfold ordered in K6. injection E as E1 E2 E3 E4 E5 E6 E7 E8 E9.
  constructor; [constructor|..]; unfold ordered; rewrite <- ?E1, <- ?E2, <- ?E3, <- ?E4, <- ?E5, <- ?E6, <- ?E7, <- ?E8; done.
Qed.

Lemma tail_of_snoc {A} n (l : list A) x : 0 <= n -> tail_of (n + 1) (l ++ [x]) = tail_of n l ++ [x].
Proof. intros Hn. unfold tail_of. rewrite length_app. cbn [length]. rewrite drop_app_le by lia. do 2 f_equal. lia. Qed.

Lemma tail_of_tail {A} n m (l : list A) : n <= m -> tail_of n (tail_of m l) = tail_of n l.
Proof. intros Hn. unfold tail_of. rewrite drop_drop, length_drop. f_equal. lia. Qed.

Lemma Forall2_tail_of {A B} (P : A -> B -> Prop) n l k : Forall2 P l k -> Forall2 P (tail_of n l) (tail_of n k).
Proof. intros F. unfold tail_of. rewrite (Forall2_length _ _ _ F). by apply Forall2_drop. Qed.

(** The window of raw blocks slides with the collar. *)
Lemma raw_slides (es : list dutyCollarBlock) (sleeping : list (list Z)) cap e block :
  0 < cap -> Forall2 raw (tail_of (len sleeping) es) (tail_of cap sleeping) -> raw e block ->
  Forall2 raw (tail_of (len (sleeping ++ [block])) (tail_of cap (es ++ [e]))) (tail_of cap (sleeping ++ [block])).
Proof.
  intros Hc F He. rewrite len_app. change (len [block]) with 1. pose proof (len_nonneg sleeping).
  assert (tail_of cap (sleeping ++ [block]) = tail_of cap (tail_of cap sleeping ++ [block])) as ->.
  { replace cap with (cap - 1 + 1) at 1 2 by lia. rewrite !tail_of_snoc by lia. by rewrite tail_of_tail by lia. }
  assert (tail_of (len sleeping + 1) (tail_of cap (es ++ [e])) = tail_of cap (tail_of (len sleeping) es ++ [e])) as ->.
  { rewrite <- tail_of_snoc by lia. unfold tail_of. rewrite !drop_drop, !length_drop. f_equal. lia. }
  apply Forall2_tail_of, Forall2_app; [done|]. constructor; [exact He|constructor].
Qed.

(** [finishBlock]: the block joins the sleeping ones, or wakes the receiver. *)
Lemma finishBlock_gate block start end_ wallTime decision blocks sleeping d :
  gate_ok blocks sleeping d -> len block = rt_blockBytes d -> len blocks + 1 < 2 ^ 63 ->
  exists d', finishBlock block start end_ wallTime decision d = Some d' /\
    gate_ok (blocks ++ [block]) (if d_Decode decision then [] else sleeping ++ [block]) d' /\
    rt_scheduler d' = rt_scheduler d /\ rt_mode d' = rt_mode d /\ rt_blockBytes d' = rt_blockBytes d /\ rt_warmupBlocks d' = rt_warmupBlocks d /\
    len (rt_collar d') = len (rt_collar d).
Proof.
  intros [K1 K2 K3 K4 [K5 K5'] K6 K7] Hb Hn. pose proof (length_ordered d K1) as Hlo.
  destruct (store_block_spec block start end_ wallTime decision d K1) as (entry & collar & next & count & E1 & E2 & E3 & E4 & E5 & E6).
  set (e := fill_entry _ _ _ _ _ _ _) in *. cbv zeta in E1, E3, E6. set (d1 := d <| rt_collar := collar |> <| rt_collarNext := next |> <| rt_collarCount := count |>) in *.
  assert (len collar = len (rt_collar d)) as Lc by (unfold len; by rewrite E4).
  pose proof (length_ordered d1 E3) as Hlo1. rewrite E6 in Hlo1. pose proof (len_nonneg blocks). pose proof (len_nonneg sleeping).
  assert (rt_collarCount d1 = Z.min (len (blocks ++ [block])) (len (rt_collar d1))) as K4'.
  { rewrite <- Hlo1. change (rt_collar d1) with collar. rewrite Lc, len_app. change (len [block]) with 1. unfold tail_of, len in *.
    rewrite length_drop, length_app. cbn [length]. lia. }
  assert (Forall (fun x => rt_borrowRaw d = false -> len (cb_data x) = rt_blockBytes d) collar) as K3'.
  { apply Forall_forall. intros x Hx. rewrite Forall_forall in K3. destruct (E5 x Hx) as [Ho| ->]; [by apply K3|]. intros Hbr.
    unfold e, fill_entry. cbn [cb_data]. rewrite Hbr. destruct (d_Decode decision); [by apply K3|]. unfold len. rewrite length_gocopy. by apply K3. }
  exists (count_block decision d1). unfold finishBlock. rewrite E1. cbn [mbind option_bind]. split; [done|].
  assert (rt_skippedRun d1 = len sleeping) as Ks by exact K5.
  destruct (d_Decode decision) eqn:Ed.
  - set (d2 := d1 <| rt_skippedRun := 0 |> <| rt_wasSkipped := false |>).
    assert (gate_part d2 = gate_part (count_block decision d1)) as Eg by (unfold count_block; rewrite Ed; by destruct (d_Audit decision), (d_Refresh decision)).
    split; [|unfold count_block; rewrite Ed; by destruct (d_Audit decision), (d_Refresh decision)].
    apply (gate_ok_ext _ _ d2 _ Eg). constructor; try done.
    + destruct E3. by constructor.
    + change (0 <= rt_warmupBlocks d < len collar). lia.
    + change (0 <= len (blocks ++ [block])). apply len_nonneg.
    + change (Forall2 raw (tail_of 0 (ordered d1)) []). unfold tail_of. by rewrite drop_ge by lia.
  - set (d2 := d1 <| rt_skippedRun := len sleeping + 1 |> <| rt_wasSkipped := true |>).
    assert (gate_part d2 = gate_part (count_block decision d1)) as Eg.
    { unfold count_block. rewrite Ed, Ks, i64_id by lia. by destruct (d_Audit decision), (d_Refresh decision). }
    split; [|unfold count_block; rewrite Ed; by destruct (d_Audit decision), (d_Refresh decision)].
    apply (gate_ok_ext _ _ d2 _ Eg). constructor; try done.
    + destruct E3. by constructor.
    + change (0 <= rt_warmupBlocks d < len collar). lia.
    + rewrite len_app. change (len [block]) with 1. split; [done|]. cbn. symmetry. apply negb_true_iff, Z.eqb_neq. lia.
    + rewrite !len_app. lia.
    + change (ordered d2) with (ordered d1). change (rt_collar d2) with collar. rewrite E6, Lc. apply raw_slides; [lia|done|].
      unfold e, fill_entry, raw. cbn. rewrite Ed. split; [|done]. destruct (rt_borrowRaw d) eqn:Hbr; [done|]. rewrite gocopy_eq; [done|].
      rewrite Forall_forall in K3. specialize (K3 entry E2 eq_refl). unfold len in *. lia.
Qed.
End Collar.

(** ** The clock *)

Lemma quot_le_iff a b n : 0 < b -> 0 <= a -> (Z.quot a b <? n) = (a <? n * b).
Proof.
  intros Hb Ha. rewrite Z.quot_div_nonneg by lia. pose proof (Z.div_mod a b). pose proof (Z.mod_pos_bound a b Hb).
  destruct (Z.ltb_spec (a / b) n), (Z.ltb_spec a (n * b)); nia.
Qed.

Lemma clock_split n num rate : 0 < rate ->
  n * num / rate = n * (num / rate) + n * (num mod rate) / rate /\ (n * num) mod rate = (n * (num mod rate)) mod rate.
Proof.
  intros Hr. assert (n * num = n * (num mod rate) + n * (num / rate) * rate) as -> by (rewrite (Z.div_mod num rate) at 1 by lia; ring).
  rewrite Z.div_add, Z.mod_add by lia. lia.
Qed.

Definition good_geometry (blockSamples sampleRate : Z) : Prop :=
  0 < blockSamples /\ 0 < sampleRate /\ blockSamples * second + sampleRate <= 2 ^ 63.

(** The closed form is exact, and defined for every smaller number of blocks. *)
Lemma dutySampleClock_exact n bs rate : good_geometry bs rate -> 0 <= n ->
  match dutySampleClock n bs rate with
  | inr (t, r) => t = n * (bs * second) / rate /\ r = (n * (bs * second)) mod rate /\ n < 2 ^ 63 /\ t < 2 ^ 63 /\
      n * (bs * second mod rate) < 2 ^ 63
  | inl _ => 2 ^ 63 <= n \/ 2 ^ 63 <= n * (bs * second) / rate \/ 2 ^ 63 <= n * (bs * second mod rate)
  end.
Proof.
  intros (Hb & Hr & Hg) Hn. unfold dutySampleClock.
  assert (bs <= max_i64 / second) as Hmax by (apply Z.div_le_lower_bound; unfold max_i64, second in *; lia).
  rewrite (proj2 (Z.leb_gt bs 0)), (proj2 (Z.leb_gt rate 0)), (proj2 (Z.ltb_ge _ bs)) by lia. cbn [orb].
  rewrite (i64_id (bs * second)) by (unfold second in *; lia). set (num := bs * second) in *. assert (0 < num) by (unfold num, second; lia).
  rewrite Z.quot_div_nonneg, Z.rem_mod_nonneg by lia. destruct (clock_split n num rate Hr) as [-> ->].
  pose proof (Z.mod_pos_bound num rate Hr). assert (0 <= num / rate) by (apply Z.div_pos; lia).
  set (whole := num / rate) in *. set (rem := num mod rate) in *. unfold max_i64 in *.
  assert (0 <= n * rem / rate) by (apply Z.div_pos; nia).
  destruct (Z.ltb_spec (2 ^ 63 - 1) n); cbn [orb]; [lia|]. rewrite (proj2 (Z.ltb_ge whole 0)) by lia. cbn [orb].
  destruct (Z.ltb_spec 0 whole) as [Hw|Hw]; cbn [andb orb]; [rewrite quot_le_iff by lia; destruct (Z.ltb_spec (2 ^ 63 - 1) (n * whole)); cbn [orb]; [lia|]|];
  (destruct (Z.ltb_spec 0 rem) as [Hm|Hm]; cbn [andb orb]; [rewrite quot_le_iff by lia; destruct (Z.ltb_spec (2 ^ 63 - 1) (n * rem)); cbn [orb]; [lia|]|]);
  rewrite (i64_id n) by lia; rewrite (i64_id (n * rem)), (i64_id (n * whole)) by nia; rewrite Z.quot_div_nonneg, Z.rem_mod_nonneg by nia;
  assert (n * rem / rate < 2 ^ 63) by (apply Z.div_lt_upper_bound; nia);
  (destruct (Z.lt_ge_cases (n * whole + n * rem / rate) (2 ^ 63)) as [Hf|Hf];
    [rewrite i64_id by nia; rewrite (proj2 (Z.ltb_ge _ _)) by nia; nia|];
    assert (i64 (n * whole + n * rem / rate) = n * whole + n * rem / rate - 2 ^ 64) as -> by
      (unfold i64, wrap_s; change (64 - 1) with 63; rewrite <- (Z.mod_unique _ (2 ^ 64) 1 (n * whole + n * rem / rate + 2 ^ 63 - 2 ^ 64)) by nia; lia);
    rewrite (proj2 (Z.ltb_lt _ _)) by nia; lia).
Qed.

Lemma dutySampleClock_le n m bs rate t r : good_geometry bs rate -> 0 <= n <= m -> dutySampleClock m bs rate = inr (t, r) ->
  exists t' r', dutySampleClock n bs rate = inr (t', r').
Proof.
  intros Hg Hn E. pose proof (dutySampleClock_exact m bs rate Hg ltac:(lia)) as Hm. rewrite E in Hm. destruct Hm as (-> & _ & M1 & M2 & M3).
  pose proof (dutySampleClock_exact n bs rate Hg ltac:(lia)) as Hd. destruct Hg as (Hb & Hr & _).
  destruct (dutySampleClock n bs rate) as [e|[t' r']]; [|by exists t', r']. exfalso.
  pose proof (Z.mod_pos_bound (bs * second) rate Hr).
  assert (n * (bs * second) / rate <= m * (bs * second) / rate) by (apply Z.div_le_mono; unfold second in *; nia).
  assert (n * (bs * second mod rate) <= m * (bs * second mod rate)) by nia. lia.
Qed.

Lemma clock_zero bs rate : good_geometry bs rate -> dutySampleClock 0 bs rate = inr (0, 0).
Proof.
  intros Hg. pose proof (dutySampleClock_exact 0 bs rate Hg ltac:(lia)) as K. destruct Hg as (_ & Hr & _).
  rewrite Z.mul_0_l, Z.mul_0_l, Z.div_0_l, Z.mod_0_l in K by lia. destruct (dutySampleClock 0 bs rate) as [e|[t r]]; [exfalso; lia|].
  by destruct K as (-> & -> & _).
Qed.

(** The part of the runtime that keeps time. *)
Definition clock_part (d : dutyRuntime) :=
  (rt_sampleTime d, rt_sampleRemainder d, rt_sampleRate d, rt_blockSamples d, rt_decodedBlocks d, rt_skippedBlocks d).

Definition block_count (d : dutyRuntime) : Z := u64 (rt_decodedBlocks d + rt_skippedBlocks d).

Definition clock_ok (d : dutyRuntime) : Prop :=
  dutySampleClock (block_count d) (rt_blockSamples d) (rt_sampleRate d) = inr (rt_sampleTime d, rt_sampleRemainder d).

Lemma clock_ok_ext d d' : clock_part d = clock_part d' -> clock_ok d -> clock_ok d'.
Proof. unfold clock_ok, block_count. intros E. injection E as E1 E2 E3 E4 E5 E6. by rewrite E1, E2, E3, E4, E5, E6. Qed.

Lemma block_count_nonneg d : 0 <= block_count d.
Proof. apply wrap_u_range. lia. Qed.

(** One tick is the step of the closed form. *)
Lemma tick_clock_exact d t r : good_geometry (rt_blockSamples d) (rt_sampleRate d) -> clock_ok d ->
  dutySampleClock (block_count d + 1) (rt_blockSamples d) (rt_sampleRate d) = inr (t, r) ->
  tick_clock d = Some (d <| rt_sampleRemainder := r |> <| rt_sampleTime := t |>).
Proof.
  intros Hg Hc E. pose proof (block_count_nonneg d) as Hn. set (n := block_count d) in *.
  pose proof (dutySampleClock_exact n _ _ Hg Hn) as H0. pose proof (dutySampleClock_exact (n + 1) _ _ Hg ltac:(lia)) as H1.
  unfold clock_ok in Hc. fold n in Hc. rewrite Hc in H0. rewrite E in H1. destruct H0 as (T0 & R0 & _), H1 as (T1 & R1 & _ & L1 & _).
  destruct Hg as (Hb & Hr & Hg). unfold tick_clock. set (num := rt_blockSamples d * second) in *. assert (0 < num) by (unfold num, second; lia).
  assert (0 <= rt_sampleRemainder d < rt_sampleRate d) as Hrem by (rewrite R0; apply Z.mod_pos_bound; lia).
  rewrite (i64_id num) by lia. rewrite i64_id by lia. unfold go_quot, go_rem. rewrite (proj2 (Z.eqb_neq (rt_sampleRate d) 0)) by lia.
  cbn [mbind option_bind]. rewrite Z.quot_div_nonneg, Z.rem_mod_nonneg by lia.
  assert ((n + 1) * num = num + rt_sampleRemainder d + rt_sampleTime d * rt_sampleRate d) as Hsum.
  { rewrite T0, R0. pose proof (Z.div_mod (n * num) (rt_sampleRate d)). lia. }
  assert (t = rt_sampleTime d + (num + rt_sampleRemainder d) / rt_sampleRate d) as Ht by (rewrite T1, Hsum, Z.div_add; lia).
  assert (r = (num + rt_sampleRemainder d) mod rt_sampleRate d) as Hr' by (rewrite R1, Hsum, Z.mod_add; lia).
  assert (0 <= (num + rt_sampleRemainder d) / rt_sampleRate d) by (apply Z.div_pos; lia).
  assert (0 <= rt_sampleTime d) by (rewrite T0; apply Z.div_pos; nia).
  rewrite (i64_id (_ / _)), i64_id by lia. by rewrite <- Ht, <- Hr'.
Qed.

(** A finished block is counted once. *)
Lemma count_block_count decision d : block_count d + 1 < 2 ^ 64 -> block_count (count_block decision d) = block_count d + 1.
Proof.
  intros Hlt. unfold block_count, count_block in *. set (x := rt_decodedBlocks d) in *. set (y := rt_skippedBlocks d) in *.
  assert (u64 (u64 (x + 1) + y) = u64 (x + y) + 1 /\ u64 (x + u64 (y + 1)) = u64 (x + y) + 1) as [E1 E2].
  { unfold u64, wrap_u in *. rewrite Z.add_mod_idemp_l, Z.add_mod_idemp_r by lia. replace (x + 1 + y) with (x + y + 1) by ring.
    replace (x + (y + 1)) with (x + y + 1) by ring. rewrite <- (Z.add_mod_idemp_l (x + y)) by lia.
    pose proof (Z.mod_pos_bound (x + y) (2 ^ 64)). rewrite (Z.mod_small (_ + 1)) by lia. done. }
  destruct (d_Decode decision), (d_Audit decision), (d_Refresh decision); done.
Qed.

Lemma finishBlock_clock block start end_ wallTime decision d d' : finishBlock block start end_ wallTime decision d = Some d' ->
  block_count d + 1 < 2 ^ 64 ->
  block_count d' = block_count d + 1 /\ rt_sampleTime d' = rt_sampleTime d /\ rt_sampleRemainder d' = rt_sampleRemainder d /\
  rt_sampleRate d' = rt_sampleRate d /\ rt_blockSamples d' = rt_blockSamples d.
Proof.
  intros (d1 & E & E')%bind_Some Hlt. apply (inj Some) in E' as <-. apply bind_Some in E as (entry & _ & E). apply bind_Some in E as (collar & _ & E).
  apply (inj Some) in E. assert (clock_part d1 = clock_part d) as Ec by (by rewrite <- E). clear E. injection Ec as E1 E2 E3 E4 E5 E6.
  assert (block_count d1 = block_count d) as En by (unfold block_count; by rewrite E5, E6).
  rewrite count_block_count, En by lia. split; [done|]. rewrite <- E1, <- E2, <- E3, <- E4. unfold count_block.
  by destruct (d_Decode decision), (d_Audit decision), (d_Refresh decision).
Qed.

(** ** Starting a runtime *)

Section Started.
Context `{GoMath} `{Fingerprint}.
Context (ParseTime : list Z -> option Z) (Lstat : list Z -> option file_info) (Unmarshal : list Z -> option dutyRuntimeReport)
  (sort_Slice : (dutyCheckpointCandidate -> dutyCheckpointCandidate -> bool) -> list dutyCheckpointCandidate -> list dutyCheckpointCandidate)
  (sort_Slice_permutes : forall less l, sort_Slice less l ≡ₚ l).

(** A runtime before its first block: constructed, perhaps resumed from the checkpoints
    of a directory, perhaps told to keep blocks by reference. *)
Inductive started (now : Z) (cfg : PacketConfig) (ids : list Z) (schedulerConfig : Config) : dutyRuntime -> Prop :=
  | started_fresh d : newDutyRuntimeWithConfig now cfg ids schedulerConfig = Some (inr d) -> started now cfg ids schedulerConfig d
  | started_resumed d dir interval entries d' : started now cfg ids schedulerConfig d ->
      restoreBestCheckpoint ParseTime Lstat Unmarshal sort_Slice entries
        (d <| rt_checkpointDir := dir |> <| rt_checkpointInterval := interval |> <| rt_nextCheckpointUTC := None |>) = Some (d', inr tt) ->
      started now cfg ids schedulerConfig d'
  | started_borrowed d retained d' : started now cfg ids schedulerConfig d -> useBorrowedCollar retained d = inr d' ->
      started now cfg ids schedulerConfig d'.

Definition geometry_fits (cfg : PacketConfig) : Prop :=
  BufferLength cfg + BlockSize cfg < 2 ^ 63 /\ good_geometry (BlockSize cfg) (SampleRate cfg).

(** What holds of it. *)
Record start_ok (cfg : PacketConfig) (mode : Mode) (d : dutyRuntime) : Prop := {
  so_gate : gate_ok [] [] d;
  so_clock : clock_ok d;
  so_mode : rt_mode d = mode;
  so_bytes : rt_blockBytes d = BlockSize2 cfg;
  so_rate : rt_sampleRate d = SampleRate cfg /\ rt_blockSamples d = BlockSize cfg;
  so_warmup : BufferLength cfg <= rt_warmupBlocks d * BlockSize cfg }.

Lemma warmup_blocks_spec cfg w : 0 < BlockSize cfg -> 0 < BufferLength cfg -> BufferLength cfg + BlockSize cfg < 2 ^ 63 ->
  warmup_blocks cfg = Some w -> 0 < w /\ w + 1 < 2 ^ 63 /\ BufferLength cfg <= w * BlockSize cfg.
Proof.
  intros HB HL Hf. unfold warmup_blocks, go_quot. rewrite (proj2 (Z.eqb_neq _ _)) by lia. intros [= <-].
  rewrite (i64_id (BufferLength cfg + BlockSize cfg)), (i64_id (_ - 1)) by lia. rewrite Z.quot_div_nonneg by lia.
  set (n := BufferLength cfg + BlockSize cfg - 1). pose proof (Z.div_mod n (BlockSize cfg)). pose proof (Z.mod_pos_bound n (BlockSize cfg) HB).
  assert (0 < n / BlockSize cfg) by (apply Z.div_str_pos; lia). assert (n / BlockSize cfg <= n) by (apply Z.div_le_upper_bound; nia).
  rewrite i64_id by lia. lia.
Qed.

Lemma fresh_gate now cfg ids schedulerConfig scheduler L w : 0 <= w < L -> 0 <= BlockSize2 cfg ->
  gate_ok [] [] (fresh_runtime now cfg ids schedulerConfig scheduler L w).
Proof.
  intros Hw HB. assert (len (make L (empty_block (BlockSize2 cfg))) = L) as Hlen by (apply len_make; lia).
  constructor; cbn [fresh_runtime rt_collar rt_collarCount rt_collarNext rt_warmupBlocks rt_borrowRaw rt_wasSkipped rt_skippedRun rt_blockBytes];
    rewrite ?Hlen; try done.
  - constructor; cbn [fresh_runtime rt_collar rt_collarCount rt_collarNext]; rewrite ?Hlen; lia.
  - apply Forall_make. intros _. by apply len_make.
  - change (@len (list Z) []) with 0. lia.
  - apply no_tail.
Qed.

Lemma fresh_clock now cfg ids schedulerConfig scheduler L w : good_geometry (BlockSize cfg) (SampleRate cfg) ->
  clock_ok (fresh_runtime now cfg ids schedulerConfig scheduler L w).
Proof. intros Hg. exact (clock_zero _ _ Hg). Qed.

Lemma collar_exceeds_warmup cfg L w : dutyCollarBlockCount cfg = Some L -> warmup_blocks cfg = Some w -> w + 1 < 2 ^ 63 -> 0 <= w -> w < L.
Proof.
  unfold dutyCollarBlockCount. intros (c & _ & E)%bind_Some Ew Hlt Hw. rewrite Ew in E. cbn [mbind option_bind] in E. apply (inj Some) in E as <-.
  destruct (Z.leb_spec c w); [rewrite i64_id by lia|]; lia.
Qed.

Lemma newDutyRuntimeWithConfig_fresh now cfg ids schedulerConfig d :
  newDutyRuntimeWithConfig now cfg ids schedulerConfig = Some (inr d) ->
  exists s L w, d = fresh_runtime now cfg ids schedulerConfig s L w /\ dutyCollarBlockCount cfg = Some L /\ warmup_blocks cfg = Some w /\
    0 < BlockSize cfg /\ 0 < BlockSize2 cfg /\ 0 < BufferLength cfg.
Proof using Type.
  clear. unfold newDutyRuntimeWithConfig. destruct (New schedulerConfig) as [s|]; [|done].
  destruct ((SampleRate cfg <=? 0) || (BlockSize cfg <=? 0) || (BlockSize2 cfg <=? 0) || (BufferLength cfg <=? 0)) eqn:Eg; [done|].
  rewrite !orb_false_iff, !Z.leb_gt in Eg. intros (L & EL & (w & Ew & E)%bind_Some)%bind_Some. destruct (L <? 0); [done|].
  apply (inj Some) in E. injection E as <-. exists s, L, w. intuition.
Qed.

Lemma newDutyRuntimeWithConfig_ok now cfg ids schedulerConfig d : geometry_fits cfg ->
  newDutyRuntimeWithConfig now cfg ids schedulerConfig = Some (inr d) -> start_ok cfg (cfg_Mode schedulerConfig) d.
Proof.
  intros [Hf Hg] (s & L & w & -> & EL & Ew & G1 & G2 & G3)%newDutyRuntimeWithConfig_fresh.
  destruct (warmup_blocks_spec cfg w G1 G3 Hf Ew) as (W1 & W2 & W3). pose proof (collar_exceeds_warmup cfg L w EL Ew W2 ltac:(lia)) as HL.
  split; [apply fresh_gate; lia|by apply fresh_clock|done..|exact W3].
Qed.

(** Every candidate that is read carries the clock of its blocks. *)
Definition candidate_clock (d : dutyRuntime) (c : dutyCheckpointCandidate) : Prop :=
  dutySampleClock (u64 (rp_DecodedBlocks (dc_report c) + rp_SkippedBlocks (dc_report c))) (rt_blockSamples d) (rt_sampleRate d) =
  inr (sp_SampleTimeNS (rp_Snapshot (dc_report c)), dc_sampleRemainder c).

Lemma readCheckpoint_clock path d c : readCheckpoint ParseTime Lstat Unmarshal path d = Some (inr c) -> candidate_clock d c.
Proof.
  unfold readCheckpoint. destruct (_ ← of_option _ (Lstat path); _) as [e|[contents report]]; [done|]. unfold restore_contents.
  destruct (_ ← validateCheckpointReport _ report d; _) as [e|[s how]]; [done|]. intros ([s' snapshot] & _ & E)%bind_Some.
  apply (inj Some) in E. destruct (dutyCheckpointEvidenceMatches _ _); [|done]. cbn [negb reject mbind Result_bind] in E.
  unfold check_clock in E. destruct (dutySampleClock _ _ _) as [e|[t r]] eqn:Ec; [done|].
  destruct (Z.eqb_spec t (sp_SampleTimeNS (rp_Snapshot report))) as [Et|]; [|done]. cbn [negb reject mbind Result_bind] in E.
  destruct (reject _ _) as [e|[]]; [done|]. cbn [mbind Result_bind] in E. injection E as <-. unfold candidate_clock. cbn. by rewrite Ec, Et.
Qed.

Lemma scan_clock dir d entries st st' : foldM (scan_entry ParseTime Lstat Unmarshal dir d) st entries = Some st' ->
  (forall k c, st.1 !! k = Some c -> candidate_clock d c) -> forall k c, st'.1 !! k = Some c -> candidate_clock d c.
Proof.
  revert st. induction entries as [|e entries IH]; intros st E Hst; [by injection E as <-|]. cbn [foldM] in E.
  destruct (scan_entry _ _ _ _ _ st e) as [st2|] eqn:E2; [|done]. apply (IH st2 E). clear IH E. destruct st as [m skipped]. cbn [fst] in Hst.
  unfold scan_entry in E2. destruct (_ || _); [by injection E2 as <-|]. apply bind_Some in E2 as ([e'|c] & Er & E2); apply (inj Some) in E2 as <-; [done|].
  cbn [fst]. apply readCheckpoint_clock in Er. destruct (match m !! _ with Some _ => _ | None => _ end); [|done].
  intros k c'. destruct (decide (rp_SessionStartedUTC (dc_report c) = k)) as [<-|Hne]; [rewrite lookup_insert_eq; by intros [= <-]|].
  rewrite lookup_insert_ne by done. apply Hst.
Qed.

Lemma restoreBestCheckpoint_ok entries cfg mode d d' : start_ok cfg mode d ->
  restoreBestCheckpoint ParseTime Lstat Unmarshal sort_Slice entries d = Some (d', inr tt) -> start_ok cfg mode d'.
Proof using sort_Slice_permutes.
  intros Hok E. apply bind_Some in E as ([m skipped] & Es & E). pose proof (scan_clock _ _ _ _ _ Es) as Hc. cbn [fst] in Hc.
  specialize (Hc ltac:(intros k c; by rewrite lookup_empty)).
  destruct (sort_Slice (stronger d) (map snd (map_to_list m))) as [|chosen l] eqn:El.
  - apply (inj Some) in E. injection E as <-. destruct Hok as [K1 K2 K3 K4 K5 K6]. constructor; try done. by apply (gate_ok_ext _ _ d).
  - destruct (ParseTime _) as [t|]; [|done]. apply (inj Some) in E. injection E as <-.
    assert (chosen ∈ map snd (map_to_list m)) as Hin by (rewrite <- (sort_Slice_permutes (stronger d)), El; left).
    apply list_elem_of_fmap in Hin as ([k c] & -> & Hkc). apply elem_of_map_to_list in Hkc. apply Hc in Hkc. cbn [snd].
    destruct Hok as [K1 K2 K3 K4 K5 K6]. constructor; try done. by apply (gate_ok_ext _ _ d).
Qed.

Lemma useBorrowedCollar_ok retained cfg mode d d' : start_ok cfg mode d -> rt_collarCount d = 0 -> useBorrowedCollar retained d = inr d' ->
  start_ok cfg mode d' /\ rt_collarCount d' = 0.
Proof.
  intros [[[R1 R2 R3] G1 G2 G3 G4 G5 G6] K2 K3 K4 K5 K6] Hz. unfold useBorrowedCollar. destruct (retained <? _); [done|]. intros [= <-].
  split; [|done]. assert (len (map without_data (rt_collar d)) = len (rt_collar d)) as Hl by (unfold len; by rewrite length_map).
  constructor; try done. constructor; cbn; rewrite ?Hl; try done.
  - constructor; cbn; by rewrite Hl.
  - by apply Forall_true.
  - apply (no_tail 0).
Qed.

Lemma started_ok now cfg ids schedulerConfig d : geometry_fits cfg -> started now cfg ids schedulerConfig d ->
  start_ok cfg (cfg_Mode schedulerConfig) d.
Proof using sort_Slice_permutes.
  intros Hg. induction 1 as [d E|d dir interval entries d' _ IH E|d retained d' _ IH E].
  - by eapply newDutyRuntimeWithConfig_ok.
  - eapply restoreBestCheckpoint_ok; [|exact E]. destruct IH as [K1 K2 K3 K4 K5 K6]. constructor; try done. by apply (gate_ok_ext _ _ d).
  - eapply useBorrowedCollar_ok; [exact IH| |exact E]. destruct IH as [[]]. rewrite ga_count0. unfold len. cbn. lia.
Qed.
End Started.
