(* ===== verification/ReceiveSpec.v ===== *)
(** What the receive loop promises: gating by the duty scheduler never shows.  A decoder
    that slept is, when it is used again, where it would be had it decoded every block;
    nothing is published that an uninterrupted receiver could not publish; the rebuild
    never lacks a block; and the sample clock does not drift. *)

From S2P Require Import Prelude Float64 Packet Layout Search Ring History Signal Register Decode Receiver Update DutyMath DutyModel Scheduler DutyState DutySnapshot DutyRuntime DutyCheckpoint Capture Receive Replay DutyRuntimeSpec SchedulerSpec.

Section Spec.
Context {S : Type} `{ParserOps S Message} `{SearchPlatform} `{DualPlatform} `{MagnitudePlatform} `{ManchesterPlatform}.
Context `{GoMath} `{Fingerprint}.
Context (RFC3339Nano : Z -> list Z) (walk_senders : nat -> gmap Z SenderSnapshot -> list (Z * SenderSnapshot))
  (store_report : dutyRuntimeReport -> bool) (world : World).

(** ** What the parts of the loop leave alone *)

(** Two runtimes that gate and keep time alike. *)
Definition alike (d d' : dutyRuntime) : Prop := gate_part d = gate_part d' /\ clock_part d = clock_part d'.

Definition duty_alike (o o' : option dutyRuntime) : Prop :=
  match o, o' with Some d, Some d' => alike d d' | None, None => True | _, _ => False end.

#[local] Instance duty_alike_equiv : Equivalence duty_alike.
Proof.
  split; [intros [d|]; done|intros [d|] [d'|]; try done; intros [E1 E2]; by split|].
  intros [d|] [d'|] [d''|]; try done. intros [E1 E2] [E3 E4]. split; congruence.
Qed.

(** [r'] is [r] but for what handling the messages [ms] changes. *)
Record handled (ms : list Message) (r r' : Rcvr S) : Prop := {
  ha_d : rv_d r' = rv_d r;
  ha_duty : duty_alike (rv_duty r) (rv_duty r');
  ha_log : forall lm, lm ∈ rv_log r' -> lm ∈ rv_log r \/ lm_Message lm ∈ ms;
  ha_err : rv_err r' = Some ErrLacksRawIQ -> rv_err r = Some ErrLacksRawIQ }.

Lemma handled_refl ms r : handled ms r r.
Proof. constructor; try done. auto. Qed.

Lemma handled_trans ms r1 r2 r3 : handled ms r1 r2 -> handled ms r2 r3 -> handled ms r1 r3.
Proof.
  intros [A1 A2 A3 A4] [B1 B2 B3 B4]. constructor; [congruence|by etrans| |auto].
  intros lm [Hl|Hl]%B3; [by apply A3|by right].
Qed.

Lemma handled_weaken ms ms' r r' : handled ms r r' -> (forall m, m ∈ ms -> m ∈ ms') -> handled ms' r r'.
Proof. intros [A1 A2 A3 A4] Hm. constructor; try done. intros lm [Hl|Hl]%A3; auto. Qed.

(** The record has the same decoder, duty, log and error. *)
Lemma handled_same ms r r' : rv_d r' = rv_d r -> rv_duty r' = rv_duty r -> rv_log r' = rv_log r -> rv_err r' = rv_err r -> handled ms r r'.
Proof. intros E1 E2 E3 E4. constructor; rewrite ?E1, ?E2, ?E3, ?E4; auto. reflexivity. Qed.

Lemma rt_observe_alike escaped id name at_ d d' : rt_observe escaped id name at_ d = Some d' -> alike d d'.
Proof.
  unfold rt_observe. destruct (decide _); [|by intros [= <-]]. intros (s & _ & E)%bind_Some. apply (inj Some) in E. by rewrite <- E.
Qed.

Lemma observe_messages_handled ms at_ observe escaped r r' : observe_messages ms at_ observe escaped r = Some r' -> handled [] r r'.
Proof.
  unfold observe_messages. destruct (rv_duty r) as [d|] eqn:Ed; [|intros [= <-]; apply handled_refl].
  intros ([d' next] & E & E')%bind_Some. apply (inj Some) in E' as <-. assert (alike d d') as Ha.
  { destruct observe; [|by injection E as <- _]. revert E. generalize (∅ : gset Digest) as next0. intros next0 E.
    assert (forall ms st st', foldM (observe_message (rs_dutyPrev (rv_state r)) at_ escaped) st ms = Some st' -> alike st.1 st'.1) as Hf.
    { clear. induction ms as [|m ms IH]; intros st st' E; [by injection E as <-|]. cbn [foldM] in E.
      destruct (observe_message _ _ _ st m) as [st2|] eqn:E2; [|done]. destruct (IH _ _ E) as [A1 A2]. destruct st as [d next].
      apply bind_Some in E2 as (d2 & Eo & E2). apply (inj Some) in E2 as <-. cbn [fst] in *.
      assert (alike d d2) as [B1 B2]; [|split; congruence]. destruct (decide _); [by injection Eo as <-|]. by eapply rt_observe_alike. }
    exact (Hf _ _ _ E). }
  constructor; try done; [cbn; by rewrite Ed|auto].
Qed.

Lemma publish_message_handled et r msg : handled [msg] r (fst (publish_message world et r msg)).
Proof.
  unfold publish_message. destruct (chain_Match _ _ _) as [ok filters]. destruct ok; cbn [negb]; [|by apply handled_same].
  destruct (decide _); [by apply handled_same|]. destruct (w_encode _ _ _); cbn [negb]; [|constructor; [done|done|auto|done]].
  assert (forall r' : Rcvr S, rv_d r' = rv_d r -> rv_duty r' = rv_duty r -> rv_err r' = None ->
    (exists x, rv_log r' = rv_log r ++ [x] /\ lm_Message x = msg) -> handled [msg] r r') as Hk.
  { intros r' E1 E2 E3 (x & E4 & E5). constructor; [done|by rewrite E2| |by rewrite E3]. intros lm. rewrite E4.
    intros [Hl|Hl]%elem_of_app; [by left|]. apply list_elem_of_singleton in Hl as ->. right. rewrite E5. by left. }
  destruct (rv_single _); [destruct (decide _)|]; (apply Hk; [done|done|done|by eexists]).
Qed.

Lemma publish_messages_handled et ms r found : handled ms r (publish_messages world et ms r found).1.1.
Proof.
  assert (forall ms' r found, (forall m, m ∈ ms' -> m ∈ ms) -> handled ms r (publish_messages world et ms' r found).1.1) as Hk.
  { induction ms' as [|m ms' IH]; intros r0 f0 Hm; [apply handled_refl|]. cbn [publish_messages].
    pose proof (publish_message_handled et r0 m) as Hp. destruct (publish_message world et r0 m) as [r1 []]; cbn [fst] in *.
    - eapply handled_trans; [|apply IH; set_solver]. eapply handled_weaken; [exact Hp|]. intros x ->%list_elem_of_singleton. apply Hm. by left.
    - eapply handled_trans; [|apply IH; set_solver]. eapply handled_weaken; [exact Hp|]. intros x ->%list_elem_of_singleton. apply Hm. by left.
    - eapply handled_weaken; [exact Hp|]. intros x ->%list_elem_of_singleton. apply Hm. by left.
    - eapply handled_weaken; [exact Hp|]. intros x ->%list_elem_of_singleton. apply Hm. by left. }
  by apply Hk.
Qed.

(** Handling the messages of a block, published or not. *)
Lemma processDecodedMessages_handled ms at_ et publish observe escaped r r' found keep :
  processDecodedMessages world ms at_ et publish observe escaped r = Some (r', found, keep) -> handled (if publish then ms else []) r r'.
Proof.
  unfold processDecodedMessages. intros (r2 & E2 & E)%bind_Some. apply observe_messages_handled in E2.
  assert (handled (if publish then ms else []) r r2) as Hpre.
  { eapply handled_trans; [|eapply handled_weaken; [exact E2|]]; [by apply handled_same|]. intros m Hm. by apply not_elem_of_nil in Hm. }
  clear E2. assert (forall x, handled (if publish then ms else []) x (swap_digests x)) as Hswap.
  { intros [? ? ? ? duty ? ? ? ? ? ? ?]. apply handled_same; by destruct duty. }
  destruct publish.
  - pose proof (publish_messages_handled et ms r2 false) as Hp. destruct (publish_messages world et ms r2 false) as [[r3 f3] k3]. cbn [fst] in Hp.
    destruct k3; injection E as <- _ _; (eapply handled_trans; [exact Hpre|]); [|exact Hp]. eapply handled_trans; [exact Hp|apply Hswap].
  - injection E as <- _ _. eapply handled_trans; [exact Hpre|apply Hswap].
Qed.

(** ** Replays *)

(** The allocated decoder, and the state of the reference receiver before the first
    block. *)
Context (d0 : Decoder S) (st0 : list Z * History).
Context (Hready : ready d0 (fst st0) (snd st0)) (Hreset : Reset d0 = Some d0).
Context (Hsymbol : SymbolLength (Cfg d0) <= BlockSize (Cfg d0)).
Context (Hwalk : forall n, w_walk world n ≡ₚ elements (dom (preambles (registry d0)))).

Abbreviation ok := (block_ok (Cfg d0)).
Abbreviation full := (BufferLength (Cfg d0)).

(** Every message published so far is one of a step of the reference receiver. *)
Definition published (blocks : list (list Z)) (m : Message) : Prop :=
  exists before block ms after, blocks = before ++ block :: after /\ genuine d0 st0 before block ms /\ m ∈ ms.

Definition log_ok (blocks : list (list Z)) (r : Rcvr S) : Prop := forall lm, lm ∈ rv_log r -> published blocks (lm_Message lm).

Lemma published_app blocks more m : published blocks m -> published (blocks ++ more) m.
Proof. intros (b & x & ms & a & -> & Hg & Hm). exists b, x, ms, (a ++ more). by rewrite <- app_assoc. Qed.

Lemma log_ok_app blocks more r : log_ok blocks r -> log_ok (blocks ++ more) r.
Proof. intros Hl lm Hlm. by apply published_app, Hl. Qed.

Lemma log_ok_handled blocks ms r r' : handled ms r r' -> log_ok blocks r -> (forall m, m ∈ ms -> published blocks m) -> log_ok blocks r'.
Proof. intros Hh Hl Hm lm [K|K]%(ha_log _ _ _ Hh); [by apply Hl|by apply Hm]. Qed.

Definition no_raw_fault (r : Rcvr S) : Prop := rv_err r <> Some ErrLacksRawIQ.

Lemma no_raw_fault_handled ms r r' : handled ms r r' -> no_raw_fault r -> no_raw_fault r'.
Proof. intros Hh Hn K. by apply Hn, (ha_err _ _ _ Hh). Qed.

(** A receiver that is in tune after [blocks]. *)
Record fine (blocks : list (list Z)) (j k : Z) (r : Rcvr S) : Prop := {
  fi_tuned : tuned d0 st0 blocks j k (rv_d r);
  fi_log : log_ok blocks r;
  fi_err : no_raw_fault r }.

Lemma full_positive : 0 < BlockSize (Cfg d0) /\ 0 < SymbolLength (Cfg d0) <= full.
Proof using Hready Hreset Hsymbol Hwalk.
  pose proof (rd_decoder _ _ _ Hready) as Hd. destruct (bg_geometry _ (d_bytes _ _ Hd)) as [G1 G2 G3].
  pose proof (rd_chip _ _ _ Hready). pose proof (rd_symbol _ _ _ Hready). pose proof (rd_packet _ _ _ Hready). lia.
Qed.

Lemma tuned_le blocks j k j' k' d : tuned d0 st0 blocks j k d -> j' <= j -> k' <= k -> tuned d0 st0 blocks j' k' d.
Proof. intros [A1 A2 A3 A4 (st & ref & B1 & B2 & B3)] Hj Hk. constructor; try done. exists st, ref. split; [done|]. split; [done|by eapply agree_le]. Qed.

(** One block: decoded, its messages published or not. *)
Lemma one_block blocks j k block at_ et publish observe escaped r r1 ms r2 found keep :
  fine blocks j k r -> 0 <= j -> 0 <= k -> ok block ->
  (publish = true -> full <= next_bits d0 j k /\ full <= k + BlockSize (Cfg d0)) ->
  decode_block world block r = Some (r1, ms) -> processDecodedMessages world ms at_ et publish observe escaped r1 = Some (r2, found, keep) ->
  fine (blocks ++ [block]) (next_bits d0 j k) (k + BlockSize (Cfg d0)) r2 /\ duty_alike (rv_duty r) (rv_duty r2).
Proof using Hready Hreset Hsymbol Hwalk.
  intros [F1 F2 F3] Hj Hk Hb Hpub E Ep. apply bind_Some in E as ([d' ms'] & Ed & E). apply (inj Some) in E. injection E as <- <-.
  destruct (tuned_step d0 st0 _ blocks j k _ block d' ms' F1 Hj Hk Hb (Hwalk _) Ed) as [T1 T2]. apply processDecodedMessages_handled in Ep.
  split; [|exact (ha_duty _ _ _ Ep)]. constructor.
  - by rewrite (ha_d _ _ _ Ep).
  - eapply log_ok_handled; [exact Ep|by apply log_ok_app|]. intros m Hm. destruct publish; [|by apply not_elem_of_nil in Hm].
    destruct (Hpub eq_refl). exists blocks, block, ms', []. auto.
  - by eapply no_raw_fault_handled.
Qed.

(** In tune on the whole buffer stays so. *)
Lemma next_full j k : full <= j -> full <= k -> full <= next_bits d0 j k /\ full <= k + BlockSize (Cfg d0).
Proof using Hready Hreset Hsymbol Hwalk.
  intros Hj Hk. pose proof full_positive. unfold next_bits. rewrite (proj2 (Z.leb_le _ _)) by lia. lia.
Qed.

Lemma fine_full blocks j k r : fine blocks j k r -> full <= j -> full <= k -> fine blocks full full r.
Proof. intros [F1 F2 F3] Hj Hk. constructor; try done. by eapply tuned_le. Qed.

(** A short sleep is made up for block by block. *)
Lemma replay_skipped_fine entries bs blocks r found r' found' keep :
  Forall2 raw entries bs -> Forall ok bs -> fine blocks full full r ->
  replay_skipped world entries r found = Some (r', found', keep) ->
  duty_alike (rv_duty r) (rv_duty r') /\ log_ok (blocks ++ bs) r' /\ no_raw_fault r' /\ (keep = true -> fine (blocks ++ bs) full full r').
Proof using Hready Hreset Hsymbol Hwalk.
  intros F Hbs. revert blocks r found. induction F as [|e b entries bs (Eb & _ & _) F IH]; intros blocks r found Hf E.
  { injection E as <- _ _. rewrite app_nil_r. pose proof Hf as [_ F2 F3]. split; [reflexivity|]. done. }
  apply Forall_cons in Hbs as [Hb Hbs]. cbn [replay_skipped] in E. rewrite Eb in E.
  apply bind_Some in E as ([r1 ms] & E1 & E). apply bind_Some in E as ([[r2 f2] k2] & E2 & E). pose proof full_positive as Hp.
  destruct (one_block blocks full full b _ _ _ _ _ r r1 ms r2 f2 k2 Hf ltac:(lia) ltac:(lia) Hb ltac:(intros _; by apply next_full) E1 E2) as [Hf2 Ha].
  destruct (next_full full full ltac:(lia) ltac:(lia)). apply fine_full in Hf2; [|done..].
  destruct k2; [|injection E as <- _ <-].
  - replace (blocks ++ b :: bs) with ((blocks ++ [b]) ++ bs) by (by rewrite <- app_assoc).
    destruct (IH Hbs _ _ _ Hf2 E) as (K1 & K2). split; [by etrans|done].
  - destruct Hf2 as [_ F2 F3]. split; [done|]. split; [|done]. replace (blocks ++ b :: bs) with ((blocks ++ [b]) ++ bs) by (by rewrite <- app_assoc).
    by apply log_ok_app.
Qed.

(** The agreement after [idx] blocks from a reset: the first block's decisions may
    depend on what came before. *)
Definition bits_after (idx : Z) : Z := Z.max 0 ((idx - 1) * BlockSize (Cfg d0)).

Lemma next_bits_after idx : 0 <= idx -> next_bits d0 (bits_after idx) (idx * BlockSize (Cfg d0)) = bits_after (idx + 1).
Proof using Hready Hreset Hsymbol Hwalk.
  intros Hi. pose proof full_positive as Hp. unfold next_bits, bits_after. replace (idx + 1 - 1) with idx by ring.
  destruct (Z.eq_dec idx 0) as [->|Hne]; [by rewrite (proj2 (Z.leb_gt _ _)) by lia|]. rewrite (proj2 (Z.leb_le _ _)) by nia. nia.
Qed.

(** A long sleep: from silence, the collar brings the decoder back in tune before
    anything is published. *)
Lemma replay_collar_fine w entries bs blocks idx r found r' found' keep :
  0 <= w -> full <= w * BlockSize (Cfg d0) -> 0 <= idx -> Forall2 raw entries bs -> Forall ok bs ->
  fine blocks (bits_after idx) (idx * BlockSize (Cfg d0)) r ->
  replay_collar world w idx entries r found = Some (r', found', keep) ->
  duty_alike (rv_duty r) (rv_duty r') /\ log_ok (blocks ++ bs) r' /\ no_raw_fault r' /\
  (keep = true -> fine (blocks ++ bs) (bits_after (idx + len bs)) ((idx + len bs) * BlockSize (Cfg d0)) r').
Proof using Hready Hreset Hsymbol Hwalk.
  intros Hw HwB Hi F Hbs. revert blocks idx Hi r found. induction F as [|e b entries bs (Eb & Ede & Erv) F IH]; intros blocks idx Hi r found Hf E.
  { injection E as <- _ _. rewrite app_nil_r. change (len (@nil (list Z))) with 0. rewrite Z.add_0_r. pose proof Hf as [_ F2 F3]. split; [reflexivity|]. done. }
  apply Forall_cons in Hbs as [Hb Hbs]. cbn [replay_collar] in E. rewrite Erv, Eb, Ede in E. cbn [negb andb] in E.
  apply bind_Some in E as ([r1 ms] & E1 & E). apply bind_Some in E as ([[r2 f2] k2] & E2 & E). pose proof full_positive as Hp.
  assert (0 <= bits_after idx) by (unfold bits_after; lia). assert (0 <= idx * BlockSize (Cfg d0)) by nia.
  destruct (one_block blocks _ _ b _ _ _ _ _ r r1 ms r2 f2 k2 Hf ltac:(done) ltac:(done) Hb ltac:(
    intros Hle%Z.leb_le; pose proof (Z.mul_le_mono_nonneg_r w idx (BlockSize (Cfg d0)) ltac:(lia) Hle); rewrite next_bits_after by done; unfold bits_after;
    replace (idx + 1 - 1) with idx by ring; lia) E1 E2) as [Hf2 Ha].
  rewrite next_bits_after in Hf2 by done. replace (idx * BlockSize (Cfg d0) + BlockSize (Cfg d0)) with ((idx + 1) * BlockSize (Cfg d0)) in Hf2 by ring.
  replace (blocks ++ b :: bs) with ((blocks ++ [b]) ++ bs) by (by rewrite <- app_assoc). destruct k2; [|injection E as <- _ <-].
  - destruct (IH Hbs _ (idx + 1) ltac:(lia) _ _ Hf2 E) as (K1 & K2 & K3 & K4). split; [by etrans|]. split; [done|]. split; [done|].
    rewrite len_cons. replace (idx + (len bs + 1)) with (idx + 1 + len bs) by ring. exact K4.
  - destruct Hf2 as [_ F2 F3]. split; [done|]. split; [by apply log_ok_app|done].
Qed.

Lemma reference_hears_all blocks ref more : reference d0 st0 blocks ref -> Forall ok more -> exists ref', reference d0 st0 (blocks ++ more) ref'.
Proof.
  intros Hr Hm. revert blocks ref Hr. induction Hm as [|b more Hb Hm IH]; intros blocks ref Hr; [exists ref; by rewrite app_nil_r|].
  destruct (reference_hears d0 st0 blocks ref b Hr Hb) as (ref' & _ & Hr'). destruct (IH _ _ Hr') as [ref2 Hr2]. exists ref2.
  by rewrite <- app_assoc in Hr2.
Qed.

Lemma fine_same blocks j k r r' : rv_d r' = rv_d r -> rv_log r' = rv_log r -> rv_err r' = rv_err r -> fine blocks j k r -> fine blocks j k r'.
Proof. intros E1 E2 E3 [F1 F2 F3]. constructor; [by rewrite E1|intros lm; rewrite E2; apply F2|unfold no_raw_fault; by rewrite E3]. Qed.

Lemma set_duty_alike (r : Rcvr S) n : duty_alike (rv_duty r) (rv_duty (set_duty (recordRebuild n) r)).
Proof. unfold set_duty. destruct r as [? ? ? ? duty ? ? ? ? ? ? ?]. by destruct duty. Qed.

(** What a handler gives: a receiver in tune after [blocks] if it keeps running. *)
Definition outcome (blocks : list (list Z)) (r r' : Rcvr S) (keep : bool) : Prop :=
  duty_alike (rv_duty r) (rv_duty r') /\ log_ok blocks r' /\ no_raw_fault r' /\ (keep = true -> fine blocks full full r').

Lemma outcome_counted blocks r r' n : outcome blocks r r' true -> outcome blocks r (set_duty (recordRebuild n) r') true.
Proof.
  intros (K1 & K2 & K3 & K4). split; [etrans; [exact K1|apply set_duty_alike]|]. split; [exact K2|]. split; [exact K3|].
  intros _. by apply (fine_same _ _ _ r'), K4.
Qed.

(** [rebuildDutyDecoder] before the first block after a sleep. *)
Lemma rebuild_fine awake sleeping duty r r' found keep :
  gate_ok (awake ++ sleeping) sleeping duty -> 0 < len sleeping -> full <= rt_warmupBlocks duty * BlockSize (Cfg d0) ->
  Forall ok (awake ++ sleeping) -> fine awake full full r -> rebuildDutyDecoder world duty r = Some (r', found, keep) ->
  outcome (awake ++ sleeping) r r' keep.
Proof using Hready Hreset Hsymbol Hwalk.
  intros [G1 G2 G3 G4 [G5 _] G6 G7] Hs Hw Hok Hf E. pose proof (length_ordered duty G1) as Hlo. pose proof (orderedCollar_spec duty G1) as Eo.
  apply Forall_app in Hok as [Hok1 Hok2]. unfold rebuildDutyDecoder in E. rewrite Eo in E. cbn [mbind option_bind] in E. rewrite G5 in E.
  rewrite (proj2 (Z.ltb_lt 0 _)) in E by lia. cbn [andb] in E. destruct (Z.leb_spec (len sleeping) (len (ordered duty))) as [Hle|Hgt]; cbn [andb] in E.
  - assert (drop (Z.to_nat (len (ordered duty) - len sleeping)) (ordered duty) = tail_of (len sleeping) (ordered duty)) as Et
      by (unfold tail_of, len in *; f_equal; lia). rewrite Et in E.
    rewrite (tail_of_all _ sleeping) in G7 by (destruct G1; lia).
    assert (forallb (fun e => negb (cb_decoded e) && cb_rawValid e) (tail_of (len sleeping) (ordered duty)) = true) as Er.
    { clear -G7. induction G7 as [|e b es bs (_ & Ed & Er) _ IH]; [done|]. cbn [forallb]. by rewrite Ed, Er. }
    rewrite Er in E. apply bind_Some in E as ([[r1 f1] k1] & E1 & E).
    pose proof (replay_skipped_fine _ _ awake r _ _ _ _ G7 Hok2 Hf E1) as Hout. destruct k1; injection E as <- _ <-; [by apply outcome_counted|exact Hout].
  - destruct G1 as [R1 R2 R3]. rewrite len_app in *. pose proof (len_nonneg awake). assert (len (ordered duty) = len (rt_collar duty)) as Hfull by lia.
    rewrite (tail_of_all (len sleeping)) in G7 by lia. set (cap := len (rt_collar duty)) in *.
    set (older := take (length sleeping - Z.to_nat cap) sleeping). assert (sleeping = older ++ tail_of cap sleeping) as Es by (symmetry; apply take_drop).
    assert (len (tail_of cap sleeping) = cap) as Hl by (unfold tail_of, len in *; rewrite length_drop; lia).
    apply bind_Some in E as (d1 & Ed & E). apply bind_Some in E as ([[r1 f1] k1] & E1 & E). destruct Hf as [F1 F2 F3].
    rewrite Es in Hok2. apply Forall_app in Hok2 as [Hold Htail]. pose proof (tu_state _ _ _ _ _ _ F1) as (st & ref & _ & Href & _).
    destruct (reference_hears_all awake ref older Href Hold) as [ref' Href'].
    pose proof (tuned_reset d0 st0 awake full full _ d1 Hready Hreset F1 Ed (awake ++ older) ref' Href') as Ht.
    assert (fine (awake ++ older) (bits_after 0) (0 * BlockSize (Cfg d0)) (clear_digests (r <| rv_d := d1 |>))) as Hf1.
    { pose proof full_positive. unfold bits_after. rewrite Z.max_l by lia. constructor; [exact Ht|by apply log_ok_app|exact F3]. }
    destruct (replay_collar_fine (rt_warmupBlocks duty) _ _ _ 0 _ _ _ _ _ ltac:(lia) Hw ltac:(lia) G7 Htail Hf1 E1) as (K1 & K2 & K3 & K4).
    assert ((awake ++ older) ++ tail_of cap sleeping = awake ++ sleeping) as Eb by (rewrite <- app_assoc; by rewrite <- Es). rewrite Eb in K2, K4.
    assert (outcome (awake ++ sleeping) r r1 k1) as Hout.
    { split; [exact K1|]. split; [exact K2|]. split; [exact K3|]. intros Hk. apply K4 in Hk. rewrite Hl in Hk. pose proof full_positive.
      eapply fine_full; [exact Hk| |]; unfold bits_after; nia. }
    destruct k1; injection E as <- _ <-; [by apply outcome_counted|exact Hout].
Qed.

(** ** One block of the loop *)

(** Between two blocks: the decoder is in tune with the blocks before the sleep, and
    the collar holds the sleep. *)
Record between (blocks : list (list Z)) (r : Rcvr S) (awake sleeping : list (list Z)) (duty : dutyRuntime) : Prop := {
  be_duty : rv_duty r = Some duty;
  be_blocks : blocks = awake ++ sleeping;
  be_gate : gate_ok blocks sleeping duty;
  be_mode : rt_mode duty = ModeGated;
  be_bytes : rt_blockBytes duty = BlockSize2 (Cfg d0);
  be_warmup : full <= rt_warmupBlocks duty * BlockSize (Cfg d0);
  be_ok : Forall ok blocks;
  be_fine : fine awake full full r }.

Lemma beginBlock_gate d d' start end_ decision : beginBlock d = Some (d', start, end_, decision) -> gate_part d = gate_part d'.
Proof.
  intros (d1 & E1 & ([s dec] & _ & E)%bind_Some)%bind_Some. apply (inj Some) in E. injection E as <- _ _ _.
  apply bind_Some in E1 as (x & _ & (y & _ & E)%bind_Some). apply (inj Some) in E. by rewrite <- E.
Qed.

Lemma writeCheckpoint_alike now kind d d' b : writeCheckpoint RFC3339Nano walk_senders store_report now kind d = Some (d', b) -> alike d d'.
Proof.
  intros ([d1 rep] & E & E')%bind_Some. apply (inj Some) in E'. injection E' as <- _. apply bind_Some in E as ([s sn] & _ & (ex & _ & E)%bind_Some).
  apply (inj Some) in E. injection E as <- _. done.
Qed.

Lemma maybeCheckpoint_alike now d d' b : maybeCheckpoint RFC3339Nano walk_senders store_report now d = Some (d', b) -> alike d d'.
Proof.
  unfold maybeCheckpoint. destruct (bool_decide _); [by intros [= <- _]|]. destruct (match rt_nextCheckpointUTC d with Some _ => _ | None => _ end); [by intros [= <- _]|].
  intros ([d1 okc] & E & E')%bind_Some. apply writeCheckpoint_alike in E as [A1 A2].
  destruct okc; apply (inj Some) in E'; injection E' as <- _; by split.
Qed.

(** The end of a block: it joins the awake ones or the sleep. *)
Lemma finish_between awake sleeping duty block start end_ decision r r' :
  rv_duty r = Some duty -> gate_ok (awake ++ sleeping) sleeping duty -> rt_mode duty = ModeGated -> rt_blockBytes duty = BlockSize2 (Cfg d0) ->
  full <= rt_warmupBlocks duty * BlockSize (Cfg d0) -> Forall ok (awake ++ sleeping) -> ok block -> len (awake ++ sleeping) + 1 < 2 ^ 63 ->
  fine (if d_Decode decision then (awake ++ sleeping) ++ [block] else awake) full full r ->
  finish_gated RFC3339Nano walk_senders store_report world block start end_ decision r = Some r' ->
  exists awake' sleeping' duty', between ((awake ++ sleeping) ++ [block]) r' awake' sleeping' duty' /\ (d_Decode decision = true -> sleeping' = []) /\
    rt_wasSkipped duty' = negb (d_Decode decision).
Proof.
  intros Ed G Em Eb Hw Hok [Hb1 Hb2] Hn Hf E. unfold finish_gated in E. rewrite Ed in E. cbn [mbind option_bind] in E.
  destruct (finishBlock_gate block start end_ (Some (w_now world (rv_tick r))) decision _ _ duty G ltac:(by rewrite Eb) Hn) as (d1 & E1 & G' & K1 & K2 & K3 & K4 & K5).
  rewrite E1 in E. cbn [mbind option_bind] in E. apply bind_Some in E as ([d2 okc] & E2 & E). apply (inj Some) in E as <-.
  apply maybeCheckpoint_alike in E2 as [E2 _]. pose proof (gate_ok_ext _ _ _ _ E2 G') as G2.
  assert (rt_mode d2 = rt_mode d1 /\ rt_blockBytes d2 = rt_blockBytes d1 /\ rt_warmupBlocks d2 = rt_warmupBlocks d1) as (M1 & M2 & M3) by (by injection E2).
  exists (if d_Decode decision then (awake ++ sleeping) ++ [block] else awake), (if d_Decode decision then [] else sleeping ++ [block]), d2.
  assert (rt_wasSkipped d2 = negb (d_Decode decision)) as Hws.
  { destruct (ga_skipped _ _ _ G2) as [_ ->]. destruct (d_Decode decision); [done|]. rewrite len_app. pose proof (len_nonneg sleeping).
    change (len [block]) with 1. by rewrite (proj2 (Z.eqb_neq _ _)) by lia. }
  split; [|by split; [intros ->|]].
  constructor; try done.
  - destruct (d_Decode decision); [by rewrite app_nil_r|by rewrite app_assoc].
  - by rewrite M1, K2.
  - by rewrite M2, K3.
  - by rewrite M3, K4.
  - apply Forall_app. split; [done|by repeat constructor].
  - by apply (fine_same _ _ _ r).
Qed.

(** A gated block keeps the loop's invariant. *)
Lemma gated_block_between blocks awake sleeping duty block r r' found keep :
  between blocks r awake sleeping duty -> ok block -> len blocks + 1 < 2 ^ 63 ->
  gated_block RFC3339Nano walk_senders store_report world block duty r = Some (r', found, keep) ->
  log_ok (blocks ++ [block]) r' /\ no_raw_fault r' /\
  (keep = true -> exists awake' sleeping' duty', between (blocks ++ [block]) r' awake' sleeping' duty').
Proof using Hready Hreset Hsymbol Hwalk.
  intros [B1 -> B3 B4 B5 B6 B7 B8] Hb Hn E. set (blocks := awake ++ sleeping) in *.
  apply bind_Some in E as ([[[duty1 start] end_] decision] & E1 & E). pose proof (beginBlock_gate _ _ _ _ _ E1) as Eg. pose proof (gate_ok_ext _ _ _ _ Eg B3) as G1.
  assert (rt_mode duty1 = ModeGated /\ rt_blockBytes duty1 = BlockSize2 (Cfg d0) /\ full <= rt_warmupBlocks duty1 * BlockSize (Cfg d0)) as (M1 & M2 & M3).
  { unfold gate_part in Eg. injection Eg as _ _ _ Ew _ _ _ Eb Em. by rewrite <- Ew, <- Eb, <- Em. }
  assert (fine awake full full (r <| rv_duty := Some duty1 |>)) as F1 by (by apply (fine_same _ _ _ r)). set (r1 := r <| rv_duty := Some duty1 |>) in *.
  apply bind_Some in E as ([[r2 f2] k2] & E2 & E).
  assert (duty_alike (rv_duty r1) (rv_duty r2) /\ log_ok blocks r2 /\ no_raw_fault r2 /\
    (k2 = true -> fine (if d_Decode decision then blocks else awake) full full r2)) as (A2 & L2 & N2 & F2).
  { pose proof (ga_skipped _ _ _ G1) as [_ Es]. unfold needsRebuild in E2. rewrite M1, Es in E2. rewrite bool_decide_true in E2 by done. cbn [andb] in E2.
    destruct (Z.eqb_spec (len sleeping) 0) as [Hz|Hz]; cbn [negb andb] in E2.
    - injection E2 as <- _ <-. split; [reflexivity|]. destruct F1 as [T1 T2 T3]. split; [by apply log_ok_app|]. split; [done|]. intros _.
      assert (sleeping = []) as Enil by (destruct sleeping; [done|unfold len in Hz; cbn in Hz; lia]). unfold blocks. rewrite Enil, app_nil_r.
      by destruct (d_Decode decision).
    - destruct (d_Decode decision); cbn [andb] in E2.
      + pose proof (len_nonneg sleeping). apply (rebuild_fine awake sleeping duty1 r1 r2 f2 k2); try done. lia.
      + injection E2 as <- _ <-. split; [reflexivity|]. pose proof F1 as [T1 T2 T3]. split; [by apply log_ok_app|]. by split. }
  destruct k2; cbn [negb] in E; [|injection E as <- _ <-; split; [by apply log_ok_app|done]]. specialize (F2 eq_refl).
  apply bind_Some in E as ([[r3 f3] k3] & E3 & E).
  assert (duty_alike (rv_duty r2) (rv_duty r3) /\ fine (if d_Decode decision then blocks ++ [block] else awake) full full r3) as [A3 F3].
  { destruct (d_Decode decision); [|by injection E3 as <- _ _]. apply bind_Some in E3 as ([r4 ms] & E4 & E5). pose proof full_positive.
    destruct (one_block blocks full full block _ _ _ _ _ r2 r4 ms r3 f3 k3 F2 ltac:(lia) ltac:(lia) Hb ltac:(intros _; by apply next_full) E4 E5) as [F4 A4].
    split; [done|]. destruct (next_full full full ltac:(lia) ltac:(lia)). by eapply fine_full. }
  assert (log_ok (blocks ++ [block]) r3 /\ no_raw_fault r3) as [L3 N3].
  { destruct F3 as [_ L3 N3]. split; [|done]. destruct (d_Decode decision); [done|]. unfold blocks. rewrite <- app_assoc. by apply log_ok_app. }
  destruct k3; cbn [negb] in E; [|injection E as <- _ <-; done].
  apply bind_Some in E as (r4 & E4 & E). apply (inj Some) in E. injection E as <- _ <-.
  destruct (rv_duty r3) as [duty3|] eqn:E3'; [|unfold finish_gated in E4; by rewrite E3' in E4].
  assert (gate_part duty1 = gate_part duty3) as Eg3.
  { assert (duty_alike (Some duty1) (Some duty3)) as [K _]; [|exact K]. by etrans. }
  pose proof (gate_ok_ext _ _ _ _ Eg3 G1) as G3.
  assert (rt_mode duty3 = ModeGated /\ rt_blockBytes duty3 = BlockSize2 (Cfg d0) /\ full <= rt_warmupBlocks duty3 * BlockSize (Cfg d0)) as (P1 & P2 & P3).
  { unfold gate_part in Eg3. injection Eg3 as _ _ _ Ew _ _ _ Eb Em. by rewrite <- Ew, <- Eb, <- Em. }
  destruct (finish_between awake sleeping duty3 block start end_ decision r3 r4 E3' G3 P1 P2 P3 B7 Hb Hn F3 E4) as (aw & sl & du & Hbt & _).
  assert (rv_log r4 = rv_log r3 /\ rv_err r4 = rv_err r3) as [El Ee].
  { unfold finish_gated in E4. apply bind_Some in E4 as (? & _ & (? & _ & ([? ?] & _ & E4)%bind_Some)%bind_Some). apply (inj Some) in E4. by rewrite <- E4. }
  split; [intros lm; rewrite El; apply L3|]. split; [unfold no_raw_fault; by rewrite Ee|]. intros _. by exists aw, sl, du.
Qed.

(** What capturing, buffering and writing samples leave alone. *)
Record same_core (r r' : Rcvr S) : Prop := {
  sc_d : rv_d r' = rv_d r;
  sc_duty : rv_duty r' = rv_duty r;
  sc_log : rv_log r' = rv_log r;
  sc_err : rv_err r' = Some ErrLacksRawIQ -> rv_err r = Some ErrLacksRawIQ }.

Lemma fine_core blocks j k r r' : same_core r r' -> fine blocks j k r -> fine blocks j k r'.
Proof. intros [E1 E2 E3 E4] [F1 F2 F3]. constructor; [by rewrite E1|intros lm; rewrite E3; apply F2|intros K; by apply F3, E4]. Qed.

Lemma between_core blocks r r' awake sleeping duty : same_core r r' -> between blocks r awake sleeping duty -> between blocks r' awake sleeping duty.
Proof. intros C [B1 B2 B3 B4 B5 B6 B7 B8]. constructor; try done; [by rewrite (sc_duty _ _ C)|by eapply fine_core]. Qed.

Lemma capture_block_core block r : same_core r (fst (capture_block world block r)).
Proof.
  unfold capture_block. destruct (rv_capture r) as [c|]; [|by constructor]. destruct (Complete c); [by constructor|].
  destruct (WriteBlock _ _ block c) as [c' [e|]]; by constructor.
Qed.

Lemma buffer_block_core block r : same_core r (buffer_block block r).
Proof. by constructor. Qed.

Lemma write_samples_core r : same_core r (fst (write_samples_of_packet world r)).
Proof. unfold write_samples_of_packet. destruct (negb _); [by constructor|]. destruct (_ && _); by constructor. Qed.

(** The pieces of [processBlock] around the gated block. *)
Lemma processBlock_parts block r duty r' keep : rv_duty r = Some duty ->
  processBlock RFC3339Nano walk_senders store_report world block r = Some (r', keep) ->
  (exists r1, same_core r r1 /\ r' = r1 /\ keep = false) \/
  exists r1 r2 found k2, same_core r r1 /\ gated_block RFC3339Nano walk_senders store_report world block duty r1 = Some (r2, found, k2) /\
    same_core r2 r' /\ (keep = true -> k2 = true).
Proof.
  intros Ed E. unfold processBlock in E. pose proof (capture_block_core block r) as C1. destruct (capture_block world block r) as [r0 okc]. cbn [fst] in C1.
  destruct okc; cbn [negb] in E; [|injection E as <- <-; left; by exists r0].
  assert (same_core r (buffer_block block r0)) as C2 by (destruct C1; by constructor). 
  rewrite (sc_duty _ _ C2), Ed in E. apply bind_Some in E as ([[r2 found] k2] & Eg & E). right. exists (buffer_block block r0), r2, found, k2.
  split; [done|]. split; [done|]. destruct k2; cbn [negb] in E; [|injection E as <- <-; by split].
  destruct (found && _); injection E as E; [|subst; by split]. pose proof (write_samples_core r2) as C3. rewrite E in C3. by split.
Qed.

Lemma processBlock_between blocks awake sleeping duty block r r' keep :
  between blocks r awake sleeping duty -> ok block -> len blocks + 1 < 2 ^ 63 ->
  processBlock RFC3339Nano walk_senders store_report world block r = Some (r', keep) ->
  log_ok (blocks ++ [block]) r' /\ no_raw_fault r' /\
  (keep = true -> exists awake' sleeping' duty', between (blocks ++ [block]) r' awake' sleeping' duty').
Proof using Hready Hreset Hsymbol Hwalk.
  intros Hbt Hb Hn E. destruct (processBlock_parts block r duty r' keep (be_duty _ _ _ _ _ Hbt) E) as [(r1 & C & -> & ->)|(r1 & r2 & found & k2 & C & Eg & C2 & Hk)].
  - destruct (fine_core _ _ _ _ _ C (be_fine _ _ _ _ _ Hbt)) as [_ L N]. split; [|done]. rewrite (be_blocks _ _ _ _ _ Hbt), <- app_assoc. by apply log_ok_app.
  - destruct (gated_block_between _ _ _ _ block r1 r2 found k2 (between_core _ _ _ _ _ _ C Hbt) Hb Hn Eg) as (L & N & K).
    split; [intros lm; rewrite (sc_log _ _ C2); apply L|]. split; [intros Ke; by apply N, (sc_err _ _ C2)|]. intros ->.
    destruct (K (Hk eq_refl)) as (aw & sl & du & Hbt2). exists aw, sl, du. by eapply between_core.
Qed.

Lemma process_blocks_between blocks awake sleeping duty more r r' keep :
  between blocks r awake sleeping duty -> Forall ok more -> len blocks + len more < 2 ^ 63 ->
  process_blocks RFC3339Nano walk_senders store_report world more r = Some (r', keep) ->
  log_ok (blocks ++ more) r' /\ no_raw_fault r' /\
  (keep = true -> exists awake' sleeping' duty', between (blocks ++ more) r' awake' sleeping' duty').
Proof using Hready Hreset Hsymbol Hwalk.
  intros Hbt Hm. revert blocks awake sleeping duty r Hbt. induction Hm as [|b more Hb Hm IH]; intros blocks awake sleeping duty r Hbt Hn E.
  { injection E as <- <-. rewrite app_nil_r. pose proof Hbt as [_ -> _ _ _ _ _ [_ L N]]. split; [by apply log_ok_app|]. split; [done|]. intros _. eauto. }
  cbn [process_blocks] in E. rewrite len_cons in Hn. pose proof (len_nonneg more). apply bind_Some in E as ([r1 k1] & E1 & E).
  destruct (processBlock_between _ _ _ _ b r r1 k1 Hbt Hb ltac:(lia) E1) as (L & N & K).
  replace (blocks ++ b :: more) with ((blocks ++ [b]) ++ more) by (by rewrite <- app_assoc). destruct k1.
  - destruct (K eq_refl) as (aw & sl & du & Hbt2). apply (IH _ _ _ _ _ Hbt2); [|done]. rewrite len_app. change (len [b]) with 1. lia.
  - injection E as <- <-. split; [by apply log_ok_app|done].
Qed.

(** ** The clock *)

Lemma decode_process_alike block at_ et publish observe escaped r r1 ms r2 found keep : decode_block world block r = Some (r1, ms) ->
  processDecodedMessages world ms at_ et publish observe escaped r1 = Some (r2, found, keep) -> duty_alike (rv_duty r) (rv_duty r2).
Proof.
  intros ([d' ms'] & _ & E)%bind_Some Ep. apply (inj Some) in E. injection E as <- _. apply processDecodedMessages_handled in Ep.
  exact (ha_duty _ _ _ Ep).
Qed.

Lemma replay_skipped_alike entries r found r' found' keep : replay_skipped world entries r found = Some (r', found', keep) ->
  duty_alike (rv_duty r) (rv_duty r').
Proof.
  revert r found. induction entries as [|e entries IH]; intros r found E; [by injection E as <- _ _|]. cbn [replay_skipped] in E.
  apply bind_Some in E as ([r1 ms] & E1 & ([[r2 f2] k2] & E2 & E)%bind_Some). pose proof (decode_process_alike _ _ _ _ _ _ _ _ _ _ _ _ E1 E2) as Ha.
  destruct k2; [etrans; [exact Ha|by eapply IH]|]. by injection E as <- _ _.
Qed.

Lemma replay_collar_alike w idx entries r found r' found' keep : replay_collar world w idx entries r found = Some (r', found', keep) ->
  duty_alike (rv_duty r) (rv_duty r').
Proof.
  revert idx r found. induction entries as [|e entries IH]; intros idx r found E; [by injection E as <- _ _|]. cbn [replay_collar] in E.
  destruct (cb_rawValid e); cbn [negb] in E; [|by injection E as <- _ _].
  apply bind_Some in E as ([r1 ms] & E1 & ([[r2 f2] k2] & E2 & E)%bind_Some). pose proof (decode_process_alike _ _ _ _ _ _ _ _ _ _ _ _ E1 E2) as Ha.
  destruct k2; [etrans; [exact Ha|by eapply IH]|]. by injection E as <- _ _.
Qed.

Lemma rebuild_alike duty r r' found keep : rebuildDutyDecoder world duty r = Some (r', found, keep) -> duty_alike (rv_duty r) (rv_duty r').
Proof.
  unfold rebuildDutyDecoder. intros (entries & _ & E)%bind_Some. destruct (_ && _).
  - apply bind_Some in E as ([[r1 f1] k1] & E1%replay_skipped_alike & E).
    destruct k1; injection E as <- _ _; [etrans; [exact E1|apply set_duty_alike]|exact E1].
  - apply bind_Some in E as (d & _ & ([[r1 f1] k1] & E1%replay_collar_alike & E)%bind_Some).
    destruct k1; injection E as <- _ _; [etrans; [exact E1|apply set_duty_alike]|exact E1].
Qed.

Definition ticks (bs rate n : Z) : Prop := exists t r, dutySampleClock n bs rate = inr (t, r).

(** A block that is finished advances the clock by one block. *)
Lemma gated_block_clock block duty r r' found : rv_duty r = Some duty ->
  good_geometry (rt_blockSamples duty) (rt_sampleRate duty) -> clock_ok duty ->
  ticks (rt_blockSamples duty) (rt_sampleRate duty) (block_count duty + 1) -> block_count duty + 1 < 2 ^ 64 ->
  gated_block RFC3339Nano walk_senders store_report world block duty r = Some (r', found, true) ->
  exists duty', rv_duty r' = Some duty' /\ clock_ok duty' /\ block_count duty' = block_count duty + 1 /\
    rt_blockSamples duty' = rt_blockSamples duty /\ rt_sampleRate duty' = rt_sampleRate duty.
Proof.
  intros Ed Hg Hc (t & rem & Ht) Hn E. apply bind_Some in E as ([[[duty1 start] end_] decision] & E1 & E).
  unfold beginBlock in E1. rewrite (tick_clock_exact duty t rem Hg Hc Ht) in E1. cbn [mbind option_bind] in E1.
  apply bind_Some in E1 as ([s dec] & _ & E1). apply (inj Some) in E1. injection E1 as E1 _ _ _.
  assert (clock_part duty1 = (t, rem, rt_sampleRate duty, rt_blockSamples duty, rt_decodedBlocks duty, rt_skippedBlocks duty)) as Ec by (by rewrite <- E1).
  clear E1. apply bind_Some in E as ([[r2 f2] k2] & E2 & E).
  assert (duty_alike (Some duty1) (rv_duty r2)) as A2.
  { destruct (needsRebuild _ _); [by apply rebuild_alike in E2|by injection E2 as <- _ _]. }
  destruct k2; [|done]. cbn [negb] in E. apply bind_Some in E as ([[r3 f3] k3] & E3 & E).
  assert (duty_alike (Some duty1) (rv_duty r3)) as A3.
  { etrans; [exact A2|]. destruct (d_Decode decision); [|by injection E3 as <- _ _]. apply bind_Some in E3 as ([r4 ms] & E4 & E5).
    by eapply decode_process_alike. }
  destruct k3; [|done]. cbn [negb] in E. apply bind_Some in E as (r4 & E4 & E). apply (inj Some) in E. injection E as <- _.
  unfold finish_gated in E4. destruct (rv_duty r3) as [duty3|]; [|done]. destruct A3 as [_ A3]. rewrite Ec in A3. cbn [mbind option_bind] in E4.
  apply bind_Some in E4 as (d4 & E4 & ([d5 okc] & E5 & E6)%bind_Some). apply (inj Some) in E6 as <-. apply maybeCheckpoint_alike in E5 as [_ E5].
  injection A3 as T1 T2 T3 T4 T5 T6. assert (block_count duty3 = block_count duty) as En by (unfold block_count; by rewrite T5, T6).
  destruct (finishBlock_clock _ _ _ _ _ _ _ E4 ltac:(by rewrite En)) as (K1 & K2 & K3 & K4 & K5). exists d5. split; [done|].
  assert (clock_ok d4) as Hc4 by (unfold clock_ok; by rewrite K1, K2, K3, K4, K5, En, <- T1, <- T2, <- T3, <- T4).
  split; [by eapply clock_ok_ext|]. injection E5 as U1 U2 U3 U4 U5 U6. split; [|by rewrite <- U3, <- U4, K4, K5, <- T3, <- T4].
  transitivity (block_count d4); [unfold block_count; by rewrite U5, U6|by rewrite K1, En].
Qed.

Lemma process_blocks_clock more duty r r' : rv_duty r = Some duty ->
  good_geometry (rt_blockSamples duty) (rt_sampleRate duty) -> clock_ok duty ->
  ticks (rt_blockSamples duty) (rt_sampleRate duty) (block_count duty + len more) -> block_count duty + len more < 2 ^ 64 ->
  process_blocks RFC3339Nano walk_senders store_report world more r = Some (r', true) ->
  exists duty', rv_duty r' = Some duty' /\ clock_ok duty' /\ block_count duty' = block_count duty + len more /\
    rt_blockSamples duty' = rt_blockSamples duty /\ rt_sampleRate duty' = rt_sampleRate duty.
Proof.
  revert duty r. induction more as [|b more IH]; intros duty r Ed Hg Hc Ht Hn E.
  { injection E as <-. exists duty. by rewrite Z.add_0_r. }
  cbn [process_blocks] in E. rewrite len_cons in *. pose proof (len_nonneg more). apply bind_Some in E as ([r1 []] & E1 & E); [|done].
  destruct (processBlock_parts b r duty r1 true Ed E1) as [(? & _ & _ & ?)|(ra & rb & found & k2 & C & Eg & C2 & Hk)]; [done|].
  rewrite (Hk eq_refl) in Eg. pose proof (block_count_nonneg duty). assert (ticks (rt_blockSamples duty) (rt_sampleRate duty) (block_count duty + 1)) as Ht1.
  { destruct Ht as (t & rem & Ht). eapply dutySampleClock_le; [exact Hg| |exact Ht]. lia. }
  rewrite <- (sc_duty _ _ C) in Ed. destruct (gated_block_clock b duty ra rb found Ed Hg Hc Ht1 ltac:(lia) Eg) as (d1 & K1 & K2 & K3 & K4 & K5).
  rewrite <- (sc_duty _ _ C2) in K1. rewrite <- K4, <- K5 in Hg, Ht. replace (block_count duty + (len more + 1)) with (block_count d1 + len more) in * by lia.
  destruct (IH d1 r1 K1 Hg K2 Ht ltac:(lia) E) as (d2 & L1 & L2 & L3 & L4 & L5). exists d2. rewrite L4, L5. done.
Qed.
End Spec.

(** ** Properties *)

(** The geometry that the runtime is made for is the decoder's; the sample rate may
    have been set by a flag. *)
Definition same_blocks (cfg cfg' : PacketConfig) : Prop :=
  BlockSize cfg = BlockSize cfg' /\ BlockSize2 cfg = BlockSize2 cfg' /\ BufferLength cfg = BufferLength cfg'.

Section Statements.
Context {S : Type} `{ParserOps S Message} `{SearchPlatform} `{DualPlatform} `{MagnitudePlatform} `{ManchesterPlatform}.
Context `{GoMath} `{Fingerprint}.

Lemma allocated_symbol (r : Registry S) : allocatable r -> SymbolLength (derive_config (r_Cfg r)) <= BlockSize (derive_config (r_Cfg r)).
Proof.
  intros [[C1 _] C2 _ _ _ _]. destruct (derive_lengths (r_Cfg r) C1 C2) as (Es & Ep & _ & _ & _ & _ & k & Hk & Eb & Hle & _).
  rewrite Eb. nia.
Qed.

(** The state of the receiver that decodes every block, before the first one. *)
Definition silent (d : Decoder S) : list Z * History := (make (BufferLength (Cfg d)) 0, silence d).

(** A receiver before its first block. *)
Record fresh_receiver (d : Decoder S) (duty : dutyRuntime) (r : Rcvr S) : Prop := {
  fr_d : rv_d r = d;
  fr_duty : rv_duty r = Some duty;
  fr_log : rv_log r = [];
  fr_err : rv_err r = None }.

Lemma fresh_between reg pol pr d cfg mode duty r : allocatable reg -> probe_lawful pr -> Allocate reg pol pr = Some d ->
  same_blocks cfg (Cfg d) -> start_ok cfg mode duty -> mode = ModeGated -> fresh_receiver d duty r -> between d (silent d) [] r [] [] duty.
Proof.
  intros Hal Hpr Hd (C1 & C2 & C3) [G1 G2 G3 G4 G5 G6] Hm [<- F2 F3 F4].
  destruct (Allocate_ready reg pol pr Hal Hpr) as (d' & E & Hr & Ep & Ec). rewrite Hd in E. injection E as <-.
  constructor; try done; [by rewrite G3|by rewrite G4|by rewrite <- C3, <- C1|].
  constructor; [|intros lm Hlm; rewrite F3 in Hlm; by apply not_elem_of_nil in Hlm|unfold no_raw_fault; by rewrite F4].
  constructor; try done; [rewrite (Allocate_Reset _ _ _ _ Hd); by destruct (rv_d r)|].
  exists (silent (rv_d r)), (silent (rv_d r)). split; [exact Hr|]. split; [|apply agree_refl]. split; [done|]. split; [apply agree_refl|]. by exists (rv_d r).
Qed.
End Statements.

(** A receiver of one meter that sends every eight blocks: the blocks of its packet, and
    quiet ones. *)
Definition meter_message : Message := {| MsgType := str "SCM"; MeterID := 7; MeterType := 4; MsgChecksum := [87]; MsgRecord := [] |}.

Definition meter_ops : ParserOps PacketConfig Message :=
  {| Cfg_of := fun c => c; power16_compatible := fun _ => None; set_power16_history := fun _ => None;
     history_overlap := fun _ => None; packet_bytes_only := fun _ => None; parse_indices := fun _ => None;
     parse := fun _ s pkts ms => Some (s, ms ++ if existsb (fun p => bool_decide (Bytes p = [87])) pkts then [meter_message] else []) |}.

Definition meter_registry : Registry PacketConfig := @register_all _ _ meter_ops [parser_config (str "meter") (str "0101") 1 1 4 4 8].

Definition meter_symbol (b : bool) : list Z := if b then replicate 8 255 ++ replicate 8 127 else replicate 8 127 ++ replicate 8 255.

Definition meter_blocks (n : Z) : list (list Z) :=
  map (fun k => if k mod 8 =? 0 then flat_map meter_symbol [false; true; false; true]
                else if k mod 8 =? 1 then flat_map meter_symbol [false; true; true; true] else replicate 64 127) (seqZ 0 n).

Definition meter_world : World :=
  {| w_walk := fun _ => [[0; 1; 0; 1]]; w_now := Z.of_nat; w_encode := fun _ _ => true; w_samples := fun _ _ => true;
     w_capture := fun _ b => Some (len b); w_sync := fun _ => true |}.

Definition no_fingerprint : Fingerprint := {| json_config := fun _ => None; sha256 := fun l => l |}.

Definition meter_receiver (d : Decoder PacketConfig) (duty : dutyRuntime) : Rcvr PacketConfig :=
  {| rv_d := d; rv_fc := [ByMeterID]; rv_filters := {| f_meterID := {[7]}; f_meterType := ∅; f_unique := ∅ |}; rv_capture := None;
     rv_duty := Some duty; rv_single := false; rv_err := None; rv_cancelled := false; rv_state := new_run_state false; rv_log := [];
     rv_samples := []; rv_tick := 0 |}.

Definition meter_cfg : PacketConfig := derive_config (r_Cfg meter_registry).

Definition meter_start : option (Decoder PacketConfig * dutyRuntime) :=
  d ← @Allocate _ _ meter_ops meter_registry power16PolicyAutomatic None;
  match newDutyRuntimeWithConfig 0 meter_cfg [7] demo_config with Some (inr duty) => Some (d, duty) | _ => None end.

Definition meter_loop := @process_blocks _ meter_ops generic_platform portable_dual portable_magnitude portable_manchester demo_math no_fingerprint
  (fun _ => []) (fun _ senders => map_to_list senders) (fun _ => true) meter_world.

(** What a run of [n] blocks leaves, in part. *)
Definition meter_run {A} (n : Z) (f : Rcvr PacketConfig -> A) : option (A * bool) :=
  '(d, duty) ← meter_start; '(r, keep) ← meter_loop (meter_blocks n) (meter_receiver d duty); Some (f r, keep).

Lemma meter_run_Some {A} n (f : Rcvr PacketConfig -> A) x keep : meter_run n f = Some (x, keep) ->
  exists d duty r, @Allocate _ _ meter_ops meter_registry power16PolicyAutomatic None = Some d /\
    newDutyRuntimeWithConfig 0 meter_cfg [7] demo_config = Some (inr duty) /\
    meter_loop (meter_blocks n) (meter_receiver d duty) = Some (r, keep) /\ f r = x.
Proof.
  unfold meter_run, meter_start. intros ([d duty] & E & ([r k] & El & Ex)%bind_Some)%bind_Some. apply (inj Some) in Ex. injection Ex as <- <-.
  apply bind_Some in E as (d' & Ed & E). destruct (newDutyRuntimeWithConfig _ _ _ _) as [[e|duty']|] eqn:En; try done.
  apply (inj Some) in E. injection E as <- <-. by exists d', duty', r.
Qed.

Lemma meter_allocatable : @allocatable _ _ meter_ops meter_registry.
Proof.
  constructor; [done..|by apply padding_none|by left|by intros Hn; destruct Hn|]. apply (@register_all_ok _ _ meter_ops). constructor; [|done]. split; [|done].
  unfold is_preamble_text. cbn. repeat constructor; lia.
Qed.

Lemma meter_allocated d : @Allocate _ _ meter_ops meter_registry power16PolicyAutomatic None = Some d -> Cfg d = meter_cfg.
Proof.
  intros E. destruct (@Allocate_ready _ Message meter_ops meter_registry power16PolicyAutomatic None meter_allocatable) as (d' & E' & _ & _ & Ec);
    [intros f fr cfg ov [=]|]. rewrite E in E'. by injection E' as <-.
Qed.

Lemma meter_fits : geometry_fits meter_cfg.
Proof. vm_compute. repeat split; discriminate. Qed.

Lemma meter_blocks_ok n : Forall (block_ok meter_cfg) (meter_blocks n).
Proof.
  apply Forall_fmap, Forall_true. intros k. unfold compose. assert (forall b, Forall is_byte (meter_symbol b)) as Hs.
  { intros []; unfold meter_symbol; apply Forall_app; split; apply Forall_replicate; split; (discriminate || reflexivity). }
  destruct (_ =? 0); [|destruct (_ =? 1)].
  - split; [|reflexivity]. cbn [flat_map]. repeat (apply Forall_app; split; [apply Hs|]). constructor.
  - split; [|reflexivity]. cbn [flat_map]. repeat (apply Forall_app; split; [apply Hs|]). constructor.
  - split; [|reflexivity]. apply Forall_replicate. split; (discriminate || reflexivity).
Qed.

Lemma meter_walk n : w_walk meter_world n ≡ₚ elements (dom (preambles meter_registry)).
Proof. vm_compute. done. Qed.

Lemma meter_ready d duty : @Allocate _ _ meter_ops meter_registry power16PolicyAutomatic None = Some d ->
  fresh_receiver d duty (meter_receiver d duty) /\ Forall (block_ok (Cfg d)) (meter_blocks 43) /\ same_blocks meter_cfg (Cfg d).
Proof. intros Ed. rewrite (meter_allocated d Ed). split; [by constructor|]. split; [apply meter_blocks_ok|done]. Qed.

Lemma meter_clock duty : newDutyRuntimeWithConfig 0 meter_cfg [7] demo_config = Some (inr duty) ->
  dutySampleClock (block_count duty + len (meter_blocks 43)) (BlockSize meter_cfg) (SampleRate meter_cfg) = inr (344 * second, 0).
Proof.
  intros (s & L & w & -> & _)%newDutyRuntimeWithConfig_fresh. set (d := fresh_runtime _ _ _ _ _ _ _).
  assert (block_count d = 0) as -> by reflexivity. clear d. vm_compute. reflexivity.
Qed.

(** C2. Gating never shows.  Take a receiver whose decoder is fresh from Allocate and
    whose duty runtime has just been made, whether or not it was resumed from a
    checkpoint or keeps its collar by reference, and let it process any blocks, the
    scheduler deciding which of them are decoded.  Whatever it publishes, at once or
    when it makes up for a sleep, is what a receiver that decodes every block gives for
    that very block; the rebuild after a long sleep never lacks raw samples; and when
    the last block was decoded, the decoder holds the same decisions, and the same
    samples as far back as the buffer reaches, as the receiver that never slept. *)
Theorem gating_never_shows {S} `{ParserOps S Message} `{SearchPlatform} `{DualPlatform} `{MagnitudePlatform} `{ManchesterPlatform}
  `{GoMath} `{Fingerprint} format senders store_report world ParseTime Lstat Unmarshal sort_Slice
  reg pol pr (d : Decoder S) now cfg ids schedulerConfig duty r blocks r' keep
  (Hregistry : allocatable reg) (Hprobe : probe_lawful pr) (Hd : Allocate reg pol pr = Some d)
  (Hwalk : forall n, w_walk world n ≡ₚ elements (dom (preambles reg)))
  (Hsort : forall less l, sort_Slice less l ≡ₚ l)
  (Hcfg : same_blocks cfg (Cfg d)) (Hfits : geometry_fits cfg) (Hmode : cfg_Mode schedulerConfig = ModeGated)
  (Hduty : started ParseTime Lstat Unmarshal sort_Slice now cfg ids schedulerConfig duty)
  (Hr : fresh_receiver d duty r)
  (Hblocks : Forall (block_ok (Cfg d)) blocks) (Hcount : len blocks < 2 ^ 63)
  (Hrun : process_blocks format senders store_report world blocks r = Some (r', keep)) :
  (forall lm, lm ∈ rv_log r' -> published d (silent d) blocks (lm_Message lm)) /\
  rv_err r' <> Some ErrLacksRawIQ /\
  (keep = true -> exists duty', rv_duty r' = Some duty' /\ (rt_wasSkipped duty' = false ->
    exists st ref, ready (rv_d r') (fst st) (snd st) /\ heard (Cfg d) (silent d) blocks = Some ref /\
      fst st = fst ref /\ same_samples (BufferLength (Cfg d)) (snd st) (snd ref))).
Proof.
  pose proof (started_ok _ _ _ _ Hsort _ _ _ _ _ Hfits Hduty) as Hstart.
  pose proof (fresh_between _ _ _ _ _ _ _ _ Hregistry Hprobe Hd Hcfg Hstart Hmode Hr) as Hbt.
  destruct (Allocate_ready reg pol pr Hregistry Hprobe) as (d' & E & Hready & Ep & Ec). rewrite Hd in E. injection E as <-.
  rewrite <- Ep in Hwalk. pose proof (allocated_symbol reg Hregistry) as Hsym. rewrite <- Ec in Hsym.
  destruct (process_blocks_between _ _ _ _ d (silent d) Hready (Allocate_Reset _ _ _ _ Hd) Hsym Hwalk [] [] [] duty blocks r r' keep Hbt Hblocks Hcount Hrun)
    as (L & N & K). split; [exact L|]. split; [exact N|]. intros Hk. destruct (K Hk) as (awake & sleeping & duty' & [B1 B2 B3 _ _ _ _ B8]).
  exists duty'. split; [done|]. intros Hws. destruct (ga_skipped _ _ _ B3) as [_ Es]. rewrite Hws in Es. symmetry in Es.
  apply negb_false_iff, Z.eqb_eq in Es. assert (sleeping = []) as -> by (destruct sleeping; [done|unfold len in Es; cbn in Es; lia]).
  rewrite app_nil_r in B2. cbn [app] in B2. subst awake. destruct (fi_tuned _ _ _ _ _ _ B8) as [T1 _ _ _ (st & ref & T2 & (T3 & _) & [T4 T5])].
  exists st, ref. split; [done|]. split; [done|]. split; [|done]. eapply same_tail_all; [exact T4|]. by rewrite (ready_window _ _ _ T2), T1.
Qed.

(** Forty-three blocks: the receiver learns the meter, sleeps through more blocks than its
    collar holds, and is awake again. *)
Lemma gating_never_shows_witness :
  exists d duty r', @Allocate _ _ meter_ops meter_registry power16PolicyAutomatic None = Some d /\
    newDutyRuntimeWithConfig 0 meter_cfg [7] demo_config = Some (inr duty) /\
    meter_loop (meter_blocks 43) (meter_receiver d duty) = Some (r', true) /\
    (exists duty', rv_duty r' = Some duty' /\ rt_skippedBlocks duty' = 12 /\ rt_rebuilds duty' = 2) /\ length (rv_log r') = 6%nat /\
    (forall lm, lm ∈ rv_log r' -> @published _ meter_ops d (silent d) (meter_blocks 43) (lm_Message lm)) /\ rv_err r' <> Some ErrLacksRawIQ.
Proof.
  assert (meter_run 43 (fun r => ((fun d => (rt_skippedBlocks d, rt_rebuilds d)) <$> rv_duty r, length (rv_log r))) = Some (Some (12, 2), 6%nat, true)) as E
    by (vm_compute; reflexivity).
  destruct (meter_run_Some _ _ _ _ E) as (d & duty & r' & Ed & En & El & Ef). injection Ef as Ef1 Ef2.
  exists d, duty, r'. split; [exact Ed|]. split; [exact En|]. split; [exact El|]. split.
  { apply fmap_Some in Ef1 as (duty' & -> & Ef1). injection Ef1 as E1 E2. exists duty'. split; [reflexivity|split; [exact (eq_sym E1)|exact (eq_sym E2)]]. }
  split; [exact Ef2|].
  destruct (meter_ready d duty Ed) as (Hf & Hb & Hs).
  destruct (@gating_never_shows _ meter_ops generic_platform portable_dual portable_magnitude portable_manchester demo_math no_fingerprint
    _ _ _ meter_world (fun _ => None) (fun _ => None) (fun _ => None) (fun _ l => l) meter_registry power16PolicyAutomatic None d 0 meter_cfg [7] demo_config duty
    (meter_receiver d duty) (meter_blocks 43) r' true meter_allocatable ltac:(intros f fr cfg ov [=]) Ed meter_walk (fun _ _ => Permutation_refl _) Hs meter_fits eq_refl
    (started_fresh _ _ _ _ _ _ _ _ _ En) Hf Hb eq_refl El) as (L & N & _).
  split; [exact L|exact N].
Defined.

(** C4. The sample clock never drifts.  However the blocks are gated, and from whatever
    checkpoint the runtime was resumed, the time kept by adding whole nanoseconds and
    carrying the remainder is the exact time of the number of blocks counted: the
    quotient and the remainder of blocks times block length by the sample rate, as long
    as that fits the closed form that checkpoints are validated with. *)
Theorem sample_clock_never_drifts {S} `{ParserOps S Message} `{SearchPlatform} `{DualPlatform} `{MagnitudePlatform} `{ManchesterPlatform}
  `{GoMath} `{Fingerprint} format senders store_report world ParseTime Lstat Unmarshal sort_Slice
  now cfg ids schedulerConfig duty (r : Rcvr S) blocks r' t rem
  (Hsort : forall less l, sort_Slice less l ≡ₚ l) (Hfits : geometry_fits cfg)
  (Hduty : started ParseTime Lstat Unmarshal sort_Slice now cfg ids schedulerConfig duty)
  (Hr : rv_duty r = Some duty)
  (Hclock : dutySampleClock (block_count duty + len blocks) (BlockSize cfg) (SampleRate cfg) = inr (t, rem))
  (Hrun : process_blocks format senders store_report world blocks r = Some (r', true)) :
  exists duty', rv_duty r' = Some duty' /\ block_count duty' = block_count duty + len blocks /\
    rt_sampleTime duty' = t /\ rt_sampleRemainder duty' = rem /\
    t = (block_count duty + len blocks) * (BlockSize cfg * second) / SampleRate cfg /\
    rem = (block_count duty + len blocks) * (BlockSize cfg * second) mod SampleRate cfg.
Proof.
  destruct (started_ok _ _ _ _ Hsort _ _ _ _ _ Hfits Hduty) as [_ Hc _ _ [E1 E2] _]. destruct Hfits as [_ Hg].
  pose proof (block_count_nonneg duty). pose proof (len_nonneg blocks).
  pose proof (dutySampleClock_exact (block_count duty + len blocks) _ _ Hg ltac:(lia)) as Hx. rewrite Hclock in Hx. destruct Hx as (X1 & X2 & X3 & _).
  rewrite <- E1, <- E2 in Hg, Hclock.
  destruct (process_blocks_clock _ _ _ _ blocks duty r r' Hr Hg Hc ltac:(by exists t, rem) ltac:(lia) Hrun) as (duty' & K1 & K2 & K3 & K4 & K5).
  exists duty'. split; [done|]. split; [done|]. unfold clock_ok in K2. rewrite K3, K4, K5, Hclock in K2. by injection K2 as <- <-.
Qed.

Lemma sample_clock_never_drifts_witness :
  exists d duty r' duty', newDutyRuntimeWithConfig 0 meter_cfg [7] demo_config = Some (inr duty) /\
    meter_loop (meter_blocks 43) (meter_receiver d duty) = Some (r', true) /\ rv_duty r' = Some duty' /\ rt_sampleTime duty' = 344 * second.
Proof.
  assert (meter_run 43 (fun r => tt) = Some (tt, true)) as E by (vm_compute; reflexivity).
  destruct (meter_run_Some _ _ _ _ E) as (d & duty & r' & Ed & En & El & _).
  pose proof (meter_clock duty En) as Hc.
  destruct (@sample_clock_never_drifts _ meter_ops generic_platform portable_dual portable_magnitude portable_manchester demo_math no_fingerprint
    _ _ _ meter_world (fun _ => None) (fun _ => None) (fun _ => None) (fun _ l => l) 0 meter_cfg [7] demo_config duty
    (meter_receiver d duty) (meter_blocks 43) r' _ _ (fun _ _ => Permutation_refl _) meter_fits (started_fresh _ _ _ _ _ _ _ _ _ En) eq_refl Hc El)
    as (duty' & K1 & _ & K2 & _).
  exists d, duty, r', duty'. split; [exact En|split; [exact El|split; [exact K1|exact K2]]].
Defined.
