(* ===== verification/KernelRing.v ===== *)
(** The zero-copy block source of Linux (src/receiver_source_direct_linux.go, the part
    in Go): batches of raw blocks that stay in the slots of a kernel module's ring, which
    user space maps and gives back a fixed number of batches late, so that the collar of
    the duty runtime can borrow them.  The other side of the protocol, the exchange
    ioctl of the module (src/kernel/rtlamr_usb_ring/rtlamr_usb_ring.c), is modelled with
    it: the two run concurrently with the USB hardware, which writes into submitted
    slots. *)

From S2P Require Import Prelude Packet Update DutyModel DutyRuntime.

(** ** The kernel's side *)

Definition ENODEV : Z := -19.
Definition EINVAL : Z := -22.
Definition EMSGSIZE : Z := -90.
Definition ECANCELED : Z := -125.

Inductive rtlamr_slot_state := SLOT_FREE | SLOT_INFLIGHT | SLOT_READY | SLOT_CLAIMED.
#[export] Instance rtlamr_slot_state_eq_dec : EqDecision rtlamr_slot_state.
Proof. solve_decision. Defined.

Record rtlamr_usb_slot := { us_data : list Z; us_sequence : Z; us_length : Z; us_status : Z; us_state : rtlamr_slot_state }.
#[export] Instance rtlamr_usb_slot_settable : Settable rtlamr_usb_slot := fun s =>
  Build_rtlamr_usb_slot (us_data s) (us_sequence s) (us_length s) (us_status s) (us_state s).

(** [ur_wait] is the queue [wait]: whether the task on it may run, as it may from the
    moment it enters a wait until it has seen its condition false, and again from the
    next [wake_up_all] on. *)
Record rtlamr_usb_ring := {
  ur_slots : list rtlamr_usb_slot; ur_disconnected : bool; ur_stopping : bool; ur_fatal_error : Z; ur_slot_bytes : Z;
  ur_next_claim : Z; ur_next_release : Z; ur_next_submit : Z; ur_wait : bool }.
#[export] Instance rtlamr_usb_ring_settable : Settable rtlamr_usb_ring := fun r =>
  Build_rtlamr_usb_ring (ur_slots r) (ur_disconnected r) (ur_stopping r) (ur_fatal_error r) (ur_slot_bytes r)
    (ur_next_claim r) (ur_next_release r) (ur_next_submit r) (ur_wait r).

(** [wake_up_all] of the kernel, on the ring's one queue. *)
Definition wake_up_all (ring : rtlamr_usb_ring) : rtlamr_usb_ring := ring <| ur_wait := true |>.

(** What user space and the kernel exchange. *)
Record directRTLRingRelease := { rl_Sequence : Z; rl_Slot : Z; rl_Reserved : Z }.
Record directRTLRingCompletion := { cp_Sequence : Z; cp_Slot : Z; cp_Length : Z; cp_Status : Z; cp_Reserved : Z }.
Record directRTLRingExchange := { ex_ReleaseValid : Z; ex_Reserved : Z; ex_Release : directRTLRingRelease }.

Definition no_release : directRTLRingRelease := {| rl_Sequence := 0; rl_Slot := 0; rl_Reserved := 0 |}.
Definition no_completion : directRTLRingCompletion := {| cp_Sequence := 0; cp_Slot := 0; cp_Length := 0; cp_Status := 0; cp_Reserved := 0 |}.

(** [rtlamr_ring_start], when every slot is submitted; [memory] is what the slots hold. *)
Definition rtlamr_ring_start (slot_bytes : Z) (memory : list (list Z)) : rtlamr_usb_ring :=
  {| ur_slots := imap (fun index data => {| us_data := data; us_sequence := Z.of_nat index; us_length := 0; us_status := 0; us_state := SLOT_INFLIGHT |}) memory;
     ur_disconnected := false; ur_stopping := false; ur_fatal_error := 0; ur_slot_bytes := slot_bytes;
     ur_next_claim := 0; ur_next_release := 0; ur_next_submit := len memory; ur_wait := false |}.

(** [rtlamr_complete]: the transfer into a slot ends with a status and a length. *)
Definition rtlamr_complete (index urb_status actual_length : Z) (ring : rtlamr_usb_ring) : option rtlamr_usb_ring :=
  slot ← Prelude.index (ur_slots ring) index;
  let put slot ring := slots ← store (ur_slots ring) index slot; Some (wake_up_all (ring <| ur_slots := slots |>)) in
  if ur_stopping ring || ur_disconnected ring then put (slot <| us_state := SLOT_FREE |>) ring
  else if negb (urb_status =? 0) then
    put (slot <| us_status := urb_status |> <| us_state := SLOT_READY |>) (ring <| ur_fatal_error := urb_status |>)
  else if negb (actual_length =? ur_slot_bytes ring) then
    put (slot <| us_length := actual_length |> <| us_status := EMSGSIZE |> <| us_state := SLOT_READY |>) (ring <| ur_fatal_error := EMSGSIZE |>)
  else put (slot <| us_length := actual_length |> <| us_status := 0 |> <| us_state := SLOT_READY |>) ring.

(** [rtlamr_ring_stop] of a started ring and [rtlamr_disconnect], up to the cancellation
    of the transfers in flight, which then complete. *)
Definition rtlamr_ring_stop (ring : rtlamr_usb_ring) : rtlamr_usb_ring := wake_up_all (ring <| ur_stopping := true |>).
Definition rtlamr_disconnect (ring : rtlamr_usb_ring) : rtlamr_usb_ring :=
  wake_up_all (ring <| ur_disconnected := true |> <| ur_stopping := true |>).

(** The first half of [rtlamr_exchange_slot], up to the wait: the checks of the argument
    and the release.  [submitted] is what usb_submit_urb returns.  The result is an
    error, or whether a release was committed. *)
Definition exchange_release (submitted : Z) (x : directRTLRingExchange) (ring : rtlamr_usb_ring) : rtlamr_usb_ring * (Z + bool) :=
  let release_valid := negb (ex_ReleaseValid x =? 0) in
  let release := ex_Release x in
  if (1 <? ex_ReleaseValid x) || negb (ex_Reserved x =? 0) || (release_valid && negb (rl_Reserved release =? 0)) ||
     (release_valid && (len (ur_slots ring) <=? rl_Slot release)) then (ring, inl EINVAL)
  else if negb release_valid then (ring, inr false)
  else
    match index (ur_slots ring) (rl_Slot release) with
    | None => (ring, inl EINVAL)
    | Some slot =>
        let put slot (ring : rtlamr_usb_ring) := ring <| ur_slots ::= fun l => <[Z.to_nat (rl_Slot release) := slot]> l |> in
        if negb (rl_Sequence release =? ur_next_release ring) || negb (us_sequence slot =? rl_Sequence release) ||
           negb (bool_decide (us_state slot = SLOT_CLAIMED)) then (ring, inl EINVAL) else
        let ring := ring <| ur_next_release := u64 (ur_next_release ring + 1) |> in
        if ur_stopping ring || ur_disconnected ring || negb (ur_fatal_error ring =? 0) then
          (put (slot <| us_state := SLOT_FREE |>) ring,
           inl (if ur_disconnected ring then ENODEV else if negb (ur_fatal_error ring =? 0) then ur_fatal_error ring else ECANCELED))
        else
          let slot := slot <| us_sequence := ur_next_submit ring |> <| us_length := 0 |> <| us_status := 0 |> <| us_state := SLOT_INFLIGHT |> in
          let ring := ring <| ur_next_submit := u64 (ur_next_submit ring + 1) |> in
          if negb (submitted =? 0) then (wake_up_all (put (slot <| us_state := SLOT_FREE |>) ring <| ur_fatal_error := submitted |>), inl submitted)
          else (put slot ring, inr true)
    end.

(** The slot that the exchange waits for, and what [wait_event] waits for: [None] is an
    index outside the ring. *)
Definition awaited_index (ring : rtlamr_usb_ring) : Z := Z.rem (ur_next_claim ring) (len (ur_slots ring)).
Definition wait_condition (ring : rtlamr_usb_ring) : option bool :=
  slot ← index (ur_slots ring) (awaited_index ring);
  Some (ur_disconnected ring || ur_stopping ring || negb (ur_fatal_error ring =? 0) || bool_decide (us_state slot = SLOT_READY)).

(** The second half, behind the wait: [None] is to wait again. *)
Definition exchange_claim (ring : rtlamr_usb_ring) : option (rtlamr_usb_ring * (Z + directRTLRingCompletion)) :=
  let i := awaited_index ring in
  slot ← index (ur_slots ring) i;
  if ur_disconnected ring then Some (ring, inl ENODEV)
  else if ur_stopping ring then Some (ring, inl ECANCELED)
  else if negb (ur_fatal_error ring =? 0) && negb (bool_decide (us_state slot = SLOT_READY)) then Some (ring, inl (ur_fatal_error ring))
  else if negb (bool_decide (us_state slot = SLOT_READY)) || negb (us_sequence slot =? ur_next_claim ring) then None
  else
    Some (ring <| ur_slots ::= fun l => <[Z.to_nat i := slot <| us_state := SLOT_CLAIMED |>]> l |> <| ur_next_claim := u64 (ur_next_claim ring + 1) |>,
          inr {| cp_Sequence := us_sequence slot; cp_Slot := i; cp_Length := us_length slot; cp_Status := us_status slot; cp_Reserved := 0 |}).

(** ** The receiver's side *)

Inductive source_error :=
  | ErrNotReleased
  | ErrExchange (code : Z)
  | ErrInvalidCompletion
  | ErrTransfer (code : Z)
  | ErrNotActive
  | ErrReleaseQueue.

(** [directRTLSource], without the handles of the C library and the device; a mapping is
    the number of its slot. *)
Record directRTLSource := {
  ds_blockBytes : Z; ds_batchActive : bool; ds_retainedBlocks : Z; ds_kernelMappings : Z; ds_kernelRetain : Z;
  ds_kernelHeld : list directRTLRingRelease; ds_kernelHeldHead : Z; ds_kernelHeldCount : Z;
  ds_kernelPending : directRTLRingRelease; ds_kernelPendingValid : bool;
  ds_kernelCurrent : directRTLRingCompletion; ds_kernelCurrentValid : bool }.
#[export] Instance directRTLSource_settable : Settable directRTLSource := fun s =>
  Build_directRTLSource (ds_blockBytes s) (ds_batchActive s) (ds_retainedBlocks s) (ds_kernelMappings s) (ds_kernelRetain s)
    (ds_kernelHeld s) (ds_kernelHeldHead s) (ds_kernelHeldCount s) (ds_kernelPending s) (ds_kernelPendingValid s)
    (ds_kernelCurrent s) (ds_kernelCurrentValid s).

(** The number of batches [NewReceiver] asks the source to hold back: they cover the
    collar of a gated receiver. *)
Definition retain_batches (gated : bool) (cfg : PacketConfig) (batchBlocks : Z) : option Z :=
  if gated then
    collarBlocks ← dutyCollarBlockCount cfg;
    go_quot (i64 (i64 (collarBlocks + batchBlocks) - 1)) batchBlocks
  else Some 0.

(** The source as [newDirectRTLSource] makes it when the ring is active: [None] is its
    refusal of the batch or of the ring's geometry. *)
Definition new_kernel_source (blockBytes batchBytes retainBatches slotCount : Z) : option directRTLSource :=
  if (blockBytes =? 0) || (batchBytes =? 0) || negb (Z.rem batchBytes blockBytes =? 0) || negb (Z.rem batchBytes 512 =? 0) then None else
  if slotCount <? retainBatches + 2 then None else
  Some {| ds_blockBytes := blockBytes; ds_batchActive := false;
          ds_retainedBlocks := i64 (retainBatches * Z.quot batchBytes blockBytes); ds_kernelMappings := slotCount;
          ds_kernelRetain := retainBatches; ds_kernelHeld := make slotCount no_release; ds_kernelHeldHead := 0; ds_kernelHeldCount := 0;
          ds_kernelPending := no_release; ds_kernelPendingValid := false; ds_kernelCurrent := no_completion; ds_kernelCurrentValid := false |}.

(** [nextKernelBatch] up to its ioctl. *)
Definition next_request (s : directRTLSource) : source_error + directRTLRingExchange :=
  if ds_kernelCurrentValid s then inl ErrNotReleased
  else inr {| ex_ReleaseValid := if ds_kernelPendingValid s then 1 else 0; ex_Reserved := 0;
              ex_Release := if ds_kernelPendingValid s then ds_kernelPending s else no_release |}.

(** [nextKernelBatch] behind its ioctl: the slot and the length of the batch. *)
Definition next_complete (answer : Z + directRTLRingCompletion) (s : directRTLSource) : directRTLSource * (source_error + Z * Z) :=
  match answer with
  | inl code => (s, inl (ErrExchange code))
  | inr completion =>
      let s := s <| ds_kernelPendingValid := false |> in
      if negb (cp_Reserved completion =? 0) || (ds_kernelMappings s <=? cp_Slot completion) || (cp_Length completion =? 0) ||
         negb (Z.rem (cp_Length completion) (ds_blockBytes s) =? 0) then (s, inl ErrInvalidCompletion)
      else if cp_Status completion <? 0 then (s, inl (ErrTransfer (cp_Status completion)))
      else (s <| ds_kernelCurrent := completion |> <| ds_kernelCurrentValid := true |>, inr (cp_Slot completion, cp_Length completion))
  end.

(** [nextKernelBatch] for what the ioctl answers. *)
Definition nextKernelBatch (ioctl : directRTLRingExchange -> Z + directRTLRingCompletion) (s : directRTLSource)
  : directRTLSource * (source_error + Z * Z) :=
  match next_request s with inl e => (s, inl e) | inr x => next_complete (ioctl x) s end.

(** A release waits for the next exchange. *)
Definition set_pending (release : directRTLRingRelease) (s : directRTLSource) : directRTLSource :=
  s <| ds_kernelPending := release |> <| ds_kernelPendingValid := true |>.

(** [releaseKernelBatch]; [None] is a run-time panic. *)
Definition releaseKernelBatch (s : directRTLSource) : option (source_error + directRTLSource) :=
  if negb (ds_kernelCurrentValid s) then Some (inl ErrNotActive) else
  let current := {| rl_Sequence := cp_Sequence (ds_kernelCurrent s); rl_Slot := cp_Slot (ds_kernelCurrent s); rl_Reserved := 0 |} in
  let slots := len (ds_kernelHeld s) in
  let full := ds_kernelHeldCount s =? ds_kernelRetain s in
  if ((ds_kernelRetain s =? 0) || full) && ds_kernelPendingValid s then Some (inl ErrReleaseQueue) else
  s ← (if ds_kernelRetain s =? 0 then Some (set_pending current s) else
       s ← (if full then
              oldest ← index (ds_kernelHeld s) (ds_kernelHeldHead s);
              head ← go_rem (ds_kernelHeldHead s + 1) slots;
              Some (set_pending oldest (s <| ds_kernelHeldHead := head |> <| ds_kernelHeldCount := ds_kernelHeldCount s - 1 |>))
            else Some s);
       tail ← go_rem (ds_kernelHeldHead s + ds_kernelHeldCount s) slots;
       held ← store (ds_kernelHeld s) tail current;
       Some (s <| ds_kernelHeld := held |> <| ds_kernelHeldCount := ds_kernelHeldCount s + 1 |>));
  Some (inr (s <| ds_kernelCurrentValid := false |>)).

(** [Release] of the source. *)
Definition source_Release (s : directRTLSource) : option (source_error + directRTLSource) :=
  if negb (ds_batchActive s) then Some (inl ErrNotActive) else
  r ← releaseKernelBatch s;
  Some (match r with inl e => inl e | inr s => inr (s <| ds_batchActive := false |>) end).

(** ** The two sides together

    The receiver is between batches or works on one; it is about to enter the ioctl; or
    it waits in the kernel; an error ends it, as it ends [Run].  A task that enters a
    wait runs: [Wake] is one turn of it, which needs [ur_wait]; it looks at its condition
    and either goes on or sleeps.  The kernel queues the task before it looks, so that a
    [wake_up_all] in between is not lost: the two are one step. *)

Inductive phase := Working | Calling (x : directRTLRingExchange) | Waiting (committed : bool) (x : directRTLRingExchange) | Finished (e : source_error).

(** [sy_delivered] records what every batch held when it was handed out. *)
Record system := { sy_ring : rtlamr_usb_ring; sy_source : directRTLSource; sy_phase : phase; sy_delivered : list (list Z) }.
#[export] Instance system_settable : Settable system := fun s => Build_system (sy_ring s) (sy_source s) (sy_phase s) (sy_delivered s).

Inductive ring_event :=
  | DeviceWrites (slot : Z) (bytes : list Z)
  | DeviceCompletes (slot status length : Z)
  | Disconnect
  | StopRing
  | CallNext
  | Enter (submitted : Z)
  | Interrupt
  | Wake
  | CallRelease.

(** [Next] of the source behind its ioctl; the batch is what its mapping holds. *)
Definition next_returns (answer : Z + directRTLRingCompletion) (s : system) : option system :=
  match next_complete answer (sy_source s) with
  | (source, inl e) => Some (s <| sy_source := source |> <| sy_phase := Finished e |>)
  | (source, inr (i, length)) =>
      slot ← index (ur_slots (sy_ring s)) i;
      batch ← slice 0 length (us_data slot);
      Some (s <| sy_source := source <| ds_batchActive := true |> |> <| sy_phase := Working |> <| sy_delivered ::= fun l => l ++ [batch] |>)
  end.

(** One step; [None] is a step that cannot happen now, or a panic. *)
Definition system_step (s : system) (e : ring_event) : option system :=
  match e with
  | DeviceWrites i bytes =>
      slot ← index (ur_slots (sy_ring s)) i;
      if bool_decide (us_state slot = SLOT_INFLIGHT) && (len bytes =? len (us_data slot)) then
        slots ← store (ur_slots (sy_ring s)) i (slot <| us_data := bytes |>);
        Some (s <| sy_ring ::= fun r => r <| ur_slots := slots |> |>)
      else None
  | DeviceCompletes i status length =>
      slot ← index (ur_slots (sy_ring s)) i;
      if bool_decide (us_state slot = SLOT_INFLIGHT) then
        ring ← rtlamr_complete i status length (sy_ring s);
        Some (s <| sy_ring := ring |>)
      else None
  | Disconnect => Some (s <| sy_ring ::= rtlamr_disconnect |>)
  | StopRing => Some (s <| sy_ring ::= rtlamr_ring_stop |>)
  | CallNext =>
      match sy_phase s with
      | Working =>
          if ds_batchActive (sy_source s) then Some (s <| sy_phase := Finished ErrNotReleased |>) else
          match next_request (sy_source s) with
          | inl e => Some (s <| sy_phase := Finished e |>)
          | inr x => Some (s <| sy_phase := Calling x |>)
          end
      | _ => None
      end
  | Enter submitted =>
      match sy_phase s with
      | Calling x =>
          match exchange_release submitted x (sy_ring s) with
          | (ring, inl code) => next_returns (inl code) (s <| sy_ring := ring |>)
          | (ring, inr committed) => Some (s <| sy_ring := wake_up_all ring |> <| sy_phase := Waiting committed x |>)
          end
      | _ => None
      end
  | Interrupt =>
      match sy_phase s with
      | Calling x => Some s
      | Waiting false x =>
          holds ← wait_condition (sy_ring s);
          if (holds : bool) then None else Some (s <| sy_phase := Calling x |>)
      | _ => None
      end
  | Wake =>
      match sy_phase s with
      | Waiting _ x =>
          if negb (ur_wait (sy_ring s)) then None else
          holds ← wait_condition (sy_ring s);
          if (holds : bool) then
            match exchange_claim (sy_ring s) with
            | Some (ring, answer) => next_returns answer (s <| sy_ring := ring |>)
            | None => Some s
            end
          else Some (s <| sy_ring ::= fun r => r <| ur_wait := false |> |>)
      | _ => None
      end
  | CallRelease =>
      match sy_phase s with
      | Working =>
          r ← source_Release (sy_source s);
          Some (match r with inl e => s <| sy_phase := Finished e |> | inr source => s <| sy_source := source |> end)
      | _ => None
      end
  end.

Definition start_system (source : directRTLSource) (slot_bytes : Z) (memory : list (list Z)) : system :=
  {| sy_ring := rtlamr_ring_start slot_bytes memory; sy_source := source; sy_phase := Working; sy_delivered := [] |}.
