(* ===== verification/KernelRingSpec.v ===== *)
(** The batches of the kernel ring: whatever the hardware and the module do between two
    calls of the receiver, what is handed out is what the device completed, transfer by
    transfer, and the slots of the batches it still holds keep what was delivered, so that
    the duty collar may borrow its blocks; no exchange is refused, the receiver never waits
    for a slot of its own, and no wake-up is lost. *)

From S2P Require Import Prelude Float64 Packet Update DutyMath DutyModel Scheduler SchedulerSpec DutyState DutyRuntime DutyRuntimeSpec KernelRing.

Lemma mod_window n a b : 0 < n -> a - b < n -> b - a < n -> a mod n = b mod n -> a = b.
Proof.
  intros Hn H1 H2 E. pose proof (Z.div_mod a n ltac:(lia)) as Ea. pose proof (Z.div_mod b n ltac:(lia)) as Eb.
  rewrite E in Ea. assert (a / n = b / n) as Eq by nia. rewrite Eq in Ea. lia.
Qed.

Lemma index_insert {A} (l : list A) i j x : 0 <= i < len l -> index (<[Z.to_nat i := x]> l) j = if j =? i then Some x else index l j.
Proof.
  intros Hi. assert (store l i x = Some (<[Z.to_nat i := x]> l)) as E.
  { unfold store. rewrite (proj2 (Z.leb_le 0 i)), (proj2 (Z.ltb_lt i (len l))) by lia. done. }
  destruct (Z.eqb_spec j i) as [->|Hne]; [by eapply index_store_eq|by eapply index_store_ne].
Qed.

Lemma store_insert {A} (l : list A) i x : 0 <= i < len l -> store l i x = Some (<[Z.to_nat i := x]> l).
Proof. intros Hi. unfold store. by rewrite (proj2 (Z.leb_le 0 i)), (proj2 (Z.ltb_lt i (len l))) by lia. Qed.

Lemma rem_mod a n : 0 <= a -> 0 < n -> Z.rem a n = a mod n.
Proof. intros. apply Z.rem_mod_nonneg; lia. Qed.

(** ** The ring *)

Definition faulty (r : rtlamr_usb_ring) : Prop := ur_stopping r = true \/ ur_disconnected r = true \/ ur_fatal_error r <> 0.

Section Ring.
Context (N sb : Z).

(** The slot of sequence number [q], of which [nc] are claimed. *)
Definition slot_ok (D : list (list Z)) (r : rtlamr_usb_ring) (q : Z) (slot : rtlamr_usb_slot) : Prop :=
  us_sequence slot = q /\ len (us_data slot) = sb /\
  if q <? len D then us_state slot = SLOT_CLAIMED /\ D !! Z.to_nat q = Some (us_data slot)
  else match us_state slot with
       | SLOT_CLAIMED => False
       | SLOT_FREE => faulty r
       | SLOT_INFLIGHT => us_length slot = 0
       | SLOT_READY => (faulty r /\ (us_status slot < 0 \/ us_length slot = 0)) \/ (us_length slot = sb /\ us_status slot = 0)
       end.

Record ring_ok (nr : Z) (D : list (list Z)) (r : rtlamr_usb_ring) : Prop := {
  ro_len : len (ur_slots r) = N;
  ro_bytes : ur_slot_bytes r = sb;
  ro_release : ur_next_release r = nr;
  ro_claim : ur_next_claim r = len D;
  ro_submit : ur_next_submit r = nr + N;
  ro_range : 0 <= nr <= len D /\ len D <= nr + N;
  ro_honest : ur_fatal_error r <> EINVAL;
  ro_slots : forall q, nr <= q < nr + N -> exists slot, index (ur_slots r) (q mod N) = Some slot /\ slot_ok D r q slot }.

Hypothesis (HN : 0 < N).

Lemma slot_ok_mono D r r' q slot : (faulty r -> faulty r') -> slot_ok D r q slot -> slot_ok D r' q slot.
Proof using Type.
  clear. unfold slot_ok. intros Hf (H1 & H2 & H3). split; [done|]. split; [done|]. destruct (q <? len D); [done|].
  destruct (us_state slot); intuition.
Qed.

(** Every index of the ring is that of one number of the window. *)
Lemma window_index nr i : 0 <= i < N -> 0 <= nr -> exists q, nr <= q < nr + N /\ q mod N = i.
Proof using HN.
  intros Hi Hr. exists (nr + (i - nr) mod N). pose proof (Z.mod_pos_bound (i - nr) N HN).
  split; [lia|]. rewrite Zplus_mod_idemp_r. replace (nr + (i - nr)) with i by lia. by apply Z.mod_small.
Qed.

Lemma window_slot nr D r i slot : ring_ok nr D r -> index (ur_slots r) i = Some slot ->
  exists q, nr <= q < nr + N /\ q mod N = i /\ slot_ok D r q slot.
Proof using HN.
  intros Hr Hi. pose proof (index_range _ _ _ Hi) as Hb. rewrite (ro_len _ _ _ Hr) in Hb.
  destruct (window_index nr i Hb ltac:(apply Hr)) as (q & Hq & Eq). exists q. split; [done|]. split; [done|].
  destruct (ro_slots _ _ _ Hr q Hq) as (slot' & E & Hs). rewrite Eq, Hi in E. by injection E as <-.
Qed.

(** A slot of the window changes, the ring may become faulty. *)
Lemma ring_ok_put nr D r q slot r' : ring_ok nr D r -> nr <= q < nr + N ->
  ur_slots r' = <[Z.to_nat (q mod N) := slot]> (ur_slots r) -> ur_slot_bytes r' = sb -> ur_next_release r' = nr ->
  ur_next_claim r' = len D -> ur_next_submit r' = nr + N -> (faulty r -> faulty r') -> slot_ok D r' q slot -> ur_fatal_error r' <> EINVAL -> ring_ok nr D r'.
Proof using HN.
  intros Hr Hq Es Eb E1 E2 E3 Hf Hs Hh. pose proof (Z.mod_pos_bound q N HN) as Hm. pose proof (ro_len _ _ _ Hr) as HL.
  constructor; try done; [|apply Hr|].
  - rewrite Es. unfold len in *. by rewrite length_insert.
  - intros q' Hq'. rewrite Es. rewrite index_insert by lia.
    destruct (Z.eqb_spec (q' mod N) (q mod N)) as [E|E].
    + apply mod_window in E; [|lia..]. subst q'. by exists slot.
    + destruct (ro_slots _ _ _ Hr q' Hq') as (slot' & E' & Hs'). exists slot'. split; [done|]. by eapply slot_ok_mono.
Qed.

Lemma ring_start_ok memory : len memory = N -> N < 2 ^ 63 -> Forall (fun data => len data = sb) memory -> ring_ok 0 [] (rtlamr_ring_start sb memory).
Proof using HN.
  intros HL Hb Hm. unfold rtlamr_ring_start. constructor; cbn; try done; try (unfold len in *; cbn; lia).
  - unfold len in *. by rewrite length_imap.
  - intros q Hq. rewrite Z.mod_small by lia. destruct (index_lt memory q ltac:(lia)) as [data Hd].
    eexists. split.
    + apply index_Some. apply index_Some in Hd as [? Hd]. split; [done|]. rewrite list_lookup_imap, Hd. cbn. reflexivity.
    + apply index_Some in Hd as [? Hd]. unfold slot_ok. cbn. split; [lia|]. split; [exact (proj1 (Forall_lookup _ _) Hm _ _ Hd)|].
      destruct (Z.ltb_spec q (len (@nil (list Z)))); [unfold len in *; cbn in *; lia|done].
Qed.

(** ** The environment's steps *)

Lemma device_write_ok nr D r i slot bytes : ring_ok nr D r -> index (ur_slots r) i = Some slot -> us_state slot = SLOT_INFLIGHT ->
  len bytes = len (us_data slot) -> ring_ok nr D (r <| ur_slots := <[Z.to_nat i := slot <| us_data := bytes |>]> (ur_slots r) |>).
Proof using HN.
  intros Hr Hi Hs Hb. destruct (window_slot _ _ _ _ _ Hr Hi) as (q & Hq & <- & Hok).
  eapply (ring_ok_put _ _ r q (slot <| us_data := bytes |>)); try apply Hr; try done.
  destruct Hok as (H1 & H2 & H3). unfold slot_ok. cbn. rewrite Hs in *. split; [done|]. split; [lia|].
  destruct (q <? len D); [by destruct H3|done].
Qed.

Lemma complete_ok nr D r r' i slot status length : ring_ok nr D r -> index (ur_slots r) i = Some slot -> us_state slot = SLOT_INFLIGHT -> status <> EINVAL ->
  rtlamr_complete i status length r = Some r' -> ring_ok nr D r' /\ (faulty r -> faulty r').
Proof using HN.
  intros Hr Hi Hs Hne E. destruct (window_slot _ _ _ _ _ Hr Hi) as (q & Hq & <- & H1 & H2 & H3). rewrite Hs in H3.
  pose proof (Z.mod_pos_bound q N HN) as Hm. pose proof (ro_len _ _ _ Hr) as HL.
  assert (len D <= q) as Hge by (destruct (Z.ltb_spec q (len D)) in H3; [by destruct H3|lia]).
  rewrite (proj2 (Z.ltb_ge q (len D))) in H3 by lia.
  unfold rtlamr_complete in E. rewrite Hi in E. cbn [mbind option_bind] in E.
  assert (forall x (y : rtlamr_usb_ring), (slots ← store (ur_slots r) (q mod N) x; Some (wake_up_all (y <| ur_slots := slots |>))) = Some r' ->
    r' = wake_up_all (y <| ur_slots := <[Z.to_nat (q mod N) := x]> (ur_slots r) |>)) as Put.
  { intros x y. rewrite store_insert by lia. cbn. by intros [= <-]. }
  destruct (ur_stopping r || ur_disconnected r) eqn:Ef; [|destruct (Z.eqb_spec status 0) as [->|Est]; cbn [negb] in E;
    [destruct (Z.eqb_spec length (ur_slot_bytes r)) as [->|El]; cbn [negb] in E|]]; apply Put in E as ->.
  - assert (faulty r) as F by (apply orb_prop in Ef as []; [by left|by right; left]). split; [|done].
    eapply (ring_ok_put _ _ r q); try reflexivity; try apply Hr; try done. unfold slot_ok. cbn. split; [done|]. split; [done|].
    by rewrite (proj2 (Z.ltb_ge q (len D))) by lia.
  - split; [|done]. eapply (ring_ok_put _ _ r q); try reflexivity; try apply Hr; try done. unfold slot_ok. cbn. split; [done|]. split; [done|].
    rewrite (proj2 (Z.ltb_ge q (len D))) by lia. right. split; [apply Hr|done].
  - split; [|intros _; by right; right]. eapply (ring_ok_put _ _ r q); try reflexivity; try apply Hr; [done|intros _; by right; right| |done].
    unfold slot_ok. cbn. split; [done|]. split; [done|]. rewrite (proj2 (Z.ltb_ge q (len D))) by lia. left. split; [by right; right|by left].
  - split; [|intros _; by right; right]. eapply (ring_ok_put _ _ r q); try reflexivity; try apply Hr; [done|intros _; by right; right| |done].
    unfold slot_ok. cbn. split; [done|]. split; [done|]. rewrite (proj2 (Z.ltb_ge q (len D))) by lia. left. split; [by right; right|by right].
Qed.

Lemma ring_ok_same nr D r r' : ring_ok nr D r -> ur_slots r' = ur_slots r -> ur_slot_bytes r' = ur_slot_bytes r -> ur_next_release r' = ur_next_release r ->
  ur_next_claim r' = ur_next_claim r -> ur_next_submit r' = ur_next_submit r -> ur_fatal_error r' = ur_fatal_error r -> (faulty r -> faulty r') -> ring_ok nr D r'.
Proof using Type.
  clear. intros [] E1 E2 E3 E4 E5 E6 F. constructor; try congruence. intros q Hq. rewrite E1. destruct (ro_slots0 q Hq) as (slot & E & Hs).
  exists slot. split; [done|]. by eapply slot_ok_mono.
Qed.

Lemma ring_ok_wait nr D r b : ring_ok nr D r -> ring_ok nr D (r <| ur_wait := b |>).
Proof using Type. clear. intros Hr. by eapply ring_ok_same. Qed.

(** ** The two halves of the exchange *)

Definition release_of (q : Z) : directRTLRingRelease := {| rl_Sequence := q; rl_Slot := q mod N; rl_Reserved := 0 |}.

Definition request (pending : option directRTLRingRelease) : directRTLRingExchange :=
  {| ex_ReleaseValid := match pending with Some _ => 1 | None => 0 end; ex_Reserved := 0; ex_Release := default no_release pending |}.

Definition refused (code : Z) : Prop := code = EINVAL.

Lemma exchange_no_release submitted r : exchange_release submitted (request None) r = (r, inr false).
Proof using Type. done. Qed.

Lemma exchange_release_ok nr D r r' submitted answer : ring_ok nr D r -> nr < len D -> nr + N + 1 < 2 ^ 64 -> submitted <> EINVAL ->
  exchange_release submitted (request (Some (release_of nr))) r = (r', answer) ->
  (exists code, answer = inl code /\ ~ refused code) \/ (answer = inr true /\ ring_ok (nr + 1) D r').
Proof using HN.
  intros Hr Hlt Hb Hs E. pose proof (Z.mod_pos_bound nr N HN) as Hm. pose proof (ro_len _ _ _ Hr) as HL. pose proof (ro_range _ _ _ Hr) as Hrg.
  destruct (ro_slots _ _ _ Hr nr ltac:(lia)) as (slot & Hi & H1 & H2 & H3). rewrite (proj2 (Z.ltb_lt nr (len D))) in H3 by lia. destruct H3 as [H3 H4].
  unfold exchange_release in E. cbn [request release_of ex_ReleaseValid ex_Reserved ex_Release default from_option id rl_Reserved rl_Slot rl_Sequence] in E.
  change (1 <? 1) with false in E. change (1 =? 0) with false in E. change (0 =? 0) with true in E. cbn [negb orb andb] in E.
  rewrite HL, (proj2 (Z.leb_gt N (nr mod N))), Hi, H1, (ro_release _ _ _ Hr), Z.eqb_refl, H3 in E by lia. rewrite bool_decide_true in E by done.
  cbn [negb orb] in E. cbn in E.
  destruct (ur_stopping r || ur_disconnected r || negb (ur_fatal_error r =? 0)) eqn:Ef.
  { injection E as _ <-. left. eexists. split; [done|]. unfold refused. destruct (ur_disconnected r); [done|].
    destruct (ur_fatal_error r =? 0); cbn [negb]; [done|apply Hr]. }
  destruct (Z.eqb_spec submitted 0) as [->|Hne]; cbn [negb] in E; [|injection E as _ <-; left; by exists submitted].
  injection E as <- <-. right. split; [done|].
  pose proof (ro_submit _ _ _ Hr) as Esub.
  constructor; cbn.
  - unfold len in *. by rewrite length_insert.
  - apply Hr.
  - apply wrap_u_id. split; lia.
  - apply Hr.
  - rewrite Esub. unfold u64. rewrite wrap_u_id by (split; lia). lia.
  - lia.
  - apply Hr.
  - intros q Hq. rewrite index_insert by lia. destruct (Z.eqb_spec (q mod N) (nr mod N)) as [Eq|Eq].
    + assert (q = nr + N) as ->.
      { apply (mod_window N); [lia..|]. rewrite Eq. replace (nr + N) with (nr + 1 * N) by lia. by rewrite Z_mod_plus_full. }
      eexists. split; [done|]. unfold slot_ok. cbn. split; [by rewrite Esub|]. split; [done|].
      rewrite (proj2 (Z.ltb_ge _ _)) by lia. done.
    + destruct (decide (q = nr + N)) as [->|]; [exfalso; apply Eq; replace (nr + N) with (nr + 1 * N) by lia; by rewrite Z_mod_plus_full|].
      destruct (ro_slots _ _ _ Hr q ltac:(lia)) as (slot' & E' & Hs'). exists slot'. split; [done|]. eapply slot_ok_mono; [|done]. unfold faulty. done.
Qed.
(** The receiver's next slot is not one it holds, and a working ring fills it. *)
Lemma awaited_slot nr D r : ring_ok nr D r -> len D < nr + N ->
  exists slot, index (ur_slots r) (len D mod N) = Some slot /\ us_sequence slot = len D /\ us_state slot <> SLOT_CLAIMED /\
    (us_state slot = SLOT_FREE -> faulty r).
Proof using HN.
  intros Hr Hlt. pose proof (ro_range _ _ _ Hr) as Hrg. destruct (ro_slots _ _ _ Hr (len D) ltac:(lia)) as (slot & Hi & H1 & _ & H3).
  rewrite (proj2 (Z.ltb_ge (len D) (len D))) in H3 by lia. exists slot. split; [done|]. split; [done|]. by destruct (us_state slot).
Qed.

(** What a claim gives. *)
Definition claimed (nr : Z) (D : list (list Z)) (r : rtlamr_usb_ring) (answer : Z + directRTLRingCompletion) : Prop :=
  match answer with
  | inl code => ~ refused code
  | inr c =>
      cp_Sequence c = len D /\ cp_Slot c = len D mod N /\ cp_Reserved c = 0 /\
      (cp_Status c < 0 \/ cp_Length c = 0 \/
       (cp_Length c = sb /\ exists slot, index (ur_slots r) (cp_Slot c) = Some slot /\ len (us_data slot) = sb /\ ring_ok nr (D ++ [us_data slot]) r))
  end.

Lemma exchange_claim_ok nr D r r' answer : ring_ok nr D r -> len D < nr + N -> len D + 1 < 2 ^ 64 ->
  exchange_claim r = Some (r', answer) -> claimed nr D r' answer.
Proof using HN.
  intros Hr Hlt Hb E. pose proof (ro_range _ _ _ Hr) as Hrg. pose proof (ro_len _ _ _ Hr) as HL. pose proof (Z.mod_pos_bound (len D) N HN) as Hm.
  destruct (ro_slots _ _ _ Hr (len D) ltac:(lia)) as (slot & Hi & H1 & H2 & H3).
  rewrite (proj2 (Z.ltb_ge (len D) (len D))) in H3 by lia.
  unfold exchange_claim, awaited_index in E. rewrite HL, (ro_claim _ _ _ Hr), rem_mod, Hi in E by lia. cbn [mbind option_bind] in E.
  destruct (ur_disconnected r); [by injection E as <- <-|]. destruct (ur_stopping r); [by injection E as <- <-|].
  destruct (negb (ur_fatal_error r =? 0) && negb (bool_decide (us_state slot = SLOT_READY))); [injection E as <- <-; apply Hr|].
  destruct (bool_decide_reflect (us_state slot = SLOT_READY)) as [Es|Es]; cbn [negb orb] in E; [|done].
  rewrite H1, Z.eqb_refl in E. cbn [negb] in E. injection E as <- <-. rewrite Es in H3. cbn [claimed cp_Sequence cp_Slot cp_Reserved cp_Status cp_Length].
  split; [done|]. split; [done|]. split; [done|]. destruct H3 as [[_ [H3|H3]]|[H3 H4]]; [by left|by right; left|]. right; right. split; [done|].
  exists (slot <| us_state := SLOT_CLAIMED |>). cbn. rewrite index_insert, Z.eqb_refl by lia. split; [done|]. split; [done|].
  assert (len (D ++ [us_data slot]) = len D + 1) as EL by (rewrite len_app; done).
  constructor; cbn; try apply Hr.
  - unfold len in *. by rewrite length_insert.
  - rewrite EL. apply wrap_u_id. split; [unfold len|]; lia.
  - lia.
  - intros q Hq. rewrite index_insert by lia. destruct (Z.eqb_spec (q mod N) (len D mod N)) as [Eq|Eq].
    + apply mod_window in Eq; [|lia..]. subst q. eexists. split; [done|]. unfold slot_ok. cbn. split; [done|]. split; [done|].
      rewrite (proj2 (Z.ltb_lt _ _)) by lia. split; [done|]. rewrite lookup_app_r by (unfold len; lia). unfold len. by rewrite Nat2Z.id, Nat.sub_diag.
    + destruct (ro_slots _ _ _ Hr q Hq) as (slot' & E' & G1 & G2 & G3). exists slot'. split; [done|]. split; [done|]. split; [done|]. rewrite EL.
      destruct (Z.ltb_spec q (len D)).
      * rewrite (proj2 (Z.ltb_lt _ _)) by lia. destruct G3 as [G3 G4]. split; [done|]. apply lookup_app_l_Some, G4.
      * rewrite (proj2 (Z.ltb_ge _ _)); [done|]. destruct (decide (q = len D)) as [->|]; [done|lia].
Qed.
End Ring.

(** ** The receiver's books *)

Definition flag (b : bool) : Z := if b then 1 else 0.

Section Source.
Context (N R bb : Z).

(** The receiver owes the ring the numbers from [nr] on: one that waits for the next
    exchange, those it holds back, and the batch it works on. *)
Record source_ok (nr nc : Z) (s : directRTLSource) : Prop := {
  so_slots : ds_kernelMappings s = N /\ len (ds_kernelHeld s) = N;
  so_retain : ds_kernelRetain s = R /\ ds_blockBytes s = bb;
  so_head : 0 <= ds_kernelHeldHead s < N;
  so_count : 0 <= ds_kernelHeldCount s <= R;
  so_held : forall j, 0 <= j < ds_kernelHeldCount s ->
    index (ds_kernelHeld s) ((ds_kernelHeldHead s + j) mod N) = Some (release_of N (nr + flag (ds_kernelPendingValid s) + j));
  so_pending : ds_kernelPendingValid s = true -> ds_kernelPending s = release_of N nr;
  so_full : ds_kernelHeldCount s = R \/ (nr = 0 /\ ds_kernelPendingValid s = false);
  so_current : ds_kernelCurrentValid s = true ->
    cp_Sequence (ds_kernelCurrent s) = nc - 1 /\ cp_Slot (ds_kernelCurrent s) = (nc - 1) mod N /\ ds_kernelPendingValid s = false;
  so_total : nc = nr + flag (ds_kernelPendingValid s) + ds_kernelHeldCount s + flag (ds_kernelCurrentValid s);
  so_active : ds_batchActive s = ds_kernelCurrentValid s }.

Hypothesis (HR : 0 <= R) (HN : R + 2 <= N).

Lemma new_source_ok batchBytes s : new_kernel_source bb batchBytes R N = Some s -> source_ok 0 0 s.
Proof using HR HN.
  unfold new_kernel_source. destruct (_ || _); [done|]. destruct (N <? R + 2); [done|]. intros [= <-].
  constructor; cbn; try lia; try done. split; [done|apply len_make; lia].
Qed.

Lemma next_request_ok nr nc s : source_ok nr nc s -> ds_kernelCurrentValid s = false ->
  next_request s = inr (request (if ds_kernelPendingValid s then Some (release_of N nr) else None)).
Proof using Type.
  intros Hs Hc. unfold next_request, request. rewrite Hc. pose proof (so_pending _ _ _ Hs). by destruct (ds_kernelPendingValid s); [rewrite H|].
Qed.

Lemma next_complete_ok nr nc s c : source_ok nr nc s -> ds_kernelCurrentValid s = false -> 0 <= nr ->
  cp_Sequence c = nc -> cp_Slot c = nc mod N ->
  let s' := s <| ds_kernelPendingValid := false |> <| ds_kernelCurrent := c |> <| ds_kernelCurrentValid := true |> <| ds_batchActive := true |> in
  source_ok (nr + flag (ds_kernelPendingValid s)) (nc + 1) s'.
Proof using Type.
  intros [[] [] Hhead Hcount Hheld Hpend Hfull Hcur Htot Hact] Hc Hr E1 E2. cbn. rewrite Hc in *. cbn [flag] in Htot.
  constructor; cbn; try done.
  - intros j Hj. rewrite Hheld by done. f_equal. f_equal. lia.
  - destruct Hfull as [?|[? Hp]]; [by left|]. rewrite Hp. right. cbn. lia.
  - intros _. rewrite E1, E2. replace (nc + 1 - 1) with nc by lia. done.
  - lia.
Qed.

Lemma release_ok nr nc s : source_ok nr nc s -> 0 <= nr -> ds_kernelCurrentValid s = true ->
  exists s', source_Release s = Some (inr s') /\ source_ok nr nc s' /\ ds_kernelCurrentValid s' = false.
Proof using HR HN.
  intros [[Hm HL] [Hret Hbb] Hhead Hcount Hheld Hpend Hfull Hcur Htot Hact] Hr Hc. destruct (Hcur Hc) as (E1 & E2 & E3). rewrite Hc, E3 in *.
  cbn [flag] in Htot, Hheld. unfold source_Release, releaseKernelBatch. rewrite Hact, Hc, E3, E1, E2, Hret. cbn [negb andb]. rewrite andb_false_r.
  fold (release_of N (nc - 1)). destruct (Z.eqb_spec R 0) as [->|HR0].
  { eexists. split; [done|]. split; [|done]. constructor; cbn; try done; try (intros; lia). intros _. f_equal. lia. }
  assert (forall hd, 0 <= hd < N -> hd mod N = hd) as Hmod by (intros; by apply Z.mod_small).
  assert (forall a, 0 <= a -> go_rem a N = Some (a mod N)) as Hrem.
  { intros a Ha. unfold go_rem. destruct (Z.eqb_spec N 0); [lia|]. by rewrite rem_mod by lia. }
  destruct (Z.eqb_spec (ds_kernelHeldCount s) R) as [Eh|Eh].
  - pose proof (Hheld 0 ltac:(lia)) as H0. rewrite Z.add_0_r, Hmod in H0 by done. rewrite Z.add_0_r in H0. rewrite H0. cbn [mbind option_bind].
    rewrite HL, Hrem by lia. cbn [mbind option_bind set_pending ds_kernelHeldHead ds_kernelHeldCount ds_kernelHeld].
    cbn. pose proof (Z.mod_pos_bound (ds_kernelHeldHead s + 1) N ltac:(lia)) as Hb. rewrite Hrem by lia. cbn.
    set (hd := ds_kernelHeldHead s) in *. rewrite Eh, Zplus_mod_idemp_l. replace (hd + 1 + (R - 1)) with (hd + R) by lia.
    pose proof (Z.mod_pos_bound (hd + R) N ltac:(lia)) as Hb2. rewrite store_insert by lia. cbn.
    eexists. split; [done|]. split; [|done]. constructor; cbn; try done; try lia.
    + split; [done|]. unfold len in *. by rewrite length_insert.
    + intros j Hj. rewrite Zplus_mod_idemp_l, index_insert by lia. destruct (Z.eqb_spec ((hd + 1 + j) mod N) ((hd + R) mod N)) as [Ej|Ej].
      * apply mod_window in Ej; [|lia..]. f_equal. f_equal. lia.
      * destruct (decide (j = R - 1)) as [->|]; [exfalso; apply Ej; f_equal; lia|].
        replace (hd + 1 + j) with (hd + (1 + j)) by lia. rewrite Hheld by lia. f_equal. f_equal. lia.
    + intros _. f_equal. lia.
  - destruct Hfull as [?|[-> _]]; [done|]. cbn [mbind option_bind]. rewrite HL, Hrem by lia. cbn.
    set (hd := ds_kernelHeldHead s) in *. set (h := ds_kernelHeldCount s) in *. pose proof (Z.mod_pos_bound (hd + h) N ltac:(lia)) as Hb. rewrite store_insert by lia. cbn.
    eexists. split; [done|]. split; [|done]. constructor; cbn; try done; try lia.
    + split; [done|]. unfold len in *. by rewrite length_insert.
    + intros j Hj. fold hd. rewrite index_insert, E3 by lia. cbn [flag]. destruct (Z.eqb_spec ((hd + j) mod N) ((hd + h) mod N)) as [Ej|Ej].
      * apply mod_window in Ej; [|lia..]. f_equal. f_equal. lia.
      * destruct (decide (j = h)) as [->|]; [done|]. by rewrite Hheld by lia.
    + by rewrite E3.
    + right. done.
    + rewrite E3. cbn. lia.
Qed.
End Source.

(** ** The two sides together *)

(** No transfer and no submission reports the code of a refusal. *)
Definition safe_event (e : ring_event) : Prop :=
  match e with DeviceCompletes _ status _ => status <> EINVAL | Enter submitted => submitted <> EINVAL | _ => True end.

(** An error of the run that is neither a refused exchange nor a release without room. *)
Definition not_refused (e : source_error) : Prop := e <> ErrExchange EINVAL /\ e <> ErrReleaseQueue.

Section System.
Context (N R bb sb : Z).
Hypothesis (HR : 0 <= R) (HN : R + 2 <= N) (Hbb : 0 < bb).

Definition requested (nr : Z) (s : system) : directRTLRingExchange :=
  request (if ds_kernelPendingValid (sy_source s) then Some (release_of N nr) else None).

(** What holds in every phase; [k] bounds the batches delivered. *)
Definition well (k : Z) (s : system) : Prop :=
  len (sy_delivered s) <= k /\ Forall (fun data => len data = sb) (sy_delivered s) /\
  match sy_phase s with
  | Working => exists nr, ring_ok N sb nr (sy_delivered s) (sy_ring s) /\ source_ok N R bb nr (len (sy_delivered s)) (sy_source s)
  | Calling x =>
      exists nr, ring_ok N sb nr (sy_delivered s) (sy_ring s) /\ source_ok N R bb nr (len (sy_delivered s)) (sy_source s) /\
        ds_kernelCurrentValid (sy_source s) = false /\ x = requested nr s
  | Waiting c x =>
      exists nr, ring_ok N sb (nr + flag c) (sy_delivered s) (sy_ring s) /\ source_ok N R bb nr (len (sy_delivered s)) (sy_source s) /\
        ds_kernelCurrentValid (sy_source s) = false /\ x = requested nr s /\ ds_kernelPendingValid (sy_source s) = c /\ 0 <= nr
  | Finished e => not_refused e
  end.

Lemma well_ring k s r : well k s -> (forall nr D, ring_ok N sb nr D (sy_ring s) -> ring_ok N sb nr D r) -> well k (s <| sy_ring := r |>).
Proof using Type.
  clear. intros (H1 & H2 & H3) Hr. split; [done|]. split; [done|]. unfold requested in *. cbn. destruct (sy_phase s); [..|done].
  - destruct H3 as (nr & G & H3). exists nr. split; [by apply Hr|done].
  - destruct H3 as (nr & G & H3). exists nr. split; [by apply Hr|done].
  - destruct H3 as (nr & G & H3). exists nr. split; [by apply Hr|done].
Qed.

Lemma well_more k k' s : k <= k' -> well k s -> well k' s.
Proof using Type. clear. intros Hk (H1 & H2). split; [lia|done]. Qed.

Lemma start_well source batchBytes memory : new_kernel_source bb batchBytes R N = Some source -> len memory = N -> N < 2 ^ 63 ->
  Forall (fun data => len data = sb) memory -> well 0 (start_system source sb memory).
Proof using HR HN.
  intros Hs HL Hb Hm. split; [done|]. split; [done|]. exists 0. split; [apply ring_start_ok; [lia|done..]|by eapply new_source_ok].
Qed.

(** The awaited slot is in the window. *)
Lemma waiting_room nr c s : source_ok N R bb nr (len (sy_delivered s)) (sy_source s) -> ds_kernelCurrentValid (sy_source s) = false ->
  ds_kernelPendingValid (sy_source s) = c -> len (sy_delivered s) < nr + flag c + N.
Proof using HR HN. intros [] Hc Hp. rewrite Hc, Hp in so_total0. cbn in *. lia. Qed.

(** The wait ends with a batch or with the end of the run. *)
Lemma next_returns_well nr k s s' answer : claimed N sb (nr + flag (ds_kernelPendingValid (sy_source s))) (sy_delivered s) (sy_ring s) answer ->
  source_ok N R bb nr (len (sy_delivered s)) (sy_source s) -> ds_kernelCurrentValid (sy_source s) = false -> 0 <= nr ->
  len (sy_delivered s) <= k -> Forall (fun data => len data = sb) (sy_delivered s) ->
  next_returns answer s = Some s' -> well (k + 1) s'.
Proof using HR HN.
  intros Ha Hs Hc Hr Hk HF E. unfold next_returns, next_complete in E. destruct answer as [code|c].
  { injection E as <-. split; [cbn; lia|]. split; [done|]. cbn. split; [|done]. intros [= ->]. by apply Ha. }
  destruct Ha as (E1 & E2 & E3 & Ha). cbn in E.
  destruct (negb (cp_Reserved c =? 0) || (ds_kernelMappings (sy_source s) <=? cp_Slot c) || (cp_Length c =? 0) ||
    negb (Z.rem (cp_Length c) (ds_blockBytes (sy_source s)) =? 0)) eqn:Eg.
  { injection E as <-. split; [cbn; lia|]. done. }
  destruct (Z.ltb_spec (cp_Status c) 0) as [Est|Est].
  { injection E as <-. split; [cbn; lia|]. done. }
  destruct Ha as [?|[El|(El & slot & Hi & Hd & Hring)]]; [lia|by rewrite El, orb_true_r in Eg|].
  rewrite Hi in E. cbn in E. rewrite El, <- Hd, slice_prefix in E by (pose proof (len_nonneg (us_data slot)); lia).
  cbn in E. injection E as <-. replace (take _ (us_data slot)) with (us_data slot) by (symmetry; apply take_ge; unfold len; lia).
  assert (len (sy_delivered s ++ [us_data slot]) = len (sy_delivered s) + 1) as EL by (rewrite len_app; done).
  split; [cbn; lia|]. split; [cbn; apply Forall_app; split; [done|by apply Forall_singleton]|]. cbn. rewrite EL.
  exists (nr + flag (ds_kernelPendingValid (sy_source s))). split; [done|]. by apply next_complete_ok.
Qed.

Lemma ring_position : 0 < N. Proof using HR HN. lia. Qed.
#[local] Hint Resolve ring_position : core.

Lemma device_step k s s' e : well k s -> safe_event e ->
  match e with DeviceWrites _ _ | DeviceCompletes _ _ _ | Disconnect | StopRing => True | _ => False end ->
  system_step s e = Some s' -> well k s'.
Proof using HR HN.
  intros Hw He Hd E. destruct e; try done; cbn [system_step] in E.
  - apply bind_Some in E as (sl & Hi & E). destruct (bool_decide_reflect (us_state sl = SLOT_INFLIGHT)) as [Es|]; [|done].
    destruct (Z.eqb_spec (len bytes) (len (us_data sl))) as [Eb|]; [|done]. cbn in E.
    rewrite store_insert in E by (by eapply index_range). cbn in E. injection E as <-. apply (well_ring _ _ (_ <| ur_slots := _ |>)); [done|].
    intros nr D Hr. by apply device_write_ok.
  - apply bind_Some in E as (sl & Hi & E). destruct (bool_decide_reflect (us_state sl = SLOT_INFLIGHT)) as [Es|]; [|done].
    apply bind_Some in E as (r & Er & E). injection E as <-. apply well_ring; [done|]. intros nr D Hr. by eapply complete_ok.
  - injection E as <-. apply (well_ring _ _ (rtlamr_disconnect _)); [done|]. intros nr D Hr. eapply ring_ok_same; try done. intros _. by left.
  - injection E as <-. apply (well_ring _ _ (rtlamr_ring_stop _)); [done|]. intros nr D Hr. eapply ring_ok_same; try done. intros _. by left.
Qed.

Lemma enter_step k s s' x submitted : well k s -> sy_phase s = Calling x -> submitted <> EINVAL -> k + N + 2 < 2 ^ 64 ->
  system_step s (Enter submitted) = Some s' -> well (k + 1) s'.
Proof using HR HN.
  intros (Hk & HF & Hw) Ep Hsub Hb E. cbn in E. rewrite Ep in *. destruct Hw as (nr & Hr & Hs & Hc & ->).
  unfold requested in E. pose proof (ro_range _ _ _ _ _ Hr) as Hrg. destruct (ds_kernelPendingValid (sy_source s)) eqn:Epv.
  - pose proof (so_total _ _ _ _ _ _ Hs) as Et. rewrite Epv, Hc in Et. cbn in Et. pose proof (so_count _ _ _ _ _ _ Hs).
    destruct (exchange_release _ _ _) as [r answer] eqn:Ex.
    destruct (exchange_release_ok N sb ring_position nr _ _ _ _ _ Hr ltac:(lia) ltac:(lia) Hsub Ex) as [(code & -> & Hcode)|[-> Hr']].
    + injection E as <-. split; [cbn; lia|]. split; [done|]. cbn. split; [|done]. intros [= ->]. by apply Hcode.
    + injection E as <-. split; [cbn; lia|]. split; [done|]. exists nr. unfold requested. cbn. rewrite Epv. split; [by apply ring_ok_wait|]. split; [done|]. split; [done|]. split; [done|]. split; [done|apply Hrg].
  - rewrite exchange_no_release in E. injection E as <-. split; [cbn; lia|]. split; [done|]. exists nr. unfold requested. cbn. rewrite Epv, Z.add_0_r.
    split; [by apply ring_ok_wait|]. split; [done|]. split; [done|]. split; [done|]. split; [done|apply Hrg].
Qed.

Lemma receiver_step k s s' e : well k s -> k + N + 2 < 2 ^ 64 ->
  match e with CallNext | Interrupt | Wake | CallRelease => True | _ => False end ->
  system_step s e = Some s' -> well (k + 1) s'.
Proof using HR HN.
  intros (Hk & HF & Hw) Hb He E. destruct e; try done; cbn in E; destruct (sy_phase s) as [|x|c x|err] eqn:Ep; try done.
  - destruct Hw as (nr & Hr & Hs). rewrite (so_active _ _ _ _ _ _ Hs) in E. destruct (ds_kernelCurrentValid (sy_source s)) eqn:Ec.
    { injection E as <-. split; [cbn; lia|]. done. }
    rewrite (next_request_ok _ _ _ _ _ _ Hs Ec) in E. injection E as <-. split; [cbn; lia|]. split; [done|]. exists nr. done.
  - injection E as <-. split; [lia|]. split; [done|]. by rewrite Ep.
  - destruct c; [done|]. destruct Hw as (nr & Hr & Hs & Hc & Hx & Hp & H0). apply bind_Some in E as ([] & _ & E); [done|]. injection E as <-.
    split; [cbn; lia|]. split; [done|]. exists nr.
    cbn in Hr. rewrite Z.add_0_r in Hr. done.
  - destruct (ur_wait (sy_ring s)); cbn in E; [|done]. apply bind_Some in E as ([] & _ & E).
    2: { injection E as <-. apply (well_ring _ _ (_ <| ur_wait := false |>)); [|intros; by apply ring_ok_wait].
      apply (well_more k); [lia|]. split; [done|]. split; [done|]. by rewrite Ep. }
    destruct (exchange_claim (sy_ring s)) as [[r answer]|] eqn:Ex.
    2: { injection E as <-. apply (well_more k); [lia|]. split; [done|]. split; [done|]. by rewrite Ep. }
    destruct Hw as (nr & Hr & Hs & Hc & _ & Hp & H0).
    pose proof (waiting_room nr c s Hs Hc Hp) as Hroom.
    pose proof (exchange_claim_ok N sb ring_position _ _ _ _ _ Hr Hroom ltac:(lia) Ex) as Ha. rewrite <- Hp in Ha.
    eapply (next_returns_well nr k (s <| sy_ring := r |>)); try done.
  - destruct Hw as (nr & Hr & Hs). apply bind_Some in E as (answer & Ex & E). destruct (ds_kernelCurrentValid (sy_source s)) eqn:Ec.
    + destruct (release_ok N R bb HR HN nr _ _ Hs ltac:(apply Hr) Ec) as (src & Erel & Hs' & Ec'). rewrite Erel in Ex. injection Ex as <-. injection E as <-.
      split; [cbn; lia|]. split; [done|]. cbn. rewrite Ep. exists nr. done.
    + unfold source_Release in Ex. rewrite (so_active _ _ _ _ _ _ Hs), Ec in Ex. injection Ex as <-. injection E as <-. split; [cbn; lia|]. done.
Qed.

Lemma step_well k s s' e : well k s -> safe_event e -> k + N + 2 < 2 ^ 64 -> system_step s e = Some s' -> well (k + 1) s'.
Proof using HR HN.
  intros Hw He Hb E. destruct e as [i bytes|i status length| | | |submitted| | |]; try (eapply (well_more k); [lia|]; by eapply device_step); 
    try match type of E with system_step _ ?e = _ => exact (receiver_step k s s' e Hw Hb I E) end.
  destruct (sy_phase s) as [|x| |] eqn:Ep; try (cbn in E; by rewrite Ep in E). exact (enter_step k s s' x submitted Hw Ep He Hb E).
Qed.

Lemma run_well events : forall k s s', well k s -> Forall safe_event events -> k + len events + N + 2 < 2 ^ 64 ->
  foldM system_step s events = Some s' -> exists k', well k' s' /\ k' <= k + len events.
Proof using HR HN.
  induction events as [|e events IH]; intros k s s' Hw He Hb E; cbn in E.
  { injection E as <-. exists k. split; [done|]. unfold len. cbn. lia. }
  destruct (system_step s e) as [s1|] eqn:E1; [|done]. apply Forall_cons in He as [He1 He2]. rewrite len_cons in *. pose proof (len_nonneg events).
  destruct (IH (k + 1) s1 s') as (k' & ? & ?); [eapply step_well; [exact Hw|exact He1|lia|exact E1]|done|lia|done|]. exists k'. split; [done|lia].
Qed.
End System.

(** ** Blocks *)

Lemma slice_app_front {A} (l k : list A) lo hi : 0 <= lo <= hi -> slice (len l + lo) (len l + hi) (l ++ k) = slice lo hi k.
Proof.
  intros H. unfold slice. rewrite len_app. replace (len l + lo <=? len l + hi) with (lo <=? hi) by (apply eq_true_iff_eq; rewrite !Z.leb_le; lia).
  replace (len l + hi <=? len l + len k) with (hi <=? len k) by (apply eq_true_iff_eq; rewrite !Z.leb_le; lia).
  pose proof (len_nonneg l). rewrite (proj2 (Z.leb_le 0 (len l + lo))), (proj2 (Z.leb_le 0 lo)) by lia.
  replace (Z.to_nat (len l + lo)) with (length l + Z.to_nat lo)%nat by (unfold len; lia).
  replace (len l + hi - (len l + lo)) with (hi - lo) by lia. by rewrite drop_app_add.
Qed.

Lemma slice_app_back {A} (l k : list A) lo hi : 0 <= lo <= hi -> hi <= len l -> slice lo hi (l ++ k) = slice lo hi l.
Proof.
  intros H1 H2. pose proof (len_nonneg k). rewrite !slice_ok by (rewrite ?len_app; lia). f_equal.
  rewrite drop_app_le by (unfold len in *; lia). rewrite take_app_le; [done|]. rewrite length_drop. unfold len in *. lia.
Qed.

Lemma concat_batch size (D : list (list Z)) : Forall (fun d => len d = size) D -> len (concat D) = len D * size.
Proof. induction 1 as [|d D Hd _ IH]; [done|]. cbn [concat]. rewrite len_app, len_cons, Hd, IH. lia. Qed.

Lemma slice_batch size (D : list (list Z)) i d lo hi : Forall (fun d => len d = size) D -> 0 <= i -> D !! Z.to_nat i = Some d ->
  0 <= lo <= hi -> hi <= size -> slice (i * size + lo) (i * size + hi) (concat D) = slice lo hi d.
Proof.
  intros HF Hi Hd Hlo Hhi. rewrite <- (take_drop_middle D (Z.to_nat i) d Hd), concat_app. cbn [concat].
  assert (len (concat (take (Z.to_nat i) D)) = i * size) as El.
  { rewrite (concat_batch size) by (by apply Forall_take). unfold len. rewrite length_take. apply lookup_lt_Some in Hd. rewrite Nat.min_l by lia. by rewrite Z2Nat.id. }
  rewrite <- El, slice_app_front by done. apply slice_app_back; [done|]. assert (len d = size) as -> by exact (proj1 (Forall_lookup _ _) HF _ _ Hd). done.
Qed.

(** Block number [b] of the stream, as it was delivered and as its slot holds it now. *)
Definition delivered_block (blockBytes b : Z) (s : system) : option (list Z) :=
  slice (b * blockBytes) (b * blockBytes + blockBytes) (concat (sy_delivered s)).

Definition mapped_block (blockBytes batchBlocks b : Z) (s : system) : option (list Z) :=
  slot ← index (ur_slots (sy_ring s)) ((b / batchBlocks) mod len (ur_slots (sy_ring s)));
  slice (b mod batchBlocks * blockBytes) (b mod batchBlocks * blockBytes + blockBytes) (us_data slot).

(** A block of a batch that the ring has not got back. *)
Lemma claimed_block N bb q nr s b : 0 < N -> 0 < bb -> 0 < q -> ring_ok N (bb * q) nr (sy_delivered s) (sy_ring s) ->
  Forall (fun d => len d = bb * q) (sy_delivered s) -> nr <= b / q -> 0 <= b < len (sy_delivered s) * q ->
  exists block, mapped_block bb q b s = Some block /\ delivered_block bb b s = Some block.
Proof.
  intros HN Hbb Hq Hr HF Hnr Hb. pose proof (Z.mod_pos_bound b q Hq) as Hm. pose proof (Z.div_mod b q ltac:(lia)) as Ed.
  assert (0 <= b / q < len (sy_delivered s)) as Hd by (split; [apply Z.div_pos; lia|apply Z.div_lt_upper_bound; lia]).
  pose proof (ro_range _ _ _ _ _ Hr) as Hrg. destruct (ro_slots _ _ _ _ _ Hr (b / q) ltac:(lia)) as (slot & Hi & _ & Hlen & Hs).
  rewrite (proj2 (Z.ltb_lt (b / q) _)) in Hs by lia. destruct Hs as [_ Hs].
  assert (0 <= b mod q * bb /\ b mod q * bb + bb <= bb * q) as [Ha Hz] by nia.
  unfold mapped_block, delivered_block. rewrite (ro_len _ _ _ _ _ Hr), Hi. cbn [mbind option_bind].
  replace (b * bb) with (b / q * (bb * q) + b mod q * bb) by (rewrite Ed at 3; ring).
  replace (b / q * (bb * q) + b mod q * bb + bb) with (b / q * (bb * q) + (b mod q * bb + bb)) by lia.
  rewrite (slice_batch (bb * q) _ (b / q) (us_data slot)) by (done || lia).
  rewrite slice_ok by lia. by eexists.
Qed.

(** The batches held back cover the collar. *)
Lemma retained_covers now cfg ids schedulerConfig duty batchBlocks retain N source : geometry_fits cfg ->
  newDutyRuntimeWithConfig now cfg ids schedulerConfig = Some (inr duty) -> retain_batches true cfg batchBlocks = Some retain ->
  new_kernel_source (BlockSize2 cfg) (BlockSize2 cfg * batchBlocks) retain N = Some source ->
  0 < batchBlocks <= 256 -> len (rt_collar duty) < 2 ^ 62 ->
  0 <= retain /\ 0 < BlockSize2 cfg /\ retain + 2 <= N /\ ds_retainedBlocks source = retain * batchBlocks /\ len (rt_collar duty) <= retain * batchBlocks.
Proof.
  intros [Hf _] (sch & L & w & -> & EL & Ew & G1 & G2 & G3)%newDutyRuntimeWithConfig_fresh Hret Hsrc Hb HL. cbn [fresh_runtime rt_collar] in *.
  destruct (warmup_blocks_spec cfg w G1 G3 Hf Ew) as (W1 & W2 & _). pose proof (collar_exceeds_warmup cfg L w EL Ew W2 ltac:(lia)) as HwL.
  rewrite len_make in * by lia. unfold retain_batches in Hret. rewrite EL in Hret. cbn [mbind option_bind] in Hret. unfold go_quot in Hret.
  destruct (Z.eqb_spec batchBlocks 0); [lia|]. injection Hret as Hret. rewrite (i64_id (L + batchBlocks)), (i64_id (L + batchBlocks - 1)) in Hret by lia.
  rewrite Z.quot_div_nonneg in Hret by lia. pose proof (Z.div_mod (L + batchBlocks - 1) batchBlocks ltac:(lia)) as Ed.
  pose proof (Z.mod_pos_bound (L + batchBlocks - 1) batchBlocks ltac:(lia)) as Hm. rewrite i64_id in Hret by nia. rewrite Hret in Ed.
  unfold new_kernel_source in Hsrc. destruct (_ || _); [done|]. destruct (Z.ltb_spec N (retain + 2)); [done|]. injection Hsrc as <-. cbn [ds_retainedBlocks].
  replace (Z.quot (BlockSize2 cfg * batchBlocks) (BlockSize2 cfg)) with batchBlocks by (rewrite Z.mul_comm, Z.quot_mul; lia).
  assert (0 <= retain) by nia. rewrite i64_id by nia. repeat split; try done; nia.
Qed.

(** ** The wait *)

Definition healthy (r : rtlamr_usb_ring) : Prop := ur_stopping r = false /\ ur_disconnected r = false /\ ur_fatal_error r = 0.

Lemma healthy_sound r : healthy r -> ~ faulty r.
Proof. intros (H1 & H2 & H3) [?|[?|?]]; congruence. Qed.

(** *** Nobody sleeps over a wake-up *)

(** A task that sleeps has nothing to see. *)
Definition attentive (s : system) : Prop :=
  match sy_phase s with Waiting _ _ => ur_wait (sy_ring s) = false -> wait_condition (sy_ring s) = Some false | _ => True end.

Lemma wait_condition_put r i old new : index (ur_slots r) i = Some old -> us_state new = us_state old ->
  wait_condition (r <| ur_slots := <[Z.to_nat i := new]> (ur_slots r) |>) = wait_condition r.
Proof.
  intros Hi Es. pose proof (index_range _ _ _ Hi) as Hr. unfold wait_condition, awaited_index. cbn.
  replace (len (<[Z.to_nat i := new]> (ur_slots r))) with (len (ur_slots r)) by (unfold len; by rewrite length_insert).
  rewrite index_insert by done. destruct (Z.eqb_spec (Z.rem (ur_next_claim r) (len (ur_slots r))) i) as [->|]; [|done].
  rewrite Hi. cbn. by rewrite Es.
Qed.

Lemma complete_wakes i status length r r' : rtlamr_complete i status length r = Some r' -> ur_wait r' = true.
Proof.
  unfold rtlamr_complete. intros (slot & _ & E)%bind_Some.
  repeat match type of E with context [if ?b then _ else _] => destruct b end; by apply bind_Some in E as (slots & _ & [= <-]).
Qed.

Lemma next_returns_phase answer s s' : next_returns answer s = Some s' -> sy_phase s' = Working \/ exists e, sy_phase s' = Finished e.
Proof.
  unfold next_returns. destruct (next_complete _ _) as [source [e|[i length]]]; [intros [= <-]; right; by exists e|].
  intros (slot & _ & (batch & _ & [= <-])%bind_Some)%bind_Some. by left.
Qed.

Lemma attentive_returned answer s s' : next_returns answer s = Some s' -> attentive s'.
Proof. intros [E|[e E]]%next_returns_phase; unfold attentive; by rewrite E. Qed.

Lemma attentive_step s s' e : attentive s -> system_step s e = Some s' -> attentive s'.
Proof.
  unfold attentive at 1. intros Ha E. destruct e as [i bytes|i status length| | | |submitted| | |]; cbn [system_step] in E.
  - apply bind_Some in E as (sl & Hi & E). destruct (_ && _); [|done]. rewrite store_insert in E by (by eapply index_range). injection E as <-.
    match goal with |- context [<[_ := ?new]> _] => rewrite <- (wait_condition_put (sy_ring s) i sl new Hi eq_refl) in Ha end. unfold attentive.
    destruct (sy_phase s) eqn:Ep; cbn; by rewrite ?Ep.
  - apply bind_Some in E as (sl & Hi & E). destruct (bool_decide _); [|done]. apply bind_Some in E as (r & Er & [= <-]). unfold attentive. cbn.
    rewrite (complete_wakes _ _ _ _ _ Er). by destruct (sy_phase s).
  - injection E as <-. unfold attentive. cbn. by destruct (sy_phase s).
  - injection E as <-. unfold attentive. cbn. by destruct (sy_phase s).
  - destruct (sy_phase s) eqn:Ep; try done. destruct (ds_batchActive _); [by injection E as <-|]. by destruct (next_request _); injection E as <-.
  - destruct (sy_phase s); try done. destruct (exchange_release _ _ _) as [r [code|committed]]; [by eapply attentive_returned|by injection E as <-].
  - destruct (sy_phase s) as [| |[]|] eqn:Ep; try done; [injection E as <-; unfold attentive; by rewrite Ep|].
    apply bind_Some in E as ([] & _ & E); [done|]. by injection E as <-.
  - destruct (sy_phase s) eqn:Ep; try done. destruct (ur_wait (sy_ring s)) eqn:Ew; [|done]. apply bind_Some in E as ([] & Ec & E).
    + destruct (exchange_claim _) as [[r answer]|]; [by eapply attentive_returned|]. injection E as <-. unfold attentive. by rewrite Ep, Ew.
    + injection E as <-. unfold attentive. cbn. by rewrite Ep.
  - destruct (sy_phase s) eqn:Ep; try done. apply bind_Some in E as ([] & _ & E); injection E as <-; unfold attentive; cbn; by rewrite ?Ep.
Qed.

Lemma attentive_run events : forall s s', attentive s -> foldM system_step s events = Some s' -> attentive s'.
Proof.
  induction events as [|e events IH]; intros s s' Ha E; cbn in E; [by injection E as <-|].
  destruct (system_step s e) as [s1|] eqn:E1; [|done]. eapply IH; [|done]. by eapply attentive_step.
Qed.

(** *** What a turn of the task gives *)

Definition leaves_wait (s s' : system) : Prop :=
  (exists batch, sy_phase s' = Working /\ sy_delivered s' = sy_delivered s ++ [batch]) \/
  (exists e, sy_phase s' = Finished e /\ sy_delivered s' = sy_delivered s).

Lemma next_returns_leaves N sb nr s answer : claimed N sb nr (sy_delivered s) (sy_ring s) answer -> exists s', next_returns answer s = Some s' /\ leaves_wait s s'.
Proof.
  unfold next_returns, next_complete. destruct answer as [code|c]; [eexists; split; [done|right; by eexists]|]. intros (_ & _ & _ & Ha). cbn zeta.
  destruct (negb (cp_Reserved c =? 0) || _ || (cp_Length c =? 0) || _) eqn:Eg; [eexists; split; [done|right; by eexists]|].
  destruct (Z.ltb_spec (cp_Status c) 0); [eexists; split; [done|right; by eexists]|]. apply orb_false_elim in Eg as [[_ Eg]%orb_false_elim _]. apply Z.eqb_neq in Eg.
  destruct Ha as [?|[?|(El & slot & Hi & Hd & _)]]; [lia|done|]. rewrite Hi. cbn [mbind option_bind]. rewrite El, <- Hd, slice_prefix by (pose proof (len_nonneg (us_data slot)); lia).
  eexists. split; [reflexivity|]. left. by eexists.
Qed.

(** A transfer that failed ends the run. *)
Lemma next_returns_failed s c : cp_Status c < 0 \/ cp_Length c = 0 -> exists s' e, next_returns (inr c) s = Some s' /\ sy_phase s' = Finished e.
Proof.
  intros H. unfold next_returns, next_complete. cbn zeta.
  destruct (negb (cp_Reserved c =? 0) || _ || (cp_Length c =? 0) || _) eqn:Eg; [do 2 eexists; done|].
  destruct (Z.ltb_spec (cp_Status c) 0); [do 2 eexists; done|]. apply orb_false_elim in Eg as [[_ Eg]%orb_false_elim _]. apply Z.eqb_neq in Eg. lia.
Qed.

Lemma awaited_index_ok N sb nr D r : 0 < N -> ring_ok N sb nr D r -> awaited_index r = len D mod N.
Proof. intros HN Hr. unfold awaited_index. rewrite (ro_len _ _ _ _ _ Hr), (ro_claim _ _ _ _ _ Hr). apply rem_mod; [apply len_nonneg|done]. Qed.

Lemma claim_slot r slot : index (ur_slots r) (awaited_index r) = Some slot -> ur_disconnected r = false -> ur_stopping r = false -> us_state slot = SLOT_READY ->
  us_sequence slot = ur_next_claim r -> exists r', exchange_claim r = Some (r', inr {| cp_Sequence := us_sequence slot; cp_Slot := awaited_index r;
    cp_Length := us_length slot; cp_Status := us_status slot; cp_Reserved := 0 |}).
Proof.
  intros Hi Hd Hs Hst Hq. unfold exchange_claim. rewrite Hi. cbn [mbind option_bind]. rewrite Hd, Hs, Hq, bool_decide_true, Z.eqb_refl, andb_false_r by done. cbn [negb orb]. by eexists.
Qed.

(** A turn of a task whose condition holds leaves the wait. *)
Lemma wake_leaves N sb nr s c x : 0 < N -> len (sy_delivered s) + 1 < 2 ^ 64 -> sy_phase s = Waiting c x -> ring_ok N sb nr (sy_delivered s) (sy_ring s) ->
  len (sy_delivered s) < nr + N -> ur_wait (sy_ring s) = true -> wait_condition (sy_ring s) = Some true ->
  exists s', system_step s Wake = Some s' /\ leaves_wait s s'.
Proof.
  intros HN Hb Ep Hr Hroom Hw Hc. cbn [system_step]. rewrite Ep, Hw, Hc. cbn [negb mbind option_bind].
  destruct (exchange_claim (sy_ring s)) as [[r answer]|] eqn:Ex.
  - exact (next_returns_leaves N sb nr (s <| sy_ring := r |>) answer (exchange_claim_ok N sb HN _ _ _ _ _ Hr Hroom Hb Ex)).
  - exfalso. destruct (awaited_slot N sb HN _ _ _ Hr Hroom) as (slot & Hi & H1 & _). pose proof (awaited_index_ok _ _ _ _ _ HN Hr) as Ei.
    unfold wait_condition in Hc. rewrite Ei, Hi in Hc. cbn in Hc. unfold exchange_claim in Ex. rewrite Ei, Hi in Ex. cbn [mbind option_bind] in Ex.
    destruct (ur_disconnected (sy_ring s)), (ur_stopping (sy_ring s)); cbn [orb] in *; try done.
    rewrite H1, (ro_claim _ _ _ _ _ Hr), Z.eqb_refl in Ex. destruct (ur_fatal_error (sy_ring s) =? 0), (bool_decide (us_state slot = SLOT_READY)); done.
Qed.

(** Stopping and disconnecting end the wait. *)
Lemma wake_stopped s c x code : sy_phase s = Waiting c x -> ur_wait (sy_ring s) = true ->
  (ur_disconnected (sy_ring s) = true /\ code = ENODEV) \/
  (ur_disconnected (sy_ring s) = false /\ ur_stopping (sy_ring s) = true /\ code = ECANCELED) ->
  (exists slot, index (ur_slots (sy_ring s)) (awaited_index (sy_ring s)) = Some slot) ->
  exists s', foldM system_step s [Wake] = Some s' /\ sy_phase s' = Finished (ErrExchange code).
Proof.
  intros Ep Hw Hc (slot & Hi). cbn. rewrite Ep, Hw. cbn [negb]. unfold wait_condition, exchange_claim. rewrite Hi. cbn [mbind option_bind].
  destruct Hc as [[-> ->]|(-> & -> & ->)]; cbn; by eexists.
Qed.

(** The awaited transfer completes, in one way or the other. *)
Lemma wake_completed N bb q nr s c x i slot status length : 0 < N -> 0 < bb -> 0 < q -> len (sy_delivered s) + 1 < 2 ^ 64 -> sy_phase s = Waiting c x ->
  ring_ok N (bb * q) nr (sy_delivered s) (sy_ring s) -> ds_kernelMappings (sy_source s) = N -> ds_blockBytes (sy_source s) = bb ->
  healthy (sy_ring s) -> i = len (sy_delivered s) mod N -> index (ur_slots (sy_ring s)) i = Some slot -> us_state slot = SLOT_INFLIGHT ->
  us_sequence slot = len (sy_delivered s) -> us_length slot = 0 -> len (us_data slot) = bb * q ->
  exists s', foldM system_step s [DeviceCompletes i status length; Wake] = Some s' /\
    if (status =? 0) && (length =? bb * q) then sy_phase s' = Working /\ sy_delivered s' = sy_delivered s ++ [us_data slot]
    else exists e, sy_phase s' = Finished e.
Proof.
  intros HN Hbb Hq Hb Ep Hr Em Ebb (F1 & F2 & F3) Ei Hi Hs Hseq H0 Hlen. pose proof (ro_claim _ _ _ _ _ Hr) as Hcl. pose proof (ro_bytes _ _ _ _ _ Hr) as Hby.
  pose proof (index_range _ _ _ Hi) as Hir. pose proof (awaited_index_ok _ _ _ _ _ HN Hr) as Ea. pose proof (Z.mod_pos_bound (len (sy_delivered s)) N HN) as Hm.
  cbn [foldM]. unfold system_step at 1. rewrite Hi. cbn [mbind option_bind]. rewrite bool_decide_true by done.
  assert (exists r slot', rtlamr_complete i status length (sy_ring s) = Some r /\ ur_slots r = <[Z.to_nat i := slot']> (ur_slots (sy_ring s)) /\ us_state slot' = SLOT_READY /\
    us_sequence slot' = us_sequence slot /\ us_data slot' = us_data slot /\ ur_disconnected r = false /\ ur_stopping r = false /\ ur_wait r = true /\ ur_next_claim r = len (sy_delivered s) /\
    if (status =? 0) && (length =? bb * q) then us_status slot' = 0 /\ us_length slot' = bb * q else us_status slot' < 0 \/ us_length slot' = 0)
    as (r & slot' & -> & G1 & G2 & G3 & G4 & G5 & G6 & G7 & G8 & G9).
  { unfold rtlamr_complete. rewrite Hi. cbn [mbind option_bind]. rewrite F1, F2, Hby. cbn [orb]. rewrite !store_insert by done. cbn [mbind option_bind].
    destruct (Z.eqb_spec status 0) as [->|]; cbn [negb andb]; [destruct (Z.eqb_spec length (bb * q)) as [->|]; cbn [negb andb]|];
      (do 2 eexists; split; [reflexivity|]; split; [reflexivity|]; cbn; repeat (split; [done|])); [done|by left|by right]. }
  cbn [mbind option_bind foldM]. assert (awaited_index r = i) as Eri by (unfold awaited_index in *; rewrite G1, G8; unfold len in *; rewrite length_insert, <- Hcl; congruence).
  assert (index (ur_slots r) i = Some slot') as Hi' by (rewrite G1, index_insert, Z.eqb_refl by done; done).
  destruct (claim_slot r slot') as (r' & Ex); try done; [by rewrite Eri|congruence|].
  unfold system_step. cbn [sy_phase sy_ring]. cbn. rewrite Ep, G7. cbn [negb]. unfold wait_condition. rewrite Eri, Hi'. cbn [mbind option_bind].
  rewrite G5, G6, bool_decide_true, orb_true_r, Ex by done.
  assert (index (ur_slots r') i = Some (slot' <| us_state := SLOT_CLAIMED |>)) as Hc.
  { unfold exchange_claim in Ex. rewrite Eri, Hi' in Ex. cbn [mbind option_bind] in Ex. rewrite G5, G6, G2, bool_decide_true, andb_false_r in Ex by done. cbn [negb orb] in Ex.
    destruct (negb _); [done|]. injection Ex as <-. cbn. rewrite index_insert, Z.eqb_refl; [done|]. by eapply index_range. }
  destruct ((status =? 0) && (length =? bb * q)).
  - destruct G9 as [K1 K2]. unfold next_returns, next_complete. cbn. rewrite K1, K2, Eri, Em, Ebb. cbn.
    rewrite (proj2 (Z.leb_gt N _)), (proj2 (Z.eqb_neq (bb * q) 0)), (Z.mul_comm bb), Z.rem_mul by nia. cbn. rewrite Hc. cbn. rewrite G4.
    rewrite slice_prefix by nia. rewrite take_ge by (unfold len in *; nia). cbn. by eexists.
  - destruct (next_returns_failed ((s <| sy_ring := r |>) <| sy_ring := r' |>) {| cp_Sequence := us_sequence slot'; cp_Slot := awaited_index r; cp_Length := us_length slot'; cp_Status := us_status slot'; cp_Reserved := 0 |} G9) as (s' & e & E1 & E2).
    exists s'. split; [|by exists e]. match goal with |- context [next_returns ?a ?t] => change (next_returns a t) with (next_returns a ((s <| sy_ring := r |>) <| sy_ring := r' |>)) end. by rewrite E1.
Qed.

(** ** What the device completed

    The transfers that filled their slots, in the order of their completion: the number
    of each in the order of submission, and the bytes. *)

Definition completion_of (s : system) (e : ring_event) : list (Z * list Z) :=
  match e with
  | DeviceCompletes i status length =>
      match index (ur_slots (sy_ring s)) i with
      | Some slot =>
          if negb (ur_stopping (sy_ring s) || ur_disconnected (sy_ring s)) && (status =? 0) && (length =? ur_slot_bytes (sy_ring s))
          then [(us_sequence slot, us_data slot)] else []
      | None => []
      end
  | _ => []
  end.

Fixpoint completions (s : system) (events : list ring_event) : list (Z * list Z) :=
  match events with
  | [] => []
  | e :: events => completion_of s e ++ match system_step s e with Some s' => completions s' events | None => [] end
  end.

Section Log.
Context (sb : Z).

Definition slot_logged (C : list (Z * list Z)) (slot : rtlamr_usb_slot) : Prop :=
  match us_state slot with
  | SLOT_INFLIGHT => us_length slot = 0 /\ us_sequence slot ∉ C.*1
  | SLOT_READY => us_length slot = sb -> us_status slot = 0 -> (us_sequence slot, us_data slot) ∈ C
  | _ => True
  end.

Record log_ok (m : Z) (C : list (Z * list Z)) (r : rtlamr_usb_ring) : Prop := {
  lo_once : NoDup C.*1;
  lo_below : forall q, q ∈ C.*1 -> q < ur_next_submit r;
  lo_bound : 0 <= ur_next_submit r <= m;
  lo_bytes : ur_slot_bytes r = sb;
  lo_slots : forall i slot, index (ur_slots r) i = Some slot -> us_sequence slot < ur_next_submit r /\ slot_logged C slot;
  lo_distinct : forall i j si sj, index (ur_slots r) i = Some si -> index (ur_slots r) j = Some sj -> us_sequence si = us_sequence sj -> i = j }.

(** One slot changes: it keeps its number or gets the next one. *)
Lemma log_put m m' C r r' i old new : log_ok m C r -> index (ur_slots r) i = Some old -> ur_slots r' = <[Z.to_nat i := new]> (ur_slots r) ->
  ur_slot_bytes r' = ur_slot_bytes r -> ur_next_submit r <= ur_next_submit r' <= m' ->
  us_sequence new = us_sequence old \/ us_sequence new = ur_next_submit r /\ ur_next_submit r < ur_next_submit r' ->
  slot_logged C new -> log_ok m' C r'.
Proof using Type.
  intros [H1 H2 H3 Hb H4 H5] Hi Es Eb Hm Hnew Hlog. pose proof (index_range _ _ _ Hi) as Hr. destruct (H4 _ _ Hi) as [Hold _].
  constructor; [done|intros q Hq; specialize (H2 q Hq); lia|lia|congruence| |].
  - intros j slot. rewrite Es, index_insert by done. destruct (Z.eqb_spec j i) as [->|Hne].
    + intros [= <-]. split; [lia|done].
    + intros Hj. destruct (H4 _ _ Hj). split; [lia|done].
  - intros j j' sj sj'. rewrite Es, !index_insert by done.
    destruct (Z.eqb_spec j i) as [->|Hne], (Z.eqb_spec j' i) as [->|Hne']; [done|..].
    + intros [= <-] Hj' E. destruct Hnew as [En|[En _]]; [apply (H5 i j' old sj'); congruence|destruct (H4 _ _ Hj'); lia].
    + intros Hj [= <-] E. destruct Hnew as [En|[En _]]; [apply (H5 j i sj old); congruence|destruct (H4 _ _ Hj); lia].
    + apply H5.
Qed.

Lemma log_same m m' C r r' : log_ok m C r -> ur_slots r' = ur_slots r -> ur_slot_bytes r' = ur_slot_bytes r ->
  ur_next_submit r <= ur_next_submit r' <= m' -> log_ok m' C r'.
Proof using Type.
  intros [H1 H2 H3 Hb H4 H5] Es Eb Hm. constructor; rewrite ?Es; try done; [intros q Hq; specialize (H2 q Hq); lia|lia|congruence|].
  intros i slot Hi. destruct (H4 _ _ Hi). split; [lia|done].
Qed.

(** A transfer completes. *)
Lemma log_complete m C s i status length slot r : 0 < sb -> log_ok m C (sy_ring s) -> index (ur_slots (sy_ring s)) i = Some slot -> us_state slot = SLOT_INFLIGHT ->
  rtlamr_complete i status length (sy_ring s) = Some r -> log_ok m (C ++ completion_of s (DeviceCompletes i status length)) r.
Proof using Type.
  intros Hsb Hl Hi Hs E. pose proof (index_range _ _ _ Hi) as Hr. destruct (lo_slots _ _ _ Hl _ _ Hi) as [Hq Hlog]. unfold slot_logged in Hlog. rewrite Hs in Hlog.
  destruct Hlog as [H0 Hfresh]. pose proof (lo_bytes _ _ _ Hl) as Hb. pose proof (lo_bound _ _ _ Hl). unfold rtlamr_complete in E. cbn [completion_of].
  rewrite Hi in *. cbn [mbind option_bind] in E. rewrite !store_insert in E by done. cbn [mbind option_bind] in E.
  destruct (ur_stopping (sy_ring s) || ur_disconnected (sy_ring s)); cbn [negb andb] in *.
  { injection E as <-. rewrite app_nil_r. eapply log_put; try done; [cbn; lia|by left]. }
  destruct (Z.eqb_spec status 0) as [->|Hst]; cbn [negb andb] in *.
  2: { injection E as <-. rewrite app_nil_r. eapply log_put; try done; [cbn; lia|by left|]. intros ? E0. cbn in *. lia. }
  destruct (Z.eqb_spec length (ur_slot_bytes (sy_ring s))) as [->|Hle]; cbn [negb andb] in *.
  2: { injection E as <-. rewrite app_nil_r. eapply log_put; try done; [cbn; lia|by left]. }
  injection E as <-. assert (forall j sj, index (ur_slots (sy_ring s)) j = Some sj -> j <> i -> us_sequence sj <> us_sequence slot) as Hother.
  { intros j sj Hj Hne E. apply Hne. by eapply (lo_distinct _ _ _ Hl). }
  destruct Hl as [H1 H2 H3 _ H4 H5]. constructor; cbn; rewrite ?fmap_app; cbn [fmap list_fmap fst]; try done.
  - apply NoDup_app. split; [done|]. split; [|apply NoDup_singleton]. intros q Hq1 Hq2. by apply list_elem_of_singleton in Hq2 as ->.
  - intros q [Hq1|Hq1]%elem_of_app; [by apply H2|]. apply list_elem_of_singleton in Hq1 as ->. done.
  - intros j sj. rewrite index_insert by done. destruct (Z.eqb_spec j i) as [->|Hne].
    + intros [= <-]. cbn. split; [done|]. intros _ _. cbn. apply elem_of_app. right. by apply list_elem_of_singleton.
    + intros Hj. destruct (H4 _ _ Hj) as [G1 G2]. split; [done|]. unfold slot_logged in *. rewrite fmap_app. cbn [fmap list_fmap fst]. destruct (us_state sj); try done.
      * destruct G2. split; [done|]. rewrite elem_of_app, list_elem_of_singleton. intros [?|?]; [done|by eapply Hother].
      * intros. apply elem_of_app. left. by apply G2.
  - intros j j' sj sj'. rewrite !index_insert by done. destruct (Z.eqb_spec j i) as [->|Hne], (Z.eqb_spec j' i) as [->|Hne']; [done|..].
    + intros [= <-] Hj' E. cbn in E. by destruct (Hother _ _ Hj' Hne').
    + intros Hj [= <-] E. cbn in E. by destruct (Hother _ _ Hj Hne).
    + apply H5.
Qed.

(** A slot goes back to the device. *)
Lemma log_release m C submitted x r r' answer : log_ok m C r -> m + 1 < 2 ^ 64 -> exchange_release submitted x r = (r', answer) -> log_ok (m + 1) C r'.
Proof using Type.
  intros Hl Hm E. pose proof (lo_bound _ _ _ Hl) as Hb. assert (log_ok (m + 1) C r) as Same by (eapply log_same; try done; lia).
  unfold exchange_release in E. destruct (_ || _ || _ || _); [by injection E as <- <-|]. destruct (negb (negb _)); [by injection E as <- <-|].
  destruct (index (ur_slots r) (rl_Slot (ex_Release x))) as [slot|] eqn:Hi; [|by injection E as <- <-]. pose proof (index_range _ _ _ Hi) as Hr.
  destruct (_ || _ || _); [by injection E as <- <-|]. cbn in E.
  destruct (_ || _ || _); [injection E as <- <-; eapply log_put; try done; [cbn; lia|by left]|].
  assert (u64 (ur_next_submit r + 1) = ur_next_submit r + 1) as Eu by (apply wrap_u_id; split; lia). rewrite Eu in E.
  destruct (negb _); injection E as <- <-; (eapply log_put; [done|done|reflexivity|reflexivity|cbn; lia|cbn; right; lia|]); [done|].
  split; [done|]. cbn. intros Hin. apply (lo_below _ _ _ Hl) in Hin. lia.
Qed.

(** What a claim gives, the device has completed. *)
Lemma log_claim N nr D m C r r' answer : 0 < N -> ring_ok N sb nr D r -> len D < nr + N -> log_ok m C r -> exchange_claim r = Some (r', answer) ->
  log_ok m C r' /\ forall c slot, answer = inr c -> 0 <= cp_Status c -> cp_Length c <> 0 -> index (ur_slots r') (cp_Slot c) = Some slot ->
    cp_Length c = sb /\ len (us_data slot) = sb /\ (len D, us_data slot) ∈ C.
Proof using Type.
  intros HN Hr Hlt Hl E. pose proof (ro_range _ _ _ _ _ Hr) as Hrg. pose proof (ro_len _ _ _ _ _ Hr) as HL. pose proof (lo_bound _ _ _ Hl) as Hb.
  destruct (ro_slots _ _ _ _ _ Hr (len D) ltac:(lia)) as (slot & Hi & H1 & H2 & H3). rewrite (proj2 (Z.ltb_ge (len D) (len D))) in H3 by lia.
  pose proof (index_range _ _ _ Hi) as Hir. destruct (lo_slots _ _ _ Hl _ _ Hi) as [_ Hlog]. unfold slot_logged in Hlog.
  unfold exchange_claim, awaited_index in E. rewrite HL, (ro_claim _ _ _ _ _ Hr), rem_mod, Hi in E by lia. cbn [mbind option_bind] in E.
  destruct (ur_disconnected r); [by injection E as <- <-|]. destruct (ur_stopping r); [by injection E as <- <-|].
  destruct (_ && _); [by injection E as <- <-|]. destruct (bool_decide_reflect (us_state slot = SLOT_READY)) as [Es|Es]; cbn [negb orb] in E; [|done].
  destruct (negb _); [done|]. injection E as <- <-. rewrite Es in *. split; [eapply log_put; try done; [cbn; lia|by left]|].
  intros c sl [= <-]. cbn. rewrite index_insert, Z.eqb_refl by done. intros Hst Hle [= <-]. cbn.
  destruct H3 as [[_ [H3|H3]]|[H3 H4]]; [lia|done|]. split; [done|]. split; [done|]. rewrite <- H1. by apply Hlog.
Qed.
End Log.

Lemma next_returns_ring answer s s' : next_returns answer s = Some s' ->
  sy_ring s' = sy_ring s /\ (sy_delivered s' = sy_delivered s \/
    exists c slot batch, answer = inr c /\ 0 <= cp_Status c /\ cp_Length c <> 0 /\ index (ur_slots (sy_ring s)) (cp_Slot c) = Some slot /\
      slice 0 (cp_Length c) (us_data slot) = Some batch /\ sy_delivered s' = sy_delivered s ++ [batch]).
Proof.
  unfold next_returns, next_complete. destruct answer as [code|c]; [intros [= <-]; cbn; auto|]. cbn zeta.
  destruct (negb (cp_Reserved c =? 0) || _ || (cp_Length c =? 0) || _) eqn:Eg; [intros [= <-]; cbn; auto|].
  destruct (Z.ltb_spec (cp_Status c) 0); [intros [= <-]; cbn; auto|]. intros (slot & Hi & (batch & Hb & [= <-])%bind_Some)%bind_Some. cbn. split; [done|]. right.
  apply orb_false_elim in Eg as [[_ Eg]%orb_false_elim _]. apply Z.eqb_neq in Eg. by exists c, slot, batch.
Qed.

Definition delivered_logged (C : list (Z * list Z)) (s : system) : Prop :=
  forall q batch, sy_delivered s !! q = Some batch -> (Z.of_nat q, batch) ∈ C.

Section LogRun.
Context (N R bb sb : Z).
Hypothesis (HR : 0 <= R) (HN : R + 2 <= N) (Hsb : 0 < sb).

Lemma log_wake m k C s s' : well N R bb sb k s -> log_ok sb m C (sy_ring s) -> delivered_logged C s -> system_step s Wake = Some s' ->
  log_ok sb m C (sy_ring s') /\ delivered_logged C s'.
Proof using HR HN Hsb.
  intros (_ & _ & Hw) Hl Hd E. cbn in E. destruct (sy_phase s) as [| |c x|] eqn:Ep; try done. pose proof (lo_bound _ _ _ _ Hl) as Hb.
  destruct (ur_wait (sy_ring s)); cbn [negb] in E; [|done]. apply bind_Some in E as ([] & _ & E).
  2: { injection E as <-. split; [|done]. eapply log_same; try done; cbn; lia. }
  destruct (exchange_claim (sy_ring s)) as [[r answer]|] eqn:Ex; [|by injection E as <-].
  destruct Hw as (nr & Hr & Hs & Hc & _ & Hp & _). pose proof (waiting_room N R bb HR HN nr c s Hs Hc Hp) as Hroom.
  destruct (log_claim sb N _ _ m C _ _ _ ltac:(lia) Hr Hroom Hl Ex) as [Hl' Hc'].
  destruct (next_returns_ring _ _ _ E) as (-> & [Ed|(cp & slot & batch & -> & H1 & H2 & Hi & Hsl & Ed)]); [split; [done|]; unfold delivered_logged; by rewrite Ed|].
  split; [done|]. cbn in Hi, Ed. destruct (Hc' cp slot eq_refl H1 H2 Hi) as (G1 & G2 & G3). rewrite G1, <- G2, slice_prefix in Hsl by (pose proof (len_nonneg (us_data slot)); lia).
  injection Hsl as <-. rewrite take_ge in Ed by (unfold len; lia). intros q b. rewrite Ed. intros [Hq|[Hq Hz]]%lookup_app_Some; [by apply Hd|].
  apply list_lookup_singleton_Some in Hz as [Hz <-]. replace (Z.of_nat q) with (len (sy_delivered s)) by (unfold len; lia). done.
Qed.

Lemma log_step m k C s s' e : well N R bb sb k s -> log_ok sb m C (sy_ring s) -> delivered_logged C s -> m + 1 < 2 ^ 64 -> system_step s e = Some s' ->
  log_ok sb (m + 1) (C ++ completion_of s e) (sy_ring s') /\ delivered_logged (C ++ completion_of s e) s'.
Proof using HR HN Hsb.
  intros Hw Hl Hd Hm E. pose proof (lo_bound _ _ _ _ Hl) as Hb. assert (log_ok sb (m + 1) C (sy_ring s)) as Hl1 by (eapply log_same; try done; lia).
  destruct e as [i bytes|i status length| | | |submitted| | |]; try (cbn [completion_of]; rewrite app_nil_r); try (cbn [system_step] in E).
  - apply bind_Some in E as (sl & Hi & E). destruct (bool_decide_reflect (us_state sl = SLOT_INFLIGHT)) as [Es|]; [|done]. destruct (_ =? _); [|done]. cbn [andb] in E.
    rewrite store_insert in E by (by eapply index_range). injection E as <-. split; [|done]. eapply log_put; try done; [cbn; lia|by left|].
    destruct (lo_slots _ _ _ _ Hl _ _ Hi) as [_ G]. unfold slot_logged in *. cbn. by rewrite Es in *.
  - apply bind_Some in E as (sl & Hi & E). destruct (bool_decide_reflect (us_state sl = SLOT_INFLIGHT)) as [Es|]; [|done].
    apply bind_Some in E as (r & Er & E). injection E as <-. split; [by eapply log_complete|]. intros q b Hq. apply elem_of_app. left. by apply Hd.
  - injection E as <-. split; [|done]. eapply log_same; try done; cbn; lia.
  - injection E as <-. split; [|done]. eapply log_same; try done; cbn; lia.
  - destruct (sy_phase s); try done. destruct (ds_batchActive _); [by injection E as <-|]. by destruct (next_request _); injection E as <-.
  - destruct (sy_phase s); try done. destruct (exchange_release _ _ _) as [r [code|committed]] eqn:Ex; pose proof (log_release _ _ _ _ _ _ _ _ Hl Hm Ex) as Hl'.
    + injection E as <-. done.
    + injection E as <-. split; [|done]. pose proof (lo_bound _ _ _ _ Hl'). eapply log_same; try done; cbn; lia.
  - destruct (sy_phase s) as [| |[]|]; try done; [by injection E as <-|]. apply bind_Some in E as ([] & _ & E); [done|]. by injection E as <-.
  - destruct (log_wake m k C s s' Hw Hl Hd E) as [Hl' Hd']. split; [|done]. pose proof (lo_bound _ _ _ _ Hl'). eapply log_same; try done; lia.
  - destruct (sy_phase s); try done. apply bind_Some in E as ([] & _ & E); by injection E as <-.
Qed.

Lemma log_run events : forall m k C s s', well N R bb sb k s -> log_ok sb m C (sy_ring s) -> delivered_logged C s -> Forall safe_event events ->
  m + len events < 2 ^ 64 -> k + len events + N + 2 < 2 ^ 64 -> foldM system_step s events = Some s' ->
  NoDup (C ++ completions s events).*1 /\ delivered_logged (C ++ completions s events) s'.
Proof using HR HN Hsb.
  induction events as [|e events IH]; intros m k C s s' Hw Hl Hd He Hm Hb E; cbn in E |- *.
  { injection E as <-. rewrite app_nil_r. split; [apply Hl|done]. }
  destruct (system_step s e) as [s1|] eqn:E1; [|done]. apply Forall_cons in He as [He1 He2]. rewrite len_cons in *. pose proof (len_nonneg events).
  destruct (log_step m k C s s1 e Hw Hl Hd ltac:(lia) E1) as [Hl' Hd']. rewrite app_assoc.
  apply (IH (m + 1) (k + 1)); try done; try lia. eapply (step_well N R bb sb); try done; lia.
Qed.

Lemma start_logged source memory : len memory < 2 ^ 63 -> let s := start_system source sb memory in log_ok sb (len memory) [] (sy_ring s) /\ delivered_logged [] s.
Proof using Type.
  clear. intros Hm. split; [|intros q b Hq; done]. pose proof (len_nonneg memory).
  assert (forall i slot, index (ur_slots (rtlamr_ring_start sb memory)) i = Some slot -> us_sequence slot = i /\ 0 <= i < len memory /\ slot_logged sb [] slot) as Hsl.
  { intros i slot Hi. pose proof (index_range _ _ _ Hi) as Hr. apply index_Some in Hi as [Hi0 Hi]. cbn in Hi, Hr. unfold len in *. rewrite length_imap in Hr.
    rewrite list_lookup_imap in Hi. destruct (memory !! Z.to_nat i); [|done]. injection Hi as <-. cbn. split; [lia|]. split; [lia|]. split; [done|]. apply not_elem_of_nil. }
  constructor; cbn; try done; [apply NoDup_nil_2|intros q Hq; by apply not_elem_of_nil in Hq| |].
  - intros i slot Hi. destruct (Hsl i slot Hi) as (-> & ? & ?). split; [lia|done].
  - intros i j si sj Hi Hj E. destruct (Hsl i si Hi) as (<- & _), (Hsl j sj Hj) as (<- & _). done.
Qed.
End LogRun.

(** ** A small ring

    Three slots of four blocks; the collar has three blocks, one batch is held back. *)

Definition ring_cfg : PacketConfig :=
  {| Protocol := []; Preamble := []; DataRate := 0; BlockSize := 64; BlockSize2 := 128; ChipLength := 0; SymbolLength := 0;
     SampleRate := 1500; PreambleSymbols := 0; PacketSymbols := 0; PreambleLength := 0; PacketLength := 0; BufferLength := 64; CenterFreq := 0 |}.

Definition ring_memory : list (list Z) := replicate 3 (replicate 512 0).

(** Three batches: while the receiver waits for the third, the hardware fills the slot
    of the first again. *)
Definition ring_events : list ring_event :=
  [CallNext; Enter 0; DeviceWrites 0 (replicate 512 1); DeviceCompletes 0 0 512; Wake; CallRelease;
   CallNext; Enter 0; Interrupt; Enter 0; DeviceWrites 1 (replicate 512 2); DeviceCompletes 1 0 512; Wake; CallRelease;
   CallNext; Enter 0; DeviceWrites 0 (replicate 512 9); DeviceWrites 2 (replicate 512 3)].

Definition ring_run {A} (events : list ring_event) (f : dutyRuntime -> system -> A) : option A :=
  match newDutyRuntimeWithConfig 0 ring_cfg [7] demo_config with
  | Some (inr duty) =>
      source ← new_kernel_source (BlockSize2 ring_cfg) (BlockSize2 ring_cfg * 4) 1 3;
      s ← foldM system_step (start_system source (BlockSize2 ring_cfg * 4) ring_memory) events;
      Some (f duty s)
  | _ => None
  end.

Lemma ring_run_Some {A} events (f : dutyRuntime -> system -> A) a : ring_run events f = Some a ->
  exists duty source s, newDutyRuntimeWithConfig 0 ring_cfg [7] demo_config = Some (inr duty) /\
    new_kernel_source (BlockSize2 ring_cfg) (BlockSize2 ring_cfg * 4) 1 3 = Some source /\
    foldM system_step (start_system source (BlockSize2 ring_cfg * 4) ring_memory) events = Some s /\ f duty s = a.
Proof.
  unfold ring_run. destruct (newDutyRuntimeWithConfig _ _ _ _) as [[|duty]|]; [done| |done]. intros (source & E1 & (s & E2 & E)%bind_Some)%bind_Some.
  exists duty, source, s. split; [done|]. split; [done|]. split; [done|]. congruence.
Qed.

Lemma ring_geometry : geometry_fits ring_cfg.
Proof. repeat split; (reflexivity || (vm_compute; discriminate)). Qed.

Lemma ring_memory_slots : Forall (fun data => len data = BlockSize2 ring_cfg * 4) ring_memory.
Proof. repeat constructor. Qed.

Lemma ring_events_safe : Forall safe_event ring_events.
Proof. repeat constructor; discriminate. Qed.

(** C6. The ring hands out what the device completed, in order, and what it retains stays
    as it was.  A gated receiver asks the source to hold back enough batches for its
    collar, and the collar accepts the source.  Whatever the hardware, the module and the
    receiver do in whatever order: no transfer completes twice, and batch number [q] of
    those delivered is what the device completed as transfer number [q], so that none is
    skipped, repeated or moved; every block of the batch in use and of the batches held
    back, which the collar may refer to, still holds in its slot the bytes that were
    delivered; and the module never refuses an exchange, nor does a release find the
    queue occupied. *)
Theorem borrowed_blocks_are_stable now cfg ids schedulerConfig duty batchBlocks retain N source memory events s
  (Hfits : geometry_fits cfg) (Hduty : newDutyRuntimeWithConfig now cfg ids schedulerConfig = Some (inr duty))
  (Hretain : retain_batches true cfg batchBlocks = Some retain)
  (Hsource : new_kernel_source (BlockSize2 cfg) (BlockSize2 cfg * batchBlocks) retain N = Some source)
  (Hbatch : 0 < batchBlocks <= 256) (Hcollar : len (rt_collar duty) < 2 ^ 62) (HN : N < 2 ^ 62)
  (Hmemory : len memory = N) (Hslots : Forall (fun data => len data = BlockSize2 cfg * batchBlocks) memory)
  (Hevents : Forall safe_event events) (Hlength : len events < 2 ^ 62)
  (Hrun : foldM system_step (start_system source (BlockSize2 cfg * batchBlocks) memory) events = Some s) :
  let completed := completions (start_system source (BlockSize2 cfg * batchBlocks) memory) events in
  NoDup completed.*1 /\ (forall q batch, sy_delivered s !! q = Some batch -> (Z.of_nat q, batch) ∈ completed) /\
  exists duty', useBorrowedCollar (ds_retainedBlocks source) duty = inr duty' /\ len (rt_collar duty') <= ds_retainedBlocks source /\
  match sy_phase s with
  | Finished e => not_refused e
  | _ =>
      let total := len (sy_delivered s) * batchBlocks in
      let current := if ds_kernelCurrentValid (sy_source s) then batchBlocks else 0 in
      forall b, 0 <= b < total -> total - current - ds_retainedBlocks source <= b ->
        exists block, mapped_block (BlockSize2 cfg) batchBlocks b s = Some block /\ delivered_block (BlockSize2 cfg) b s = Some block
  end.
Proof.
  destruct (retained_covers _ _ _ _ _ _ _ _ _ Hfits Hduty Hretain Hsource Hbatch Hcollar) as (HR & Hbb & HN2 & Eret & Hcov).
  pose proof (start_well N retain _ _ HR HN2 source _ memory Hsource Hmemory ltac:(lia) Hslots) as Hw.
  destruct (start_logged (BlockSize2 cfg * batchBlocks) source memory ltac:(lia)) as [Hl Hd].
  destruct (log_run N retain (BlockSize2 cfg) (BlockSize2 cfg * batchBlocks) HR HN2 ltac:(nia) events (len memory) 0 [] _ s Hw Hl Hd Hevents ltac:(lia) ltac:(lia) Hrun) as [Honce Hall].
  cbn zeta. split; [exact Honce|]. split; [exact Hall|].
  unfold useBorrowedCollar. rewrite Eret, (proj2 (Z.ltb_ge _ _)) by lia. eexists. split; [reflexivity|]. cbn [rt_collar].
  replace (len (rt_collar (duty <| rt_collar ::= map without_data |> <| rt_borrowRaw := true |>))) with (len (rt_collar duty))
    by (cbn; unfold len; by rewrite length_map).
  split; [exact Hcov|]. destruct (run_well N retain _ _ HR HN2 events 0 _ s Hw Hevents ltac:(lia) Hrun) as (k & (_ & HF & Hwell) & _).
  assert (forall nr, ring_ok N (BlockSize2 cfg * batchBlocks) nr (sy_delivered s) (sy_ring s) ->
    (nr = 0 \/ nr * batchBlocks <= (len (sy_delivered s) - flag (ds_kernelCurrentValid (sy_source s)) - retain) * batchBlocks) ->
    forall b, 0 <= b < len (sy_delivered s) * batchBlocks ->
      len (sy_delivered s) * batchBlocks - (if ds_kernelCurrentValid (sy_source s) then batchBlocks else 0) - retain * batchBlocks <= b ->
      exists block, mapped_block (BlockSize2 cfg) batchBlocks b s = Some block /\ delivered_block (BlockSize2 cfg) b s = Some block) as Done.
  { intros nr Hr Hnr b Hb Hge. apply (claimed_block N _ _ nr); try done; try lia. destruct Hnr as [->|Hnr]; [apply Z.div_pos; lia|].
    apply Z.div_le_lower_bound; [lia|]. destruct (ds_kernelCurrentValid (sy_source s)); cbn [flag] in Hnr; nia. }
  destruct (sy_phase s) as [|x|c x|e]; [..|done].
  - destruct Hwell as (nr & Hr & []). apply (Done nr Hr). destruct so_full0 as [|[-> _]]; [right|by left]. destruct (ds_kernelPendingValid (sy_source s)); cbn [flag] in *; nia.
  - destruct Hwell as (nr & Hr & [] & _). apply (Done nr Hr). destruct so_full0 as [|[-> _]]; [right|by left]. destruct (ds_kernelPendingValid (sy_source s)); cbn [flag] in *; nia.
  - destruct Hwell as (nr & Hr & [] & _ & _ & Ep & _). apply (Done _ Hr). rewrite Ep in *. destruct so_full0 as [|[-> ->]]; [right|by left]. nia.
Qed.

Lemma borrowed_blocks_are_stable_witness :
  exists duty source s duty', newDutyRuntimeWithConfig 0 ring_cfg [7] demo_config = Some (inr duty) /\
    foldM system_step (start_system source 512 ring_memory) (ring_events ++ [DeviceCompletes 2 0 512; Wake]) = Some s /\
    len (sy_delivered s) = 3 /\ map (fun slot => us_state slot) (ur_slots (sy_ring s)) = [SLOT_INFLIGHT; SLOT_CLAIMED; SLOT_CLAIMED] /\
    (forall q batch, sy_delivered s !! q = Some batch -> (Z.of_nat q, batch) ∈ completions (start_system source 512 ring_memory) (ring_events ++ [DeviceCompletes 2 0 512; Wake])) /\
    useBorrowedCollar (ds_retainedBlocks source) duty = inr duty' /\ ds_retainedBlocks source = 4 /\
    forall b, 4 <= b < 12 -> exists block, mapped_block 128 4 b s = Some block /\ delivered_block 128 b s = Some block.
Proof.
  assert (ring_run (ring_events ++ [DeviceCompletes 2 0 512; Wake]) (fun duty s => (len (rt_collar duty), len (sy_delivered s),
    map (fun slot => us_state slot) (ur_slots (sy_ring s)), match sy_phase s with Working => ds_kernelCurrentValid (sy_source s) | _ => false end)) =
    Some (3, 3, [SLOT_INFLIGHT; SLOT_CLAIMED; SLOT_CLAIMED], true)) as E by (vm_compute; reflexivity).
  destruct (ring_run_Some _ _ _ E) as (duty & source & s & Ed & Es & Er & Ef). injection Ef as Ef1 Ef2 Ef3 Ef4.
  assert (Forall safe_event (ring_events ++ [DeviceCompletes 2 0 512; Wake])) as Hsafe.
  { apply Forall_app. split; [exact ring_events_safe|]. repeat constructor. discriminate. }
  destruct (borrowed_blocks_are_stable 0 ring_cfg [7] demo_config duty 4 1 3 source ring_memory _ s ring_geometry Ed eq_refl Es
    ltac:(lia) ltac:(rewrite Ef1; lia) ltac:(lia) eq_refl ring_memory_slots Hsafe eq_refl Er) as (_ & Hall & duty' & Eb & _ & H).
  exists duty, source, s, duty'. split; [exact Ed|]. split; [exact Er|]. split; [exact Ef2|]. split; [exact Ef3|]. split; [exact Hall|]. split; [exact Eb|].
  assert (ds_retainedBlocks source = 4) as EL by (injection Es as <-; reflexivity).
  split; [exact EL|]. intros b Hb. destruct (sy_phase s); [|discriminate Ef4..]. rewrite Ef4, EL, Ef2 in H. apply H; lia.
Defined.

(** C38. A receiver is never left waiting in the kernel.  In whatever state it waits:
    disconnecting the device, or stopping the ring, wakes it, and the wait ends with the
    error that says so; and either it may run already and leaves the wait at its next
    turn, with a batch or an error, or the ring works and the slot it waits for is with
    the device, so that completing that transfer, in whatever way, wakes it: a transfer
    that fills the slot gives the receiver what the slot then holds, any other an error.
    No wake-up is lost, and the slot is never one that the receiver itself holds. *)
Theorem ring_wait_ends N retain blockBytes batchBlocks source memory events s c x
  (Hblock : 0 < blockBytes) (Hretain : 0 <= retain) (Hbatch : 0 < batchBlocks <= 256) (HN : N < 2 ^ 62)
  (Hsource : new_kernel_source blockBytes (blockBytes * batchBlocks) retain N = Some source)
  (Hmemory : len memory = N) (Hslots : Forall (fun data => len data = blockBytes * batchBlocks) memory)
  (Hevents : Forall safe_event events) (Hlength : len events < 2 ^ 62)
  (Hrun : foldM system_step (start_system source (blockBytes * batchBlocks) memory) events = Some s)
  (Hphase : sy_phase s = Waiting c x) :
  (exists s', foldM system_step s [Disconnect; Wake] = Some s' /\ sy_phase s' = Finished (ErrExchange ENODEV)) /\
  (exists s', foldM system_step s [StopRing; Wake] = Some s' /\
    sy_phase s' = Finished (ErrExchange (if ur_disconnected (sy_ring s) then ENODEV else ECANCELED))) /\
  ((exists s', system_step s Wake = Some s' /\ leaves_wait s s') \/
   exists i slot, healthy (sy_ring s) /\ index (ur_slots (sy_ring s)) i = Some slot /\ us_state slot = SLOT_INFLIGHT /\
     forall status length, exists s', foldM system_step s [DeviceCompletes i status length; Wake] = Some s' /\
       if (status =? 0) && (length =? blockBytes * batchBlocks) then sy_phase s' = Working /\ sy_delivered s' = sy_delivered s ++ [us_data slot]
       else exists e, sy_phase s' = Finished e).
Proof.
  assert (retain + 2 <= N) as HN2.
  { unfold new_kernel_source in Hsource. destruct (_ || _); [done|]. destruct (Z.ltb_spec N (retain + 2)); [done|lia]. }
  pose proof (start_well N retain _ _ Hretain HN2 source _ memory Hsource Hmemory ltac:(lia) Hslots) as Hw.
  destruct (run_well N retain _ _ Hretain HN2 events 0 _ s Hw Hevents ltac:(lia) Hrun) as (k & (Hk & HF & Hwell) & Hbound).
  assert (attentive s) as Hatt by (eapply attentive_run; [|exact Hrun]; done).
  rewrite Hphase in Hwell. destruct Hwell as (nr & Hr & Hs & Hc & _ & Hp & H0). pose proof (waiting_room N retain _ Hretain HN2 nr c s Hs Hc Hp) as Hroom.
  destruct (so_slots _ _ _ _ _ _ Hs) as [Hmap _]. destruct (so_retain _ _ _ _ _ _ Hs) as [_ Hbb].
  destruct (ro_slots _ _ _ _ _ Hr (len (sy_delivered s)) ltac:(pose proof (ro_range _ _ _ _ _ Hr); lia)) as (slot & Hi & H1 & H2 & H3).
  rewrite (proj2 (Z.ltb_ge (len (sy_delivered s)) _)) in H3 by lia. pose proof (awaited_index_ok N _ _ _ _ ltac:(lia) Hr) as Ei.
  split; [|split].
  - pose (s1 := s <| sy_ring ::= rtlamr_disconnect |>). apply (wake_stopped s1 c x); [done..|by left|]. exists slot. by rewrite <- Hi, <- Ei.
  - pose (s1 := s <| sy_ring ::= rtlamr_ring_stop |>). apply (wake_stopped s1 c x); [done..| |exists slot; by rewrite <- Hi, <- Ei].
    cbn. destruct (ur_disconnected (sy_ring s)); auto.
  - destruct (wait_condition (sy_ring s)) as [[]|] eqn:Econd; [left|right|unfold wait_condition in Econd; rewrite Ei, Hi in Econd; discriminate Econd].
    + unfold attentive in Hatt. rewrite Hphase, Econd in Hatt. destruct (ur_wait (sy_ring s)) eqn:Ew; [|by specialize (Hatt eq_refl)].
      eapply (wake_leaves N _ _ s c x); try done; lia.
    + unfold wait_condition in Econd. rewrite Ei, Hi in Econd. cbn in Econd. injection Econd as [[[F2 F1]%orb_false_elim F3]%orb_false_elim F4]%orb_false_elim.
      apply negb_false_iff, Z.eqb_eq in F3. apply bool_decide_eq_false in F4. assert (healthy (sy_ring s)) as Hh by done.
      destruct (us_state slot) eqn:Es; [by destruct (healthy_sound _ Hh)| |done..].
      exists (len (sy_delivered s) mod N), slot. split; [done|]. split; [done|]. split; [done|]. intros status length.
      eapply (wake_completed N blockBytes batchBlocks _ s c x); try done; lia.
Qed.

Lemma ring_wait_ends_witness :
  exists source s c x, foldM system_step (start_system source 512 ring_memory) (ring_events ++ [Wake]) = Some s /\ sy_phase s = Waiting c x /\ c = true /\
    ur_wait (sy_ring s) = false /\
    (exists s', foldM system_step s [Disconnect; Wake] = Some s' /\ sy_phase s' = Finished (ErrExchange ENODEV)) /\
    (exists s', foldM system_step s [StopRing; Wake] = Some s' /\ sy_phase s' = Finished (ErrExchange ECANCELED)) /\
    ((exists s', system_step s Wake = Some s' /\ leaves_wait s s') \/
     exists i slot, healthy (sy_ring s) /\ index (ur_slots (sy_ring s)) i = Some slot /\ us_state slot = SLOT_INFLIGHT /\
       forall status length, exists s', foldM system_step s [DeviceCompletes i status length; Wake] = Some s' /\
         if (status =? 0) && (length =? 512) then sy_phase s' = Working /\ sy_delivered s' = sy_delivered s ++ [us_data slot]
         else exists e, sy_phase s' = Finished e).
Proof.
  assert (ring_run (ring_events ++ [Wake]) (fun _ s => (match sy_phase s with Waiting c _ => c | _ => false end, ur_wait (sy_ring s), ur_disconnected (sy_ring s))) =
    Some (true, false, false)) as E by (vm_compute; reflexivity).
  destruct (ring_run_Some _ _ _ E) as (duty & source & s & _ & Es & Er & Ef). injection Ef as Ef1 Ef2 Ef3.
  assert (Forall safe_event (ring_events ++ [Wake])) as Hsafe by (apply Forall_app; split; [exact ring_events_safe|by repeat constructor]).
  destruct (sy_phase s) as [|x|c x|e] eqn:Ep; [discriminate Ef1..| |discriminate Ef1]. exists source, s, c, x. split; [exact Er|]. split; [exact Ep|]. split; [exact Ef1|]. split; [exact Ef2|].
  destruct (ring_wait_ends 3 1 (BlockSize2 ring_cfg) 4 source ring_memory (ring_events ++ [Wake]) s c x ltac:(reflexivity) ltac:(lia) ltac:(lia) ltac:(lia) Es eq_refl
    ring_memory_slots Hsafe ltac:(reflexivity) Er Ep) as (H1 & H2 & H3).
  rewrite Ef3 in H2. split; [exact H1|]. split; [exact H2|exact H3].
Defined.
