(* ===== verification/Sources.v ===== *)
(** The block sources that copy: the rtl_tcp stream (src/receiver_source.go), which cuts
    what a reader returns into batches of whole blocks, and the synchronous ring of the
    direct source (src/receiver_source_direct_linux.go), which a thread fills from the
    device while the receiver empties it.  The reader is a parameter; the two threads of
    the ring are interleaved step by step, a step being what happens under the lock. *)

From S2P Require Import Prelude Update DutyModel DutyRuntime.

(** ** The stream *)

Inductive stream_error {E : Type} :=
  | ErrStreamNotReleased
  | ErrStreamInactive
  | ErrNoProgress
  | ErrRead (e : E).
Arguments stream_error E : clear implicits.

Record streamReceiverSource {E : Type} := {
  sr_buffer : list Z; sr_blockBytes : Z; sr_filled : Z; sr_batchBytes : Z; sr_pendingErr : option E; sr_batchActive : bool }.
Arguments streamReceiverSource E : clear implicits.
#[export] Instance streamReceiverSource_settable {E} : Settable (streamReceiverSource E) := fun s =>
  Build_streamReceiverSource E (sr_buffer s) (sr_blockBytes s) (sr_filled s) (sr_batchBytes s) (sr_pendingErr s) (sr_batchActive s).

(** [newStreamReceiverSource] for a reader that is not nil: [None] is an error. *)
Definition newStreamReceiverSource {E} (blockBytes blocks : Z) : option (streamReceiverSource E) :=
  if (blockBytes <=? 0) || (blocks <=? 0) then None else
  Some {| sr_buffer := make (blockBytes * blocks) 0; sr_blockBytes := blockBytes; sr_filled := 0; sr_batchBytes := 0;
          sr_pendingErr := None; sr_batchActive := false |}.

Section Stream.
(** A reader: what it reads for a buffer of some length, and its error. *)
Context {Rd E : Type} (Read : Rd -> Z -> Rd * list Z * option E).

(** The buffer, with what a read has put behind its filled part. *)
Definition fill_buffer (bytes : list Z) (s : streamReceiverSource E) : streamReceiverSource E :=
  s <| sr_buffer := take (Z.to_nat (sr_filled s)) (sr_buffer s) ++ gocopy (drop (Z.to_nat (sr_filled s)) (sr_buffer s)) bytes |>
    <| sr_filled := sr_filled s + len bytes |>.

(** The loop of [Next]: a batch, an error, or, without fuel, nothing. *)
Fixpoint next_loop (fuel : nat) (rd : Rd) (s : streamReceiverSource E)
  : option (Rd * streamReceiverSource E * (stream_error E + list Z)) :=
  match fuel with
  | O => None
  | S fuel =>
      let '(rd, bytes, err) := Read rd (len (sr_buffer s) - sr_filled s) in
      let s := fill_buffer bytes s in
      let completeBytes := sr_filled s - Z.rem (sr_filled s) (sr_blockBytes s) in
      if 0 <? completeBytes then
        batch ← slice 0 completeBytes (sr_buffer s);
        Some (rd, s <| sr_batchBytes := completeBytes |> <| sr_batchActive := true |> <| sr_pendingErr := err |>, inr batch)
      else
        match err with
        | Some e => Some (rd, s, inl (ErrRead e))
        | None => if len bytes =? 0 then Some (rd, s, inl ErrNoProgress) else next_loop fuel rd s
        end
  end.

(** [Next]: every turn of the loop reads a byte of the first block. *)
Definition stream_Next (rd : Rd) (s : streamReceiverSource E) : option (Rd * streamReceiverSource E * (stream_error E + list Z)) :=
  if sr_batchActive s then Some (rd, s, inl ErrStreamNotReleased)
  else
    match sr_pendingErr s with
    | Some e => Some (rd, s <| sr_pendingErr := None |>, inl (ErrRead e))
    | None => next_loop (Z.to_nat (sr_blockBytes s)) rd s
    end.

(** [Release]: the tail moves to the front; [None] is a run-time panic. *)
Definition stream_Release (s : streamReceiverSource E) : option (streamReceiverSource E * option (stream_error E)) :=
  if negb (sr_batchActive s) then Some (s, Some ErrStreamInactive) else
  let tailBytes := sr_filled s - sr_batchBytes s in
  tail ← slice (sr_batchBytes s) (sr_filled s) (sr_buffer s);
  front ← slice 0 tailBytes (sr_buffer s);
  Some (s <| sr_buffer := gocopy front tail ++ drop (Z.to_nat tailBytes) (sr_buffer s) |> <| sr_filled := tailBytes |>
          <| sr_batchBytes := 0 |> <| sr_batchActive := false |>, None).
End Stream.

(** ** The synchronous ring *)

Inductive direct_slot_state := DFREE | DFILLING | DREADY | DCLAIMED.
#[export] Instance direct_slot_state_eq_dec : EqDecision direct_slot_state.
Proof. solve_decision. Defined.

Record rtlamr_direct_slot := { sl_data : list Z; sl_length : Z; sl_state : direct_slot_state }.
#[export] Instance rtlamr_direct_slot_settable : Settable rtlamr_direct_slot := fun s =>
  Build_rtlamr_direct_slot (sl_data s) (sl_length s) (sl_state s).

(** Where the reading thread is: before its lock, in the device, leaving the loop, gone. *)
Inductive reader_pc := AtTop | InDevice | Leaving | Gone.

Record rtlamr_direct := {
  dr_slots : list rtlamr_direct_slot; dr_producer : Z; dr_consumer : Z; dr_stopping : bool; dr_read_done : bool; dr_read_result : Z;
  dr_buffer_count : Z; dr_reader : reader_pc }.
#[export] Instance rtlamr_direct_settable : Settable rtlamr_direct := fun s =>
  Build_rtlamr_direct (dr_slots s) (dr_producer s) (dr_consumer s) (dr_stopping s) (dr_read_done s) (dr_read_result s)
    (dr_buffer_count s) (dr_reader s).

Definition EIO : Z := -5.
Definition errno_EINVAL : Z := -22.
Definition errno_ECANCELED : Z := -125.

(** [rtlamr_direct_start] without the kernel's ring; [memory] is what the slots hold. *)
Definition rtlamr_direct_start (memory : list (list Z)) : rtlamr_direct :=
  {| dr_slots := map (fun data => {| sl_data := data; sl_length := 0; sl_state := DFREE |}) memory; dr_producer := 0; dr_consumer := 0;
     dr_stopping := false; dr_read_done := false; dr_read_result := 0; dr_buffer_count := len memory; dr_reader := AtTop |}.

Definition put_slot (i : Z) (slot : rtlamr_direct_slot) (s : rtlamr_direct) : option rtlamr_direct :=
  slots ← store (dr_slots s) i slot;
  Some (s <| dr_slots := slots |>).

(** (x + 1) % count of uint32. *)
Definition next_slot (s : rtlamr_direct) (x : Z) : Z := Z.rem (u32 (x + 1)) (dr_buffer_count s).

(** The reading thread up to its read: [None] is to wait. *)
Definition reader_begin (s : rtlamr_direct) : option rtlamr_direct :=
  slot ← index (dr_slots s) (dr_producer s);
  if dr_stopping s then Some (s <| dr_reader := Leaving |>)
  else if bool_decide (sl_state slot = DFREE) then
    s ← put_slot (dr_producer s) (slot <| sl_state := DFILLING |>) s;
    Some (s <| dr_reader := InDevice |>)
  else None.

(** Behind the read, with its result. *)
Definition reader_end (result length : Z) (s : rtlamr_direct) : option rtlamr_direct :=
  slot ← index (dr_slots s) (dr_producer s);
  if dr_stopping s then
    s ← put_slot (dr_producer s) (slot <| sl_state := DFREE |>) s;
    Some (s <| dr_reader := Leaving |>)
  else if (result <? 0) || (length <=? 0) then
    s ← put_slot (dr_producer s) (slot <| sl_state := DFREE |>) s;
    Some (s <| dr_read_result := if result <? 0 then result else EIO |> <| dr_read_done := true |> <| dr_reader := Gone |>)
  else
    s ← put_slot (dr_producer s) (slot <| sl_length := length |> <| sl_state := DREADY |>) s;
    Some (s <| dr_producer := next_slot s (dr_producer s) |> <| dr_reader := AtTop |>).

(** Behind the loop. *)
Definition reader_exit (s : rtlamr_direct) : rtlamr_direct := s <| dr_read_done := true |> <| dr_reader := Gone |>.

(** [rtlamr_direct_next]: [None] is to wait; a code, or the slot and its length. *)
Definition rtlamr_direct_next (s : rtlamr_direct) : option (rtlamr_direct * (Z + Z * Z)) :=
  slot ← index (dr_slots s) (dr_consumer s);
  if bool_decide (sl_state slot = DREADY) then
    d ← put_slot (dr_consumer s) (slot <| sl_state := DCLAIMED |>) s;
    Some (d, inr (dr_consumer s, sl_length slot))
  else if negb (dr_read_done s) && negb (dr_stopping s) then None
  else Some (s, inl (if dr_stopping s || (dr_read_result s =? 0) then errno_ECANCELED else dr_read_result s)).

(** [rtlamr_direct_release]: the code. *)
Definition rtlamr_direct_release (s : rtlamr_direct) : option (rtlamr_direct * Z) :=
  slot ← index (dr_slots s) (dr_consumer s);
  if negb (bool_decide (sl_state slot = DCLAIMED)) then Some (s, errno_EINVAL) else
  s ← put_slot (dr_consumer s) (slot <| sl_length := 0 |> <| sl_state := DFREE |>) s;
  Some (s <| dr_consumer := next_slot s (dr_consumer s) |>, 0).

(** [rtlamr_direct_cancel] *)
Definition rtlamr_direct_cancel (s : rtlamr_direct) : rtlamr_direct := s <| dr_stopping := true |>.

(** *** With the receiver *)

Inductive direct_error := ErrDirectNotReleased | ErrDirectCode (code : Z) | ErrDirectLength (length : Z) | ErrDirectInactive.

(** The source in Go, its ring, how the run ended, and a record of the batches that the
    device has completed and the receiver has got. *)
Record direct_system := {
  dy_ring : rtlamr_direct; dy_blockBytes : Z; dy_batchActive : bool; dy_error : option direct_error;
  dy_completed : list (list Z); dy_delivered : list (list Z) }.
#[export] Instance direct_system_settable : Settable direct_system := fun s =>
  Build_direct_system (dy_ring s) (dy_blockBytes s) (dy_batchActive s) (dy_error s) (dy_completed s) (dy_delivered s).

Inductive direct_event :=
  | ReaderBegins
  | ReaderFills (bytes : list Z)
  | ReaderEnds (result length : Z)
  | ReaderLeaves
  | DirectNext
  | DirectRelease
  | DirectCancel.

(** [Next] of the source, when it does not wait. *)
Definition direct_Next (s : direct_system) : option direct_system :=
  if dy_batchActive s then Some (s <| dy_error := Some ErrDirectNotReleased |>) else
  '(ring, answer) ← rtlamr_direct_next (dy_ring s);
  let s := s <| dy_ring := ring |> in
  match answer with
  | inl code => Some (s <| dy_error := Some (ErrDirectCode code) |>)
  | inr (i, length) =>
      if (length =? 0) || negb (Z.rem length (dy_blockBytes s) =? 0) then
        '(ring, _) ← rtlamr_direct_release (dy_ring s);
        Some (s <| dy_ring := ring |> <| dy_error := Some (ErrDirectLength length) |>)
      else
        slot ← index (dr_slots (dy_ring s)) i;
        batch ← slice 0 length (sl_data slot);
        Some (s <| dy_batchActive := true |> <| dy_delivered ::= fun l => l ++ [batch] |>)
  end.

(** [Release] of the source. *)
Definition direct_Release (s : direct_system) : option direct_system :=
  if negb (dy_batchActive s) then Some (s <| dy_error := Some ErrDirectInactive |>) else
  '(ring, code) ← rtlamr_direct_release (dy_ring s);
  let s := s <| dy_ring := ring |> in
  Some (if code <? 0 then s <| dy_error := Some (ErrDirectCode code) |> else s <| dy_batchActive := false |>).

(** One step; [None] is a step that cannot happen now, or a panic. *)
Definition direct_step (s : direct_system) (e : direct_event) : option direct_system :=
  let ring := dy_ring s in
  match e, dr_reader ring with
  | ReaderBegins, AtTop => ring ← reader_begin ring; Some (s <| dy_ring := ring |>)
  | ReaderFills bytes, InDevice =>
      slot ← index (dr_slots ring) (dr_producer ring);
      if len bytes =? len (sl_data slot) then
        ring ← put_slot (dr_producer ring) (slot <| sl_data := bytes |>) ring;
        Some (s <| dy_ring := ring |>)
      else None
  | ReaderEnds result length, InDevice =>
      slot ← index (dr_slots ring) (dr_producer ring);
      batch ← (if (result <? 0) || (length <=? 0) || dr_stopping ring then Some [] else b ← slice 0 length (sl_data slot); Some [b]);
      ring ← reader_end result length ring;
      Some (s <| dy_ring := ring |> <| dy_completed ::= fun l => l ++ batch |>)
  | ReaderLeaves, Leaving => Some (s <| dy_ring := reader_exit ring |>)
  | DirectNext, _ => if dy_error s then None else direct_Next s
  | DirectRelease, _ => if dy_error s then None else direct_Release s
  | DirectCancel, _ => Some (s <| dy_ring := rtlamr_direct_cancel ring |>)
  | _, _ => None
  end.

Definition start_direct (blockBytes : Z) (memory : list (list Z)) : direct_system :=
  {| dy_ring := rtlamr_direct_start memory; dy_blockBytes := blockBytes; dy_batchActive := false; dy_error := None; dy_completed := []; dy_delivered := [] |}.
