(* ===== verification/SourcesSpec.v ===== *)
(** The copying sources hand out the bytes they read, in order and whole: the stream cuts
    them into batches of whole blocks whatever its reader returns, and the synchronous
    ring is a queue between its two threads, of which neither blocks the other for ever. *)

From S2P Require Import Prelude Update DutyModel DutyRuntime KernelRingSpec Sources.

(** ** The stream *)

Section Stream.
Context {Rd E : Type} (Read : Rd -> Z -> Rd * list Z * option E).
(** What io.Reader promises. *)
Hypothesis Read_fits : forall rd cap rd' bytes e, 0 <= cap -> Read rd cap = (rd', bytes, e) -> len bytes <= cap.

(** The reads between two states of the reader: their bytes, and the error of the last;
    none before it had one. *)
Inductive reads (rd : Rd) : list Z -> option E -> Rd -> Prop :=
  | reads_none : reads rd [] None rd
  | reads_more bytes rd1 cap more e rd2 : reads rd bytes None rd1 -> Read rd1 cap = (rd2, more, e) -> reads rd (bytes ++ more) e rd2.

(** A source with an unread tail. *)
Record stream_ok (tail : list Z) (s : streamReceiverSource E) : Prop := {
  sk_block : 0 < sr_blockBytes s <= len (sr_buffer s);
  sk_filled : sr_filled s = len tail /\ len tail <= len (sr_buffer s);
  sk_tail : take (length tail) (sr_buffer s) = tail }.

Lemma fill_buffer_ok tail bytes s : stream_ok tail s -> len tail + len bytes <= len (sr_buffer s) ->
  stream_ok (tail ++ bytes) (fill_buffer bytes s) /\ len (sr_buffer (fill_buffer bytes s)) = len (sr_buffer s).
Proof using Type.
  clear. intros [Hb [Hf Hl] Ht] Hlen. unfold fill_buffer. cbn.
  assert (length (take (Z.to_nat (sr_filled s)) (sr_buffer s)) = length tail) as El by (rewrite Hf, length_take; unfold len in *; lia).
  assert (len (take (Z.to_nat (sr_filled s)) (sr_buffer s) ++ gocopy (drop (Z.to_nat (sr_filled s)) (sr_buffer s)) bytes) = len (sr_buffer s)) as EL.
  { unfold len in *. rewrite length_app, length_gocopy, length_drop, El. lia. }
  split; [|done]. constructor; cbn; [by rewrite EL|by rewrite EL, len_app; lia|].
  replace (take (Z.to_nat (sr_filled s)) (sr_buffer s)) with tail by (rewrite Hf; unfold len; by rewrite Nat2Z.id, Ht).
  rewrite length_app, take_app_add. f_equal. unfold gocopy. rewrite length_drop.
  rewrite (take_ge bytes) by (unfold len in *; lia). apply take_app_length.
Qed.

(** What a call of [Next] makes of the tail. *)
Definition next_result (rd : Rd) (tail : list Z) (s : streamReceiverSource E) (r : Rd * streamReceiverSource E * (stream_error E + list Z)) : Prop :=
  let '(rd', s', answer) := r in
  exists bytes e, reads rd bytes e rd' /\ sr_blockBytes s' = sr_blockBytes s /\ len (sr_buffer s') = len (sr_buffer s) /\
    stream_ok (tail ++ bytes) s' /\
    match answer with
    | inr batch =>
        (exists rest, tail ++ bytes = batch ++ rest /\ len rest < sr_blockBytes s) /\ 0 < len batch /\ Z.rem (len batch) (sr_blockBytes s) = 0 /\
        sr_batchActive s' = true /\ sr_batchBytes s' = len batch /\ sr_pendingErr s' = e
    | inl err =>
        len (tail ++ bytes) < sr_blockBytes s /\
        match e with Some e => err = ErrRead e | None => err = ErrNoProgress end
    end.

Lemma cut_blocks n size : 0 <= n -> 0 < size -> 0 <= n - Z.rem n size <= n /\ Z.rem (n - Z.rem n size) size = 0 /\ n - (n - Z.rem n size) < size /\
  (0 < n - Z.rem n size <-> size <= n).
Proof using Type.
  clear. intros Hn Hs. rewrite !Z.rem_mod_nonneg by (rewrite ?Z.rem_mod_nonneg by lia; pose proof (Z.mod_le n size); lia).
  pose proof (Z.mod_pos_bound n size Hs). pose proof (Z.div_mod n size ltac:(lia)). pose proof (Z.mod_le n size Hn Hs).
  split; [lia|]. split; [replace (n - n mod size) with (n / size * size) by lia; apply Z.mod_mul; lia|]. split; [lia|].
  split; intros; [|lia]. destruct (Z.le_gt_cases size n); [done|]. rewrite (Z.mod_small n size) in *; lia.
Qed.

Lemma next_loop_ok fuel : forall rd0 got rd tail s, reads rd0 got None rd -> stream_ok (tail ++ got) s -> len (tail ++ got) < sr_blockBytes s ->
  sr_blockBytes s - len (tail ++ got) <= Z.of_nat fuel -> exists r, next_loop Read fuel rd s = Some r /\ next_result rd0 tail s r.
Proof using Read_fits.
  induction fuel as [|fuel IH]; intros rd0 got rd tail s Hg Hs Hlt Hfuel; [lia|]. cbn [next_loop].
  destruct (Read rd (len (sr_buffer s) - sr_filled s)) as [[rd' bytes] err] eqn:Er.
  pose proof (sk_block _ _ Hs) as Hb. destruct (sk_filled _ _ Hs) as [Hf Hf2].
  pose proof (Read_fits _ (len (sr_buffer s) - sr_filled s) _ _ _ ltac:(lia) Er) as Hfit. rewrite Hf in Hfit.
  destruct (fill_buffer_ok _ bytes s Hs ltac:(lia)) as [Hs' EL]. rewrite <- app_assoc in Hs'.
  pose proof (reads_more _ _ _ _ _ _ _ Hg Er) as Hg'. set (s1 := fill_buffer bytes s) in *.
  assert (sr_blockBytes s1 = sr_blockBytes s) as EB by done. assert (sr_filled s1 = len (tail ++ got ++ bytes)) as EF by (apply Hs').
  destruct (cut_blocks (sr_filled s1) (sr_blockBytes s) ltac:(rewrite EF; apply len_nonneg) ltac:(lia)) as (C1 & C2 & C3 & C4). rewrite EB.
  destruct (Z.ltb_spec 0 (sr_filled s1 - Z.rem (sr_filled s1) (sr_blockBytes s))) as [Hc|Hc].
  - destruct (sk_filled _ _ Hs') as [_ G]. rewrite slice_prefix by lia. cbn [mbind option_bind]. eexists. split; [reflexivity|].
    exists (got ++ bytes), err. split; [done|]. split; [done|]. split; [done|].
    split; [destruct Hs'; by constructor|].
    set (c := sr_filled s1 - Z.rem (sr_filled s1) (sr_blockBytes s)) in *.
    assert (take (Z.to_nat c) (sr_buffer s1) = take (Z.to_nat c) (tail ++ got ++ bytes)) as Et.
    { rewrite <- (sk_tail _ _ Hs'), take_take. f_equal. unfold len in *. lia. }
    assert (len (take (Z.to_nat c) (sr_buffer s1)) = c) as Ec by (unfold len in *; rewrite length_take; lia).
    rewrite Ec. split; [|done]. exists (drop (Z.to_nat c) (tail ++ got ++ bytes)). rewrite Et, take_drop. split; [done|].
    unfold len in *. rewrite length_drop. lia.
  - assert (len (tail ++ got ++ bytes) < sr_blockBytes s) as Hlt' by lia.
    destruct err as [e|].
    { eexists. split; [reflexivity|]. exists (got ++ bytes), (Some e). done. }
    destruct (Z.eqb_spec (len bytes) 0) as [E0|E0].
    { eexists. split; [reflexivity|]. exists (got ++ bytes), None. done. }
    pose proof (len_nonneg bytes). rewrite !len_app in *.
    destruct (IH rd0 (got ++ bytes) rd' tail s1) as (r & Er' & Hr'); [done|done|rewrite !len_app, EB; lia|rewrite !len_app, EB; lia|].
    exists r. split; [exact Er'|]. destruct r as [[rd2 s2] answer]. destruct Hr' as (b & e & K1 & K2 & K3 & K4 & K5). exists b, e.
    rewrite K2, K3, EB, EL in *. done.
Qed.

Lemma stream_Next_ok rd tail s : stream_ok tail s -> len tail < sr_blockBytes s -> sr_batchActive s = false -> sr_pendingErr s = None ->
  exists r, stream_Next Read rd s = Some r /\ next_result rd tail s r.
Proof using Read_fits.
  intros Hs Hlt Ha Hp. unfold stream_Next. rewrite Ha, Hp. pose proof (sk_block _ _ Hs).
  apply (next_loop_ok _ rd [] rd tail s); [constructor|by rewrite app_nil_r|by rewrite app_nil_r|rewrite app_nil_r; pose proof (len_nonneg tail); lia].
Qed.

Lemma stream_Release_ok batch rest s : stream_ok (batch ++ rest) s -> sr_batchActive s = true -> sr_batchBytes s = len batch ->
  exists s', stream_Release s = Some (s', None) /\ stream_ok rest s' /\ sr_batchActive s' = false /\ sr_pendingErr s' = sr_pendingErr s /\
    sr_blockBytes s' = sr_blockBytes s /\ len (sr_buffer s') = len (sr_buffer s).
Proof using Type.
  clear. intros [Hb [Hf Hl] Ht] Ha Hbb. unfold stream_Release. rewrite Ha, Hbb, Hf. rewrite len_app in *. cbn [negb].
  pose proof (len_nonneg batch). pose proof (len_nonneg rest).
  rewrite (slice_ok (len batch)) by lia. replace (len batch + len rest - len batch) with (len rest) by lia. cbn [mbind option_bind].
  assert (take (Z.to_nat (len rest)) (drop (Z.to_nat (len batch)) (sr_buffer s)) = rest) as ->.
  { rewrite <- (take_drop (length (batch ++ rest)) (sr_buffer s)), Ht. unfold len. rewrite !Nat2Z.id, <- app_assoc, drop_app_length. apply take_app_length. }
  rewrite slice_prefix by lia. cbn [mbind option_bind].
  assert (gocopy (take (Z.to_nat (len rest)) (sr_buffer s)) rest = rest) as ->.
  { assert (length (take (Z.to_nat (len rest)) (sr_buffer s)) = length rest) as ELr by (rewrite length_take; unfold len in *; lia).
    rewrite gocopy_full, ELr by lia. by apply take_ge. }
  assert (len (rest ++ drop (Z.to_nat (len rest)) (sr_buffer s)) = len (sr_buffer s)) as EL by (unfold len in *; rewrite length_app, length_drop; lia).
  eexists. split; [reflexivity|]. cbn. split; [|done]. constructor; cbn; [by rewrite EL|rewrite EL; lia|apply take_app_length].
Qed.

(** Rounds of [Next] and [Release], as [Run] calls them: the batches, and the error that
    ended them. *)
Fixpoint stream_rounds (n : nat) (rd : Rd) (s : streamReceiverSource E)
  : option (Rd * streamReceiverSource E * list (list Z) * option (stream_error E)) :=
  match n with
  | O => Some (rd, s, [], None)
  | S n =>
      '(rd, s, answer) ← stream_Next Read rd s;
      match answer with
      | inl err => Some (rd, s, [], Some err)
      | inr batch =>
          '(s, refused) ← stream_Release s;
          match refused with
          | Some err => Some (rd, s, [batch], Some err)
          | None => '(rd, s, batches, err) ← stream_rounds n rd s; Some (rd, s, batch :: batches, err)
          end
      end
  end.

Lemma reads_app rd bytes rd1 more e rd2 : reads rd bytes None rd1 -> reads rd1 more e rd2 -> reads rd (bytes ++ more) e rd2.
Proof using Type.
  clear. intros H1. induction 1 as [|bytes2 rd3 cap more2 e rd4 _ IH Er]; [by rewrite app_nil_r|]. rewrite app_assoc. by eapply reads_more.
Qed.

Lemma stream_rounds_ok n : forall rd tail s, stream_ok tail s -> len tail < sr_blockBytes s -> sr_batchActive s = false -> sr_pendingErr s = None ->
  exists rd' s' batches err bytes e rest, stream_rounds n rd s = Some (rd', s', batches, err) /\ reads rd bytes e rd' /\
    tail ++ bytes = concat batches ++ rest /\ len rest < sr_blockBytes s /\ stream_ok rest s' /\
    Forall (fun b => 0 < len b /\ Z.rem (len b) (sr_blockBytes s) = 0) batches /\
    match err with
    | None => length batches = n /\ sr_pendingErr s' = e
    | Some err => match e with Some e => err = ErrRead e | None => err = ErrNoProgress end
    end.
Proof using Read_fits.
  induction n as [|n IH]; intros rd tail s Hs Hlt Ha Hp; cbn [stream_rounds].
  { exists rd, s, [], None, [], None, tail. rewrite app_nil_r. repeat split; try done; try apply Hs. constructor. }
  destruct (stream_Next_ok rd tail s Hs Hlt Ha Hp) as ([[rd1 s1] answer] & -> & bytes & e & Hr & EB & EL & Hs1 & Hans). cbn [mbind option_bind].
  destruct answer as [err|batch].
  { destruct Hans as [H1 H2]. exists rd1, s1, [], (Some err), bytes, e, (tail ++ bytes). done. }
  destruct Hans as ((rest & Eb & Hrest) & Hb1 & Hb2 & Ha1 & Hbb & Hp1). rewrite Eb in Hs1.
  destruct (stream_Release_ok batch rest s1 Hs1 Ha1 Hbb) as (s2 & -> & Hs2 & Ha2 & Hp2 & EB2 & EL2). cbn [mbind option_bind].
  destruct e as [e|].
  - destruct n as [|n].
    { cbn [stream_rounds mbind option_bind]. exists rd1, s2, [batch], None, bytes, (Some e), rest. cbn [concat]. rewrite app_nil_r.
      split; [done|]. split; [done|]. split; [done|]. split; [done|]. split; [done|]. split; [by repeat constructor|]. by rewrite Hp2. }
    cbn [stream_rounds]. unfold stream_Next. rewrite Ha2, Hp2, Hp1. cbn [mbind option_bind].
    exists rd1, (s2 <| sr_pendingErr := None |>), [batch], (Some (ErrRead e)), bytes, (Some e), rest. cbn [concat]. rewrite app_nil_r.
    split; [done|]. split; [done|]. split; [done|]. split; [done|]. split; [destruct Hs2; by constructor|]. split; [by repeat constructor|done].
  - destruct (IH rd1 rest s2 Hs2 ltac:(by rewrite EB2, EB) Ha2 ltac:(by rewrite Hp2)) as (rd' & s' & bs & err & more & e' & rest' & -> & K1 & K2 & K3 & K4 & K5 & K6).
    cbn [mbind option_bind]. exists rd', s', (batch :: bs), err, (bytes ++ more), e', rest'. rewrite EB2, EB in K3, K5. split; [done|].
    split; [by eapply reads_app|]. split; [cbn [concat]; by rewrite app_assoc, Eb, <- !app_assoc, K2|]. split; [done|]. split; [done|].
    split; [by constructor|]. destruct err; [done|]. destruct K6 as [<- K6]. done.
Qed.
End Stream.

(** ** The synchronous ring *)

Section Ring.
Context (n size : Z).
Hypothesis (Hn : 0 < n < 2 ^ 32).

(** The batch of sequence number [q], of which [nd] are handed out and [np] complete;
    [active] is whether the receiver works on the last it got. *)
Definition direct_slot_ok (C : list (list Z)) (nd : Z) (filling : bool) (q : Z) (slot : rtlamr_direct_slot) : Prop :=
  len (sl_data slot) = size /\
  if q <? len C then
    sl_state slot = (if q <? nd then DCLAIMED else DREADY) /\ 0 < sl_length slot <= size /\
    C !! Z.to_nat q = Some (take (Z.to_nat (sl_length slot)) (sl_data slot))
  else sl_state slot = if (q =? len C) && filling then DFILLING else DFREE.

Definition in_device (s : rtlamr_direct) : bool := match dr_reader s with InDevice => true | _ => false end.

(** The ring behind [nr] releases. *)
Record direct_ok (nr nd : Z) (C : list (list Z)) (s : rtlamr_direct) : Prop := {
  dk_count : len (dr_slots s) = n /\ dr_buffer_count s = n;
  dk_producer : dr_producer s = len C mod n;
  dk_consumer : dr_consumer s = nr mod n;
  dk_range : 0 <= nr /\ nr <= nd /\ nd <= len C /\ len C <= nr + n /\ nd <= nr + 1;
  dk_filling : in_device s = true -> len C < nr + n;
  dk_done : dr_read_done s = true -> dr_reader s = Gone;
  dk_reader : match dr_reader s with Leaving => dr_stopping s = true | Gone => dr_read_done s = true | _ => True end;
  dk_slots : forall q, nr <= q < nr + n -> exists slot, index (dr_slots s) (q mod n) = Some slot /\ direct_slot_ok C nd (in_device s) q slot }.

Lemma direct_slot nr nd C s q : direct_ok nr nd C s -> nr <= q < nr + n ->
  exists slot, index (dr_slots s) (q mod n) = Some slot /\ direct_slot_ok C nd (in_device s) q slot.
Proof using Type. clear. intros Hs Hq. by apply Hs. Qed.

(** One slot changes: what the others were, they are. *)
Lemma direct_put nr nd C nd' C' s s' q slot : direct_ok nr nd C s -> nr <= q < nr + n ->
  dr_slots s' = <[Z.to_nat (q mod n) := slot]> (dr_slots s) -> direct_slot_ok C' nd' (in_device s') q slot ->
  (forall q' slot', nr <= q' < nr + n -> q' <> q -> direct_slot_ok C nd (in_device s) q' slot' -> direct_slot_ok C' nd' (in_device s') q' slot') ->
  forall q', nr <= q' < nr + n -> exists slot', index (dr_slots s') (q' mod n) = Some slot' /\ direct_slot_ok C' nd' (in_device s') q' slot'.
Proof using Hn.
  intros Hs Hq Es Hok Hother q' Hq'. rewrite Es. pose proof (Z.mod_pos_bound q n ltac:(lia)). destruct (dk_count _ _ _ _ Hs) as [HL _].
  rewrite index_insert by lia. destruct (Z.eqb_spec (q' mod n) (q mod n)) as [E|E].
  - apply mod_window in E; [|lia..]. subst q'. by exists slot.
  - destruct (dk_slots _ _ _ _ Hs q' Hq') as (slot' & Hi & Hok'). exists slot'. split; [done|]. apply Hother; [done|congruence|done].
Qed.

Lemma put_slot_eq q slot s nr nd C : direct_ok nr nd C s ->
  put_slot (q mod n) slot s = Some (s <| dr_slots := <[Z.to_nat (q mod n) := slot]> (dr_slots s) |>).
Proof using Hn.
  intros Hs. pose proof (Z.mod_pos_bound q n ltac:(lia)). destruct (dk_count _ _ _ _ Hs) as [HL _]. unfold put_slot. by rewrite store_insert by lia.
Qed.

Lemma next_slot_eq q s nr nd C : direct_ok nr nd C s -> next_slot s (q mod n) = (q + 1) mod n.
Proof using Hn.
  intros Hs. pose proof (Z.mod_pos_bound q n ltac:(lia)) as Hm. destruct (dk_count _ _ _ _ Hs) as [_ HL]. unfold next_slot, u32. rewrite HL.
  rewrite wrap_u_id by (split; lia). rewrite rem_mod by lia. apply Zplus_mod_idemp_l.
Qed.

Lemma other_slot C nd C' nd' f f' q slot : q <> len C -> q <> len C' -> (q < len C <-> q < len C') -> (q < nd <-> q < nd') -> (q < len C -> 0 <= q /\ C' !! Z.to_nat q = C !! Z.to_nat q) ->
  direct_slot_ok C nd f q slot -> direct_slot_ok C' nd' f' q slot.
Proof using Type.
  clear. intros N1 N2 H1 H2 H3 [Hd Hs]. split; [done|].
  replace (q <? len C') with (q <? len C) by (apply eq_true_iff_eq; rewrite !Z.ltb_lt; done).
  replace (q <? nd') with (q <? nd) by (apply eq_true_iff_eq; rewrite !Z.ltb_lt; done).
  rewrite (proj2 (Z.eqb_neq _ _) N1) in Hs. rewrite (proj2 (Z.eqb_neq _ _) N2).
  destruct (Z.ltb_spec q (len C)) as [Hlt|]; [|done]. destruct (H3 Hlt) as [_ ->]. done.
Qed.

Lemma direct_start_ok memory : len memory = n -> Forall (fun data => len data = size) memory -> direct_ok 0 0 [] (rtlamr_direct_start memory).
Proof using Hn.
  intros HL Hm. unfold rtlamr_direct_start. constructor; cbn; try done; try (unfold len in *; cbn; lia).
  - unfold len in *. by rewrite length_map.
  - intros q Hq. rewrite Z.mod_small by lia. destruct (index_lt memory q ltac:(lia)) as [data Hd]. apply index_Some in Hd as [? Hd].
    eexists. split; [apply index_Some; split; [done|by rewrite list_lookup_fmap, Hd]|].
    split; [exact (proj1 (Forall_lookup _ _) Hm _ _ Hd)|]. rewrite (proj2 (Z.ltb_ge q _)) by (unfold len; cbn; lia). by rewrite andb_false_r.
Qed.

(** The thread finds a free slot exactly when the ring has room. *)
Lemma producer_slot nr nd C s : direct_ok nr nd C s -> in_device s = false -> exists slot, index (dr_slots s) (dr_producer s) = Some slot /\
  (sl_state slot = DFREE <-> len C < nr + n) /\ (len C < nr + n -> len (sl_data slot) = size).
Proof using Hn.
  intros Hs Hf. pose proof (dk_range _ _ _ _ Hs). rewrite (dk_producer _ _ _ _ Hs). destruct (Z.eq_dec (len C) (nr + n)) as [E|E].
  - destruct (dk_slots _ _ _ _ Hs nr ltac:(lia)) as (slot & Hi & Hok). exists slot.
    replace (len C mod n) with (nr mod n) by (rewrite E; replace (nr + n) with (nr + 1 * n) by lia; by rewrite Z_mod_plus_full).
    split; [done|]. split; [|lia]. destruct Hok as [_ Hok]. rewrite (proj2 (Z.ltb_lt nr _)) in Hok by lia. destruct Hok as [-> _].
    split; [destruct (nr <? nd); discriminate|lia].
  - destruct (dk_slots _ _ _ _ Hs (len C) ltac:(lia)) as (slot & Hi & [Hd Hok]). exists slot. split; [done|]. rewrite Z.ltb_irrefl, Hf, andb_false_r in Hok.
    split; [split; [lia|done]|done].
Qed.

(** The slot the device writes. *)
Lemma device_slot nr nd C s : direct_ok nr nd C s -> in_device s = true -> exists slot, index (dr_slots s) (len C mod n) = Some slot /\
  nr <= len C < nr + n /\ len (sl_data slot) = size /\ sl_state slot = DFILLING.
Proof using Type.
  clear. intros Hs Hf. pose proof (dk_range _ _ _ _ Hs). pose proof (dk_filling _ _ _ _ Hs Hf).
  destruct (dk_slots _ _ _ _ Hs (len C) ltac:(lia)) as (slot & Hi & [Hd Hok]). exists slot. rewrite Z.ltb_irrefl, Z.eqb_refl, Hf in Hok. repeat split; try done; lia.
Qed.

Lemma reader_begin_ok nr nd C s s' : direct_ok nr nd C s -> dr_reader s = AtTop -> reader_begin s = Some s' -> direct_ok nr nd C s'.
Proof using Hn.
  intros Hs Er E. assert (in_device s = false) as Hf by (unfold in_device; by rewrite Er).
  destruct (producer_slot _ _ _ _ Hs Hf) as (slot & Hi & Hroom & Hd). pose proof (dk_range _ _ _ _ Hs) as Hrg.
  unfold reader_begin in E. rewrite Hi in E. cbn [mbind option_bind] in E. destruct (dr_stopping s) eqn:Est.
  { injection E as <-. destruct Hs as [K1 K2 K3 K4 K5 K6 K7 K8]. rewrite Er in *. constructor; cbn; try done; [intros D; by apply K6 in D|].
    intros q Hq. destruct (K8 q Hq) as (sl & ? & ?). exists sl. split; [done|]. by rewrite Hf in *. }
  destruct (bool_decide_reflect (sl_state slot = DFREE)) as [Ef|]; [|done]. apply Hroom in Ef.
  rewrite (dk_producer _ _ _ _ Hs), (put_slot_eq _ _ _ _ _ _ Hs) in E. cbn [mbind option_bind] in E. injection E as <-.
  set (s1 := s <| dr_slots := _ |> <| dr_reader := InDevice |>). constructor; try apply Hs; try done.
  - destruct (dk_count _ _ _ _ Hs). split; [cbn; unfold len in *; by rewrite length_insert|done].
  - intros D. apply (dk_done _ _ _ _ Hs) in D. congruence.
  - apply (direct_put nr nd C nd C s s1 (len C) (slot <| sl_state := DFILLING |>)); [exact Hs|lia|reflexivity| |].
    + split; [by apply Hd|]. by rewrite Z.ltb_irrefl, Z.eqb_refl.
    + intros q' slot' Hq' Hne. apply other_slot; try done. intros _. split; [lia|done].
Qed.

Lemma reader_fill_ok nr nd C s s' slot bytes : direct_ok nr nd C s -> dr_reader s = InDevice -> index (dr_slots s) (dr_producer s) = Some slot ->
  len bytes = len (sl_data slot) -> put_slot (dr_producer s) (slot <| sl_data := bytes |>) s = Some s' -> direct_ok nr nd C s'.
Proof using Hn.
  intros Hs Er Hi Hl E. assert (in_device s = true) as Hf by (unfold in_device; by rewrite Er).
  destruct (device_slot _ _ _ _ Hs Hf) as (slot' & Hi' & Hrg & Hd & Hst). rewrite (dk_producer _ _ _ _ Hs) in *. rewrite Hi in Hi'. injection Hi' as <-.
  rewrite (put_slot_eq _ _ _ _ _ _ Hs) in E. injection E as <-. pose proof (dk_range _ _ _ _ Hs).
  set (s1 := s <| dr_slots := _ |>). constructor; try apply Hs; try done.
  - destruct (dk_count _ _ _ _ Hs). split; [cbn; unfold len in *; by rewrite length_insert|done].
  - apply (direct_put nr nd C nd C s s1 (len C) (slot <| sl_data := bytes |>)); [exact Hs|lia|reflexivity| |].
    + split; [cbn; lia|]. rewrite Z.ltb_irrefl, Z.eqb_refl. change (in_device s1) with (in_device s). by rewrite Hf.
    + intros q' slot' Hq' Hne. apply other_slot; try done. intros _. split; [lia|done].
Qed.

(** The batch of a read, which counts when the thread has not been told to stop. *)
Definition read_batch (result length : Z) (s : rtlamr_direct) : option (list (list Z)) :=
  slot ← index (dr_slots s) (dr_producer s);
  if (result <? 0) || (length <=? 0) || dr_stopping s then Some [] else b ← slice 0 length (sl_data slot); Some [b].

Lemma reader_end_ok nr nd C s s' result length batch : direct_ok nr nd C s -> dr_reader s = InDevice -> read_batch result length s = Some batch ->
  reader_end result length s = Some s' -> direct_ok nr nd (C ++ batch) s'.
Proof using Hn.
  intros Hs Er Hb E. assert (in_device s = true) as Hf by (unfold in_device; by rewrite Er).
  destruct (device_slot _ _ _ _ Hs Hf) as (slot & Hi & Hrg & Hd & Hst). pose proof (dk_range _ _ _ _ Hs) as Hr. pose proof (dk_producer _ _ _ _ Hs) as Ep.
  unfold read_batch in Hb. unfold reader_end in E. rewrite Ep, Hi in *. cbn [mbind option_bind] in Hb, E. rewrite !(put_slot_eq _ _ _ _ _ _ Hs) in E. cbn [mbind option_bind] in E.
  assert (forall s1, dr_slots s1 = <[Z.to_nat (len C mod n) := slot <| sl_state := DFREE |>]> (dr_slots s) -> in_device s1 = false ->
    forall q, nr <= q < nr + n -> exists slot, index (dr_slots s1) (q mod n) = Some slot /\ direct_slot_ok C nd (in_device s1) q slot) as Free.
  { intros s1 E1 E2. apply (direct_put nr nd C nd C s s1 (len C) (slot <| sl_state := DFREE |>)); [exact Hs|lia|exact E1| |].
    - split; [done|]. by rewrite Z.ltb_irrefl, E2, andb_false_r.
    - intros q' slot' Hq' Hne. apply other_slot; try done. intros _. split; [lia|done]. }
  assert (forall slot', len (<[Z.to_nat (len C mod n) := slot']> (dr_slots s)) = n) as HL.
  { intros ?. destruct (dk_count _ _ _ _ Hs). unfold len in *. by rewrite length_insert. }
  destruct (dr_stopping s) eqn:Est.
  { rewrite orb_true_r in Hb. injection Hb as <-. rewrite app_nil_r. injection E as <-.
    set (s1 := s <| dr_slots := _ |> <| dr_reader := Leaving |>). constructor; try apply Hs; try done; [split; [apply HL|apply Hs]| |by apply Free].
    intros D. apply (dk_done _ _ _ _ Hs) in D. congruence. }
  rewrite orb_false_r in Hb. destruct ((result <? 0) || (length <=? 0)) eqn:Eg.
  { injection Hb as <-. rewrite app_nil_r. injection E as <-.
    set (s1 := s <| dr_slots := _ |> <| dr_read_result := _ |> <| dr_read_done := true |> <| dr_reader := Gone |>).
    constructor; try apply Hs; try done; [split; [apply HL|apply Hs]|by apply Free]. }
  apply orb_false_iff in Eg as [_ Eg]. apply Z.leb_gt in Eg. apply bind_Some in Hb as (b & Hb & [= <-]).
  apply slice_Some in Hb as (_ & Hle & ->). rewrite Z.sub_0_r, drop_0. injection E as <-. rewrite Hd in Hle.
  set (b := take (Z.to_nat length) (sl_data slot)).
  assert (len (C ++ [b]) = len C + 1) as EL by (rewrite len_app; done).
  set (s1 := s <| dr_slots := _ |> <| dr_producer := _ |> <| dr_reader := AtTop |>). constructor; try apply Hs; try done.
  - split; [apply HL|apply Hs].
  - cbn. rewrite EL, Ep. exact (next_slot_eq (len C) s _ _ _ Hs).
  - lia.
  - intros D. apply (dk_done _ _ _ _ Hs) in D. congruence.
  - apply (direct_put nr nd C nd (C ++ [b]) s s1 (len C) (slot <| sl_length := length |> <| sl_state := DREADY |>)); [exact Hs|lia|reflexivity| |].
    + split; [done|]. rewrite (proj2 (Z.ltb_lt _ _)) by lia. cbn. rewrite (proj2 (Z.ltb_ge _ nd)) by lia. split; [done|]. split; [lia|].
      rewrite lookup_app_r by (unfold len; lia). unfold len. by rewrite Nat2Z.id, Nat.sub_diag.
    + intros q' slot' Hq' Hne. rewrite Hf. intros [G1 G2]. split; [done|]. rewrite EL. change (in_device s1) with false. rewrite andb_false_r.
      rewrite (proj2 (Z.eqb_neq q' (len C)) Hne) in G2. destruct (Z.ltb_spec q' (len C)).
      * rewrite (proj2 (Z.ltb_lt _ _)) by lia. destruct G2 as (G2 & G3 & G4). split; [done|]. split; [done|]. by apply lookup_app_l_Some.
      * by rewrite (proj2 (Z.ltb_ge _ _)) by lia.
Qed.

(** Steps that leave the slots alone. *)
Lemma direct_ok_same nr nd C s s' : direct_ok nr nd C s -> dr_slots s' = dr_slots s -> dr_producer s' = dr_producer s -> dr_consumer s' = dr_consumer s ->
  dr_buffer_count s' = dr_buffer_count s -> in_device s' = in_device s -> (dr_read_done s' = true -> dr_reader s' = Gone) ->
  match dr_reader s' with Leaving => dr_stopping s' = true | Gone => dr_read_done s' = true | _ => True end -> direct_ok nr nd C s'.
Proof using Type.
  clear. intros [] E1 E2 E3 E4 E5 H1 H2. constructor; rewrite ?E1, ?E2, ?E3, ?E4, ?E5; done.
Qed.

(** *** The receiver's calls *)

Lemma direct_next_ok nr C s s' i length : direct_ok nr nr C s -> rtlamr_direct_next s = Some (s', inr (i, length)) ->
  i = nr mod n /\ direct_ok nr (nr + 1) C s' /\ nr < len C /\ exists slot, index (dr_slots s') (nr mod n) = Some slot /\ sl_length slot = length.
Proof using Hn.
  intros Hs E. pose proof (dk_range _ _ _ _ Hs) as Hrg. unfold rtlamr_direct_next in E. rewrite (dk_consumer _ _ _ _ Hs) in E.
  destruct (dk_slots _ _ _ _ Hs nr ltac:(lia)) as (slot & Hi & Hd & Hok). rewrite Hi in E. cbn [mbind option_bind] in E.
  destruct (bool_decide_reflect (sl_state slot = DREADY)) as [Es|]; [|by destruct (negb _ && negb _)].
  rewrite (put_slot_eq _ _ _ _ _ _ Hs) in E. cbn [mbind option_bind] in E. injection E as <- <- <-. split; [done|].
  rewrite Es in Hok. destruct (Z.ltb_spec nr (len C)) as [Hlt|]; [|by destruct (_ && _)].
  split; [|split; [done|]]; [|eexists; cbn; destruct (dk_count _ _ _ _ Hs) as [HL _]; pose proof (Z.mod_pos_bound nr n ltac:(lia)); rewrite index_insert, Z.eqb_refl by lia; done].
  set (s1 := s <| dr_slots := _ |>). constructor; try apply Hs; try done.
  - destruct (dk_count _ _ _ _ Hs). split; [cbn; unfold len in *; by rewrite length_insert|done].
  - lia.
  - apply (direct_put nr nr C (nr + 1) C s s1 nr (slot <| sl_state := DCLAIMED |>)); [exact Hs|lia|reflexivity| |].
    + split; [done|]. rewrite (proj2 (Z.ltb_lt nr (len C))), (proj2 (Z.ltb_lt nr (nr + 1))) by lia. cbn. by destruct Hok as (_ & ? & ?).
    + intros q' slot' Hq' Hne [G1 G2]. split; [done|]. change (in_device s1) with (in_device s).
      replace (q' <? nr + 1) with (q' <? nr) by (apply eq_true_iff_eq; rewrite !Z.ltb_lt; lia). done.
Qed.

(** The batch a receiver works on. *)
Lemma claimed_slot nr nd C s : direct_ok nr nd C s -> nr < nd -> exists slot, index (dr_slots s) (nr mod n) = Some slot /\
  sl_state slot = DCLAIMED /\ 0 < sl_length slot <= size /\ len (sl_data slot) = size /\ C !! Z.to_nat nr = Some (take (Z.to_nat (sl_length slot)) (sl_data slot)).
Proof using Hn.
  intros Hs Hlt. pose proof (dk_range _ _ _ _ Hs) as Hrg. destruct (dk_slots _ _ _ _ Hs nr ltac:(lia)) as (slot & Hi & Hd & Hok). exists slot.
  rewrite (proj2 (Z.ltb_lt nr (len C))), (proj2 (Z.ltb_lt nr nd)) in Hok by lia. destruct Hok as (? & ? & ?). done.
Qed.

Lemma direct_release_ok nr C s : direct_ok nr (nr + 1) C s -> exists s', rtlamr_direct_release s = Some (s', 0) /\ direct_ok (nr + 1) (nr + 1) C s'.
Proof using Hn.
  intros Hs. pose proof (dk_range _ _ _ _ Hs) as Hrg. destruct (claimed_slot _ _ _ _ Hs ltac:(lia)) as (slot & Hi & Hst & _ & Hd & _).
  unfold rtlamr_direct_release. rewrite (dk_consumer _ _ _ _ Hs), Hi. cbn [mbind option_bind]. rewrite Hst, bool_decide_true by done. cbn [negb].
  rewrite (put_slot_eq _ _ _ _ _ _ Hs). cbn [mbind option_bind]. eexists. split; [reflexivity|]. pose proof (Z.mod_pos_bound nr n ltac:(lia)) as Hm.
  set (s1 := s <| dr_slots := _ |> <| dr_consumer := _ |>). destruct (dk_count _ _ _ _ Hs) as [HL HL']. constructor; try apply Hs; try done.
  - split; [cbn; unfold len in *; by rewrite length_insert|done].
  - cbn. rewrite (dk_consumer _ _ _ _ Hs). exact (next_slot_eq nr s _ _ _ Hs).
  - lia.
  - intros D. pose proof (dk_filling _ _ _ _ Hs D). lia.
  - intros q Hq. cbn. rewrite index_insert by lia. change (in_device s1) with (in_device s). destruct (Z.eqb_spec (q mod n) (nr mod n)) as [E|E].
    + assert (q = nr + n) as ->.
      { apply (mod_window n); [lia..|]. rewrite E. replace (nr + n) with (nr + 1 * n) by lia. by rewrite Z_mod_plus_full. }
      eexists. split; [reflexivity|]. split; [done|]. rewrite (proj2 (Z.ltb_ge _ _)) by lia. cbn.
      destruct (in_device s) eqn:Ef; [|by rewrite andb_false_r]. pose proof (dk_filling _ _ _ _ Hs Ef). by rewrite (proj2 (Z.eqb_neq (nr + n) (len C))) by lia.
    + destruct (decide (q = nr + n)) as [->|]; [exfalso; apply E; replace (nr + n) with (nr + 1 * n) by lia; by rewrite Z_mod_plus_full|].
      exact (dk_slots _ _ _ _ Hs q ltac:(lia)).
Qed.

(** A receiver that waits, waits for a thread that can go on. *)
Lemma direct_next_waits nr C s : direct_ok nr nr C s -> rtlamr_direct_next s = None -> len C = nr /\ dr_stopping s = false /\ dr_reader s <> Gone.
Proof using Hn.
  intros Hs E. pose proof (dk_range _ _ _ _ Hs) as Hrg. unfold rtlamr_direct_next in E. rewrite (dk_consumer _ _ _ _ Hs) in E.
  destruct (dk_slots _ _ _ _ Hs nr ltac:(lia)) as (slot & Hi & Hd & Hok). rewrite Hi in E. cbn [mbind option_bind] in E.
  rewrite (put_slot_eq _ _ _ _ _ _ Hs), Z.ltb_irrefl in *. destruct (bool_decide_reflect (sl_state slot = DREADY)) as [|Es]; [done|].
  destruct (dr_read_done s) eqn:Ed, (dr_stopping s) eqn:Est; try done. split; [|split; [done|intros G]].
  - destruct (Z.ltb_spec nr (len C)); [|lia]. by destruct Hok.
  - pose proof (dk_reader _ _ _ _ Hs) as D. rewrite G in D. congruence.
Qed.
End Ring.

Section DirectSystem.
Context (n size : Z).
Hypothesis (Hn : 0 < n < 2 ^ 32).

(** What was handed out is a prefix of what was read; while no error has ended the run,
    the ring holds the rest. *)
Record direct_well (s : direct_system) : Prop := {
  dw_prefix : exists queue, dy_completed s = dy_delivered s ++ queue;
  dw_ring : dy_error s = None -> exists nr, direct_ok n size nr (len (dy_delivered s)) (dy_completed s) (dy_ring s) /\
    len (dy_delivered s) = nr + flag (dy_batchActive s) }.

Lemma direct_well_reader s ring batch : direct_well s ->
  (forall nr nd, direct_ok n size nr nd (dy_completed s) (dy_ring s) -> direct_ok n size nr nd (dy_completed s ++ batch) ring) ->
  direct_well (s <| dy_ring := ring |> <| dy_completed ::= fun l => l ++ batch |>).
Proof using Type.
  clear. intros [[queue Hq] Hr] Hok. split; cbn.
  - exists (queue ++ batch). by rewrite Hq, <- app_assoc.
  - intros He. destruct (Hr He) as (nr & Hring & Hnd). exists nr. split; [by apply Hok|done].
Qed.

Lemma direct_well_ring s ring : direct_well s ->
  (forall nr nd, direct_ok n size nr nd (dy_completed s) (dy_ring s) -> direct_ok n size nr nd (dy_completed s) ring) ->
  direct_well (s <| dy_ring := ring |>).
Proof using Type.
  clear. intros [Hq Hr] Hok. split; cbn; [done|]. intros He. destruct (Hr He) as (nr & Hring & Hnd). exists nr. split; [by apply Hok|done].
Qed.

Lemma direct_well_error s ring e : direct_well s -> direct_well (s <| dy_ring := ring |> <| dy_error := Some e |>).
Proof using Type. clear. by intros [Hq _]. Qed.

Lemma reader_step s s' e : direct_well s -> match e with DirectNext | DirectRelease => False | _ => True end ->
  direct_step s e = Some s' -> direct_well s'.
Proof using Hn.
  intros Hw He E. unfold direct_step in E. destruct e as [|bytes|result length| | | |]; try done; destruct (dr_reader (dy_ring s)) eqn:Er; try done.
  all: try (injection E as <-; apply direct_well_ring; [done|]; intros nr nd Hok; pose proof (dk_done _ _ _ _ _ _ Hok) as Kd; pose proof (dk_reader _ _ _ _ _ _ Hok) as Kr;
    rewrite Er in Kd, Kr; apply (direct_ok_same _ _ _ _ _ _ _ Hok); unfold in_device; cbn; rewrite ?Er; by auto).
  - apply bind_Some in E as (ring & Eb & [= <-]). apply direct_well_ring; [done|]. intros nr nd Hok. by eapply reader_begin_ok.
  - apply bind_Some in E as (slot & Hi & E). destruct (Z.eqb_spec (len bytes) (len (sl_data slot))) as [El|]; [|done].
    apply bind_Some in E as (ring & Ep & [= <-]). apply direct_well_ring; [done|]. intros nr nd Hok. by eapply reader_fill_ok.
  - apply bind_Some in E as (slot & Hi & E). apply bind_Some in E as (batch & Hb & E). apply bind_Some in E as (ring & Ee & [= <-]).
    apply direct_well_reader; [done|]. intros nr nd Hok. eapply reader_end_ok; [done..| |done]. unfold read_batch. rewrite Hi. exact Hb.
Qed.

Lemma direct_Next_well s s' : direct_well s -> dy_error s = None -> direct_Next s = Some s' -> direct_well s'.
Proof using Hn.
  intros Hw He E. unfold direct_Next in E. destruct (dy_batchActive s) eqn:Ea.
  { injection E as <-. split; [apply Hw|done]. }
  destruct (dw_ring _ Hw He) as (nr & Hok & Hnd). rewrite Ea in Hnd. cbn [flag] in Hnd. assert (len (dy_delivered s) = nr) as EL by lia. rewrite EL in Hok.
  apply bind_Some in E as ([ring answer] & En & E). destruct answer as [code|[i length]].
  { injection E as <-. by apply direct_well_error. }
  destruct (direct_next_ok n size Hn nr _ _ _ _ _ Hok En) as (-> & Hok' & Hlt & Hslot).
  destruct ((length =? 0) || negb (Z.rem length (dy_blockBytes (s <| dy_ring := ring |>)) =? 0)).
  { apply bind_Some in E as ([ring' code] & _ & [= <-]). split; [apply Hw|done]. }
  cbn [dy_ring] in E. apply bind_Some in E as (slot & Hi & E). apply bind_Some in E as (batch & Hb & [= <-]). cbn in Hi.
  destruct (claimed_slot n size Hn _ _ _ _ Hok' ltac:(lia)) as (slot' & Hi' & _ & Hl & Hd & HC). rewrite Hi in Hi'. injection Hi' as <-.
  destruct Hslot as (slot' & Hi' & Elen). rewrite Hi in Hi'. injection Hi' as <-.
  rewrite Elen in *. rewrite slice_prefix in Hb by lia. injection Hb as <-.
  destruct (dw_prefix _ Hw) as [queue Hq]. assert (nr = Z.of_nat (List.length (dy_delivered s))) as En' by (unfold len in EL; lia).
  split; cbn.
  - rewrite Hq in *. rewrite En', Nat2Z.id, list_lookup_middle_length in HC || (rewrite En', Nat2Z.id, lookup_app_r, Nat.sub_diag in HC by lia).
    destruct queue as [|b queue]; [done|]. cbn in HC. injection HC as ->. exists queue. by rewrite <- app_assoc.
  - intros _. exists nr. assert (len (dy_delivered s ++ [take (Z.to_nat length) (sl_data slot)]) = nr + 1) as -> by (rewrite len_app, EL; done). done.
Qed.

Lemma direct_Release_well s s' : direct_well s -> dy_error s = None -> direct_Release s = Some s' -> direct_well s'.
Proof using Hn.
  intros Hw He E. unfold direct_Release in E. destruct (dy_batchActive s) eqn:Ea; cbn [negb] in E.
  - destruct (dw_ring _ Hw He) as (nr & Hok & Hnd). rewrite Ea in Hnd. cbn [flag] in Hnd. rewrite Hnd in Hok.
    destruct (direct_release_ok n size Hn _ _ _ Hok) as (ring & Er & Hok'). rewrite Er in E. cbn [mbind option_bind] in E. injection E as <-.
    split; [apply Hw|]. intros _. exists (nr + 1). cbn. rewrite Hnd, Z.add_0_r. done.
  - injection E as <-. split; [apply Hw|done].
Qed.

Lemma direct_step_well s s' e : direct_well s -> direct_step s e = Some s' -> direct_well s'.
Proof using Hn.
  intros Hw E. destruct e; try match type of E with direct_step _ ?e = _ => exact (reader_step s s' e Hw I E) end; unfold direct_step in E; destruct (dy_error s) eqn:He; try done.
  - by eapply direct_Next_well.
  - by eapply direct_Release_well.
Qed.

Lemma direct_run_well events : forall s s', direct_well s -> foldM direct_step s events = Some s' -> direct_well s'.
Proof using Hn.
  induction events as [|e events IH]; intros s s' Hw E; cbn in E; [by injection E as <-|]. destruct (direct_step s e) as [s1|] eqn:E1; [|done].
  eapply IH; [|exact E]. by eapply direct_step_well.
Qed.
End DirectSystem.

(** ** Properties *)

(** C39. The stream loses no byte and no error.  Whatever sizes a reader returns, rounds of
    [Next] and [Release] never panic or hang; their batches are whole blocks, and end to
    end, with less than a block left over, they are the bytes that were read; no read
    follows one that failed, whose error is what ends the rounds, and is held back until
    the batch it came with has been handed out. *)
Theorem stream_frames_whole_blocks {Rd E} (Read : Rd -> Z -> Rd * list Z * option E) blockBytes blocks s n rd
  (Hread : forall rd cap rd' bytes e, 0 <= cap -> Read rd cap = (rd', bytes, e) -> len bytes <= cap)
  (Hnew : newStreamReceiverSource blockBytes blocks = Some s) :
  exists rd' s' batches err bytes e rest, stream_rounds Read n rd s = Some (rd', s', batches, err) /\ reads Read rd bytes e rd' /\
    bytes = concat batches ++ rest /\ len rest < blockBytes /\
    Forall (fun b => 0 < len b /\ Z.rem (len b) blockBytes = 0) batches /\
    match err with
    | None => length batches = n /\ sr_pendingErr s' = e
    | Some err => match e with Some e => err = ErrRead e | None => err = ErrNoProgress end
    end.
Proof.
  unfold newStreamReceiverSource in Hnew. destruct (Z.leb_spec blockBytes 0), (Z.leb_spec blocks 0); try done. cbn [orb] in Hnew. injection Hnew as <-.
  destruct (stream_rounds_ok Read Hread n rd [] {| sr_buffer := make (blockBytes * blocks) 0; sr_blockBytes := blockBytes; sr_filled := 0; sr_batchBytes := 0;
    sr_pendingErr := None; sr_batchActive := false |}) as (rd' & s' & batches & err & bytes & e & rest & K1 & K2 & K3 & K4 & _ & K5 & K6); try done.
  - constructor; cbn; [rewrite len_make by nia; nia|rewrite len_make by nia; unfold len; cbn; nia|done].
  - by exists rd', s', batches, err, bytes, e, rest.
Qed.

(** A reader with a script of chunks, of which a call takes what fits. *)
Definition script_read (rd : list (list Z)) (cap : Z) : list (list Z) * list Z * option nat :=
  match rd with
  | [] => ([], [], Some 7%nat)
  | chunk :: rd =>
      if len chunk <=? cap then (rd, chunk, None) else (drop (Z.to_nat cap) chunk :: rd, take (Z.to_nat cap) chunk, None)
  end.

Lemma script_read_fits rd cap rd' bytes e : 0 <= cap -> script_read rd cap = (rd', bytes, e) -> len bytes <= cap.
Proof.
  intros Hc. unfold script_read. destruct rd as [|chunk rd]; [intros [= <- <- <-]; done|].
  destruct (Z.leb_spec (len chunk) cap); intros [= <- <- <-]; [done|]. unfold len. rewrite length_take. lia.
Qed.

Lemma stream_frames_whole_blocks_witness :
  exists s rd' s', newStreamReceiverSource 4 2 = Some s /\
    stream_rounds script_read 9 [[1;2;3]; [4;5]; [6;7;8;9;10;11;12;13;14;15;16;17;18]] s =
      Some (rd', s', [[1;2;3;4]; [5;6;7;8;9;10;11;12]; [13;14;15;16]], Some (ErrRead 7%nat)) /\
    exists bytes rest, reads script_read [[1;2;3]; [4;5]; [6;7;8;9;10;11;12;13;14;15;16;17;18]] bytes (Some 7%nat) rd' /\
      bytes = concat [[1;2;3;4]; [5;6;7;8;9;10;11;12]; [13;14;15;16]] ++ rest /\ len rest < 4.
Proof.
  do 3 eexists. split; [reflexivity|]. split; [vm_compute; reflexivity|].
  destruct (stream_frames_whole_blocks script_read 4 2 _ 9 [[1;2;3]; [4;5]; [6;7;8;9;10;11;12;13;14;15;16;17;18]] script_read_fits eq_refl)
    as (rd' & s' & batches & err & bytes & e & rest & K1 & K2 & K3 & K4 & _ & K6).
  vm_compute in K1. injection K1 as <- <- <- <-. destruct e as [e|]; [|discriminate K6]. injection K6 as <-.
  exists bytes, rest. split; [exact K2|]. split; [exact K3|exact K4].
Defined.

(** C40. The synchronous ring is a queue.  However the reading thread and the receiver are
    interleaved, the batches handed out are, in order and without gap, those the device
    completed, and the ring holds the rest; while the receiver works on a batch its slot
    holds that batch, whatever the thread does; and as long as no error has ended the
    run, the receiver's next call can go on, or the thread is in the device, or the thread
    can. *)
Theorem direct_ring_is_queue size blockBytes memory events s
  (Hcount : 0 < len memory < 2 ^ 32) (Hsize : Forall (fun data => len data = size) memory)
  (Hrun : foldM direct_step (start_direct blockBytes memory) events = Some s) :
  exists queue, dy_completed s = dy_delivered s ++ queue /\
  (dy_error s = None ->
    len queue + (if dy_batchActive s then 1 else 0) <= len memory /\
    (dy_batchActive s = true -> exists slot batch, index (dr_slots (dy_ring s)) (dr_consumer (dy_ring s)) = Some slot /\
       last (dy_delivered s) = Some batch /\ slice 0 (sl_length slot) (sl_data slot) = Some batch) /\
    (is_Some (direct_step s (if dy_batchActive s then DirectRelease else DirectNext)) \/ in_device (dy_ring s) = true \/
     is_Some (direct_step s ReaderBegins) \/ is_Some (direct_step s ReaderLeaves))).
Proof.
  assert (direct_well (len memory) size (start_direct blockBytes memory)) as H0.
  { split; [by exists []|]. intros _. exists 0. split; [by apply direct_start_ok|done]. }
  pose proof (direct_run_well (len memory) size Hcount events _ s H0 Hrun) as [[queue Hq] Hring]. exists queue. split; [exact Hq|]. intros He.
  destruct (Hring He) as (nr & Hok & Hnd). pose proof (dk_range _ _ _ _ _ _ Hok) as Hrg. assert (len (dy_completed s) = len (dy_delivered s) + len queue) as EL by (rewrite Hq, len_app; done).
  split; [destruct (dy_batchActive s); cbn [flag] in Hnd; lia|]. split.
  - intros Ha. rewrite Ha in Hnd. cbn [flag] in Hnd. destruct (claimed_slot _ size Hcount _ _ _ _ Hok ltac:(lia)) as (slot & Hi & _ & Hl & Hd & HC).
    exists slot, (take (Z.to_nat (sl_length slot)) (sl_data slot)). rewrite (dk_consumer _ _ _ _ _ _ Hok). split; [exact Hi|].
    rewrite slice_prefix by lia. split; [|done]. rewrite last_lookup. rewrite Hq in HC. rewrite lookup_app_l in HC by (unfold len in *; lia). rewrite <- HC. f_equal. unfold len in *. lia.
  - unfold direct_step. rewrite He. destruct (dy_batchActive s) eqn:Ea; cbn [flag] in Hnd.
    { left. rewrite Hnd in Hok. destruct (direct_release_ok _ size Hcount _ _ _ Hok) as (ring & Er & _). unfold direct_Release. rewrite Ea, Er. cbn. by eexists. }
    assert (len (dy_delivered s) = nr) as En by lia. rewrite En in Hok. destruct (rtlamr_direct_next (dy_ring s)) as [[ring answer]|] eqn:E.
    + left. unfold direct_Next. rewrite Ea, E. cbn [mbind option_bind]. destruct answer as [code|[i length]]; [by eexists|].
      destruct (direct_next_ok _ size Hcount nr _ _ _ _ _ Hok E) as (-> & Hok' & Hlt & slot' & Hi' & El). destruct (_ || _).
      { destruct (direct_release_ok _ size Hcount _ _ _ Hok') as (ring' & Er & _). cbn [dy_ring]. cbn. rewrite Er. by eexists. }
      destruct (claimed_slot _ size Hcount _ _ _ _ Hok' ltac:(lia)) as (slot & Hi & _ & Hl & Hd & _). rewrite Hi in Hi'. injection Hi' as <-. cbn [dy_ring]. cbn. rewrite Hi. cbn.
      rewrite slice_prefix by lia. by eexists.
    + right. destruct (direct_next_waits _ size Hcount nr _ _ Hok E) as (EC & Est & Hgone). unfold in_device. destruct (dr_reader (dy_ring s)) eqn:Er; [|by left| |done].
      * right; left. destruct (producer_slot _ size Hcount _ _ _ _ Hok) as (slot & Hi & Hroom & _); [unfold in_device; by rewrite Er|].
        unfold reader_begin. rewrite Hi. cbn [mbind option_bind]. rewrite Est, bool_decide_true by (apply Hroom; lia).
        rewrite (dk_producer _ _ _ _ _ _ Hok), (put_slot_eq _ size Hcount _ _ _ _ _ _ Hok). cbn. by eexists.
      * right; right. by eexists.
Qed.

(** Two slots: the receiver works on the first batch while the thread completes the next. *)
Definition direct_memory : list (list Z) := [[0;0;0;0]; [0;0;0;0]].
Definition direct_events : list direct_event :=
  [ReaderBegins; ReaderFills [1;2;3;4]; ReaderEnds 0 4; ReaderBegins; DirectNext; ReaderFills [5;6;7;8]; ReaderEnds 0 4].

Lemma direct_ring_is_queue_witness :
  exists s, foldM direct_step (start_direct 2 direct_memory) direct_events = Some s /\ dy_delivered s = [[1;2;3;4]] /\
    direct_step s ReaderBegins = None /\
    exists queue, dy_completed s = dy_delivered s ++ queue /\ len queue + 1 <= 2 /\
    (exists slot batch, index (dr_slots (dy_ring s)) (dr_consumer (dy_ring s)) = Some slot /\
       last (dy_delivered s) = Some batch /\ slice 0 (sl_length slot) (sl_data slot) = Some batch) /\
    (is_Some (direct_step s DirectRelease) \/ in_device (dy_ring s) = true \/ is_Some (direct_step s ReaderBegins) \/ is_Some (direct_step s ReaderLeaves)).
Proof.
  destruct (foldM direct_step (start_direct 2 direct_memory) direct_events) as [s|] eqn:E; [|vm_compute in E; discriminate E].
  destruct (direct_ring_is_queue 4 2 direct_memory direct_events s ltac:(split; reflexivity) ltac:(repeat constructor) E) as (queue & Hq & H).
  exists s. vm_compute in E. injection E as <-. split; [reflexivity|]. split; [reflexivity|]. split; [reflexivity|]. exists queue. split; [exact Hq|].
  destruct (H eq_refl) as (H1 & H2 & H3). split; [exact H1|]. split; [exact (H2 eq_refl)|exact H3].
Defined.
