(* ===== verification/DutyPolicy.v ===== *)
(** The policy file of the duty scheduler (src/duty_policy.go): which file is accepted,
    how its document changes the default configuration, and the check of the result.
    The files (os.Lstat, os.ReadFile), the JSON decoder and time.ParseDuration are
    parameters. *)

From stdpp Require Import sorting.
From S2P Require Import Prelude Float64 DutyMath Update DutyModel Scheduler DutyDefaults DutyState.

Definition dutyPolicySchema : list Z := str "rtlamr-duty-scheduler-policy-v1".
Definition dutyPolicyMaxBytes : Z := 2 ^ 20.

(** A duration is its text; a number that may be left out is an option. *)
Record dutySenderPolicy := { dp_ID : Z; dp_Overdue : list Z; dp_CountWindow : list Z; dp_MinimumCount : Z }.

Record dutyPolicyDocument := {
  pd_Schema : list Z; pd_Confidence : option f64; pd_MinimumAudit : option f64; pd_RecoveryDuration : list Z;
  pd_RefreshInterval : list Z; pd_RefreshDuration : list Z; pd_PromotionMargin : option f64; pd_PromotionStability : list Z;
  pd_WatchdogHistory : option Z; pd_WatchdogMinIntervals : option Z; pd_WatchdogWindow : list Z;
  pd_WatchdogQuantile : option f64; pd_WatchdogMargin : option f64; pd_Senders : list dutySenderPolicy }.

#[export] Instance SenderConfig_settable : Settable SenderConfig := fun c =>
  Build_SenderConfig (ID c) (Overdue c) (CountWindow c) (MinimumCount c).

(** What Lstat says of the file. *)
Record policy_info := { pi_regular : bool; pi_symlink : bool; pi_perm : Z; pi_size : Z }.

Definition policy_error (what : string) : state_error := ErrInvalid (str what).

(** The audit of every candidate is raised to the minimum. *)
Definition raise_audit (minimum : f64) (c : CandidateConfig) : CandidateConfig :=
  if flt (AuditFraction c) minimum then c <| AuditFraction := minimum |> else c.

(** The numbers of the document. *)
Definition apply_numbers (policy : dutyPolicyDocument) (config : Config) : Config :=
  let config := match pd_Confidence policy with Some x => config <| Confidence := x |> | None => config end in
  let config := match pd_MinimumAudit policy with
                | Some x => config <| MinimumAudit := x |> <| Candidates ::= map (raise_audit x) |>
                | None => config
                end in
  let config := match pd_PromotionMargin policy with Some x => config <| PromotionMargin := x |> | None => config end in
  let config := match pd_WatchdogHistory policy with Some x => config <| WatchdogHistory := x |> | None => config end in
  let config := match pd_WatchdogMinIntervals policy with Some x => config <| WatchdogMinIntervals := x |> | None => config end in
  let config := match pd_WatchdogQuantile policy with Some x => config <| WatchdogQuantile := x |> | None => config end in
  match pd_WatchdogMargin policy with Some x => config <| WatchdogMargin := x |> | None => config end.

(** [configured]: the place of a sender by its id, the last one of equal ids. *)
Definition configured_senders (senders : list SenderConfig) : gmap Z nat :=
  foldl (fun m '(idx, sender) => <[ID sender := idx]> m) ∅ (imap (fun idx sender => (idx, sender)) senders).

Section Policy.
Context (ParseDuration : list Z -> option Z) (Lstat : list Z -> option policy_info) (ReadFile : list Z -> option (list Z))
  (Decode : list Z -> option (dutyPolicyDocument * list Z)) (DecodeEOF : list Z -> bool).

(** [parseOptionalDuration]: the new value of the target. *)
Definition parseOptionalDuration (label : string) (value : list Z) (target : Z) : Result Z :=
  if bool_decide (value = []) then mret target else
  match ParseDuration value with
  | Some parsed => if parsed <=? 0 then inl (policy_error (String.append "dutyscheduler: invalid " label)) else mret parsed
  | None => inl (policy_error (String.append "dutyscheduler: invalid " label))
  end.

(** The durations of the document. *)
Definition apply_durations (policy : dutyPolicyDocument) (config : Config) : Result Config :=
  d ← parseOptionalDuration "recovery duration" (pd_RecoveryDuration policy) (RecoveryDuration config);
  let config := config <| RecoveryDuration := d |> in
  d ← parseOptionalDuration "refresh interval" (pd_RefreshInterval policy) (RefreshInterval config);
  let config := config <| RefreshInterval := d |> in
  d ← parseOptionalDuration "refresh duration" (pd_RefreshDuration policy) (RefreshDuration config);
  let config := config <| RefreshDuration := d |> in
  d ← parseOptionalDuration "promotion stability" (pd_PromotionStability policy) (PromotionStability config);
  let config := config <| PromotionStability := d |> in
  d ← parseOptionalDuration "watchdog window" (pd_WatchdogWindow policy) (WatchdogWindow config);
  mret (config <| WatchdogWindow := d |>).

(** One sender of the document: each may be named once, and must be configured. *)
Definition apply_sender_policy (configured : gmap Z nat) (st : gset Z * Config) (p : dutySenderPolicy) : Result (gset Z * Config) :=
  let '(seen, config) := st in
  match configured !! dp_ID p with
  | None => inl (policy_error "dutyscheduler: invalid policy sender inventory")
  | Some idx =>
      if bool_decide (dp_ID p ∈ seen) || (dp_MinimumCount p <? 0) then inl (policy_error "dutyscheduler: invalid policy sender inventory") else
      sender ← of_option (policy_error "index out of range") (Senders config !! idx);
      overdue ← parseOptionalDuration "sender overdue" (dp_Overdue p) (Overdue sender);
      window ← parseOptionalDuration "sender count window" (dp_CountWindow p) (CountWindow sender);
      let sender := sender <| Overdue := overdue |> <| CountWindow := window |> <| MinimumCount := dp_MinimumCount p |> in
      mret ({[dp_ID p]} ∪ seen, config <| Senders ::= fun l => <[idx := sender]> l |>)
  end.

(** What the document makes of a configuration. *)
Definition apply_policy (policy : dutyPolicyDocument) (config : Config) : Result Config :=
  config ← apply_durations policy (apply_numbers policy config);
  st ← foldR (apply_sender_policy (configured_senders (Senders config))) (∅, config) (pd_Senders policy);
  match New (snd st) with None => inl ErrNew | Some _ => mret (snd st) end.

(** [loadDutySchedulerConfig] *)
Definition loadDutySchedulerConfig (mode : Mode) (ids : list Z) (captureTarget : f64) (path : list Z) : Result Config :=
  let config := (DefaultConfig mode ids) <| CaptureTarget := captureTarget |> in
  if bool_decide (path = []) then mret config else
  info ← of_option (policy_error "lstat") (Lstat path);
  _ ← reject (negb (pi_regular info) || pi_symlink info || negb (Z.land (pi_perm info) 63 =? 0) || (pi_size info <=? 0) ||
              (dutyPolicyMaxBytes <? pi_size info)) "dutyscheduler: invalid policy file";
  contents ← of_option (policy_error "read file") (ReadFile path);
  '(policy, rest) ← of_option (policy_error "dutyscheduler: decode policy") (Decode contents);
  _ ← reject (negb (DecodeEOF rest)) "dutyscheduler: policy contains trailing data";
  _ ← reject (negb (bool_decide (pd_Schema policy = dutyPolicySchema))) "dutyscheduler: unsupported policy schema";
  apply_policy policy config.
End Policy.

(** ** What a policy can change *)

(** A candidate of the default list, with its audit raised to the minimum where it was
    below it, and nothing else changed. *)
Definition default_candidate (minimum : f64) (c d : CandidateConfig) : Prop :=
  (flt (AuditFraction d) minimum = true /\ c = d <| AuditFraction := minimum |>) \/ (flt (AuditFraction d) minimum = false /\ c = d).

Lemma flt_irreflexive x : flt x x = false.
Proof. unfold flt, SFltb, SFcompare. destruct x as [s|[]| |[] m e]; try done; cbn; rewrite Z.compare_refl, ?Pos.compare_cont_refl; done. Qed.

(** No audit is below the minimum. *)
Lemma default_candidate_audit minimum c d : default_candidate minimum c d -> flt (AuditFraction c) minimum = false.
Proof. intros [[_ ->]|[H ->]]; [apply flt_irreflexive|done]. Qed.

(** A sender is unseeded, or seeded by the one entry of the document that names it. *)
Definition seeded_by (policies : list dutySenderPolicy) (sender : SenderConfig) : Prop :=
  sender = DefaultSenderConfig (ID sender) \/ exists p, p ∈ policies /\ dp_ID p = ID sender /\ MinimumCount sender = dp_MinimumCount p.

Record policy_inv (mode : Mode) (ids : list Z) (target : f64) (policies : list dutySenderPolicy) (config : Config) : Prop := {
  pv_mode : cfg_Mode config = mode;
  pv_target : CaptureTarget config = target;
  pv_seed : RandomSeed config = RandomSeed (DefaultConfig mode ids);
  pv_ids : map ID (Senders config) = merge_sort Z.le ids;
  pv_senders : Forall (seeded_by policies) (Senders config);
  pv_candidates : Forall2 (default_candidate (MinimumAudit config)) (Candidates config) DefaultCandidates }.

Lemma default_policy_inv mode ids target policies : policy_inv mode ids target policies ((DefaultConfig mode ids) <| CaptureTarget := target |>).
Proof.
  constructor; try done; cbn.
  - rewrite map_map. apply map_id.
  - apply Forall_fmap, Forall_true. intros id. by left.
  - apply Forall_Forall2_diag. unfold DefaultCandidates. cbn. by repeat (constructor; [right; split; [vm_compute; reflexivity|done]|]).
Qed.

Lemma policy_inv_same mode ids target policies config config' : policy_inv mode ids target policies config ->
  cfg_Mode config' = cfg_Mode config -> CaptureTarget config' = CaptureTarget config -> RandomSeed config' = RandomSeed config ->
  Senders config' = Senders config -> Candidates config' = Candidates config -> MinimumAudit config' = MinimumAudit config ->
  policy_inv mode ids target policies config'.
Proof. intros [] E1 E2 E3 E4 E5 E6. constructor; by rewrite ?E1, ?E2, ?E3, ?E4, ?E5, ?E6. Qed.

Lemma apply_numbers_inv mode ids target policies policy :
  policy_inv mode ids target policies (apply_numbers policy ((DefaultConfig mode ids) <| CaptureTarget := target |>)).
Proof.
  pose proof (default_policy_inv mode ids target policies) as H0. unfold apply_numbers. cbv zeta. set (c0 := (DefaultConfig mode ids) <| CaptureTarget := target |>) in *.
  assert (Candidates c0 = DefaultCandidates) as E0 by done. clearbody c0.
  set (c1 := match pd_Confidence policy with Some _ => _ | None => c0 end).
  assert (policy_inv mode ids target policies c1 /\ Candidates c1 = DefaultCandidates) as [H1 E1].
  { unfold c1. destruct (pd_Confidence policy); [|done]. split; [by apply (policy_inv_same _ _ _ _ c0)|done]. }
  clearbody c1. set (c2 := match pd_MinimumAudit policy with Some _ => _ | None => c1 end).
  assert (policy_inv mode ids target policies c2) as H2.
  { unfold c2. destruct (pd_MinimumAudit policy) as [x|]; [|done]. destruct H1. constructor; try done. cbn. rewrite E1.
    apply Forall2_fmap_l, Forall_Forall2_diag, Forall_true. intros c. unfold compose, raise_audit, default_candidate. destruct (flt (AuditFraction c) x); [by left|by right]. }
  clearbody c2. set (c3 := match pd_PromotionMargin policy with Some _ => _ | None => c2 end).
  assert (policy_inv mode ids target policies c3) as H3 by (unfold c3; destruct (pd_PromotionMargin policy); [by apply (policy_inv_same _ _ _ _ c2)|done]).
  clearbody c3. set (c4 := match pd_WatchdogHistory policy with Some _ => _ | None => c3 end).
  assert (policy_inv mode ids target policies c4) as H4 by (unfold c4; destruct (pd_WatchdogHistory policy); [by apply (policy_inv_same _ _ _ _ c3)|done]).
  clearbody c4. set (c5 := match pd_WatchdogMinIntervals policy with Some _ => _ | None => c4 end).
  assert (policy_inv mode ids target policies c5) as H5 by (unfold c5; destruct (pd_WatchdogMinIntervals policy); [by apply (policy_inv_same _ _ _ _ c4)|done]).
  clearbody c5. set (c6 := match pd_WatchdogQuantile policy with Some _ => _ | None => c5 end).
  assert (policy_inv mode ids target policies c6) as H6 by (unfold c6; destruct (pd_WatchdogQuantile policy); [by apply (policy_inv_same _ _ _ _ c5)|done]).
  clearbody c6. destruct (pd_WatchdogMargin policy); [by apply (policy_inv_same _ _ _ _ c6)|done].
Qed.

Lemma Result_bind_inr {A B} (f : A -> Result B) (r : Result A) y : (r ≫= f) = inr y -> exists x, r = inr x /\ f x = inr y.
Proof. destruct r as [e|x]; [done|]. intros E. by exists x. Qed.

Section Spec.
Context (ParseDuration : list Z -> option Z) (Lstat : list Z -> option policy_info) (ReadFile : list Z -> option (list Z))
  (Decode : list Z -> option (dutyPolicyDocument * list Z)) (DecodeEOF : list Z -> bool).

Lemma apply_durations_inv mode ids target policies policy config config' : policy_inv mode ids target policies config ->
  apply_durations ParseDuration policy config = inr config' -> policy_inv mode ids target policies config'.
Proof.
  intros Hc E. unfold apply_durations in E. repeat (apply Result_bind_inr in E as (? & _ & E)). injection E as <-. by apply (policy_inv_same _ _ _ _ config).
Qed.

(** The place that the map gives a sender is the sender's. *)
Lemma configured_senders_at senders id idx : configured_senders senders !! id = Some idx -> exists sender, senders !! idx = Some sender /\ ID sender = id.
Proof.
  unfold configured_senders. assert (forall l m, (forall idx sender, (idx, sender) ∈ l -> senders !! idx = Some sender) ->
    (forall id idx, m !! id = Some idx -> exists sender, senders !! idx = Some sender /\ ID sender = id) ->
    foldl (fun (m : gmap Z nat) '(idx, sender) => <[ID sender := idx]> m) m l !! id = Some idx -> exists sender, senders !! idx = Some sender /\ ID sender = id) as K.
  { induction l as [|[i sender] l IH]; intros m Hl Hm; [apply Hm|]. cbn [foldl]. apply IH; [intros j r Hj; apply Hl; by right|].
    intros id' idx' E. destruct (decide (ID sender = id')) as [<-|Hne].
    - rewrite lookup_insert in E. rewrite decide_True in E by done. injection E as <-. exists sender. split; [|done]. apply Hl. by left.
    - rewrite lookup_insert_ne in E by done. by apply Hm. }
  apply K; [|by intros id' idx' E; rewrite lookup_empty in E]. intros i sender Hin. apply elem_of_lookup_imap in Hin as (j & y & E & Hj). by injection E as -> ->.
Qed.

Lemma apply_sender_policy_inv mode ids target policies configured seen config p st' : policy_inv mode ids target policies config -> p ∈ policies ->
  (forall id idx, configured !! id = Some idx -> exists sender, Senders config !! idx = Some sender /\ ID sender = id) ->
  apply_sender_policy ParseDuration configured (seen, config) p = inr st' ->
  policy_inv mode ids target policies (snd st') /\
  (forall id idx, configured !! id = Some idx -> exists sender, Senders (snd st') !! idx = Some sender /\ ID sender = id).
Proof.
  intros [] Hp Hm E. unfold apply_sender_policy in E. destruct (configured !! dp_ID p) as [idx|] eqn:Ei; [|done]. destruct (_ || _); [done|].
  destruct (Hm _ _ Ei) as (sender & Es & Hid). rewrite Es in E. cbn [of_option] in E. apply Result_bind_inr in E as (s0 & E0 & E). injection E0 as <-.
  apply Result_bind_inr in E as (overdue & _ & E). apply Result_bind_inr in E as (window & _ & E). injection E as <-. cbn [snd]. set (sender' := sender <| Overdue := _ |> <| CountWindow := _ |> <| MinimumCount := _ |>).
  assert (ID sender' = ID sender) as Hid' by done. split.
  - constructor; try done; cbn.
    + rewrite list_fmap_insert, Hid', list_insert_id; [done|]. change (map ID (Senders config)) with (ID <$> Senders config). rewrite list_lookup_fmap, Es. done.
    + apply Forall_insert; [done|]. right. exists p. split; [done|]. by rewrite Hid'.
  - intros id i Hi. destruct (Hm _ _ Hi) as (s1 & E1 & H1). cbn. destruct (decide (idx = i)) as [<-|Hne].
    + exists sender'. rewrite list_lookup_insert, decide_True; [|split; [done|by apply lookup_lt_Some in Es]]. split; [done|]. rewrite Hid'. congruence.
    + exists s1. by rewrite list_lookup_insert_ne.
Qed.

Lemma apply_policies_inv mode ids target policies configured l : forall seen config st', (forall p, p ∈ l -> p ∈ policies) -> policy_inv mode ids target policies config ->
  (forall id idx, configured !! id = Some idx -> exists sender, Senders config !! idx = Some sender /\ ID sender = id) ->
  foldR (apply_sender_policy ParseDuration configured) (seen, config) l = inr st' -> policy_inv mode ids target policies (snd st').
Proof.
  induction l as [|p l IH]; intros seen config st' Hl Hc Hm E; cbn [foldR] in E; [by injection E as <-|].
  apply Result_bind_inr in E as ([seen1 config1] & E1 & E). destruct (apply_sender_policy_inv mode ids target policies configured seen config p _ Hc (Hl p ltac:(by left)) Hm E1) as [H1 M1].
  apply (IH seen1 config1 st'); [|done|done|done]. intros q Hq. apply Hl. by right.
Qed.
End Spec.

(** ** The property *)

(** What was loaded from a file. *)
Lemma loaded_from_file ParseDuration Lstat ReadFile Decode DecodeEOF mode ids captureTarget path config : path <> [] ->
  loadDutySchedulerConfig ParseDuration Lstat ReadFile Decode DecodeEOF mode ids captureTarget path = inr config ->
  exists info contents document rest,
    Lstat path = Some info /\ pi_regular info = true /\ pi_symlink info = false /\ Z.land (pi_perm info) 63 = 0 /\ 0 < pi_size info <= 2 ^ 20 /\
    ReadFile path = Some contents /\ Decode contents = Some (document, rest) /\ DecodeEOF rest = true /\
    policy_inv mode ids captureTarget (pd_Senders document) config /\ is_Some (New config).
Proof.
  intros Hne Hload. unfold loadDutySchedulerConfig in Hload. cbv zeta in Hload. rewrite bool_decide_false in Hload by done.
  apply Result_bind_inr in Hload as (info & Einfo & E). destruct (Lstat path) as [info'|]; [|done]. injection Einfo as ->.
  apply Result_bind_inr in E as ([] & Er & E). unfold reject in Er. destruct (negb (pi_regular info) || _ || _ || _ || _) eqn:Eb; [done|].
  rewrite !orb_false_iff, !negb_false_iff, Z.eqb_eq, Z.leb_gt, Z.ltb_ge in Eb. destruct Eb as [[[[B1 B2] B3] B4] B5].
  apply Result_bind_inr in E as (contents & Ec & E). destruct (ReadFile path) as [contents'|]; [|done]. injection Ec as ->.
  apply Result_bind_inr in E as ([document rest] & Ed & E). destruct (Decode contents) as [dr|] eqn:Edec; [|done]. injection Ed as ->.
  apply Result_bind_inr in E as ([] & Ee & E). unfold reject in Ee. destruct (DecodeEOF rest) eqn:Eeof; [|done].
  apply Result_bind_inr in E as ([] & _ & E). unfold apply_policy in E.
  apply Result_bind_inr in E as (c1 & E1 & E). pose proof (apply_numbers_inv mode ids captureTarget (pd_Senders document) document) as Hn.
  apply (apply_durations_inv _ _ _ _ _ _ _ _ Hn) in E1. apply Result_bind_inr in E as ([seen c2] & E2 & E). cbn [snd] in E.
  destruct (New c2) as [s0|] eqn:En; [|done]. injection E as <-.
  apply (apply_policies_inv _ mode ids captureTarget (pd_Senders document)) in E2; [|done|done|apply configured_senders_at]. cbn [snd] in E2.
  exists info, contents, document, rest. rewrite En. unfold dutyPolicyMaxBytes in B5. do 9 (split; [done|]). done.
Qed.

Lemma loaded_mode ParseDuration Lstat ReadFile Decode DecodeEOF mode ids captureTarget path config :
  loadDutySchedulerConfig ParseDuration Lstat ReadFile Decode DecodeEOF mode ids captureTarget path = inr config -> cfg_Mode config = mode.
Proof.
  intros E. destruct (decide (path = [])) as [-> | Hne]; [by injection E as <- |].
  apply loaded_from_file in E as (info & contents & document & rest & _ & _ & _ & _ & _ & _ & _ & _ & [Hm _ _ _ _ _] & _); done.
Qed.

(** C34. A policy file cannot bypass the scheduler's rules.  A configuration that is loaded
    has the mode, the capture target and the senders that were asked for; its candidates
    are the default ones, the audit of each that was below the minimum raised to it and
    nothing else of them changed, so that none is below the minimum; a sender is seeded only by an entry
    of the document that names it; and when it comes from a file, the file was a private
    regular one of bounded size, and the scheduler's constructor accepts the configuration. *)
Theorem policy_cannot_bypass ParseDuration Lstat ReadFile Decode DecodeEOF mode ids captureTarget path config
  (Hload : loadDutySchedulerConfig ParseDuration Lstat ReadFile Decode DecodeEOF mode ids captureTarget path = inr config) :
  cfg_Mode config = mode /\ CaptureTarget config = captureTarget /\ map ID (Senders config) = merge_sort Z.le ids /\
  Forall2 (default_candidate (MinimumAudit config)) (Candidates config) DefaultCandidates /\
  Forall (fun c => flt (AuditFraction c) (MinimumAudit config) = false) (Candidates config) /\
  if decide (path = []) then config = (DefaultConfig mode ids) <| CaptureTarget := captureTarget |>
  else exists info contents document rest,
    Lstat path = Some info /\ pi_regular info = true /\ pi_symlink info = false /\ Z.land (pi_perm info) 63 = 0 /\ 0 < pi_size info <= 2 ^ 20 /\
    ReadFile path = Some contents /\ Decode contents = Some (document, rest) /\ DecodeEOF rest = true /\
    Forall (seeded_by (pd_Senders document)) (Senders config) /\ is_Some (New config).
Proof.
  assert (forall minimum cs ds, Forall2 (default_candidate minimum) cs ds -> Forall (fun c => flt (AuditFraction c) minimum = false) cs) as Haudit.
  { intros minimum cs ds HF. induction HF as [|c d cs ds Hc _ IH]; constructor; [by eapply default_candidate_audit|done]. }
  destruct (decide (path = [])) as [->|Hne].
  - injection Hload as <-. destruct (default_policy_inv mode ids captureTarget []). do 4 (split; [done|]). split; [by eapply Haudit|done].
  - apply loaded_from_file in Hload as (info & contents & document & rest & H1 & H2 & H3 & H4 & H5 & H6 & H7 & H8 & [] & H9); [|done].
    do 4 (split; [done|]). split; [by eapply Haudit|]. exists info, contents, document, rest. done.
Qed.

(** A file that raises the audit, shortens the recovery and seeds one of two senders. *)
Definition demo_document : dutyPolicyDocument :=
  {| pd_Schema := dutyPolicySchema; pd_Confidence := None; pd_MinimumAudit := Some (fof 1 (-2)); pd_RecoveryDuration := str "2m";
     pd_RefreshInterval := []; pd_RefreshDuration := []; pd_PromotionMargin := None; pd_PromotionStability := []; pd_WatchdogHistory := Some 64;
     pd_WatchdogMinIntervals := None; pd_WatchdogWindow := []; pd_WatchdogQuantile := None; pd_WatchdogMargin := None;
     pd_Senders := [{| dp_ID := 7; dp_Overdue := str "5m"; dp_CountWindow := str "9m"; dp_MinimumCount := 3 |}] |}.

(** Minutes of one digit. *)
Definition demo_duration (text : list Z) : option Z :=
  match text with [d; unit] => if unit =? 109 then Some ((d - 48) * minute) else None | _ => None end.

Definition demo_info (_ : list Z) : option policy_info := Some {| pi_regular := true; pi_symlink := false; pi_perm := 256; pi_size := 9 |}.
Definition demo_contents (_ : list Z) : option (list Z) := Some [123; 125].
Definition demo_decode (_ : list Z) : option (dutyPolicyDocument * list Z) := Some (demo_document, []).
Definition demo_eof (rest : list Z) : bool := bool_decide (rest = []).

Lemma policy_cannot_bypass_witness :
  exists config s0, loadDutySchedulerConfig demo_duration demo_info demo_contents demo_decode demo_eof ModeGated [7; 3] (fof 1 (-1)) (str "policy.json") = inr config /\ New config = Some s0 /\ RecoveryDuration config = 2 * minute /\
    map ID (Senders config) = [3; 7] /\ map Overdue (Senders config) = [0; 5 * minute] /\
    Forall (seeded_by (pd_Senders demo_document)) (Senders config).
Proof.
  assert (match loadDutySchedulerConfig demo_duration demo_info demo_contents demo_decode demo_eof ModeGated [7; 3] (fof 1 (-1)) (str "policy.json") with inr c => (RecoveryDuration c, map Overdue (Senders c)) | inl _ => (0, []) end = (2 * minute, [0; 5 * minute])) as E
    by (vm_compute; reflexivity).
  destruct (loadDutySchedulerConfig _ _ _ _ _ _ _ _ _) as [e|config] eqn:El; [discriminate E|]. injection E as E1 E2.
  destruct (policy_cannot_bypass _ _ _ _ _ _ _ _ _ config El) as (_ & _ & Hids & _ & _ & K).
  destruct (decide (str "policy.json" = [])) as [E0|_]; [discriminate E0|].
  destruct K as (info & contents & document & rest & _ & _ & _ & _ & _ & _ & Kd & _ & Ks & Kn). injection Kd as <- _.
  destruct Kn as [s0 Kn]. exists config, s0. split; [reflexivity|]. split; [exact Kn|]. split; [exact E1|]. split; [|split; [exact E2|exact Ks]].
  rewrite Hids. vm_compute. reflexivity.
Defined.
