(* ===== verification/Protocols.v ===== *)
(** The decoder that the program builds (src/main.go: expandAllMessageTypes,
    sortedProtocolNames, newProtocolDecoder; the init functions of the protocol
    packages): the six parsers behind the parser interface, the registry of
    constructors, and what the parsers see once the decoder has been returned by
    value. *)

From stdpp Require Import sorting.
From S2P Require Import Prelude Crc Gf Packet Layout Scm ScmPlus Idm NetIdm Float64 R900 R900Bcd Search Ring History Signal Register.
From S2P Require Import Decode Receiver DutyState.

(** ** The parsers *)

(** An interface value of type [protocol.Parser]; the pointers of the two R900
    parsers into their decoder are supplied with every call, [attached] says whether
    SetPower16History has stored one. *)
Inductive Parser :=
  | ScmParser (p : Scm.Parser)
  | ScmPlusParser (p : ScmPlus.Parser)
  | IdmParser (p : Idm.Parser)
  | NetIdmParser (p : NetIdm.Parser)
  | R900Parser (p : R900.Parser) (attached : bool)
  | R900BcdParser (p : R900Bcd.Parser) (attached : bool).

(** The R900 parser while it holds its decoder, and after a call. *)
Definition holding (v : View) (attached : bool) (p : R900.Parser) : R900.Parser :=
  R900.SetPower16History (R900.SetDecoder p {| d_Cfg := v_Cfg v; d_SignalWindow := v_SignalWindow v |})
    (if attached then Some (v_Power16Window v) else None).

Definition released (p : R900.Parser) : R900.Parser :=
  {| R900.Decoder := None; R900.cfg := R900.cfg p; field := field p; rsBuf := rsBuf p; powerHistory := None;
     R900.seen := R900.seen p; candidateIdx := candidateIdx p; once := once p |}.

(** A parser of plain messages appends to the shared list. *)
Definition appending {P} (wrap : P -> Parser) (messages : list AnyMessage) (r : option (P * list Message)) : option (Parser * list AnyMessage) :=
  '(p, new) ← r; Some (wrap p, messages ++ map AnOther new).

#[export] Instance program_parsers `{QuantizerPlatform} : ParserOps Parser AnyMessage := {|
  Cfg_of p := match p with
    | ScmParser p => Scm.cfg p | ScmPlusParser p => ScmPlus.cfg p | IdmParser p => Idm.cfg p | NetIdmParser p => NetIdm.cfg p
    | R900Parser p _ => R900.cfg p | R900BcdParser p _ => R900.cfg (inner p) end;
  power16_compatible p := match p with
    | IdmParser p => Some (Idm.Power16Compatible p) | R900Parser p _ => Some (R900.Power16Compatible p)
    | R900BcdParser p _ => Some (R900Bcd.Power16Compatible p) | _ => None end;
  set_power16_history p := match p with
    | R900Parser p _ => Some (R900Parser p) | R900BcdParser p _ => Some (R900BcdParser p) | _ => None end;
  history_overlap p := match p with
    | R900Parser p _ => Some (R900.SignalHistoryOverlap p) | R900BcdParser p _ => Some (R900Bcd.SignalHistoryOverlap p) | _ => None end;
  packet_bytes_only p := match p with IdmParser p => Some (Idm.PacketBytesOnly p) | _ => None end;
  parse_indices p := match p with
    | R900Parser p attached => Some (fun v indices messages =>
        '(p, messages) ← R900.ParseCandidateIndices (holding v attached p) indices messages; Some (R900Parser (released p) attached, messages))
    | _ => None end;
  parse v p pkts messages := match p with
    | ScmParser p => appending ScmParser messages (Scm.Parse p pkts [])
    | ScmPlusParser p => appending ScmPlusParser messages (ScmPlus.Parse p pkts [])
    | IdmParser p => appending IdmParser messages (Idm.Parse p pkts [])
    | NetIdmParser p => appending NetIdmParser messages (NetIdm.Parse p pkts [])
    | R900Parser p attached =>
        '(p, messages) ← R900.Parse (holding v attached p) pkts messages; Some (R900Parser (released p) attached, messages)
    | R900BcdParser p attached =>
        '(p, messages) ← R900Bcd.Parse {| inner := holding v attached (inner p) |} pkts messages;
        Some (R900BcdParser {| inner := released (inner p) |} attached, messages) end |}.

(** ** The registry of constructors *)

(** The constructors that the init functions register; [None] where a constructor panics. *)
Definition registrations : list (list Z * (Z -> option Parser)) :=
  [(str "idm", fun chipLength => Some (IdmParser (Idm.NewParser chipLength)));
   (str "netidm", fun chipLength => Some (NetIdmParser (NetIdm.NewParser chipLength)));
   (str "r900", fun chipLength => p ← R900.NewParser chipLength; Some (R900Parser p false));
   (str "r900bcd", fun chipLength => p ← R900Bcd.NewParser chipLength; Some (R900BcdParser p false));
   (str "scm", fun chipLength => Some (ScmParser (Scm.NewParser chipLength)));
   (str "scm+", fun chipLength => Some (ScmPlusParser (ScmPlus.NewParser chipLength)))].

Definition parsers : gmap (list Z) (Z -> option Parser) :=
  default ∅ (foldM (fun m '(name, fn) => RegisterParser m name (Some fn)) ∅ registrations).

(** ** Building the decoder *)

(** [expandAllMessageTypes] on the keys of the map. *)
Definition expandAllMessageTypes (types : gset (list Z)) : gset (list Z) :=
  if bool_decide (str "all" ∈ types) && (Z.of_nat (size types) =? 1) then
    {[str "scm"; str "scm+"; str "idm"; str "r900"]} ∪ (types ∖ {[str "all"]})
  else types.

Definition sortedProtocolNames (types : gset (list Z)) : list (list Z) := merge_sort string_le (elements types).

Section Decoder.
Context `{QuantizerPlatform}.

(** The loop of newProtocolDecoder: a registry, the unknown name, or a panic. *)
Fixpoint register_names (symbolLength : Z) (names : list (list Z)) (d : Registry Parser) : option (Registry Parser + list Z) :=
  match names with
  | [] => Some (inl d)
  | name :: names =>
      match Packet.NewParser parsers name symbolLength with
      | inr unknown => Some (inr unknown)
      | inl parser => p ← parser; register_names symbolLength names (RegisterProtocol d p)
      end
  end.

(** [newProtocolDecoder] *)
Definition newProtocolDecoder (probe : option (unit -> power16Platform)) (symbolLength : Z) (names : list (list Z))
  : option (Decoder Parser + list Z) :=
  r ← register_names symbolLength names newDecoder;
  match r with
  | inr unknown => Some (inr unknown)
  | inl reg => d ← Allocate reg power16PolicyAutomatic probe; Some (inl d)
  end.
End Decoder.

(** ** The returned copy

    SetDecoder and SetPower16History store a pointer to the local variable of
    newProtocolDecoder.  The receiver works on the copy that is returned: the two
    share the buffers and the Power16 state, which are references, but each has its
    own index of the newest strip of the float history. *)

(** The history as a decoder with strip index [b] reads it. *)
Definition at_block {A} (h : Strips A) (b : Z) : Strips A :=
  {| overlap := overlap h; backing := backing h; block := b; blockCount := blockCount h; blockStride := blockStride h;
     blockShift := blockShift h; blockMask := blockMask h; gap := gap h |}.

(** What the parsers see of [d] through [home], the value that was copied. *)
Definition copy_view {S} (home d : Decoder S) : View :=
  {| v_Cfg := Cfg home;
     v_SignalWindow := fun idx length =>
       match samples home, samples d with
       | FloatHistory h0, FloatHistory h => SignalWindow (Cfg home) (at_block h (block h0)) idx length
       | _, _ => None
       end;
     v_Power16Window := fun idx length =>
       match samples d with Power p => Power16Window (Cfg home) (p_strips p) idx length | _ => None end |}.

(** Blocks of the receiver's decoder, the parsers reading through [home]. *)
Fixpoint copy_run {S M} `{ParserOps S M} `{SearchPlatform} `{DualPlatform} `{MagnitudePlatform} `{ManchesterPlatform}
    (home d : Decoder S) (calls : list (list (list Z) * list Z)) : option (Decoder S * list (list M)) :=
  match calls with
  | [] => Some (d, [])
  | (order, input) :: calls =>
      '(d, messages) ← Decode_seeing (copy_view home) order d input;
      '(d, rest_) ← copy_run home d calls;
      Some (d, messages :: rest_)
  end.
