(* ===== verification/ProtocolsSpec.v ===== *)
(** The program's decoder (Protocols.v): its six parsers meet what the decoder asks of
    parsers, so that every list of known protocols gives a decoder that Decode_refines
    is about and that never panics, and what the returned copy changes. *)

From S2P Require Import Prelude Crc Gf Packet Layout Scm ScmPlus Idm NetIdm Float64 R900 R900Bcd Search Ring History Signal Register.
From S2P Require Import Decode Receiver DutyState Protocols.

(** ** The packet loop that the byte parsers share *)

Section Scan.
Context (accept : Data -> option (option Message)) (key : list Z -> list Z) (look : Data -> option (list Z)).

Lemma scan_step_length n st pkt st' : length st.1.1 = n -> scan_step accept key look st pkt = Some st' -> length st'.1.1 = n.
Proof.
  destruct st as [[buf seen] ms]. cbn [fst]. intros Hn E. unfold scan_step in E. apply bind_Some in E as (bits & _ & E).
  destruct (decide _); [injection E as <-; cbn; by rewrite length_gocopy|].
  apply bind_Some in E as ([m|] & _ & E); injection E as <-; cbn; by rewrite length_gocopy.
Qed.

Lemma scan_length n pkts : forall st st', length st.1.1 = n -> foldM (scan_step accept key look) st pkts = Some st' -> length st'.1.1 = n.
Proof.
  induction pkts as [|d pkts IH]; intros st st' Hn E; cbn [foldM] in E; [by injection E as <-|].
  destruct (scan_step _ _ _ st d) as [st1|] eqn:E1; [|done]. eapply IH; [|exact E]. by eapply scan_step_length.
Qed.

(** What is appended does not depend on what is there. *)
Lemma scan_appends pkts : forall buf seen ms,
  foldM (scan_step accept key look) (buf, seen, ms) pkts =
  ('(buf, seen, new) ← foldM (scan_step accept key look) (buf, seen, []) pkts; Some (buf, seen, ms ++ new)).
Proof.
  induction pkts as [|d pkts IH]; intros buf seen ms; cbn [foldM]; [cbn [mbind option_bind]; by rewrite app_nil_r|]. unfold scan_step at 1 3.
  destruct (look d) as [bits|]; [|done]. cbn [mbind option_bind]. destruct (decide _); [apply IH|].
  destruct (accept _) as [[m|]|]; [| |done]; cbn [mbind option_bind]; [|apply IH].
  rewrite (IH _ _ (ms ++ [m])), (IH _ _ ([] ++ [m])). destruct (foldM _ _ pkts) as [[[b s] new]|]; [|done]. cbn [mbind option_bind app].
  by rewrite <- app_assoc.
Qed.

(** Packets that agree on what the loop looks at. *)
Definition alike (n : nat) (d d' : Data) : Prop :=
  Idx d' = Idx d /\ look d' = look d /\ take n (Bytes d') = take n (Bytes d) /\ (n <= length (Bytes d))%nat /\ (n <= length (Bytes d'))%nat.

Lemma scan_alike n pkts pkts' : Forall2 (alike n) pkts pkts' -> forall st, length st.1.1 = n ->
  foldM (scan_step accept key look) st pkts' = foldM (scan_step accept key look) st pkts.
Proof.
  induction 1 as [|d d' pkts pkts' (E1 & E2 & E3 & L & L') Hs IH]; intros st Hn; [done|]. cbn [foldM].
  assert (scan_step accept key look st d' = scan_step accept key look st d) as ->.
  { destruct st as [[buf seen] ms]. cbn [fst] in Hn. unfold scan_step. rewrite E1, E2, (gocopy_full _ (Bytes d)), (gocopy_full _ (Bytes d')) by lia.
    by rewrite Hn, E3. }
  destruct (scan_step _ _ _ st d) as [st1|] eqn:E; [|done]. apply IH. by eapply scan_step_length.
Qed.
End Scan.

(** The whole bytes of a packet do not depend on the scratch in front of its last byte. *)
Lemma same_packet_prefix cfg n d d' : same_packet cfg d d' -> 8 * Z.of_nat n <= PacketSymbols cfg ->
  Idx d' = Idx d /\ slice 0 (8 * Z.of_nat n) (Bits d') = slice 0 (8 * Z.of_nat n) (Bits d) /\
  take n (Bytes d') = take n (Bytes d) /\ (n <= length (Bytes d))%nat /\ (n <= length (Bytes d'))%nat.
Proof.
  intros [E1 (inc & E2 & E3) [E4 E5] [E6 E7] E8] Hn.
  assert (n <= length (Bytes d))%nat as Hl. { rewrite E5, Z.shiftr_div_pow2 by lia. change (2 ^ 3) with 8. pose proof (Z.div_le_mono (8 * Z.of_nat n) (PacketSymbols cfg + 7) 8 ltac:(lia) ltac:(lia)) as K.
    rewrite Z.mul_comm, Z.div_mul in K by lia. lia. }
  assert (take n (Bytes d') = take n (Bytes d)) as Et.
  { apply list_eq. intros k. destruct (decide (k < n)%nat) as [Hk|Hk]; [|by rewrite !lookup_take_ge by lia]. rewrite !lookup_take_lt by lia.
    destruct (lookup_lt_is_Some_2 (Bytes d) k ltac:(lia)) as [x Hx], (lookup_lt_is_Some_2 (Bytes d') k ltac:(lia)) as [x' Hx'].
    rewrite Hx, Hx'. specialize (E8 k x x' Hx Hx'). unfold live_bits in E8. rewrite Z.min_l in E8 by lia.
    pose proof (Forall_lookup_1 _ _ _ _ E6 Hx). pose proof (Forall_lookup_1 _ _ _ _ E7 Hx'). rewrite !Z.mod_small in E8 by done. congruence. }
  split; [done|]. split; [|split; [done|lia]]. rewrite E2, E3. destruct inc; [|done].
  assert (forall l, (n <= length l)%nat -> slice 0 (8 * Z.of_nat n) (Bits (newData l true)) = Some (bit_chars (bytes_bits (take n l)))) as K.
  { intros l Hl'. change (newData l true) with (NewData l). rewrite NewData_Bits. unfold bit_chars at 1.
    rewrite slice_map, slice_prefix by (rewrite len_bytes_bits; unfold len; lia). cbn [fmap option_fmap option_map]. do 2 f_equal.
    rewrite bytes_bits_take. f_equal. lia. }
  rewrite !K by lia. by rewrite Et.
Qed.

(** ** The parsers *)

Section Parsers.
Context `{QuantizerPlatform}.

Ltac appended := unfold Scm.Parse, ScmPlus.Parse, Idm.Parse, NetIdm.Parse.

(** Each byte parser appends what it gives for an empty list: [appending] is what the
    shared slice holds. *)
Lemma parsers_append pkts ms :
  (forall p, Scm.Parse p pkts ms = ('(p', new) ← Scm.Parse p pkts []; Some (p', ms ++ new))) /\
  (forall p, ScmPlus.Parse p pkts ms = ('(p', new) ← ScmPlus.Parse p pkts []; Some (p', ms ++ new))) /\
  (forall p, Idm.Parse p pkts ms = ('(p', new) ← Idm.Parse p pkts []; Some (p', ms ++ new))) /\
  (forall p, NetIdm.Parse p pkts ms = ('(p', new) ← NetIdm.Parse p pkts []; Some (p', ms ++ new))).
Proof.
  repeat split; intros p; appended;
    [rewrite !(foldM_ext _ _ _ _ (scm_Parse_step_scan p))|rewrite !(foldM_ext _ _ _ _ (scmp_Parse_step_scan p))|
     rewrite !(foldM_ext _ _ _ _ (idm_Parse_step_scan p))|rewrite !(foldM_ext _ _ _ _ (netidm_Parse_step_scan p))];
    rewrite scan_appends; by destruct (foldM _ _ pkts) as [[[b s] new]|].
Qed.

(** The states of the parsers of a decoder with packets of [PacketSymbols cfg] symbols:
    the byte parsers keep their packet length and their scratch buffer. *)
Definition in_domain (cfg : PacketConfig) (p : Parser) : Prop :=
  match p with
  | ScmParser q => length (Scm.data_Bytes q) = 12%nat /\ PacketSymbols (Scm.cfg q) = 96 /\ 96 <= PacketSymbols cfg
  | ScmPlusParser q => length (ScmPlus.data_Bytes q) = 16%nat /\ PacketSymbols (ScmPlus.cfg q) = 128 /\ 128 <= PacketSymbols cfg
  | IdmParser q => length (Idm.data_Bytes q) = 92%nat /\ 736 <= PacketSymbols cfg
  | NetIdmParser q => length (NetIdm.data_Bytes q) = 92%nat /\ PacketSymbols (NetIdm.cfg q) = 736 /\ 736 <= PacketSymbols cfg
  | R900Parser _ _ | R900BcdParser _ _ => True
  end.

Lemma appending_Some {P} (wrap : P -> Parser) messages r p' messages' : appending wrap messages r = Some (p', messages') ->
  exists q new, r = Some (q, new) /\ p' = wrap q.
Proof. unfold appending. intros ([q new] & -> & E)%bind_Some. injection E as <- _. by exists q, new. Qed.

Lemma alike_packets cfg n look pkts pkts' : Forall2 (same_packet cfg) pkts pkts' -> 8 * Z.of_nat n <= PacketSymbols cfg ->
  (forall d d', slice 0 (8 * Z.of_nat n) (Bits d') = slice 0 (8 * Z.of_nat n) (Bits d) -> look d' = look d) -> Forall2 (alike look n) pkts pkts'.
Proof.
  intros Hs Hn Hlook. eapply Forall2_impl; [exact Hs|]. intros d d' Hd. destruct (same_packet_prefix cfg n d d' Hd Hn) as (A & B & C). by split; [|split; [apply Hlook|]].
Qed.

Lemma parsers_domain cfg : closed_domain cfg (in_domain cfg).
Proof.
  constructor.
  - intros v p pkts pkts' messages Hp Hs. destruct p as [q|q|q|q|q att|q att]; cbn [parse program_parsers in_domain] in *; [f_equal; appended..| |].
    + destruct Hp as (Hl & Hc & Hn). rewrite !(foldM_ext _ _ _ _ (scm_Parse_step_scan q)). f_equal. apply (scan_alike _ _ _ 12); [|done].
      apply (alike_packets cfg); [done|lia|]. intros d d' E. by rewrite Hc.
    + destruct Hp as (Hl & Hc & Hn). rewrite !(foldM_ext _ _ _ _ (scmp_Parse_step_scan q)). f_equal. apply (scan_alike _ _ _ 16); [|done].
      apply (alike_packets cfg); [done|lia|]. intros d d' E. by rewrite Hc.
    + destruct Hp as (Hl & Hn). rewrite !(foldM_ext _ _ _ _ (idm_Parse_step_scan q)). f_equal. apply (scan_alike _ _ _ 92); [|done].
      by apply (alike_packets cfg); [done|lia|].
    + destruct Hp as (Hl & Hc & Hn). rewrite !(foldM_ext _ _ _ _ (netidm_Parse_step_scan q)). f_equal. apply (scan_alike _ _ _ 92); [|done].
      apply (alike_packets cfg); [done|lia|]. intros d d' E. by rewrite Hc.
    + assert (map Idx pkts' = map Idx pkts) as E by (induction Hs as [|d d' l l' [Ed _ _ _ _] _ IH]; [done|]; cbn; by rewrite Ed, IH).
      unfold R900.Parse. by rewrite E.
    + assert (map Idx pkts' = map Idx pkts) as E by (induction Hs as [|d d' l l' [Ed _ _ _ _] _ IH]; [done|]; cbn; by rewrite Ed, IH).
      unfold R900Bcd.Parse, R900.Parse. by rewrite E.
  - intros v p pkts messages p' messages' Hp E. destruct p as [q|q|q|q|q att|q att]; cbn [parse program_parsers in_domain] in *.
    + apply appending_Some in E as (q' & new & E & ->). destruct Hp as (Hl & Hc & Hn). revert E. appended. rewrite (foldM_ext _ _ _ _ (scm_Parse_step_scan q)).
      intros ([[b s] m] & E1 & E)%bind_Some. injection E as <- _. apply (scan_length _ _ _ 12) in E1; [|done]. done.
    + apply appending_Some in E as (q' & new & E & ->). destruct Hp as (Hl & Hc & Hn). revert E. appended. rewrite (foldM_ext _ _ _ _ (scmp_Parse_step_scan q)).
      intros ([[b s] m] & E1 & E)%bind_Some. injection E as <- _. apply (scan_length _ _ _ 16) in E1; [|done]. done.
    + apply appending_Some in E as (q' & new & E & ->). destruct Hp as (Hl & Hn). revert E. appended. rewrite (foldM_ext _ _ _ _ (idm_Parse_step_scan q)).
      intros ([[b s] m] & E1 & E)%bind_Some. injection E as <- _. apply (scan_length _ _ _ 92) in E1; [|done]. done.
    + apply appending_Some in E as (q' & new & E & ->). destruct Hp as (Hl & Hc & Hn). revert E. appended. rewrite (foldM_ext _ _ _ _ (netidm_Parse_step_scan q)).
      intros ([[b s] m] & E1 & E)%bind_Some. injection E as <- _. apply (scan_length _ _ _ 92) in E1; [|done]. done.
    + apply bind_Some in E as ([q' ms] & _ & E). by injection E as <- _.
    + apply bind_Some in E as ([q' ms] & _ & E). by injection E as <- _.
  - intros v p f indices messages p' messages' Hp Ef E. destruct p as [q|q|q|q|q att|q att]; try discriminate Ef. injection Ef as <-.
    apply bind_Some in E as ([q' ms] & _ & E). by injection E as <- _.
  - intros p f b Hp Ef. destruct p as [q|q|q|q|q att|q att]; try discriminate Ef; injection Ef as <-; done.
Qed.
End Parsers.

(** ** The registered parsers *)

Section Registered.
Context `{QuantizerPlatform}.

Definition new_r900 (chipLength : Z) : R900.Parser :=
  {| R900.Decoder := None;
     R900.cfg := parser_config (str "r900") (str "00000000000000001110010101100100") 912380000 32768 chipLength 32 116;
     field := r900_field; rsBuf := make 31 0; powerHistory := None; R900.seen := ∅; candidateIdx := []; once := false |}.

Lemma new_r900_spec chipLength : R900.NewParser chipLength = Some (new_r900 chipLength).
Proof. unfold R900.NewParser. by rewrite NewField_r900. Qed.

(** What a constructor makes. *)
Inductive fresh (c : Z) : Parser -> Prop :=
  | fresh_scm : fresh c (ScmParser (Scm.NewParser c))
  | fresh_scmplus : fresh c (ScmPlusParser (ScmPlus.NewParser c))
  | fresh_idm : fresh c (IdmParser (Idm.NewParser c))
  | fresh_netidm : fresh c (NetIdmParser (NetIdm.NewParser c))
  | fresh_r900 : fresh c (R900Parser (new_r900 c) false)
  | fresh_r900bcd : fresh c (R900BcdParser {| inner := new_r900 c |} false).

Definition known (name : list Z) : Prop := name ∈ map fst registrations.

#[export] Instance known_dec name : Decision (known name).
Proof. unfold known. apply _. Defined.


Lemma parsers_known name c : known name ->
  exists fn p, parsers !! name = Some fn /\ fn c = Some p /\ fresh c p /\ (consumes p = true -> name = str "r900" \/ name = str "r900bcd").
Proof.
  intros Hn. unfold known in Hn. cbn [registrations map fst] in Hn.
  repeat (apply elem_of_cons in Hn as [->|Hn]; [eexists _, _; split; [vm_compute; reflexivity|]; cbv beta|]); [..|by apply elem_of_nil in Hn].
  all: rewrite ?new_r900_spec; unfold R900Bcd.NewParser; rewrite ?new_r900_spec; cbn [mbind option_bind]; (split; [reflexivity|split; [constructor|]]); intros E; try discriminate E; auto.
Qed.

Lemma parsers_unknown name : ~ known name -> parsers !! name = None.
Proof.
  intros Hn. destruct (parsers !! name) as [fn|] eqn:E; [|done]. destruct Hn.
  assert (name ∈ elements (dom parsers)) as Hin by (apply elem_of_elements, elem_of_dom; by eexists).
  assert (elements (dom parsers) ≡ₚ map fst registrations) as Hp.
  { apply NoDup_Permutation; [apply NoDup_elements|apply (bool_decide_unpack _); vm_compute; exact I|].
    intros x. rewrite elem_of_elements. assert (dom parsers = list_to_set (map fst registrations)) as -> by (apply (bool_decide_unpack _); vm_compute; exact I).
    apply elem_of_list_to_set. }
  by rewrite Hp in Hin.
Qed.

Lemma NewParser_registered name c fn : parsers !! name = Some fn -> Packet.NewParser parsers name c = inl (fn c).
Proof. intros E. unfold Packet.NewParser, NewParserFunc. by rewrite E. Qed.

Lemma NewParser_unknown name c : parsers !! name = None -> Packet.NewParser parsers name c = inr name.
Proof. intros E. unfold Packet.NewParser, NewParserFunc. by rewrite E. Qed.

Lemma register_names_spec c names : forall d, Forall known names ->
  exists ps, Forall (fresh c) ps /\ Forall2 (fun name p => consumes p = true -> name = str "r900" \/ name = str "r900bcd") names ps /\
    register_names c names d = Some (inl (foldl RegisterProtocol d ps)).
Proof.
  induction names as [|name names IH]; intros d Hn; [by exists []|]. apply Forall_cons in Hn as [Hk Hn].
  destruct (parsers_known name c Hk) as (fn & p & E1 & E2 & Hp & Hr). destruct (IH (RegisterProtocol d p) Hn) as (ps & Hps & Hl & E).
  exists (p :: ps). split; [by constructor|]. split; [by constructor|]. cbn [register_names foldl]. rewrite (NewParser_registered _ _ _ E1), E2. exact E.
Qed.

Lemma register_names_unknown c names : forall d, ~ Forall known names ->
  exists name, name ∈ names /\ ~ known name /\ register_names c names d = Some (inr name).
Proof.
  induction names as [|name names IH]; intros d Hn; [by destruct Hn|]. cbn [register_names].
  destruct (decide (known name)) as [Hk|Hk].
  - destruct (parsers_known name c Hk) as (fn & p & E1 & E2 & _). rewrite (NewParser_registered _ _ _ E1), E2. cbn [mbind option_bind].
    destruct (IH (RegisterProtocol d p)) as (u & Hu & Hk' & E); [intros Hf; apply Hn; by constructor|]. exists u. split; [by right|done].
  - rewrite (NewParser_unknown _ _ (parsers_unknown _ Hk)). exists name. split; [by left|done].
Qed.

(** *** The merged configuration *)

Lemma fresh_config c p : fresh c p ->
  ChipLength (Cfg_of p) = c /\ 4 <= PreambleSymbols (Cfg_of p) <= 32 /\ PreambleSymbols (Cfg_of p) <= PacketSymbols (Cfg_of p) /\
  PacketSymbols (Cfg_of p) mod 4 = 0 /\ (overlap_of p = 0 \/ overlap_of p = 4 * c) /\ (consumes p = true -> overlap_of p = 4 * c /\ 116 <= PacketSymbols (Cfg_of p)).
Proof.
  assert (overlap_of (R900Parser (new_r900 c) false) = 4 * c /\ overlap_of (R900BcdParser {| inner := new_r900 c |} false) = 4 * c) as [E1 E2]
    by (split; cbn; unfold R900Bcd.SignalHistoryOverlap, R900.SignalHistoryOverlap; cbn; lia).
  destruct 1; (split; [done|]; split; [cbn; lia|]; split; [cbn; lia|]; split; [done|]; split; [rewrite ?E1, ?E2; auto|]);
    intros E; try discriminate E; rewrite ?E1, ?E2; cbn; lia.
Qed.

Lemma fresh_preamble c p : fresh c p -> preamble_stated p.
Proof.
  assert (forall t, forallb (fun x => (x =? 48) || (x =? 49)) t = true -> is_preamble_text t) as K.
  { intros t Ht. apply Forall_forall. intros x Hx. rewrite forallb_forall in Ht. specialize (Ht x ltac:(by apply list_elem_of_In)).
    apply orb_prop in Ht as [E|E]; apply Z.eqb_eq in E; auto. }
  destruct 1; (split; [apply K; vm_compute; reflexivity|vm_compute; discriminate]).
Qed.

Lemma fresh_in_domain c p cfg : fresh c p -> PacketSymbols (Cfg_of p) <= PacketSymbols cfg -> in_domain cfg p.
Proof. destruct 1; cbn; done. Qed.

(** What the merged configuration of some fresh parsers is. *)
Record merged (c : Z) (ps : list Parser) (cfg : PacketConfig) : Prop := {
  mg_chip : ChipLength cfg = c;
  mg_preamble : 4 <= PreambleSymbols cfg <= 32;
  mg_packet : PreambleSymbols cfg <= PacketSymbols cfg;
  mg_nibbles : PacketSymbols cfg mod 4 = 0;
  mg_longest : forall p, p ∈ ps -> PacketSymbols (Cfg_of p) <= PacketSymbols cfg }.

Lemma fresh_merged c ps : 0 < c -> Forall (fresh c) ps -> ps <> [] -> merged c ps (foldl merge_config empty_config (map Cfg_of ps)).
Proof.
  intros Hc. induction ps as [|p ps IH] using rev_ind; [done|]. intros [Hps [Hp _]%Forall_cons]%Forall_app _.
  destruct (fresh_config c p Hp) as (E1 & E2 & E3 & E4 & _). rewrite map_app, foldl_app. cbn [map foldl].
  destruct (decide (ps = [])) as [->|Hne].
  - cbn [map foldl]. constructor; cbn [merge_config ChipLength PreambleSymbols PacketSymbols empty_config parser_config]; rewrite ?Z.max_r by lia; try done.
    intros q Hq. apply list_elem_of_singleton in Hq as ->. done.
  - destruct (IH Hps Hne) as [M1 M2 M3 M4 M5]. constructor; cbn [merge_config ChipLength PreambleSymbols PacketSymbols]; try lia.
    + destruct (Z.max_spec (PacketSymbols (foldl merge_config empty_config (map Cfg_of ps))) (PacketSymbols (Cfg_of p))) as [[_ ->]|[_ ->]]; done.
    + intros q [Hq|Hq%list_elem_of_singleton]%elem_of_app; [specialize (M5 q Hq)|subst q]; lia.
Qed.

Lemma fresh_overlap c ps : 0 < c -> Forall (fresh c) ps ->
  let ov := foldl Z.max 0 (map overlap_of ps) in (ov = 0 \/ ov = 4 * c) /\ forall p, p ∈ ps -> overlap_of p <= ov.
Proof.
  intros Hc. induction ps as [|p ps IH] using rev_ind; [split; [by left|by intros p Hp%elem_of_nil]|]. intros [Hps [Hp _]%Forall_cons]%Forall_app.
  destruct (IH Hps) as [I1 I2]. destruct (fresh_config c p Hp) as (_ & _ & _ & _ & Ho & _). rewrite map_app, foldl_app. cbn [map foldl]. cbv zeta in *.
  split; [lia|]. intros q [Hq|Hq%list_elem_of_singleton]%elem_of_app; [specialize (I2 q Hq)|subst q]; lia.
Qed.

(** Fresh parsers are what Allocate asks for. *)
Lemma fresh_allocatable c ps : 0 < c -> c mod 4 = 0 -> Forall (fresh c) ps -> ps <> [] -> allocatable (register_all ps).
Proof.
  intros Hc H4 Hps Hne. destruct (register_all_registered ps) as [R1 R2 _ _ _ _ R7 _]. destruct (fresh_merged c ps Hc Hps Hne) as [M1 M2 M3 M4 M5].
  destruct (fresh_overlap c ps Hc Hps) as [Ho _]. constructor; rewrite ?R2, ?R7, ?M1; try done; try lia.
  - exists (in_domain (derive_config (foldl merge_config empty_config (map Cfg_of ps)))). split; [apply parsers_domain|]. rewrite R1.
    apply Forall_forall. intros p Hp. rewrite Forall_forall in Hps. apply (fresh_in_domain c); [by apply Hps|]. by apply M5.
  - intros _ _ E. unfold derive_config in *. cbn [SymbolLength BlockSize PreambleLength] in *. rewrite E.
    apply (NextPowerOf2_le _ 13); lia.
  - apply register_all_ok. eapply Forall_impl; [exact Hps|]. apply fresh_preamble.
Qed.
End Registered.
