(* ===== verification/ProtocolsTotal.v ===== *)
(** The program's decoder never panics: the invariant of its parsers, that the windows
    they ask for are retained, and the run on the copy that newProtocolDecoder
    returns. *)

From S2P Require Import Prelude Crc Gf Packet Layout Scm ScmPlus Idm NetIdm Float64 R900 R900Bcd Search Ring History Signal Register.
From S2P Require Import Decode Receiver DutyState Protocols ProtocolsSpec.

(** ** The R900 quantizer on a window *)

Lemma quantizePower16Window_total `{QuantizerPlatform} signal n : 0 <= n -> 4 * n <= len signal -> is_Some (quantizePower16Window signal n).
Proof. intros Hn Hl. rewrite quantizePower16Window_Go. by apply quantizePower16WindowGo_total. Qed.

(** ** The parsers' invariant *)

(** The derived geometry of a decoder for fresh parsers. *)
Record roomy (cfg : PacketConfig) : Prop := {
  ry_chip : 0 < ChipLength cfg;
  ry_symbol : SymbolLength cfg = 2 * ChipLength cfg;
  ry_preamble : PreambleLength cfg = PreambleSymbols cfg * SymbolLength cfg /\ 1 <= PreambleSymbols cfg <= 32;
  ry_buffer : BufferLength cfg = PacketSymbols cfg * SymbolLength cfg + BlockSize cfg;
  ry_packet : 4 <= PacketSymbols cfg }.

(** The windows of one symbol pair that a parser can read through a view, on the
    representation in use. *)
Definition sees (cfg : PacketConfig) (power : bool) (v : View) : Prop :=
  forall idx, 0 <= idx -> idx + ChipLength cfg * 4 <= BufferLength cfg ->
    if power then exists w, v_Power16Window v idx (ChipLength cfg * 4) = Some w /\ ChipLength cfg * 4 <= len w
    else exists w, v_SignalWindow v idx (ChipLength cfg * 4) = Some w /\ ChipLength cfg * 4 <= len w.

Definition r900_fits (cfg : PacketConfig) (q : R900.Parser) : Prop :=
  field q = r900_field /\ rs_ok (rsBuf q) /\ 116 <= PacketSymbols cfg /\ (once q = true -> R900.cfg q = cfg).

Definition fits (cfg : PacketConfig) (power : bool) (p : Parser) : Prop :=
  match p with
  | ScmParser q => exists c buf, q = Scm.parser_with c buf /\ length buf = 12%nat /\ 96 <= PacketSymbols cfg
  | ScmPlusParser q => exists c buf, q = ScmPlus.parser_with c buf /\ length buf = 16%nat /\ 128 <= PacketSymbols cfg
  | IdmParser q => exists c buf, q = Idm.parser_with c buf /\ length buf = 92%nat /\ 736 <= PacketSymbols cfg
  | NetIdmParser q => exists c buf, q = NetIdm.parser_with c buf /\ length buf = 92%nat /\ 736 <= PacketSymbols cfg
  | R900Parser q attached => attached = power /\ r900_fits cfg q
  | R900BcdParser q attached => attached = power /\ r900_fits cfg (inner q)
  end.

(** The type of the parser does not change. *)
Definition same_type (p q : Parser) : Prop :=
  match p, q with
  | ScmParser _, ScmParser _ | ScmPlusParser _, ScmPlusParser _ | IdmParser _, IdmParser _ | NetIdmParser _, NetIdmParser _
  | R900Parser _ _, R900Parser _ _ | R900BcdParser _ _, R900BcdParser _ _ => True
  | _, _ => False
  end.

Definition reads_samples (p : Parser) : bool := match p with R900Parser _ _ | R900BcdParser _ _ => true | _ => false end.

Section Total.
Context `{QuantizerPlatform}.

Lemma once_holding cfg v attached q : v_Cfg v = cfg -> r900_fits cfg q ->
  exists p, once_Do (holding v attached q) = Some p /\ R900.cfg p = cfg /\ R900.Decoder p = Some {| d_Cfg := v_Cfg v; d_SignalWindow := v_SignalWindow v |} /\
    powerHistory p = (if attached then Some (v_Power16Window v) else None) /\ field p = r900_field /\ rs_ok (rsBuf p) /\ once p = true.
Proof.
  intros Hv (Hf & Hr & _ & Ho). unfold once_Do. cbn [holding R900.SetPower16History R900.SetDecoder once R900.Decoder]. destruct (once q) eqn:Eo.
  - eexists. split; [reflexivity|]. cbn. specialize (Ho eq_refl). auto 8.
  - cbn [mbind option_bind]. eexists. split; [reflexivity|]. cbn. by rewrite Hv.
Qed.

Lemma quantizeSignalAt_total cfg v (attached : bool) p idx : R900.cfg p = cfg -> 0 < ChipLength cfg ->
  R900.Decoder p = Some {| d_Cfg := v_Cfg v; d_SignalWindow := v_SignalWindow v |} ->
  powerHistory p = (if attached then Some (v_Power16Window v) else None) -> sees cfg attached v ->
  0 <= idx -> idx + ChipLength cfg * 4 <= BufferLength cfg -> is_Some (quantizeSignalAt p idx).
Proof.
  intros Hc Hpos Hd Hh Hs Hi Hb. specialize (Hs idx Hi Hb). unfold quantizeSignalAt, quantizePower16At. rewrite Hh, Hc. destruct attached.
  - destruct Hs as (w & -> & Hl). apply quantizePower16Window_total; lia.
  - destruct Hs as (w & Ew & Hl). rewrite Hd. cbn [mbind option_bind d_SignalWindow]. rewrite Ew. cbn [mbind option_bind].
    rewrite !slice_ok by lia. by eexists.
Qed.

Lemma ParseCandidateIndices_total cfg v attached q indices messages :
  roomy cfg -> v_Cfg v = cfg -> r900_fits cfg q -> sees cfg attached v -> Forall (fun i => 0 <= i) indices ->
  exists q' messages', R900.ParseCandidateIndices (holding v attached q) indices messages = Some (q', messages') /\ r900_fits cfg (released q').
Proof.
  intros [R1 R2 [R3 R4] R5 _] Hv Hq Hs Hi. destruct (once_holding cfg v attached q Hv Hq) as (p & Eo & Ec & Ed & Eh & Ef & Er & E1).
  destruct Hq as (_ & _ & HP & _).
  destruct (ParseCandidateIndices_spec (holding v attached q) p indices messages Eo Ef Er) as (rs & sn & Hrs & E).
  - assert (forall c, c ∈ in_block p indices -> 0 <= c <= BlockSize cfg) as Hin.
    { clear -Hi Ec. induction Hi as [|i indices Hi Hl IH]; cbn [in_block]; intros c Hc; [by apply elem_of_nil in Hc|].
      rewrite Ec in Hc. destruct (Z.ltb_spec (BlockSize cfg) i); [by apply elem_of_nil in Hc|]. apply elem_of_cons in Hc as [->|Hc]; [lia|by apply IH]. }
    apply Forall_forall. intros c Hc i Hlt. specialize (Hin c Hc). apply (quantizeSignalAt_total cfg v attached); try done; unfold position; rewrite Ec; nia.
  - eexists _, _. split; [exact E|]. unfold r900_fits, released, with_scratch. cbn. by rewrite Ef, Ec.
Qed.

(** What a step of serving a preamble needs of its packets. *)
Lemma spec_packets_whole cfg w n indices : Forall is_bit w -> 8 * Z.of_nat n <= PacketSymbols cfg ->
  Forall (whole n) (spec_packets cfg w true indices).
Proof.
  intros Hw Hn. unfold spec_packets. apply Forall_fmap, Forall_true. intros q. unfold compose, whole. cbn [packet_at Bytes Bits].
  assert (length (packet_bytes cfg w q) = Z.to_nat (Z.shiftr (PacketSymbols cfg + 7) 3)) as Hl by (unfold packet_bytes; by rewrite length_map, length_seq).
  split; [|split].
  - rewrite Hl, Z.shiftr_div_pow2 by lia. change (2 ^ 3) with 8. pose proof (Z.div_le_mono (8 * Z.of_nat n) (PacketSymbols cfg + 7) 8 ltac:(lia) ltac:(lia)) as K.
    rewrite Z.mul_comm, Z.div_mul in K by lia. lia.
  - unfold packet_bytes. apply Forall_fmap, Forall_true. intros k. unfold compose.
    assert (Z.to_nat (live_bits cfg k) <= 8)%nat as H8 by (unfold live_bits; lia).
    pose proof (sampled_byte w (SymbolLength cfg) (q + SymbolLength cfg * (8 * Z.of_nat k)) _ Hw H8) as R.
    assert (2 ^ Z.of_nat (Z.to_nat (live_bits cfg k)) <= 2 ^ 8) by (apply Z.pow_le_mono_r; lia). uints. lia.
  - exact (NewData_Bits _).
Qed.

Lemma spec_packets_bytes cfg w inc n indices : Forall is_bit w -> 8 * Z.of_nat n <= PacketSymbols cfg ->
  Forall (whole_bytes n) (spec_packets cfg w inc indices).
Proof.
  intros Hw Hn. pose proof (spec_packets_whole cfg w n indices Hw Hn) as K. unfold spec_packets in *. rewrite !Forall_map in K |- *.
  eapply Forall_impl; [exact K|]. intros q (A & B & _). by split.
Qed.

Lemma spec_packets_indices cfg w inc indices : Forall (fun i => 0 <= i) indices -> Forall (fun i => 0 <= i) (map Idx (spec_packets cfg w inc indices)).
Proof.
  intros Hi. unfold spec_packets. rewrite map_map. apply Forall_fmap. apply Forall_forall. intros q [_ Hq]%list_elem_of_filter. rewrite Forall_forall in Hi. by apply Hi.
Qed.

(** A parser that fits serves any candidates. *)
Lemma parser_total cfg power v w inc p indices messages :
  roomy cfg -> v_Cfg v = cfg -> Forall is_bit w -> fits cfg power p -> (reads_samples p = true -> sees cfg power v) ->
  Forall (fun i => 0 <= i) indices -> (parse_indices p = None -> packet_bytes_only p = None -> inc = true) ->
  exists p' messages',
    match parse_indices p with Some f => f v indices messages | None => parse v p (spec_packets cfg w inc indices) messages end = Some (p', messages') /\
    fits cfg power p' /\ same_type p p'.
Proof.
  intros HR Hv Hw Hp Hs Hi Hinc. destruct p as [q|q|q|q|q att|q att]; cbn [fits parse_indices packet_bytes_only parse program_parsers reads_samples] in *.
  - destruct Hp as (c & buf & -> & Hl & Hn). rewrite (Hinc eq_refl eq_refl).
    destruct (scm_Parse_spec c buf (spec_packets cfg w true indices) [] Hl (spec_packets_whole cfg w 12 indices Hw Hn)) as (buf' & Hl' & E).
    unfold appending. rewrite E. cbn [mbind option_bind]. eexists _, _. split; [reflexivity|]. split; [|done]. by exists c, buf'.
  - destruct Hp as (c & buf & -> & Hl & Hn). rewrite (Hinc eq_refl eq_refl).
    destruct (scmp_Parse_spec c buf (spec_packets cfg w true indices) [] Hl (spec_packets_whole cfg w 16 indices Hw Hn)) as (buf' & Hl' & E).
    unfold appending. rewrite E. cbn [mbind option_bind]. eexists _, _. split; [reflexivity|]. split; [|done]. by exists c, buf'.
  - destruct Hp as (c & buf & -> & Hl & Hn).
    destruct (idm_Parse_spec c buf (spec_packets cfg w inc indices) [] Hl (spec_packets_bytes cfg w inc 92 indices Hw Hn)) as (buf' & Hl' & E).
    unfold appending. rewrite E. cbn [mbind option_bind]. eexists _, _. split; [reflexivity|]. split; [|done]. by exists c, buf'.
  - destruct Hp as (c & buf & -> & Hl & Hn). rewrite (Hinc eq_refl eq_refl).
    destruct (netidm_Parse_spec c buf (spec_packets cfg w true indices) [] Hl (spec_packets_whole cfg w 92 indices Hw Hn)) as (buf' & Hl' & E).
    unfold appending. rewrite E. cbn [mbind option_bind]. eexists _, _. split; [reflexivity|]. split; [|done]. by exists c, buf'.
  - destruct Hp as [-> Hq]. destruct (ParseCandidateIndices_total cfg v power q indices messages HR Hv Hq (Hs eq_refl) Hi) as (q' & ms & -> & Hq').
    cbn [mbind option_bind]. eexists _, _. split; [reflexivity|]. split; [|done]. by split.
  - destruct Hp as [-> Hq]. set (pkts := spec_packets cfg w inc indices).
    assert (R900.Parse (holding v power (inner q)) pkts messages = R900.ParseCandidateIndices (holding v power
      {| R900.Decoder := None; R900.cfg := R900.cfg (inner q); field := field (inner q); rsBuf := rsBuf (inner q); powerHistory := None;
         R900.seen := R900.seen (inner q); candidateIdx := map Idx pkts; once := once (inner q) |}) (map Idx pkts) messages) as EP by done.
    match type of EP with _ = R900.ParseCandidateIndices (holding _ _ ?q1) _ _ => destruct (ParseCandidateIndices_total cfg v power q1 (map Idx pkts) messages HR Hv Hq (Hs eq_refl)
      (spec_packets_indices cfg w inc indices Hi)) as (q' & ms & E & Hq') end.
    rewrite E in EP. destruct (bcd_Parse_spec {| inner := holding v power (inner q) |} pkts messages q' ms EP) as (new & _ & ->).
    cbn [mbind option_bind]. eexists _, _. split; [reflexivity|]. split; [|done]. by split.
Qed.
End Total.

(** ** Serving the preambles *)

Section Serve.
Context `{QuantizerPlatform}.

#[export] Instance same_type_refl : Reflexive same_type.
Proof. by intros []. Qed.

#[export] Instance same_type_trans : Transitive same_type.
Proof. by intros [] [] []. Qed.

(** The decoder's parsers; [hears] holds when windows of samples are retained. *)
Definition team (cfg : PacketConfig) (power : bool) (hears : Prop) (objs : list Parser) : Prop :=
  Forall (fun p => fits cfg power p /\ (reads_samples p = true -> hears)) objs.

Lemma team_step cfg power (hears : Prop) objs i p p' : team cfg power hears objs -> objs !! i = Some p -> fits cfg power p' -> same_type p p' ->
  team cfg power hears (<[i := p']> objs) /\ Forall2 same_type objs (<[i := p']> objs).
Proof.
  intros Ht Hi Hp Hs. assert (reads_samples p' = reads_samples p) as E by by destruct p, p'. split.
  - apply Forall_insert; [done|]. split; [done|]. rewrite E. by apply (Forall_lookup_1 _ _ _ _ Ht Hi).
  - apply Forall2_same_length_lookup_2; [by rewrite length_insert|]. intros j q q' Hq Hq'. destruct (decide (i = j)) as [<-|Hne].
    + rewrite list_lookup_insert_eq in Hq' by (by eapply lookup_lt_Some). congruence.
    + rewrite list_lookup_insert_ne in Hq' by done. assert (q' = q) as -> by congruence. apply same_type_refl.
Qed.

(** Packets carry their text when a parser that needs it is served. *)
Lemma include_bits_needed objs0 objs parsers i p : Forall2 same_type objs0 objs -> i ∈ parsers -> objs !! i = Some p ->
  parse_indices (S := Parser) (M := AnyMessage) p = None -> packet_bytes_only p = None -> include_bits objs0 parsers = true.
Proof.
  intros Hf Hi Hp H1 H2. destruct (Forall2_lookup_r _ _ _ _ _ Hf Hp) as (p0 & Hp0 & Hs). unfold include_bits.
  apply existsb_exists. exists i. split; [by apply list_elem_of_In|]. unfold is_index_parser, is_bytes_only. rewrite Hp0.
  by destruct p0, p; cbn in *.
Qed.

Lemma spec_steps_total cfg power (hears : Prop) v w indices objs0 all parsers : forall objs messages,
  roomy cfg -> v_Cfg v = cfg -> Forall is_bit w -> (hears -> sees cfg power v) -> Forall (fun i => 0 <= i) indices ->
  (forall i, i ∈ parsers -> i ∈ all /\ (i < length objs)%nat) -> team cfg power hears objs -> Forall2 same_type objs0 objs ->
  exists objs' messages', foldM (spec_step v w indices (include_bits objs0 all)) (objs, messages) parsers = Some (objs', messages') /\
    team cfg power hears objs' /\ length objs' = length objs.
Proof.
  induction parsers as [|i parsers IH]; intros objs messages HR Hv Hw Hs Hi Hin Ht Hf; [by exists objs, messages|].
  destruct (Hin i ltac:(by left)) as [Hall Hlt]. destruct (lookup_lt_is_Some_2 objs i Hlt) as [p Hp]. destruct (Forall_lookup_1 _ _ _ _ Ht Hp) as [Hfit Hh].
  destruct (parser_total cfg power v w (include_bits objs0 all) p indices messages HR Hv Hw Hfit ltac:(auto) Hi) as (p' & ms & E & Hfit' & Hst).
  { intros H1 H2. by eapply include_bits_needed. }
  destruct (team_step cfg power hears objs i p p' Ht Hp Hfit' Hst) as [Ht' Hf'].
  destruct (IH (<[i := p']> objs) ms HR Hv Hw Hs Hi) as (objs' & ms' & E' & Ht2 & Hl); try done.
  { intros j Hj. rewrite length_insert. apply Hin. by right. }
  { by etrans. }
  exists objs', ms'. rewrite length_insert in Hl. split; [|done]. cbn [foldM spec_step]. rewrite Hp. cbn [mbind option_bind].
  rewrite Hv. rewrite E. cbn [mbind option_bind]. exact E'.
Qed.

Lemma spec_decode_total cfg power (hears : Prop) v w preambles order : forall objs messages,
  roomy cfg -> v_Cfg v = cfg -> Forall is_bit w -> (hears -> sees cfg power v) -> team cfg power hears objs ->
  (forall key i, i ∈ default [] (preambles !! key) -> (i < length objs)%nat) ->
  exists objs' messages', foldM (spec_preamble v w preambles) (objs, messages) order = Some (objs', messages') /\
    team cfg power hears objs' /\ length objs' = length objs.
Proof.
  induction order as [|key order IH]; intros objs messages HR Hv Hw Hs Ht Hin; [by exists objs, messages|]. cbn [foldM]. unfold spec_preamble at 1. cbn [fst].
  set (parsers := default [] (preambles !! key)).
  destruct (spec_steps_total cfg power hears v w (matches w (SymbolLength (v_Cfg v)) (BlockSize (v_Cfg v)) key) objs parsers parsers objs messages HR Hv Hw Hs
    (matches_nonneg _ _ _ _)) as (objs1 & ms1 & E & Ht1 & Hl1); [|done| |].
  { intros i Hi. split; [done|by apply (Hin key)]. }
  { done. }
  rewrite E. destruct (IH objs1 ms1 HR Hv Hw Hs Ht1) as (objs2 & ms2 & E2 & Ht2 & Hl2); [intros k i Hi; rewrite Hl1; by apply (Hin k)|].
  exists objs2, ms2. split; [done|]. split; [done|]. by rewrite Hl2.
Qed.
End Serve.

(** ** What the copy retains *)

Definition is_powers (a : History) : bool := match a with RecentPowers _ => true | RecentMagnitudes _ => false end.

Lemma demodulate_kind cfg a input a' block : demodulate cfg a input = Some (a', block) -> is_powers a' = is_powers a.
Proof.
  destruct a as [hist|hist]; unfold demodulate; intros (x & _ & E)%bind_Some; apply bind_Some in E as (y & _ & E); injection E as <- _; done.
Qed.

Lemma history_count {A} cfg (h : Strips A) hist : history_ok cfg h hist ->
  blockCount h = (BufferLength cfg + BlockSize cfg - 1) / BlockSize cfg /\ gap h = blockCount h * BlockSize cfg - BufferLength cfg.
Proof.
  intros [H1 _ _ _ _ _ [H7 H7'] _ _ _ _]. split; [|done]. apply (Z.div_unique_pos _ _ _ (BlockSize cfg - 1 - gap h)); lia.
Qed.

(** Any strip may be taken for the newest: the windows are there. *)
Lemma history_window_length {A} cfg (h : Strips A) hist b idx n :
  history_ok cfg h hist -> 0 <= b < blockCount h -> 0 <= idx -> 0 < n <= overlap h -> idx + n <= BufferLength cfg ->
  exists w, history_window cfg (at_block h b) idx n = Some w /\ len w = n.
Proof.
  intros Hok Hb Hi Hn Hl. pose proof (locate_spec cfg h hist idx Hok ltac:(lia)) as (_ & K1 & K2 & K3). cbv zeta in *.
  pose proof Hok as [H1 [H2 H2'] H3 H4 H5 H6 [H7 H7'] _ H9 _ _].
  unfold history_window, locate_sample. cbn [at_block gap block blockCount blockStride blockShift blockMask overlap backing].
  rewrite H3, H2', Z.shiftr_div_pow2, Z.sub_1_r, <- Z.ones_equiv, Z.land_ones, <- H2' by lia.
  set (j := (gap h + idx) / BlockSize cfg) in *. set (o := (gap h + idx) mod BlockSize cfg) in *.
  set (k := if blockCount h <=? b + 1 + j then b + 1 + j - blockCount h else b + 1 + j).
  assert (0 <= k < blockCount h) as Hk by (unfold k; destruct (Z.leb_spec (blockCount h) (b + 1 + j)); lia).
  set (s := if BlockSize cfg <? o + n then _ else _).
  assert (0 <= s /\ s + n <= len (backing h)) as [S1 S2].
  { unfold s. rewrite H9, H5. destruct (Z.ltb_spec (BlockSize cfg) (o + n)); [|nia]. destruct (Z.eqb_spec (k + 1) (blockCount h)); nia. }
  eexists. split; [apply slice_sub; lia|]. unfold sub, len in *. rewrite length_take, length_drop. lia.
Qed.

Section Copy.
Context `{QuantizerPlatform} `{SearchPlatform} `{DualPlatform} `{MagnitudePlatform} `{ManchesterPlatform}.

(** Through the copy the parsers find windows of the right length, whatever strips
    they come from. *)
Lemma copy_sees (home d : Decoder Parser) w0 a0 w a :
  samples_ok home w0 a0 -> samples_ok d w a -> is_powers a = is_powers a0 -> Cfg home = Cfg d -> retained (samples d) = retained (samples home) ->
  0 < ChipLength (Cfg d) -> 4 * ChipLength (Cfg d) <= retained (samples home) -> ChipLength (Cfg d) * 4 <= BufferLength (Cfg d) ->
  sees (Cfg d) (is_powers a0) (copy_view home d).
Proof.
  intros Hs0 Hs1 Ea Ec Er Hpos Hret Hbuf idx Hi Hl. unfold samples_ok in *. cbn [copy_view v_Power16Window v_SignalWindow].
  destruct a0 as [hist0|hist0], a as [hist|hist]; try discriminate Ea; cbn [is_powers].
  - destruct (samples home) as [s0|h0|p0]; cbn [retained] in *; [lia| |done]. destruct (samples d) as [s|h|p]; cbn [retained] in *; [lia| |done].
    destruct Hs0 as [K0 _], Hs1 as [K1 _]. destruct (history_count _ _ _ K0) as [N0 _], (history_count _ _ _ K1) as [N1 _]. rewrite Ec in *.
    destruct (history_window_length (Cfg d) h hist (block h0) idx (ChipLength (Cfg d) * 4) K1) as (x & Ex & Lx); try lia.
    { pose proof (h_at _ _ _ K0). lia. }
    exists x. unfold SignalWindow. cbn [at_block overlap]. rewrite (proj2 (Z.ltb_ge _ _)) by lia. split; [done|lia].
  - destruct (samples home) as [s0|h0|p0]; [done|done|]. destruct (samples d) as [s|h|p]; [done|done|]. cbn [retained] in *.
    destruct Hs1 as (K1 & _). pose proof (h_overlap _ _ _ K1). unfold Power16Window. rewrite Ec.
    assert ((idx <? 0) || (BufferLength (Cfg d) <=? idx) || (ChipLength (Cfg d) * 4 <? 0) || (overlap (p_strips p) <? ChipLength (Cfg d) * 4) ||
      (BufferLength (Cfg d) <? ChipLength (Cfg d) * 4) || (BufferLength (Cfg d) - ChipLength (Cfg d) * 4 <? idx) = false) as ->.
    { rewrite !orb_false_iff, !Z.ltb_ge, Z.leb_gt. lia. }
    rewrite (history_window_recent _ _ hist) by (done || lia). eexists. split; [reflexivity|]. unfold sub, len. rewrite length_take, length_drop.
    pose proof (h_hist _ _ _ K1) as Lh. pose proof (h_gap _ _ _ K1) as [Lg0 Lg]. unfold recent. rewrite length_drop. unfold len in Lh. lia.
Qed.

(** ** Block by block *)

(** A decoder between two blocks, its parsers reading through [home]. *)
Record service (home : Decoder Parser) (power : bool) (hears : Prop) (d : Decoder Parser) : Prop := {
  sv_ready : exists w a, ready d w a /\ is_powers a = power;
  sv_cfg : Cfg home = Cfg d;
  sv_retained : retained (samples d) = retained (samples home);
  sv_preambles : preambles (registry d) = preambles (registry home);
  sv_team : team (Cfg d) power hears (objects (registry d));
  sv_listed : forall key i, i ∈ default [] (preambles (registry d) !! key) -> (i < length (objects (registry d)))%nat }.

Lemma service_step home power (hears : Prop) d order input :
  roomy (Cfg home) -> service home power hears home -> (hears -> 4 * ChipLength (Cfg home) <= retained (samples home)) -> service home power hears d ->
  order ≡ₚ elements (dom (preambles (registry home))) -> Forall is_byte input -> BlockSize2 (Cfg home) <= len input ->
  exists d' messages, Decode_seeing (copy_view home) order d input = Some (d', messages) /\ service home power hears d'.
Proof.
  intros HR [(w0 & a0 & Hr0 & Ep0) _ _ _ _ _] Hhear [(w & a & Hr & Ep) Sc Sr Sp St Sl] Ho Hb Hlen. rewrite Sc in HR, Hhear, Hlen. rewrite <- Sp in Ho.
  destruct (ready_advances (copy_view home) order d w a input Hr Hb Hlen) as (a' & block & d1 & ED & Hlb & Hbb & Hd1 & Hs1 & Er & Ec & Et & ->).
  apply demodulate_kind in ED. pose proof HR as [R1 R2 R3 R4 R5].
  assert (hears -> sees (Cfg d) power (copy_view home d1)) as Hsees.
  { intros Hh. rewrite <- Ec, <- Ep0. specialize (Hhear Hh).
    apply (copy_sees home d1 w0 a0 (push w block) a'); rewrite ?Ec; try done; [by apply Hr0|congruence|by rewrite Et|].
    pose proof (geo_block _ (bg_geometry _ (d_bytes _ _ Hd1))) as Gk. rewrite Ec in Gk. rewrite R4, R2. nia. }
  destruct (decodeQuantized_spec (copy_view home) order d1 (push w block)) as (order' & x & Ho' & -> & Hx); [by rewrite Ec|exact Hd1|by rewrite Er|].
  destruct (spec_decode_total (Cfg d) power hears (copy_view home d1) (push w block) (preambles (registry d1)) order' (objects (registry d1)) [])
    as (objs & ms & E & Ht & Hl); [done|done|exact (d_bits _ _ Hd1)|exact Hsees|by rewrite Er|by rewrite Er|].
  unfold tail_result, spec_decode in Hx. rewrite E in Hx. destruct x as [[[[objs' buf] idx] ms']|]; [|done]. destruct Hx as [Ex Hsc]. injection Ex as <- <-.
  cbn [mbind option_bind]. eexists _, _. split; [reflexivity|]. cbn [after_parse fst].
  constructor; [|cbn [Cfg samples registry with_objects preambles objects]; rewrite ?Ec, ?Er, ?Et; try done..].
  - exists (push w block), a'. split; [|congruence]. destruct Hr as [_ _ K1 K2 K3 K4].
    constructor; [exact (after_parse_ok d1 _ objs buf idx ms Hd1 Hsc)|exact Hs1|..]; cbn [Cfg]; by rewrite Ec.
  - intros key i Hi. rewrite Hl, Er. by apply (Sl key).
Qed.

Lemma service_run home power (hears : Prop) calls : forall d,
  roomy (Cfg home) -> service home power hears home -> (hears -> 4 * ChipLength (Cfg home) <= retained (samples home)) -> service home power hears d ->
  Forall (fun '(order, input) => order ≡ₚ elements (dom (preambles (registry home))) /\ Forall is_byte input /\ BlockSize2 (Cfg home) <= len input) calls ->
  exists d' out, copy_run home d calls = Some (d', out) /\ length out = length calls.
Proof.
  induction calls as [|[order input] calls IH]; intros d HR H0' Hh Hd Hc; [by exists d, []|]. apply Forall_cons in Hc as [(Ho & Hb & Hl) Hc].
  destruct (service_step home power hears d order input HR H0' Hh Hd Ho Hb Hl) as (d1 & ms & E & Hd1).
  destruct (IH d1 HR H0' Hh Hd1 Hc) as (d2 & out & E2 & L). exists d2, (ms :: out). cbn [copy_run]. rewrite E. cbn [mbind option_bind]. rewrite E2. cbn. by rewrite L.
Qed.
End Copy.

(** ** Allocation *)

Section Allocation.
Context `{QuantizerPlatform}.

Definition attach (b : bool) (p : Parser) : Parser := match set_power16_history p with Some f => f b | None => p end.

Lemma set_consumers_all b pre ps : set_consumers b (pre ++ ps) (places consumes (length pre) ps) = pre ++ map (attach b) ps.
Proof.
  revert pre. induction ps as [|p ps IH]; intros pre; [done|]. cbn [places map].
  assert (set_consumers b (pre ++ attach b p :: ps) (places consumes (1 + length pre) ps) = pre ++ attach b p :: map (attach b) ps) as K.
  { specialize (IH (pre ++ [attach b p])). rewrite length_app, <- !app_assoc in IH. cbn [length app] in IH. by rewrite Nat.add_comm in IH. }
  unfold consumes at 1. unfold attach in K at 1 2 |- * at 1. destruct (set_power16_history p) as [f|] eqn:E; [|exact K].
  unfold set_consumers. cbn [foldl]. assert ((pre ++ p :: ps) !! length pre = Some p) as -> by by apply list_lookup_middle.
  rewrite E, insert_app_r_alt, Nat.sub_diag by lia. exact K.
Qed.

Lemma consumes_attach b p : consumes (attach b p) = consumes p.
Proof. by destruct p. Qed.

Lemma places_attach b n ps : places consumes n (map (attach b) ps) = places consumes n ps.
Proof. revert n. induction ps as [|p ps IH]; intros n; [done|]. cbn [map places]. by rewrite consumes_attach, IH. Qed.

(** What Allocate makes of the parsers and the samples. *)
Lemma Allocate_parts pol pr ps d : Allocate (register_all ps) pol pr = Some d ->
  let cfg := derive_config (r_Cfg (register_all ps)) in
  exists power, objects (registry d) = map (attach power) (map (attach false) ps) /\
    match samples d with
    | Power p => power = true /\ overlap (p_strips p) = Z.max (SymbolLength cfg) (signalHistoryOverlap (register_all ps))
    | s => power = false /\ s = allocateFloatSignal cfg (signalHistoryOverlap (register_all ps))
    end /\ (s_Power16Active (dispatchStatus d) = power).
Proof.
  intros E cfg. destruct (register_all_registered ps) as [R1 _ _ _ _ _ _ R8]. unfold Allocate in E. rewrite R1, R8 in E.
  pose proof (set_consumers_all false [] ps) as F. cbn [length app] in F. rewrite F in E.
  pose proof (set_consumers_all true [] (map (attach false) ps)) as T. cbn [length app] in T. rewrite places_attach in T. rewrite T in E. clear F T.
  assert (map (attach false) (map (attach false) ps) = map (attach false) ps) as FF by (rewrite map_map; apply map_ext; by intros []).
  fold cfg in E. destruct (selectPower16Platform _ _ _ _ _) as [sel st] eqn:Es.
  assert (match sel with Some pf => run pf <> None /\ s_Power16Active st = true | None => s_Power16Active st = false end) as Hsel.
  { unfold selectPower16Platform in Es. destruct (decide _); [by injection Es as <- <-|]. destruct (negb _); [by injection Es as <- <-|].
    destruct (negb _); [by injection Es as <- <-|]. destruct pr as [f|]; [|by injection Es as <- <-]. destruct (platform_refused (f tt)) eqn:Er; injection Es as <- <-; [done|].
    unfold platform_refused in Er. rewrite !orb_false_iff in Er. destruct Er as [_ Er]. split; [|done]. by destruct (run (f tt)). }
  assert (s_Power16Active st = false -> forall p0, Some {| registry := with_objects (register_all ps) (map (attach false) ps); Cfg := cfg;
      decisions := allocate_ring cfg (packed_producer (allocateFloatSignal cfg (signalHistoryOverlap (register_all ps))));
      samples := allocateFloatSignal cfg (signalHistoryOverlap (register_all ps)); packed := p0; pkt := make (Z.shiftr (PacketSymbols cfg + 7) 3) 0; sIdxA := [];
      policy := pol; probe := pr; dispatchStatus := st |} = Some d -> exists power, objects (registry d) = map (attach power) (map (attach false) ps) /\
    match samples d with
    | Power p => power = true /\ overlap (p_strips p) = Z.max (SymbolLength cfg) (signalHistoryOverlap (register_all ps))
    | s => power = false /\ s = allocateFloatSignal cfg (signalHistoryOverlap (register_all ps))
    end /\ s_Power16Active (dispatchStatus d) = power) as Hfloat.
  { intros Hst p0 [= <-]. exists false. cbn [registry with_objects objects samples dispatchStatus]. split; [by rewrite FF|]. split; [|done]. unfold allocateFloatSignal. by destruct (0 <? _). }
  destruct sel as [pf|].
  - destruct Hsel as [Hrun Hst]. destruct (run pf) as [f|]; [|done]. apply bind_Some in E as (pk & _ & E). injection E as <-. exists true.
    cbn [registry with_objects objects samples dispatchStatus]. split; [done|]. split; [|done]. split; [done|]. unfold allocatePower16, allocate_history. cbn [p_strips overlap].
    destruct (Z.ltb_spec (signalHistoryOverlap (register_all ps)) (SymbolLength cfg)); lia.
  - apply bind_Some in E as (pk & _ & E). by apply (Hfloat Hsel pk).
Qed.

Lemma fresh_fits c cfg power p : fresh c p -> in_domain cfg p -> (consumes p = true -> 116 <= PacketSymbols cfg) -> fits cfg power (attach power (attach false p)).
Proof.
  destruct 1; cbn; intros Hd Hc.
  - exists c, (make 12 0). split; [reflexivity|]. tauto.
  - exists c, (make 16 0). split; [reflexivity|]. tauto.
  - exists c, (make 92 0). split; [reflexivity|]. tauto.
  - exists c, (make 92 0). split; [reflexivity|]. tauto.
  - split; [done|]. split; [done|]. split; [by exists (make 16 0), (make 5 0)|]. split; [by apply Hc|done].
  - split; [done|]. split; [done|]. split; [by exists (make 16 0), (make 5 0)|]. split; [by apply Hc|done].
Qed.
End Allocation.

(** ** The decoder of a command line *)

Section Build.
Context `{QuantizerPlatform} `{SearchPlatform} `{DualPlatform} `{MagnitudePlatform} `{ManchesterPlatform}.

Lemma fresh_service c ps pr : 0 < c -> c mod 4 = 0 -> Forall (fresh c) ps -> ps <> [] -> probe_lawful pr ->
  exists d power hears, Allocate (register_all ps) power16PolicyAutomatic pr = Some d /\ roomy (Cfg d) /\ service d power hears d /\
    (hears -> 4 * ChipLength (Cfg d) <= retained (samples d)).
Proof.
  intros Hc H4 Hps Hne Hpr. pose proof (fresh_allocatable c ps Hc H4 Hps Hne) as Hal.
  destruct (Allocate_ready (register_all ps) power16PolicyAutomatic pr Hal Hpr) as (d & E & Hr & Ep & Ec).
  destruct (register_all_registered ps) as [R1 R2 _ R4 _ _ R7 _]. destruct (fresh_merged c ps Hc Hps Hne) as [M1 M2 M3 M4 M5].
  destruct (fresh_overlap c ps Hc Hps) as [Ho1 Ho2]. destruct (Allocate_parts _ _ _ _ E) as (power & Eo & Es & _). cbv zeta in *. rewrite <- Ec in Es.
  rewrite <- R2 in M1, M2, M3, M4, M5. rewrite <- R7 in Ho1, Ho2.
  destruct (derive_lengths (r_Cfg (register_all ps))) as (L1 & L2 & L3 & L4 & L5 & L6 & _); [lia|lia|]. rewrite <- Ec in L1, L2, L3, L4, L5, L6.
  assert (PreambleSymbols (Cfg d) = PreambleSymbols (r_Cfg (register_all ps)) /\ PacketSymbols (Cfg d) = PacketSymbols (r_Cfg (register_all ps))) as [P1 P2] by by rewrite Ec.
  assert (forall p, p ∈ ps -> consumes p = true -> signalHistoryOverlap (register_all ps) = 4 * c /\ 116 <= PacketSymbols (Cfg d)) as Hcons.
  { intros p Hp Hcp. rewrite Forall_forall in Hps. destruct (fresh_config c p (Hps p Hp)) as (_ & _ & _ & _ & _ & K). destruct (K Hcp) as [K1 K2].
    specialize (Ho2 p Hp). specialize (M5 p Hp). lia. }
  exists d, power, (existsb consumes ps = true). split; [done|]. split; [|split].
  - constructor; [lia|lia| |rewrite L5, L3, P2; lia|lia]. rewrite L2, P1. split; [done|lia].
  - constructor; try done.
    + exists (make (BufferLength (Cfg d)) 0), (silence d). split; [done|]. unfold silence. destruct (samples d); by destruct Es as [-> _].
    + rewrite Eo. unfold team. rewrite map_map, Forall_map. apply Forall_forall. intros p Hp. pose proof Hp as Hp'. rewrite Forall_forall in Hps. specialize (Hps p Hp'). split.
      * apply (fresh_fits c); [done| |intros Hcp; by destruct (Hcons p Hp' Hcp)]. apply (fresh_in_domain c); [done|]. rewrite P2. by apply M5.
      * intros Hread. apply existsb_exists. exists p. split; [by apply list_elem_of_In|]. by destruct Hps.
    + intros key i Hi. rewrite Ep, R4, places_spec in Hi. destruct Hi as (j & p & -> & Hp & _). rewrite Eo, !length_map. cbn. by eapply lookup_lt_Some.
  - intros (p & Hp%list_elem_of_In & Hcp)%existsb_exists. destruct (Hcons p Hp Hcp) as [Hov _]. rewrite L6, M1.
    destruct (samples d) as [s|h|p0]; cbn [retained].
    + destruct Es as [_ Es]. unfold allocateFloatSignal in Es. rewrite Hov, (proj2 (Z.ltb_lt _ _)) in Es by lia. discriminate Es.
    + destruct Es as [_ Es]. unfold allocateFloatSignal in Es. rewrite Hov, (proj2 (Z.ltb_lt _ _)) in Es by lia. injection Es as ->. cbn. lia.
    + destruct Es as [_ ->]. lia.
Qed.

Lemma newProtocolDecoder_known pr c names : 0 < c -> c mod 4 = 0 -> Forall known names -> names <> [] -> probe_lawful pr ->
  exists ps d power hears, Forall (fresh c) ps /\ Forall2 (fun name p => consumes p = true -> name = str "r900" \/ name = str "r900bcd") names ps /\
    ps <> [] /\ newProtocolDecoder pr c names = Some (inl d) /\
    Allocate (register_all ps) power16PolicyAutomatic pr = Some d /\ roomy (Cfg d) /\ service d power hears d /\
    (hears -> 4 * ChipLength (Cfg d) <= retained (samples d)).
Proof.
  intros Hc H4 Hn Hne Hpr. destruct (register_names_spec c names newDecoder Hn) as (ps & Hps & Hl & E).
  assert (ps <> []) as Hps0 by (intros ->; by apply Forall2_nil_inv_r in Hl). destruct (fresh_service c ps pr Hc H4 Hps Hps0 Hpr) as (d & power & hears & Ea & K).
  exists ps, d, power, hears. do 3 (split; [done|]). split; [|done]. unfold newProtocolDecoder. rewrite E. cbn [mbind option_bind].
  fold (register_all ps). by rewrite Ea.
Qed.
End Build.

(** ** Properties *)

(** C3. The program's receiver never panics in its decoder.  Whatever message types are
    asked for, building the decoder either reports a name that is not a protocol or,
    when all are and there is one, gives a decoder; and on that decoder every sequence
    of blocks, walked in every order of the preamble map, is decoded to the end, the
    parsers reading their windows through the copy that they were registered with. *)
Theorem decoder_never_panics `{QuantizerPlatform} `{SearchPlatform} `{DualPlatform} `{MagnitudePlatform} `{ManchesterPlatform}
  (probe : option (unit -> power16Platform)) (symbolLength : Z) (names : list (list Z))
  (Hlength : 0 < symbolLength /\ symbolLength mod 4 = 0) (Hnames : names <> []) (Hprobe : probe_lawful probe) :
  match newProtocolDecoder probe symbolLength names with
  | Some (inl d) => Forall known names /\
      forall calls, Forall (fun '(order, input) => order ≡ₚ elements (dom (preambles (registry d))) /\ Forall is_byte input /\
                                                   BlockSize2 (Cfg d) <= len input) calls ->
        exists d' out, copy_run d d calls = Some (d', out) /\ length out = length calls
  | Some (inr name) => name ∈ names /\ ~ known name
  | None => False
  end.
Proof.
  destruct Hlength as [Hc H4]. destruct (decide (Forall known names)) as [Hn|Hn].
  - destruct (newProtocolDecoder_known probe symbolLength names Hc H4 Hn Hnames Hprobe) as (ps & d & power & hears & _ & _ & _ & -> & _ & HR & Hs & Hh).
    split; [done|]. intros calls Hcalls. exact (service_run d power hears calls d HR Hs Hh Hs Hcalls).
  - destruct (register_names_unknown symbolLength names newDecoder Hn) as (name & Hin & Hk & E).
    unfold newProtocolDecoder. rewrite E. done.
Qed.

Lemma decoder_never_panics_witness :
  exists d, @newProtocolDecoder portable_quantizer None 72 [str "idm"; str "r900"; str "scm"] = Some (inl d) /\
    forall input, Forall is_byte input -> 16384 <= len input ->
      exists d' out, @copy_run _ _ (@program_parsers portable_quantizer) generic_platform portable_dual portable_magnitude portable_manchester
        d d [(elements (dom (preambles (registry d))), input)] = Some (d', out) /\ length out = 1%nat.
Proof.
  pose proof (@decoder_never_panics portable_quantizer generic_platform portable_dual portable_magnitude portable_manchester
    None 72 [str "idm"; str "r900"; str "scm"] ltac:(split; [reflexivity|reflexivity]) ltac:(discriminate) ltac:(intros f fr cfg ov [=])) as K.
  assert (match @newProtocolDecoder portable_quantizer None 72 [str "idm"; str "r900"; str "scm"] with Some (inl d) => BlockSize2 (Cfg d) | _ => 0 end = 16384) as E
    by (vm_compute; reflexivity).
  destruct (newProtocolDecoder None 72 _) as [[d|name]|]; [|discriminate E|discriminate E]. exists d. split; [reflexivity|]. intros input Hb Hl.
  destruct K as [_ K]. apply (K [(elements (dom (preambles (registry d))), input)]). constructor; [|constructor]. rewrite E. done.
Defined.
