(* ===== verification/ProtocolsCopy.v ===== *)
(** The copy that newProtocolDecoder returns (Protocols.v): when it decodes like the
    decoder its parsers were registered with, and what is lost when it does not. *)

From S2P Require Import Prelude Crc Gf Packet Layout Scm ScmPlus Idm NetIdm Float64 R900 R900Bcd Search Ring History Signal Register.
From S2P Require Import Decode Receiver DutyState Protocols ProtocolsSpec ProtocolsTotal.

(** Decode uses the view of decoders of one configuration and kind of samples only. *)
Definition same_kind (s s' : Samples) : Prop :=
  match s, s' with FloatWindow _, FloatWindow _ | FloatHistory _, FloatHistory _ | Power _, Power _ => True | _, _ => False end.

Section Views.
Context {S M : Type} `{ParserOps S M} `{SearchPlatform} `{DualPlatform} `{MagnitudePlatform} `{ManchesterPlatform}.

Lemma decodeQuantized_ext see see' order (d : Decoder S) : see d = see' d -> decodeQuantized (M := M) see order d = decodeQuantized see' order d.
Proof. intros E. unfold decodeQuantized. by rewrite E. Qed.

Lemma Decode_seeing_ext see see' order (d : Decoder S) input :
  (forall d1, Cfg d1 = Cfg d -> same_kind (samples d) (samples d1) -> see d1 = see' d1) ->
  Decode_seeing (M := M) see order d input = Decode_seeing see' order d input.
Proof.
  intros Hsee. assert (forall d1 block, Cfg d1 = Cfg d -> same_kind (samples d) (samples d1) -> decodeFiltered (M := M) see order d1 block = decodeFiltered see' order d1 block) as HF.
  { intros d1 block E K. unfold decodeFiltered. destruct (appendQuantized _ _ _) as [r|]; [|done]. cbn [mbind option_bind].
    destruct (if packed_producer _ then _ else _) as [pk|]; [|done]. cbn [mbind option_bind]. apply decodeQuantized_ext, Hsee; done. }
  unfold Decode_seeing. destruct (samples d) as [s|h|p] eqn:Es.
  - destruct (appendSignal _ _ _) as [[s' sg]|] eqn:Ea; [|done]. cbn [mbind option_bind]. destruct (Filter _ _ _) as [b|]; [|done]. cbn [mbind option_bind].
    apply HF; [done|]. apply appendSignal_shape in Ea. by destruct s'.
  - destruct (appendSignal _ _ _) as [[s' sg]|] eqn:Ea; [|done]. cbn [mbind option_bind]. destruct (Filter _ _ _) as [b|]; [|done]. cbn [mbind option_bind].
    apply HF; [done|]. apply appendSignal_shape in Ea. by destruct s'.
  - destruct (appendPower16AndFilter _ _ _ _ _) as [[[[p' r] pk] [b|]]|]; [| |done]; cbn [mbind option_bind]; [by apply HF|]. by apply decodeQuantized_ext, Hsee.
Qed.

(** Without a float history the copy shows the parsers what the decoder itself shows. *)
Lemma copy_view_live (home d : Decoder S) : Cfg home = Cfg d -> same_kind (samples home) (samples d) -> (forall h, samples home <> FloatHistory h) ->
  copy_view home d = view d.
Proof.
  intros Ec Hk Hf. unfold copy_view, view. rewrite Ec. destruct (samples home), (samples d); try done. by destruct (Hf h).
Qed.

Lemma copy_run_live (home : Decoder S) calls : (forall h, samples home <> FloatHistory h) -> forall d w a,
  ready d w a -> Cfg home = Cfg d -> same_kind (samples home) (samples d) ->
  Forall (fun '(order, input) => order ≡ₚ elements (dom (preambles (registry d))) /\ Forall is_byte input /\ BlockSize2 (Cfg d) <= len input) calls ->
  copy_run (M := M) home d calls = decode_run d calls.
Proof.
  intros Hf. induction calls as [|[order input] calls IH]; intros d w a Hr Ec Hk Hc; [done|]. apply Forall_cons in Hc as [(Ho & Hb & Hl) Hc].
  cbn [copy_run decode_run]. assert (Decode_seeing (M := M) (copy_view home) order d input = Decode order d input) as ->.
  { apply Decode_seeing_ext. intros d1 Ec1 Hk1. apply copy_view_live; [congruence| |done]. by destruct (samples home), (samples d), (samples d1). }
  pose proof (Decode_step order d w a input Hr Hb Hl Ho) as Hstep. cbv zeta in Hstep. destruct (Decode order d input) as [[d' ms]|] eqn:E; [|done].
  destruct Hstep as (w' & a' & Hr' & Ec' & _ & Ep' & _). cbn [mbind option_bind]. rewrite (IH d' w' a' Hr'); [done|congruence| |by rewrite Ec', Ep'].
  pose proof (sh_samples _ _ (Decode_shape order d w a input d' ms Hr Hb Hl Ho E)) as Hs. by destruct (samples home), (samples d), (samples d').
Qed.
End Views.

(** ** Properties *)

(** C15. The decoder of a command line is the decoder of Decode_refines: for every list
    of known message types, if the integer samples were selected or no R900 protocol
    is among them, what the returned copy decodes is what the registered decoder would
    decode, block for block, and so what the abstract receiver receives. *)
Theorem returned_decoder_refines `{QuantizerPlatform} `{SearchPlatform} `{DualPlatform} `{MagnitudePlatform} `{ManchesterPlatform}
  (probe : option (unit -> power16Platform)) (symbolLength : Z) (names : list (list Z)) d calls
  (Hlength : 0 < symbolLength /\ symbolLength mod 4 = 0) (Hnames : names <> []) (Hprobe : probe_lawful probe)
  (Hbuilt : newProtocolDecoder probe symbolLength names = Some (inl d))
  (Hr900 : s_Power16Active (dispatchStatus d) = true \/ (str "r900" ∉ names /\ str "r900bcd" ∉ names))
  (Hcalls : Forall (fun '(order, input) => order ≡ₚ elements (dom (preambles (registry d))) /\ Forall is_byte input /\
                                           BlockSize2 (Cfg d) <= len input) calls) :
  copy_run d d calls = decode_run d calls /\
  abstract_run (Cfg d) (retained (samples d)) (preambles (registry d))
    {| a_window := make (BufferLength (Cfg d)) 0; a_history := silence d; a_objects := objects (registry d) |}
    (map snd calls) ('(d', out) ← copy_run d d calls; Some (objects (registry d'), out)).
Proof.
  destruct Hlength as [Hc H4].
  assert (Forall known names) as Hn.
  { destruct (decide (Forall known names)) as [|Hn]; [done|]. destruct (register_names_unknown symbolLength names newDecoder Hn) as (name & _ & _ & E).
    unfold newProtocolDecoder in Hbuilt. rewrite E in Hbuilt. done. }
  destruct (newProtocolDecoder_known probe symbolLength names Hc H4 Hn Hnames Hprobe) as (ps & d0 & power & hears & Hps & Hnp & Hne & Ed & Ea & _ & _ & _).
  rewrite Hbuilt in Ed. injection Ed as <-. pose proof (fresh_allocatable symbolLength ps Hc H4 Hps Hne) as Hal.
  destruct (Allocate_ready _ power16PolicyAutomatic probe Hal Hprobe) as (d1 & E1 & Hr & _ & _). rewrite Ea in E1. injection E1 as <-.
  assert (forall h, samples d <> FloatHistory h) as Hf.
  { intros h Eh. destruct (Allocate_parts _ _ _ _ Ea) as (pw & _ & Es & Est). cbv zeta in *. rewrite Eh in Es. destruct Es as [-> Es].
    destruct Hr900 as [Ha|[N1 N2]]; [congruence|]. unfold allocateFloatSignal in Es. destruct (Z.ltb_spec 0 (signalHistoryOverlap (register_all ps))) as [Hov|]; [|done].
    destruct (register_all_registered ps) as [_ _ _ _ _ _ R7 _]. rewrite R7 in Hov.
    assert (Forall (fun p => overlap_of p = 0) ps) as Hz.
    { apply Forall_forall. intros p Hp. apply list_elem_of_lookup in Hp as [i Hp]. destruct (Forall2_lookup_r _ _ _ _ _ Hnp Hp) as (name & Hi & Hname).
      apply list_elem_of_lookup_2 in Hi. destruct (consumes p) eqn:Ecp; [by destruct (Hname eq_refl) as [->| ->]|].
      pose proof (Forall_lookup_1 _ _ _ _ Hps Hp) as Hfr. by destruct Hfr. }
    assert (foldl Z.max 0 (map overlap_of ps) = 0) as E0; [|lia]. clear -Hz. induction Hz as [|p ps Ep _ IH]; [done|]. cbn [map foldl]. by rewrite Ep. }
  assert (copy_run d d calls = decode_run d calls) as Erun.
  { apply (copy_run_live d calls Hf d _ _ Hr); [done|by destruct (samples d)|done]. }
  split; [exact Erun|]. rewrite Erun. exact (decode_run_refines d _ _ calls Hr Hcalls).
Qed.

Lemma returned_decoder_refines_witness :
  exists d out, @newProtocolDecoder portable_quantizer None 8 [str "scm"] = Some (inl d) /\
    @copy_run _ _ (@program_parsers portable_quantizer) generic_platform portable_dual portable_magnitude portable_manchester
      d d [(elements (dom (preambles (registry d))), make 1024 127)] = out /\
    out = @decode_run _ _ (@program_parsers portable_quantizer) generic_platform portable_dual portable_magnitude portable_manchester
      d [(elements (dom (preambles (registry d))), make 1024 127)].
Proof.
  assert (match @newProtocolDecoder portable_quantizer None 8 [str "scm"] with Some (inl d) => BlockSize2 (Cfg d) | _ => 0 end = 1024) as E
    by (vm_compute; reflexivity).
  destruct (newProtocolDecoder None 8 _) as [[d|name]|] eqn:Ed; [|discriminate E|discriminate E]. exists d. eexists. split; [reflexivity|]. split; [reflexivity|].
  apply (@returned_decoder_refines portable_quantizer generic_platform portable_dual portable_magnitude portable_manchester
    None 8 [str "scm"] d [(elements (dom (preambles (registry d))), make 1024 127)]); [split; reflexivity|discriminate|intros f fr cfg ov [=]|exact Ed| |].
  - right. split; (apply (bool_decide_unpack _); vm_compute; exact I).
  - constructor; [|constructor]. split; [done|]. split; [|rewrite E; done]. apply Forall_make. split; (discriminate || reflexivity).
Defined.

(** *** What the copy loses *)

(** One chip of eight samples at a level, and a Manchester bit. *)
Definition chip_bytes (level : Z) : list Z := concat (replicate 8 [level; 127]).
Definition bit_bytes (bit : Z) : list Z := if bit =? 49 then chip_bytes 255 ++ chip_bytes 127 else chip_bytes 127 ++ chip_bytes 255.

(** Four blocks of IQ bytes with one R900 transmission of the sample message. *)
Definition transmission : list Z :=
  chip_bytes 127 ++ concat (map bit_bytes fixedR900PreambleASCII) ++
  concat (map (fun i => concat (map (fun high : bool => chip_bytes (if high then 255 else 131)) (kernel (sent_digit (symbols_to_send R900.sample) i)))) (seq 0 42)).

Definition transmission_calls : list (list (list Z) * list Z) :=
  let signal := transmission ++ make (4 * 1024 - len transmission) 127 in
  map (fun i => ([preamble_bytes fixedR900PreambleASCII], take 1024 (drop (1024 * i) signal))) (seq 0 4).

(** On float64 samples the returned copy loses R900 messages that the registered
    decoder receives: the parser reads the sample strips through the index of the
    decoder it was registered with, which the copy's blocks do not advance. *)
Theorem returned_copy_loses_r900 :
  exists d d1 d2, @newProtocolDecoder portable_quantizer None 8 [str "r900"] = Some (inl d) /\
    @decode_run _ _ (@program_parsers portable_quantizer) generic_platform portable_dual portable_magnitude portable_manchester d transmission_calls =
      Some (d1, [[]; []; []; [AnR900 R900.sample]]) /\
    @copy_run _ _ (@program_parsers portable_quantizer) generic_platform portable_dual portable_magnitude portable_manchester d d transmission_calls =
      Some (d2, [[]; []; []; []]).
Proof.
  eexists _, _, _. split; [vm_compute; reflexivity|]. split; vm_compute; reflexivity.
Qed.
