(* ===== verification/Collector.v ===== *)
(** The statistics collector (src/cmd/rtlamr-collect/main.go and coalescer.go): the
    points that messages add, the meter map that keeps intervals from being sent
    twice, and the coalescer of unchanged R900 points.  The JSON and msgpack codecs, the
    database file and the InfluxDB client are parameters.  A time is in nanoseconds. *)

From S2P Require Import Prelude Packet.

Definition Second : Z := 10 ^ 9.
Definition Minute : Z := 60 * Second.
Definition threshold : Z := 30 * Second.

(** [Time.Sub]: the difference as an int64, the nearest one when it does not fit. *)
Definition Time_Sub (t u : Z) : Z := Z.max (- 2 ^ 63) (Z.min (2 ^ 63 - 1) (t - u)).

Definition text_map := gmap (list Z) (list Z).
Definition fields_map := gmap (list Z) Z.

(** What eachFn is called with. *)
Record point := { pt_time : Z; pt_tags : text_map; pt_fields : fields_map }.

(** ** The coalescer *)

Record pointKey := { protocol : list Z; messageType : list Z; endpointType : list Z; endpointID : list Z }.

#[export] Instance pointKey_eq_dec : EqDecision pointKey.
Proof. solve_decision. Defined.

#[export] Instance pointKey_countable : Countable pointKey.
Proof.
  refine (inj_countable' (fun k => (protocol k, messageType k, endpointType k, endpointID k))
    (fun p => {| protocol := p.1.1.1; messageType := p.1.1.2; endpointType := p.1.2; endpointID := p.2 |}) _).
  by intros [].
Defined.

Record pointState := { ps_fields : fields_map; lastEmitted : Z }.

Record PointCoalescer := { interval : Z; meters : gmap pointKey pointState }.

Definition NewPointCoalescer (interval : Z) : PointCoalescer := {| interval := interval; meters := ∅ |}.

(** [parseUnchangedInterval] *)
Definition parseUnchangedInterval (ParseDuration : list Z -> option Z) (value : list Z) : option Z :=
  if bool_decide (value = []) || bool_decide (value = str "0") then Some 0 else
  interval ← ParseDuration value;
  if interval <? 0 then None else Some interval.

Definition isR900 (protocol : list Z) : bool := bool_decide (protocol = str "R900") || bool_decide (protocol = str "R900BCD").

(** The value of a key, empty when it is missing. *)
Definition tag (tags : text_map) (key : string) : list Z := default [] (tags !! str key).

Definition key_of_tags (tags : text_map) : pointKey :=
  {| protocol := tag tags "protocol"; messageType := tag tags "msg_type"; endpointType := tag tags "endpoint_type";
     endpointID := tag tags "endpoint_id" |}.

(** [ShouldEmit]: the verdict and the coalescer after it; the fields are stored as a copy. *)
Definition ShouldEmit (c : PointCoalescer) (t : Z) (tags : text_map) (fields : fields_map) : bool * PointCoalescer :=
  if (interval c =? 0) || negb (isR900 (tag tags "protocol")) then (true, c) else
  let key := key_of_tags tags in
  let emit := (true, {| interval := interval c; meters := <[key := {| ps_fields := fields; lastEmitted := t |}]> (meters c) |}) in
  match meters c !! key with
  | Some previous =>
      if (lastEmitted previous <? t) && bool_decide (fields = ps_fields previous) && (Time_Sub t (lastEmitted previous) <? interval c)
      then (false, c) else emit
  | None => emit
  end.

(** ** The meter map *)

Record Meter := { m_EndpointID : Z; m_EndpointType : Z; m_Protocol : list Z }.

#[export] Instance Meter_eq_dec : EqDecision Meter.
Proof. solve_decision. Defined.

#[export] Instance Meter_countable : Countable Meter.
Proof.
  refine (inj_countable' (fun m => (m_EndpointID m, m_EndpointType m, m_Protocol m))
    (fun p => {| m_EndpointID := p.1.1; m_EndpointType := p.1.2; m_Protocol := p.2 |}) _).
  by intros [].
Defined.

Record LastMessage := { lm_Time : Z; lm_Interval : Z }.

(** The bucket of the database, if there is one: its keys and values in key order are
    those of a map. *)
Definition bucket := option (gmap (list Z) (list Z)).

Record MeterMap := { db : bucket; mm : gmap Meter LastMessage }.

Section Codec.
Context (MarshalMeter : Meter -> option (list Z)) (MarshalLast : LastMessage -> option (list Z))
  (UnmarshalMeter : list Z -> option Meter) (UnmarshalLast : list Z -> option LastMessage).

(** ForEach over the bucket: it stops at the first entry that cannot be decoded. *)
Fixpoint load_entries (entries : list (list Z * list Z)) (m : gmap Meter LastMessage) : gmap Meter LastMessage * bool :=
  match entries with
  | [] => (m, true)
  | (k, v) :: entries =>
      match UnmarshalMeter k, UnmarshalLast v with
      | Some meter, Some msg => load_entries entries (<[meter := msg]> m)
      | _, _ => (m, false)
      end
  end.

(** [NewMeterMap] on an open database; [ForEachOrder] is the order of the bucket's keys.
    The error of ForEach is not returned. *)
Definition NewMeterMap (ForEachOrder : gmap (list Z) (list Z) -> list (list Z * list Z)) (file : bucket) : MeterMap * bool :=
  match file with
  | None => ({| db := None; mm := ∅ |}, true)
  | Some entries => ({| db := file; mm := fst (load_entries (ForEachOrder entries) ∅) |}, true)
  end.

(** [MeterMap.Update]: the transaction commits or, when a codec or the database
    refuses ([commits]), leaves everything as it was. *)
Definition MeterMap_Update (m : MeterMap) (commits : bool) (meter : Meter) (msg : LastMessage) : MeterMap * bool :=
  match MarshalMeter meter, MarshalLast msg with
  | Some key, Some val =>
      if commits then ({| db := Some (<[key := val]> (default ∅ (db m))); mm := <[meter := msg]> (mm m) |}, true) else (m, false)
  | _, _ => (m, false)
  end.

(** ** Messages *)

(** The encapsulating message; its body stays text until the type is known. *)
Record LogMessage := { l_Time : Z; l_Type : list Z; l_Message : list Z }.

Record IDM := {
  i_EndpointType : Z; i_EndpointID : Z; TransmitTime : Z; IntervalIdx : Z; IntervalDiff : list Z; Outage : list Z;
  IDMConsumption : Z; NetIDMConsumption : Z; NetIDMConsumptionNet : Z; NetIDMGeneration : Z }.

(** Messages of one cumulative reading: SCM and SCM+. *)
Record SCM := { s_EndpointID : Z; s_EndpointType : Z; s_Consumption : Z }.

Record R900 := { r_EndpointID : Z; r_EndpointType : Z; r_Consumption : Z; r_NoUse : Z; r_BackFlow : Z; r_Leak : Z; r_LeakNow : Z }.

Definition make_tags (protocol msg_type : list Z) (endpointType endpointID : Z) : text_map :=
  <[str "protocol" := protocol]> (<[str "msg_type" := msg_type]> (<[str "endpoint_type" := FormatInt endpointType]>
    (<[str "endpoint_id" := FormatInt endpointID]> ∅))).

(** [time.Duration(TransmitTime) * time.Second / 16] *)
Definition intervalOffset (idm : IDM) : Z := Z.quot (i64 (TransmitTime idm * Second)) 16.

(** Six bytes of outage flags as an uint64. *)
Definition outage_bits (idm : IDM) : Z := of_bytes (make 2 0 ++ gocopy (make 6 0) (Outage idm)).

(** Bit [46 - idx], zero when the shift is past the word. *)
Definition outage_at (outage idx : Z) : bool :=
  let shift := u64 (46 - idx) in
  (if 64 <=? shift then 0 else Z.land (Z.shiftr outage shift) 1) =? 1.

(** Whether the differential interval at [idx] is the one the meter was last seen in. *)
Definition interval_number (idm : IDM) (idx : Z) : Z := u64 (IntervalIdx idm - idx) mod 256.

Definition interval_time (msg : LogMessage) (idm : IDM) (idx : Z) : Z :=
  l_Time msg + i64 (i64 (i64 (i64 (- idx) * 5) * Minute) - intervalOffset idm).

Definition known_interval (state : option LastMessage) (interval intervalTime : Z) : bool :=
  match state with
  | Some state =>
      (interval =? lm_Interval state) &&
      (let diff := Time_Sub (lm_Time state) intervalTime in (- threshold <? diff) && (diff <? threshold))
  | None => false
  end.

(** The loop over the differential intervals; it returns at the first known one. *)
Fixpoint interval_loop (msg : LogMessage) (idm : IDM) (state : option LastMessage) (tags : text_map) (idx : Z) (diffs : list Z) : list point :=
  match diffs with
  | [] => []
  | usage :: diffs =>
      let interval := interval_number idm idx in
      let intervalTime := interval_time msg idm idx in
      if known_interval state interval intervalTime then [] else
      let fields : fields_map := <[str "consumption" := usage]> (<[str "interval" := interval]> ∅) in
      let fields := if outage_at (outage_bits idm) idx then <[str "outage" := 1]> fields else fields in
      {| pt_time := intervalTime; pt_tags := tags; pt_fields := fields |} :: interval_loop msg idm state tags (idx + 1) diffs
  end.

(** The cumulative fields of the two message types. *)
Definition cumulative_fields (msg : LogMessage) (idm : IDM) : fields_map :=
  if bool_decide (l_Type msg = str "NetIDM") then
    <[str "consumption" := NetIDMConsumption idm]> (<[str "generation" := NetIDMGeneration idm]>
      (<[str "consumption_net" := NetIDMConsumptionNet idm]> ∅))
  else <[str "consumption" := IDMConsumption idm]> ∅.

Definition meter_of (msg : LogMessage) (idm : IDM) : Meter :=
  {| m_EndpointID := i_EndpointID idm; m_EndpointType := i_EndpointType idm; m_Protocol := l_Type msg |}.

(** [IDM.AddPoints]: the points in the order of the calls of eachFn, and the meter map;
    the error of Update is not looked at. *)
Definition IDM_AddPoints (m : MeterMap) (commits : bool) (msg : LogMessage) (idm : IDM) : MeterMap * list point :=
  let state := mm m !! meter_of msg idm in
  let start := l_Time msg - intervalOffset idm in
  let '(m, _) := MeterMap_Update m commits (meter_of msg idm) {| lm_Time := start; lm_Interval := IntervalIdx idm |} in
  let tags := make_tags (l_Type msg) (str "cumulative") (i_EndpointType idm) (i_EndpointID idm) in
  let cumulative := {| pt_time := start; pt_tags := tags; pt_fields := cumulative_fields msg idm |} in
  (m, cumulative :: interval_loop msg idm state (<[str "msg_type" := str "differential"]> tags) 0 (IntervalDiff idm)).

Definition SCM_AddPoints (msg : LogMessage) (scm : SCM) : list point :=
  [{| pt_time := l_Time msg; pt_tags := make_tags (l_Type msg) (str "cumulative") (s_EndpointType scm) (s_EndpointID scm);
      pt_fields := <[str "consumption" := s_Consumption scm]> ∅ |}].

Definition R900_AddPoints (msg : LogMessage) (r900 : R900) : list point :=
  [{| pt_time := l_Time msg; pt_tags := make_tags (l_Type msg) (str "cumulative") (r_EndpointType r900) (r_EndpointID r900);
      pt_fields := <[str "consumption" := r_Consumption r900]> (<[str "nouse" := r_NoUse r900]> (<[str "backflow" := r_BackFlow r900]>
        (<[str "leak" := r_Leak r900]> (<[str "leak_now" := r_LeakNow r900]> ∅)))) |}].

(** ** The loop over the lines *)

Section Lines.
Context (UnmarshalLog : list Z -> option LogMessage) (UnmarshalSCM UnmarshalSCMPlus : list Z -> option SCM)
  (UnmarshalIDM : list Z -> option IDM) (UnmarshalR900 : list Z -> option R900).

(** COLLECT_STRICTIDM: type 8 is not IDM, type 7 not NetIDM. *)
Definition refused_by_strict (strict : bool) (msg : LogMessage) (idm : IDM) : bool :=
  (strict && bool_decide (l_Type msg = str "IDM") && (i_EndpointType idm =? 8)) ||
  (strict && bool_decide (l_Type msg = str "NetIDM") && (i_EndpointType idm =? 7)).

(** The points of a line; a line that cannot be decoded, or whose type is not known,
    is skipped. *)
Definition line_points (strict : bool) (m : MeterMap) (commits : bool) (line : list Z) : MeterMap * list point :=
  match UnmarshalLog line with
  | None => (m, [])
  | Some msg =>
      if bool_decide (l_Type msg = str "SCM") then (m, match UnmarshalSCM (l_Message msg) with Some scm => SCM_AddPoints msg scm | None => [] end)
      else if bool_decide (l_Type msg = str "SCM+") then (m, match UnmarshalSCMPlus (l_Message msg) with Some scm => SCM_AddPoints msg scm | None => [] end)
      else if bool_decide (l_Type msg = str "IDM") || bool_decide (l_Type msg = str "NetIDM") then
        match UnmarshalIDM (l_Message msg) with
        | Some idm => if refused_by_strict strict msg idm then (m, []) else IDM_AddPoints m commits msg idm
        | None => (m, [])
        end
      else if bool_decide (l_Type msg = str "R900") || bool_decide (l_Type msg = str "R900BCD") then
        (m, match UnmarshalR900 (l_Message msg) with Some r900 => R900_AddPoints msg r900 | None => [] end)
      else (m, [])
  end.

(** The function that main passes for eachFn. *)
Fixpoint coalesce (c : PointCoalescer) (pts : list point) : PointCoalescer * list point :=
  match pts with
  | [] => (c, [])
  | pt :: pts =>
      let '(emit, c) := ShouldEmit c (pt_time pt) (pt_tags pt) (pt_fields pt) in
      let '(c, rest_) := coalesce c pts in
      (c, if emit : bool then pt :: rest_ else rest_)
  end.

(** The batches that are written, line by line; each line comes with whether the
    database commits and whether the batch is written: when it is not, the program
    ends. *)
Fixpoint collect (strict dryRun : bool) (m : MeterMap) (c : PointCoalescer) (lines : list (list Z * bool * bool))
  : MeterMap * PointCoalescer * list (list point) :=
  match lines with
  | [] => (m, c, [])
  | (line, commits, written) :: lines =>
      let '(m, pts) := line_points strict m commits line in
      let '(c, pts) := coalesce c pts in
      if negb dryRun && negb (len pts =? 0) then
        if written : bool then let '(m, c, batches) := collect strict dryRun m c lines in (m, c, pts :: batches)
        else (m, c, [])
      else collect strict dryRun m c lines
  end.
End Lines.
End Codec.
