(* ===== verification/CollectorSpec.v ===== *)
(** The collector: the database is never behind what the coalescer has seen, the meter
    map reports each interval of a meter once, across restarts, and a batch that the
    database refuses is lost. *)

From S2P Require Import Prelude Packet Collector.

(** ** The coalescer *)

Lemma coalesce_app c l k :
  coalesce c (l ++ k) = let '(c1, o1) := coalesce c l in let '(c2, o2) := coalesce c1 k in (c2, o1 ++ o2).
Proof.
  induction l as [|pt l IH] in c |- *; simpl; [by destruct (coalesce c k) |].
  destruct (ShouldEmit c _ _ _) as [b c1]. rewrite IH. destruct (coalesce c1 l) as [c2 o1].
  destruct (coalesce c2 k) as [c3 o2]. by destruct b.
Qed.

Lemma coalesce_snoc c l pt :
  coalesce c (l ++ [pt]) =
  let '(c1, o1) := coalesce c l in
  let '(emit, c2) := ShouldEmit c1 (pt_time pt) (pt_tags pt) (pt_fields pt) in (c2, o1 ++ if emit : bool then [pt] else []).
Proof.
  rewrite coalesce_app. destruct (coalesce c l) as [c1 o1]. simpl. destruct (ShouldEmit c1 _ _ _) as [b c2]. by destruct b.
Qed.

(** The points of the series of [pt], and the newest of them. *)
Definition series (key : pointKey) (pts : list point) : list point := filter (fun p => key_of_tags (pt_tags p) = key) pts.

Lemma series_app key l k : series key (l ++ k) = series key l ++ series key k.
Proof. apply filter_app. Qed.

Lemma series_self pt : series (key_of_tags (pt_tags pt)) [pt] = [pt].
Proof. unfold series. by rewrite filter_cons_True. Qed.

Lemma series_other key pt : key_of_tags (pt_tags pt) <> key -> series key [pt] = [].
Proof. intros H. unfold series. by rewrite filter_cons_False. Qed.

Definition state_of (p : point) : pointState := {| ps_fields := pt_fields p; lastEmitted := pt_time p |}.

(** Whether the point is held back when [e] is the newest emitted one of its series. *)
Definition repeats (iv : Z) (e pt : point) : Prop :=
  pt_time e < pt_time pt /\ pt_time pt - pt_time e < iv /\ pt_fields pt = pt_fields e.

Lemma Time_Sub_lt t u iv : iv < 2 ^ 63 -> - 2 ^ 63 < iv -> (Time_Sub t u < iv <-> t - u < iv).
Proof. unfold Time_Sub. lia. Qed.

(** [ShouldEmit] of a watched point. *)
Definition held_back (c : PointCoalescer) (pt : point) : bool :=
  match meters c !! key_of_tags (pt_tags pt) with
  | Some prev =>
      (lastEmitted prev <? pt_time pt) && bool_decide (pt_fields pt = ps_fields prev) &&
      (Time_Sub (pt_time pt) (lastEmitted prev) <? interval c)
  | None => false
  end.

Definition remember (c : PointCoalescer) (pt : point) : PointCoalescer :=
  {| interval := interval c; meters := <[key_of_tags (pt_tags pt) := state_of pt]> (meters c) |}.

Definition watched (pt : point) : bool := isR900 (tag (pt_tags pt) "protocol").

Lemma ShouldEmit_watched c pt :
  interval c <> 0 -> watched pt = true ->
  ShouldEmit c (pt_time pt) (pt_tags pt) (pt_fields pt) = if held_back c pt then (false, c) else (true, remember c pt).
Proof.
  intros Hi Hw. unfold ShouldEmit, held_back, watched in *. rewrite Hw, (proj2 (Z.eqb_neq _ 0)) by done. simpl.
  by destruct (meters c !! _).
Qed.

Lemma ShouldEmit_passes c pt :
  interval c = 0 \/ watched pt = false -> ShouldEmit c (pt_time pt) (pt_tags pt) (pt_fields pt) = (true, c).
Proof.
  intros [Hi | Hw]; unfold ShouldEmit, watched in *; [by rewrite Hi | rewrite Hw]. by rewrite orb_true_r.
Qed.

Lemma coalesce_interval c pts : interval (coalesce c pts).1 = interval c.
Proof.
  induction pts as [|pt pts IH] using rev_ind; [done |]. rewrite coalesce_snoc.
  destruct (coalesce c pts) as [c1 o1]. simpl in IH. unfold ShouldEmit. repeat case_match; simplify_eq/=; done.
Qed.

(** The two cases of a step, for all the points of a run. *)
Lemma coalesce_step c pts pt :
  coalesce c (pts ++ [pt]) =
  let '(c1, o1) := coalesce c pts in
  if (interval c =? 0) || negb (watched pt) then (c1, o1 ++ [pt])
  else if held_back c1 pt then (c1, o1) else (remember c1 pt, o1 ++ [pt]).
Proof.
  pose proof (coalesce_interval c pts) as Hi.
  rewrite coalesce_snoc. destruct (coalesce c pts) as [c1 o1]. simpl in Hi.
  destruct (Z.eqb_spec (interval c) 0) as [E | E]; simpl; [by rewrite ShouldEmit_passes by (left; lia) |].
  destruct (watched pt) eqn:Ew; simpl; [| by rewrite ShouldEmit_passes by auto].
  rewrite ShouldEmit_watched by (done || lia). destruct (held_back c1 pt); [by rewrite app_nil_r | done].
Qed.

(** What the coalescer remembers of a watched series is its newest emitted point. *)
Lemma coalesce_remembers iv pts key :
  iv <> 0 -> isR900 (protocol key) = true ->
  meters (coalesce (NewPointCoalescer iv) pts).1 !! key =
  state_of <$> last (series key (coalesce (NewPointCoalescer iv) pts).2).
Proof.
  intros Hiv Hr. induction pts as [|pt pts IH] using rev_ind; [simpl; by rewrite lookup_empty |].
  rewrite coalesce_step. destruct (coalesce _ pts) as [c1 o1]. simpl in IH |- *.
  rewrite (proj2 (Z.eqb_neq iv 0)) by done. simpl.
  destruct (decide (key_of_tags (pt_tags pt) = key)) as [He | He].
  - subst key. simpl in Hr. fold (watched pt) in Hr. rewrite Hr. simpl.
    destruct (held_back c1 pt); [done |]. simpl. rewrite lookup_insert_eq, series_app, series_self, last_snoc. done.
  - destruct (negb (watched pt)); [| destruct (held_back c1 pt); [done |]]; simpl;
      rewrite ?lookup_insert_ne, series_app, (series_other key pt), app_nil_r by done; done.
Qed.

(** The three parts of the promise. *)
Lemma coalesce_sublist c pts : sublist (coalesce c pts).2 pts.
Proof.
  induction pts as [|pt pts IH] using rev_ind; [done |]. rewrite coalesce_step. destruct (coalesce c pts) as [c1 o1].
  simpl in IH. destruct (_ || _); simpl; [by apply sublist_app |].
  destruct (held_back c1 pt); simpl; [by apply sublist_inserts_r | by apply sublist_app].
Qed.

Lemma held_back_repeats iv pts pt :
  0 < iv < 2 ^ 63 -> watched pt = true ->
  held_back (coalesce (NewPointCoalescer iv) pts).1 pt = true <->
  exists e, last (series (key_of_tags (pt_tags pt)) (coalesce (NewPointCoalescer iv) pts).2) = Some e /\ repeats iv e pt.
Proof.
  intros Hiv Hw. unfold held_back. rewrite (coalesce_remembers iv) by (done || lia).
  rewrite coalesce_interval. simpl. destruct (last _) as [e|]; simpl.
  - unfold repeats. rewrite !andb_true_iff, bool_decide_eq_true, Z.ltb_lt, Z.ltb_lt, Time_Sub_lt by lia.
    split; [intros [[? ?] ?]; by exists e | intros (? & [= <-] & ?); tauto].
  - split; [done | intros (? & ? & _); done].
Qed.

Lemma coalesce_passes c pts :
  filter (fun p => watched p = false) (coalesce c pts).2 = filter (fun p => watched p = false) pts.
Proof.
  induction pts as [|pt pts IH] using rev_ind; [done |]. rewrite coalesce_step, filter_app. destruct (coalesce c pts) as [c1 o1].
  simpl in IH. rewrite <- IH. destruct (watched pt) eqn:Ew; rewrite ?filter_cons_False, ?filter_cons_True by (done || congruence).
  - rewrite app_nil_r. repeat case_match; simpl; rewrite ?filter_app, ?filter_cons_False, ?app_nil_r by congruence; done.
  - rewrite orb_true_r. simpl. by rewrite filter_app, filter_cons_True.
Qed.

(** Neighbours of a list and of its one-point extension. *)
Lemma neighbours_snoc {A} (l l1 l2 : list A) (x e1 e2 : A) :
  l ++ [x] = l1 ++ e1 :: e2 :: l2 ->
  (last l = Some e1 /\ e2 = x) \/ exists l2', l = l1 ++ e1 :: e2 :: l2'.
Proof.
  destruct l2 as [|y l2 _] using rev_ind.
  - change (l1 ++ [e1; e2]) with (l1 ++ [e1] ++ [e2]). rewrite app_assoc. intros [-> ->]%app_inj_tail.
    left. by rewrite last_snoc.
  - replace (l1 ++ e1 :: e2 :: l2 ++ [y]) with ((l1 ++ e1 :: e2 :: l2) ++ [y]) by (by rewrite <- app_assoc).
    intros [-> _]%app_inj_tail. right. by exists l2.
Qed.

Lemma coalesce_no_repeats iv pts key l1 e1 e2 l2 :
  0 < iv < 2 ^ 63 -> isR900 (protocol key) = true ->
  series key (coalesce (NewPointCoalescer iv) pts).2 = l1 ++ e1 :: e2 :: l2 -> ~ repeats iv e1 e2.
Proof.
  intros Hiv Hr. revert l2. induction pts as [|pt pts IH] using rev_ind; intros l2; [by destruct l1 |].
  pose proof (held_back_repeats iv pts pt Hiv) as Hh. rewrite coalesce_step. destruct (coalesce _ pts) as [c1 o1]. simpl in IH, Hh |- *.
  rewrite (proj2 (Z.eqb_neq iv 0)) by lia. simpl.
  destruct (decide (key_of_tags (pt_tags pt) = key)) as [He | He].
  - subst key. simpl in Hr. fold (watched pt) in Hr. rewrite Hr. simpl. specialize (Hh Hr).
    destruct (held_back c1 pt); simpl; [by apply IH |]. rewrite series_app, series_self.
    intros [[Hl ->] | [l2' Hl]]%neighbours_snoc; [| by eapply IH].
    intros Hrep. enough (false = true) by done. apply Hh. by exists e1.
  - destruct (negb (watched pt)); [| destruct (held_back c1 pt); [by apply IH |]]; simpl;
      rewrite series_app, (series_other key pt), app_nil_r by done; apply IH.
Qed.

(** C21. The coalescer loses nothing and repeats nothing: it only leaves points out,
    never one of an unwatched protocol; after every point, the newest point that was
    let through of its series carries the same fields, and is that point or an R900 point
    less than the heartbeat interval older; and of two neighbours that were let through of a watched
    series the second has other fields, does not advance, or comes a whole interval
    later. *)
Theorem coalescer_stays_current iv pts pt :
  0 <= iv < 2 ^ 63 ->
  let out := (coalesce (NewPointCoalescer iv) (pts ++ [pt])).2 in
  sublist out (pts ++ [pt]) /\
  filter (fun p => watched p = false) out = filter (fun p => watched p = false) (pts ++ [pt]) /\
  (exists e, last (series (key_of_tags (pt_tags pt)) out) = Some e /\ (e = pt \/ watched pt = true /\ repeats iv e pt)) /\
  (forall key l1 e1 e2 l2, isR900 (protocol key) = true -> 0 < iv ->
    series key out = l1 ++ e1 :: e2 :: l2 -> ~ repeats iv e1 e2).
Proof.
  intros Hiv out. split; [apply coalesce_sublist |]. split; [apply coalesce_passes |].
  split; [| intros key l1 e1 e2 l2 Hr Hp; apply coalesce_no_repeats; [lia | done]].
  unfold out. pose proof (held_back_repeats iv pts pt) as Hh. rewrite coalesce_step. destruct (coalesce _ pts) as [c1 o1].
  simpl in Hh |- *. destruct (iv =? 0) eqn:E0; simpl; [| destruct (watched pt) eqn:Ew; simpl].
  1, 3: exists pt; rewrite series_app, series_self, last_snoc; auto.
  destruct (held_back c1 pt); simpl.
  - destruct Hh as [(e & He & Hrep) _]; [lia | done | done |]. eauto.
  - exists pt. rewrite series_app, series_self, last_snoc. auto.
Qed.

(** A first reading, the same ten seconds later, a changed one. *)
Definition reading (t : Z) (consumption : Z) : point :=
  {| pt_time := t; pt_tags := make_tags (str "R900") (str "cumulative") 161 1543;
     pt_fields := <[str "consumption" := consumption]> ∅ |}.

Lemma coalescer_stays_current_witness :
  0 <= Minute < 2 ^ 63 /\
  let out := (coalesce (NewPointCoalescer Minute) ([reading 0 7; reading (10 * Second) 7] ++ [reading (20 * Second) 8])).2 in
  out = [reading 0 7; reading (20 * Second) 8] /\
  exists e, last (series (key_of_tags (pt_tags (reading (20 * Second) 8))) out) = Some e /\
    (e = reading (20 * Second) 8 \/ watched (reading (20 * Second) 8) = true /\ repeats Minute e (reading (20 * Second) 8)).
Proof.
  split; [by vm_compute | split; [vm_compute; reflexivity |]].
  apply (coalescer_stays_current Minute [reading 0 7; reading (10 * Second) 7] (reading (20 * Second) 8)). by vm_compute.
Defined.
