(* ===== verification/CollectorMeters.v ===== *)
(** The meter map of the collector: it survives restarts, each interval of a meter is
    reported once however often its messages repeat, and a batch that the
    database refuses is not sent again. *)

From S2P Require Import Prelude Packet Collector CollectorSpec.

(** ** One message *)

Definition Interval : Z := 5 * Minute.

(** The interval a time is in when it is off by less than half of one. *)
Definition interval_of (B t : Z) : Z := (t - B + Interval / 2) / Interval.

Definition start_of (msg : LogMessage) (idm : IDM) : Z := l_Time msg - intervalOffset idm.

(** The message was sent in interval [k] after [B], its clock is off by less than
    half of the threshold, and its differential readings are those of the meter. *)
Record on_schedule (B : Z) (usage : Z -> Z) (k : Z) (msg : LogMessage) (idm : IDM) : Prop := {
  os_index : IntervalIdx idm = k mod 256;
  os_clock : - threshold < 2 * (start_of msg idm - (B + k * Interval)) < threshold;
  os_length : len (IntervalDiff idm) < 2 ^ 24;
  os_usage : IntervalDiff idm = map (fun i => usage (k - i)) (seqZ 0 (len (IntervalDiff idm))) }.

Lemma on_schedule_interval B usage k msg idm : on_schedule B usage k msg idm -> interval_of B (start_of msg idm) = k.
Proof.
  intros Hs. pose proof (os_clock _ _ _ _ _ Hs) as Hc. unfold interval_of.
  replace (Interval / 2) with 150000000000 by done. change Interval with 300000000000 in *. change threshold with 30000000000 in Hc.
  symmetry. apply Z.div_unique with (start_of msg idm - B + 150000000000 - 300000000000 * k); lia.
Qed.

Lemma interval_time_start msg idm i : 0 <= i < 2 ^ 24 -> interval_time msg idm i = start_of msg idm - i * Interval.
Proof.
  intros Hi. unfold interval_time, start_of.
  assert (Ho : - 2 ^ 59 <= intervalOffset idm <= 2 ^ 59).
  { unfold intervalOffset. unfold i64. pose proof (wrap_s_range 64 (TransmitTime idm * Second) eq_refl) as Hr.
    change (2 ^ (64 - 1)) with (16 * 2 ^ 59) in Hr. generalize dependent (wrap_s 64 (TransmitTime idm * Second)).
    intros w Hw. split; [apply Z.quot_le_lower_bound | apply Z.quot_le_upper_bound]; lia. }
  change Interval with 300000000000. change Minute with 60000000000.
  change (2 ^ 59) with 576460752303423488 in Ho. rewrite (i64_id (- i)), (i64_id (- i * 5)), (i64_id (- i * 5 * _)), i64_id by lia. lia.
Qed.

Lemma interval_number_mod k idm i : IntervalIdx idm = k mod 256 -> interval_number idm i = (k - i) mod 256.
Proof.
  intros H. unfold interval_number. rewrite H. unfold u64, wrap_u.
  rewrite Z.mod_mod_divide by (done || by exists (2 ^ 56)).
  by rewrite Zminus_mod_idemp_l.
Qed.

(** Where the loop stops for a meter that was last seen in interval [kp]: a meter is
    known only at that interval, even when the count of intervals wrapped around. *)
Lemma known_interval_spec B usage k kp msg idm st i :
  on_schedule B usage k msg idm -> lm_Interval st = kp mod 256 ->
  - threshold < 2 * (lm_Time st - (B + kp * Interval)) < threshold -> 0 <= i < 2 ^ 24 ->
  known_interval (Some st) (interval_number idm i) (interval_time msg idm i) = bool_decide (k - i = kp).
Proof.
  intros Hs Hk Ht Hi. pose proof (os_clock _ _ _ _ _ Hs) as Hc.
  unfold known_interval. rewrite (interval_number_mod k) by apply Hs. rewrite interval_time_start, Hk by lia.
  change Interval with 300000000000 in *. change threshold with 30000000000 in *. unfold Time_Sub.
  destruct (Z.eqb_spec ((k - i) mod 256) (kp mod 256)) as [E | E]; [| rewrite bool_decide_eq_false_2 by congruence; done].
  rewrite andb_true_l. apply eq_bool_prop_intro. rewrite andb_True, bool_decide_spec, !Is_true_true, !Z.ltb_lt.
  split; [| lia]. destruct (decide (k - i = kp)); [done |]. intros [? ?]. exfalso.
  assert (Hd : (256 | k - i - kp)) by (apply Z.cong_iff_0 in E; by apply Z.mod_divide). destruct Hd as [q Hq]. lia.
Qed.

Lemma interval_loop_stops B usage k kp msg idm st tags diffs i :
  on_schedule B usage k msg idm -> lm_Interval st = kp mod 256 ->
  - threshold < 2 * (lm_Time st - (B + kp * Interval)) < threshold -> kp <= k -> 0 <= i <= k - kp -> i + len diffs <= 2 ^ 24 ->
  interval_loop msg idm (Some st) tags i diffs = interval_loop msg idm None tags i (take (Z.to_nat (k - kp - i)) diffs).
Proof.
  intros Hs Hk Ht Hle. induction diffs as [|d diffs IH] in i |- *; intros Hi Hlen; [by destruct (Z.to_nat _) |].
  rewrite len_cons in Hlen. cbn [interval_loop]. pose proof (len_nonneg diffs).
  rewrite (known_interval_spec B usage k kp) by (done || lia). case_bool_decide.
  - by replace (Z.to_nat (k - kp - i)) with 0%nat by lia.
  - replace (Z.to_nat (k - kp - i)) with (S (Z.to_nat (k - kp - (i + 1)))) by lia. cbn. rewrite IH by lia. done.
Qed.

(** A reading: its interval and its consumption. *)
Definition reading_of (B : Z) (pt : point) : Z * Z := (interval_of B (pt_time pt), default 0 (pt_fields pt !! str "consumption")).

Lemma interval_loop_readings B usage k msg idm tags n i :
  on_schedule B usage k msg idm -> 0 <= i -> i + Z.of_nat n <= 2 ^ 24 ->
  map (reading_of B) (interval_loop msg idm None tags i (map (fun j => usage (k - j)) (seqZ i (Z.of_nat n)))) =
  map (fun j => (k - j, usage (k - j))) (seqZ i (Z.of_nat n)).
Proof.
  intros Hs. induction n as [|n IH] in i |- *; intros Hi Hn; [done |].
  rewrite seqZ_cons by lia. replace (Z.pred (Z.of_nat (S n))) with (Z.of_nat n) by lia. cbn [map interval_loop known_interval]. cbv zeta. f_equal.
  - unfold reading_of. cbn [pt_time pt_fields]. rewrite interval_time_start by lia. f_equal.
    + pose proof (on_schedule_interval _ _ _ _ _ Hs) as Hk. unfold interval_of in *.
      replace (start_of msg idm - i * Interval - B + Interval / 2) with (start_of msg idm - B + Interval / 2 + (- i) * Interval) by lia.
      rewrite Z.div_add by done. lia.
    + unfold fields_map. destruct (outage_at _ _); [rewrite lookup_insert_ne by (by vm_compute) |]; by rewrite lookup_insert_eq.
  - rewrite IH by lia. done.
Qed.

Lemma interval_loop_tags msg idm state tags other i diffs :
  filter (fun pt => pt_tags pt = other) (interval_loop msg idm state tags i diffs) =
  if decide (tags = other) then interval_loop msg idm state tags i diffs else [].
Proof.
  induction diffs as [|d diffs IH] in i |- *; [by destruct (decide _) |]. cbn [interval_loop]. cbv zeta.
  destruct (known_interval _ _ _); [by destruct (decide _) |].
  destruct (decide (tags = other)) as [E | E] eqn:Ed; [rewrite filter_cons_True by done | rewrite filter_cons_False by done];
    rewrite IH; done.
Qed.

(** ** The database

    The codec: what it encodes it decodes, and two values never share an
    encoding. *)

Section Database.
Context (encM : Meter -> list Z) (encL : LastMessage -> list Z) (UnmarshalMeter : list Z -> option Meter)
  (UnmarshalLast : list Z -> option LastMessage) (ForEachOrder : gmap (list Z) (list Z) -> list (list Z * list Z)).
Hypothesis meter_codec : forall meter, UnmarshalMeter (encM meter) = Some meter.
Hypothesis last_codec : forall msg, UnmarshalLast (encL msg) = Some msg.
Hypothesis order_complete : forall entries, ForEachOrder entries ≡ₚ map_to_list entries.

Local Notation Update := (MeterMap_Update (fun meter => Some (encM meter)) (fun msg => Some (encL msg))).
Local Notation New := (NewMeterMap UnmarshalMeter UnmarshalLast ForEachOrder).
Local Notation AddPoints := (IDM_AddPoints (fun meter => Some (encM meter)) (fun msg => Some (encL msg))).

#[local] Instance encM_inj : Inj (=) (=) encM.
Proof. intros a b E. enough (Some a = Some b) by congruence. by rewrite <- (meter_codec a), <- (meter_codec b), E. Qed.

(** The database holds what the map in memory holds. *)
Definition stored (m : MeterMap) : Prop := default ∅ (db m) = kmap encM (encL <$> mm m).

Lemma Update_stored m commits meter msg : stored m -> stored (fst (Update m commits meter msg)).
Proof.
  unfold stored, MeterMap_Update. intros Hs. destruct commits; [| done]. simpl. by rewrite Hs, fmap_insert, (kmap_insert encM).
Qed.

Lemma load_entries_known (f : gmap Meter LastMessage) entries m0 :
  Forall (fun kv => exists meter msg, kv = (encM meter, encL msg) /\ f !! meter = Some msg) entries ->
  exists m, load_entries UnmarshalMeter UnmarshalLast entries m0 = (m, true) /\
    forall meter, m !! meter = if decide (encM meter ∈ entries.*1) then f !! meter else m0 !! meter.
Proof.
  induction 1 as [|? entries (meter & msg & -> & Hf) _ IH] in m0 |- *; [by exists m0 |].
  simpl. rewrite meter_codec, last_codec. destruct (IH (<[meter := msg]> m0)) as (m & Hm & Hl). exists m. split; [done |].
  intros x. rewrite Hl. destruct (decide (encM x ∈ entries.*1)) as [Hin | Hin].
  - rewrite decide_True by (by right). done.
  - destruct (decide (x = meter)) as [-> | Hne].
    + by rewrite decide_True, lookup_insert_eq by (by left).
    + rewrite decide_False, lookup_insert_ne by (done || by intros [->%(inj encM) | ?]%elem_of_cons). done.
Qed.

(** A restart finds the meters that were stored. *)
Lemma New_stored m : stored m -> exists d, New (db m) = ({| db := d; mm := mm m |}, true) /\ d = db m.
Proof.
  intros Hs. exists (db m). split; [| done]. unfold New, stored in *. destruct (db m) as [entries|] eqn:Ed; simpl in Hs.
  - subst entries. destruct (load_entries_known (mm m) (ForEachOrder (kmap encM (encL <$> mm m))) ∅) as (m' & Hm & Hl).
    { rewrite order_complete. apply Forall_forall. intros [k v] Hin%elem_of_map_to_list.
      apply lookup_kmap_Some in Hin as (meter & -> & Hin); [| apply _]. apply lookup_fmap_Some in Hin as (msg & <- & Hf). by exists meter, msg. }
    rewrite Hm. simpl. do 2 f_equal. apply map_eq. intros meter. rewrite Hl, lookup_empty.
    case_decide as Hin; [done |]. symmetry. apply eq_None_not_Some. intros [msg Hf]. apply Hin.
    rewrite order_complete. apply list_elem_of_fmap. exists (encM meter, encL msg). split; [done |].
    apply elem_of_map_to_list. by rewrite (lookup_kmap encM), lookup_fmap, Hf.
  - symmetry in Hs. apply kmap_empty_iff in Hs; [| apply _]. apply fmap_empty_iff in Hs. by rewrite Hs.
Qed.

(** ** Runs: messages of any meters, and restarts of the collector. *)

Inductive meter_event := Heard (msg : LogMessage) (idm : IDM) | Restarted.

Fixpoint collected (m : MeterMap) (evs : list meter_event) : list point :=
  match evs with
  | [] => []
  | Heard msg idm :: evs => let '(m, pts) := AddPoints m true msg idm in pts ++ collected m evs
  | Restarted :: evs => collected (fst (New (db m))) evs
  end.

(** The fields of the tags that identify a meter have their widths. *)
Definition sane (meter : Meter) : Prop := 0 <= m_EndpointID meter < 2 ^ 32 /\ 0 <= m_EndpointType meter < 2 ^ 8.

(** The meter's messages from interval [k] on: each is on schedule, none goes back,
    and none comes later than the differential intervals reach. *)
Fixpoint steady (B : Z) (usage : Z -> Z) (mt : Meter) (k : Z) (evs : list meter_event) : Prop :=
  match evs with
  | [] => True
  | Restarted :: evs => steady B usage mt k evs
  | Heard msg idm :: evs =>
      sane (meter_of msg idm) /\
      if decide (meter_of msg idm = mt) then
        let k' := interval_of B (start_of msg idm) in
        on_schedule B usage k' msg idm /\ k <= k' <= k + len (IntervalDiff idm) /\ steady B usage mt k' evs
      else steady B usage mt k evs
  end.

(** The newest interval of the meter after a run. *)
Fixpoint newest (B : Z) (mt : Meter) (k : Z) (evs : list meter_event) : Z :=
  match evs with
  | [] => k
  | Heard msg idm :: evs => newest B mt (if decide (meter_of msg idm = mt) then interval_of B (start_of msg idm) else k) evs
  | Restarted :: evs => newest B mt k evs
  end.

(** The differential readings of a meter among points. *)
Definition meter_tags (mt : Meter) : text_map :=
  <[str "msg_type" := str "differential"]> (make_tags (m_Protocol mt) (str "cumulative") (m_EndpointType mt) (m_EndpointID mt)).

Definition reported (B : Z) (mt : Meter) (pts : list point) : list (Z * Z) :=
  map (reading_of B) (filter (fun pt => pt_tags pt = meter_tags mt) pts).

Lemma FormatInt_inj a b : 0 <= a < 2 ^ 32 -> 0 <= b < 2 ^ 32 -> FormatInt a = FormatInt b -> a = b.
Proof.
  intros Ha Hb. unfold FormatInt. rewrite !(proj2 (Z.ltb_ge _ 0)) by lia. intros E.
  apply (f_equal (fun s => (ParseUint s 10 64).1)) in E. by rewrite !ParseUint_FormatUint in E by (unfold is_uint; lia).
Qed.

Lemma meter_tags_inj a b : sane a -> sane b -> meter_tags a = meter_tags b -> a = b.
Proof.
  intros Ha Hb E. destruct a as [ai at_ ap], b as [bi bt bp]. unfold sane in *. simpl in *.
  assert (forall key, meter_tags {| m_EndpointID := ai; m_EndpointType := at_; m_Protocol := ap |} !! key =
    meter_tags {| m_EndpointID := bi; m_EndpointType := bt; m_Protocol := bp |} !! key) as Hk by (intros key; by rewrite E).
  f_equal.
  - apply FormatInt_inj; [lia | lia |]. by injection (Hk (str "endpoint_id")).
  - apply FormatInt_inj; [lia | lia |]. by injection (Hk (str "endpoint_type")).
  - by injection (Hk (str "protocol")).
Qed.

Lemma cumulative_is_not_differential p t i mt : make_tags p (str "cumulative") t i <> meter_tags mt.
Proof. intros E. apply (f_equal (.!! str "msg_type")) in E. done. Qed.

(** What a message reports of a meter. *)
Lemma AddPoints_reported B mt m msg idm :
  stored m -> sane mt -> sane (meter_of msg idm) ->
  exists m' pts, AddPoints m true msg idm = (m', pts) /\ stored m' /\
    mm m' = <[meter_of msg idm := {| lm_Time := start_of msg idm; lm_Interval := IntervalIdx idm |}]> (mm m) /\
    reported B mt pts = if decide (meter_of msg idm = mt)
      then map (reading_of B) (interval_loop msg idm (mm m !! mt) (meter_tags mt) 0 (IntervalDiff idm)) else [].
Proof.
  intros Hs Hmt Hsane. unfold IDM_AddPoints.
  pose proof (Update_stored m true (meter_of msg idm) {| lm_Time := start_of msg idm; lm_Interval := IntervalIdx idm |} Hs) as Hs'.
  eexists _, _. split; [done |]. split; [done |]. split; [done |]. unfold reported.
  rewrite filter_cons_False by apply cumulative_is_not_differential.
  change (<[str "msg_type" := str "differential"]> _) with (meter_tags (meter_of msg idm)).
  rewrite interval_loop_tags. destruct (decide (meter_of msg idm = mt)) as [Hd | Hd].
  - by rewrite decide_True, Hd by (by rewrite Hd).
  - by rewrite decide_False by (by intros ?%meter_tags_inj).
Qed.

(** The meter was last seen in interval [k]. *)
Definition seen_at (B k : Z) (st : option LastMessage) : Prop :=
  exists t, st = Some {| lm_Time := t; lm_Interval := k mod 256 |} /\ - threshold < 2 * (t - (B + k * Interval)) < threshold.

Lemma on_schedule_seen B usage k msg idm :
  on_schedule B usage k msg idm -> seen_at B k (Some {| lm_Time := start_of msg idm; lm_Interval := IntervalIdx idm |}).
Proof. intros [-> Hc _ _]. by eexists. Qed.

Definition readings (usage : Z -> Z) (from count : Z) : list (Z * Z) := map (fun a => (a, usage a)) (seqZ from count).

Lemma readings_app usage from m n : 0 <= m -> 0 <= n -> readings usage from m ++ readings usage (from + m) n = readings usage from (m + n).
Proof. intros Hm Hn. unfold readings. by rewrite seqZ_app, map_app. Qed.

(** Counting down from [k] is counting up to it. *)
Lemma readings_down usage k n :
  map (fun j => (k - j, usage (k - j))) (seqZ 0 (Z.of_nat n)) ≡ₚ readings usage (k + 1 - Z.of_nat n) (Z.of_nat n).
Proof.
  unfold readings. induction n as [|n IH]; [done |].
  replace (Z.of_nat (S n)) with (Z.of_nat n + 1) by lia. rewrite seqZ_app, map_app, IH by lia.
  rewrite (Z.add_comm (Z.of_nat n) 1), seqZ_app, map_app, Permutation_app_comm by lia.
  replace (k + 1 - (1 + Z.of_nat n) + 1) with (k + 1 - Z.of_nat n) by lia. f_equiv.
  replace (k + 1 - (1 + Z.of_nat n)) with (k - (0 + Z.of_nat n)) by lia.
  by rewrite !(seqZ_cons _ 1), !(seqZ_nil _ (Z.pred 1)) by done.
Qed.

(** The readings of a message: all of them when the meter is new, those since it was
    last seen otherwise. *)
Lemma message_readings B usage k msg idm tags st n :
  on_schedule B usage k msg idm -> 0 <= n <= len (IntervalDiff idm) ->
  st = None /\ n = len (IntervalDiff idm) \/ seen_at B (k - n) st ->
  map (reading_of B) (interval_loop msg idm st tags 0 (IntervalDiff idm)) ≡ₚ readings usage (k + 1 - n) n.
Proof.
  intros Hs Hn Hst. pose proof (os_length _ _ _ _ _ Hs) as Hl.
  assert (interval_loop msg idm st tags 0 (IntervalDiff idm) =
    interval_loop msg idm None tags 0 (map (fun j => usage (k - j)) (seqZ 0 n))) as ->.
  { assert (Htake : take (Z.to_nat n) (IntervalDiff idm) = map (fun j => usage (k - j)) (seqZ 0 n)).
    { rewrite (os_usage _ _ _ _ _ Hs). replace (len (IntervalDiff idm)) with (n + (len (IntervalDiff idm) - n)) by lia.
      rewrite seqZ_app, map_app, take_app_length' by (rewrite ?length_map, ?length_seqZ; lia). done. }
    destruct Hst as [[-> ->] | (t & -> & Ht)].
    - by rewrite <- (os_usage _ _ _ _ _ Hs).
    - rewrite (interval_loop_stops B usage k (k - n)) by (done || lia). replace (k - (k - n) - 0) with n by lia. by rewrite Htake. }
  rewrite <- (Z2Nat.id n) by lia. rewrite (interval_loop_readings B usage k) by (done || lia). apply readings_down.
Qed.

Lemma newest_ge B usage mt k evs : steady B usage mt k evs -> k <= newest B mt k evs.
Proof.
  induction evs as [|[msg idm |] evs IH] in k |- *; simpl; [lia | | apply IH].
  intros [_ Hs]. case_decide; [| by apply IH]. destruct Hs as (_ & Hk & Hs%IH). lia.
Qed.

Lemma reported_app B mt l k : reported B mt (l ++ k) = reported B mt l ++ reported B mt k.
Proof. unfold reported. by rewrite filter_app, map_app. Qed.

Lemma collected_readings B usage mt k m evs :
  sane mt -> stored m -> seen_at B k (mm m !! mt) -> steady B usage mt k evs ->
  reported B mt (collected m evs) ≡ₚ readings usage (k + 1) (newest B mt k evs - k).
Proof.
  intros Hmt. induction evs as [|[msg idm |] evs IH] in k, m |- *; intros Hst Hseen Hs; simpl in Hs.
  - simpl. by rewrite Z.sub_diag.
  - destruct Hs as [Hsane Hs]. cbn [collected newest].
    destruct (AddPoints_reported B mt m msg idm Hst Hmt Hsane) as (m' & pts & -> & Hst' & Hmm & Hr).
    rewrite reported_app, Hr. destruct (decide (meter_of msg idm = mt)) as [Hd | Hd].
    + destruct Hs as (Hsch & Hk & Hs). set (k' := interval_of B (start_of msg idm)) in *.
      pose proof (newest_ge _ _ _ _ _ Hs). rewrite (message_readings B usage k' _ _ _ _ (k' - k)) by (done || lia || (right; by replace (k' - (k' - k)) with k by lia)).
      rewrite (IH k') by (done || (rewrite Hmm, Hd, lookup_insert_eq; by eapply on_schedule_seen)).
      replace (k' + 1 - (k' - k)) with (k + 1) by lia. replace (k' + 1) with (k + 1 + (k' - k)) by lia.
      rewrite readings_app by lia. by replace (k' - k + (newest B mt k' evs - k')) with (newest B mt k' evs - k) by lia.
    + apply IH; [done | by rewrite Hmm, lookup_insert_ne | done].
  - cbn [collected newest]. destruct (New_stored m Hst) as (d & -> & ->). apply IH; done.
Qed.

(** C14. Each differential interval of a meter is reported exactly once and with its
    usage: when the meter's messages stay on schedule and no later than their intervals
    reach, then from the oldest interval of its first message to the newest of its last the
    collector writes one reading of each, whatever other meters send in between,
    however often messages are repeated, over any number of turns of the
    8-bit interval count, and across restarts of the collector. *)
Theorem intervals_reported_once B usage mt m msg idm evs :
  stored m -> mm m !! mt = None -> sane mt -> meter_of msg idm = mt ->
  let k := interval_of B (start_of msg idm) in
  on_schedule B usage k msg idm -> steady B usage mt k evs ->
  reported B mt (collected m (Heard msg idm :: evs)) ≡ₚ
  readings usage (k + 1 - len (IntervalDiff idm)) (newest B mt k evs - k + len (IntervalDiff idm)).
Proof.
  intros Hst Hnone Hmt Hd k Hsch Hs. cbn [collected].
  destruct (AddPoints_reported B mt m msg idm Hst Hmt) as (m' & pts & -> & Hst' & Hmm & Hr); [by rewrite Hd |].
  rewrite decide_True in Hr by done. rewrite reported_app, Hr, Hnone. pose proof (newest_ge _ _ _ _ _ Hs).
  pose proof (len_nonneg (IntervalDiff idm)). rewrite (message_readings B usage k _ _ _ _ (len (IntervalDiff idm))) by (done || lia || auto).
  rewrite (collected_readings B usage mt k m') by (done || (rewrite Hmm, Hd, lookup_insert_eq; by eapply on_schedule_seen)).
  replace (k + 1) with (k + 1 - len (IntervalDiff idm) + len (IntervalDiff idm)) at 2 by lia. rewrite readings_app by lia.
  by rewrite (Z.add_comm (len _) (_ - k)).
Qed.

(** ** A refused batch *)

Section Loop.
Context (UnmarshalLog : list Z -> option LogMessage) (UnmarshalSCM UnmarshalSCMPlus : list Z -> option SCM)
  (UnmarshalIDM : list Z -> option IDM) (UnmarshalR900 : list Z -> option R900).

Local Notation collect := (collect (fun meter => Some (encM meter)) (fun msg => Some (encL msg)) UnmarshalLog UnmarshalSCM
  UnmarshalSCMPlus UnmarshalIDM UnmarshalR900).
Local Notation line_points := (line_points (fun meter => Some (encM meter)) (fun msg => Some (encL msg)) UnmarshalLog UnmarshalSCM
  UnmarshalSCMPlus UnmarshalIDM UnmarshalR900).

(** The line is an interval message that is not refused. *)
Record idm_line (strict : bool) (line : list Z) (msg : LogMessage) (idm : IDM) : Prop := {
  il_log : UnmarshalLog line = Some msg;
  il_type : l_Type msg = str "IDM" \/ l_Type msg = str "NetIDM";
  il_idm : UnmarshalIDM (l_Message msg) = Some idm;
  il_strict : refused_by_strict strict msg idm = false;
  il_index : 0 <= IntervalIdx idm < 256 }.

Lemma idm_line_points strict m commits line msg idm :
  idm_line strict line msg idm -> line_points strict m commits line = AddPoints m commits msg idm.
Proof. intros [Hl Ht Hi Hs _]. unfold Collector.line_points. rewrite Hl, Hi, Hs. by destruct Ht as [-> | ->]. Qed.

(** The state a message leaves. *)
Definition last_of (msg : LogMessage) (idm : IDM) : LastMessage := {| lm_Time := start_of msg idm; lm_Interval := IntervalIdx idm |}.

Definition cumulative_point (msg : LogMessage) (idm : IDM) : point :=
  {| pt_time := start_of msg idm; pt_tags := make_tags (l_Type msg) (str "cumulative") (i_EndpointType idm) (i_EndpointID idm);
     pt_fields := cumulative_fields msg idm |}.

Definition differential_points (state : option LastMessage) (msg : LogMessage) (idm : IDM) : list point :=
  interval_loop msg idm state (<[str "msg_type" := str "differential"]>
    (make_tags (l_Type msg) (str "cumulative") (i_EndpointType idm) (i_EndpointID idm))) 0 (IntervalDiff idm).

Lemma AddPoints_eq m commits msg idm :
  AddPoints m commits msg idm =
  ((Update m commits (meter_of msg idm) (last_of msg idm)).1,
   cumulative_point msg idm :: differential_points (mm m !! meter_of msg idm) msg idm).
Proof. unfold IDM_AddPoints. by destruct commits. Qed.

Lemma interval_loop_new msg idm tags i diffs : len (interval_loop msg idm None tags i diffs) = len diffs.
Proof. induction diffs as [|d diffs IH] in i |- *; [done |]. cbn [interval_loop known_interval]. cbv zeta. by rewrite !len_cons, IH. Qed.

Lemma interval_loop_repeated msg idm tags diffs :
  0 <= IntervalIdx idm < 256 -> interval_loop msg idm (Some (last_of msg idm)) tags 0 diffs = [].
Proof.
  intros Hi. destruct diffs as [|d diffs]; [done |]. cbn [interval_loop]. cbv zeta.
  rewrite (interval_number_mod (IntervalIdx idm)), interval_time_start, Z.mul_0_l, !Z.sub_0_r by (lia || by rewrite Z.mod_small).
  rewrite Z.mod_small by done. unfold known_interval, last_of. cbn [lm_Interval lm_Time]. unfold Time_Sub.
  by rewrite Z.eqb_refl, Z.sub_diag.
Qed.

Lemma coalesce_idm c msg idm state strict line :
  idm_line strict line msg idm ->
  let pts := cumulative_point msg idm :: differential_points state msg idm in
  coalesce c pts = (c, pts).
Proof.
  intros Hl pts. subst pts. assert (Hw : forall pt x, pt_tags pt = <[str "msg_type" := x]>
    (make_tags (l_Type msg) (str "cumulative") (i_EndpointType idm) (i_EndpointID idm)) -> watched pt = false).
  { intros pt x Hpt. unfold watched. rewrite Hpt. unfold tag, make_tags. by destruct (il_type _ _ _ _ Hl) as [-> | ->]. }
  assert (Hpass : forall pts, Forall (fun pt => watched pt = false) pts -> coalesce c pts = (c, pts)).
  { induction 1 as [|pt pts Hpt _ IH]; [done |]. simpl. rewrite ShouldEmit_passes by auto. by rewrite IH. }
  apply Hpass. constructor; [by apply (Hw _ (str "cumulative")) |]. unfold differential_points. generalize 0 as i.
  induction (IntervalDiff idm) as [|d diffs IH]; intros i; [done |]. cbn [interval_loop]. cbv zeta. destruct (known_interval _ _ _); [done |].
  constructor; [by eapply Hw | done].
Qed.

(** One line, written or refused. *)
Lemma collect_idm_line strict m c line msg idm written lines :
  idm_line strict line msg idm ->
  collect strict false m c ((line, true, written) :: lines) =
  let '(m, pts) := AddPoints m true msg idm in
  if written : bool then let '(m, c, batches) := collect strict false m c lines in (m, c, pts :: batches) else (m, c, []).
Proof.
  intros Hl. cbn [Collector.collect]. rewrite (idm_line_points strict m true line msg idm), AddPoints_eq by done.
  cbv iota beta. rewrite (coalesce_idm c msg idm (mm m !! meter_of msg idm) strict line Hl). cbv iota beta. rewrite len_cons.
  pose proof (len_nonneg (differential_points (mm m !! meter_of msg idm) msg idm)). by rewrite (proj2 (Z.eqb_neq _ 0)) by lia.
Qed.

Lemma collect_repeated strict m c line msg idm n :
  idm_line strict line msg idm -> mm m !! meter_of msg idm = Some (last_of msg idm) ->
  (collect strict false m c (replicate n (line, true, true))).2 = replicate n [cumulative_point msg idm].
Proof.
  intros Hl. induction n as [|n IH] in m |- *; intros Hm; [done |]. cbn [replicate].
  rewrite (collect_idm_line strict m c line msg idm), AddPoints_eq, Hm by done. unfold differential_points.
  rewrite interval_loop_repeated by apply Hl. specialize (IH (Update m true (meter_of msg idm) (last_of msg idm)).1).
  destruct (collect _ _ _ _ _) as [[m2 c2] batches]. simpl in IH |- *. rewrite IH; [done |]. by rewrite lookup_insert_eq.
Qed.

(** C24. What the database refuses is lost: the meter map is committed before the batch is
    written, so when the write of a message fails, and the collector ends, the restarted
    collector takes the message's intervals for known; however often the message is sent
    again, only its cumulative reading is written. *)
Theorem refused_batch_is_lost strict m c iv line msg idm n :
  stored m -> mm m !! meter_of msg idm = None -> idm_line strict line msg idm ->
  let '(m1, pts) := line_points strict m true line in
  let '(m2, _, written) := collect strict false m c [(line, true, false)] in
  len pts = 1 + len (IntervalDiff idm) /\ m2 = m1 /\ written = [] /\
  (collect strict false (fst (New (db m2))) (NewPointCoalescer iv) (replicate n (line, true, true))).2 =
    replicate n [cumulative_point msg idm].
Proof.
  intros Hst Hnone Hl. rewrite (collect_idm_line strict m c line msg idm), (idm_line_points _ _ _ _ msg idm) by done.
  rewrite AddPoints_eq, Hnone. unfold differential_points. split; [by rewrite len_cons, interval_loop_new, Z.add_comm |].
  split; [done |]. split; [done |]. pose proof (Update_stored m true (meter_of msg idm) (last_of msg idm) Hst) as Hst'.
  destruct (New_stored _ Hst') as (d & -> & ->). apply collect_repeated; [done |]. simpl. by rewrite lookup_insert_eq.
Qed.
End Loop.
End Database.

(** ** Examples *)

Definition demo_meter : Meter := {| m_EndpointID := 17581447; m_EndpointType := 7; m_Protocol := str "IDM" |}.

(** A message of a meter at interval [k], sent ten seconds into it. *)
Definition demo_msg (type : string) (k : Z) : LogMessage := {| l_Time := k * Interval + 10 * Second; l_Type := str type; l_Message := [] |}.

Definition demo_idm (id k : Z) (n : Z) : IDM :=
  {| i_EndpointType := 7; i_EndpointID := id; TransmitTime := 160; IntervalIdx := k mod 256;
     IntervalDiff := map (fun i => (k - i) mod 7) (seqZ 0 n); Outage := make 6 0;
     IDMConsumption := 1000; NetIDMConsumption := 0; NetIDMConsumptionNet := 0; NetIDMGeneration := 0 |}.

Definition demo_encM (meter : Meter) : list Z := m_EndpointID meter :: m_EndpointType meter :: m_Protocol meter.
Definition demo_encL (msg : LastMessage) : list Z := [lm_Time msg; lm_Interval msg].
Definition demo_decM (s : list Z) : option Meter :=
  match s with id :: type :: protocol => Some {| m_EndpointID := id; m_EndpointType := type; m_Protocol := protocol |} | _ => None end.
Definition demo_decL (s : list Z) : option LastMessage :=
  match s with [time; interval] => Some {| lm_Time := time; lm_Interval := interval |} | _ => None end.

Definition demo_empty : MeterMap := {| db := None; mm := ∅ |}.

(** The meter at intervals 254, again 254, 257, with another meter and a restart in between. *)
Definition demo_meter_events : list meter_event :=
  [Heard (demo_msg "IDM" 254) (demo_idm 17581447 254 5); Heard (demo_msg "IDM" 255) (demo_idm 99 255 5); Restarted;
   Heard (demo_msg "IDM" 257) (demo_idm 17581447 257 5)].

Lemma demo_steady : steady 0 (fun a => a mod 7) demo_meter 254 demo_meter_events.
Proof.
  unfold demo_meter_events. cbn [steady]. repeat first
    [ split | progress (rewrite decide_True by reflexivity) | progress (rewrite decide_False by discriminate)
    | progress cbv zeta | exact I | vm_compute; reflexivity | vm_compute; discriminate ].
Qed.

Lemma intervals_reported_once_witness :
  steady 0 (fun a => a mod 7) demo_meter 254 demo_meter_events /\
  reported 0 demo_meter (collected demo_encM demo_encL demo_decM demo_decL map_to_list demo_empty
    (Heard (demo_msg "IDM" 254) (demo_idm 17581447 254 5) :: demo_meter_events)) ≡ₚ readings (fun a => a mod 7) 250 8.
Proof.
  split; [exact demo_steady |].
  apply (intervals_reported_once demo_encM demo_encL demo_decM demo_decL map_to_list
    ltac:(by intros []) ltac:(by intros []) ltac:(done) 0 (fun a => a mod 7) demo_meter demo_empty);
    [done | done | by vm_compute | done | split; [done | by vm_compute | by vm_compute | done] | exact demo_steady].
Defined.

Definition demo_log (line : list Z) : option LogMessage := if bool_decide (line = [1]) then Some (demo_msg "IDM" 254) else None.

Lemma refused_batch_is_lost_witness :
  let collect := collect (fun meter => Some (demo_encM meter)) (fun msg => Some (demo_encL msg)) demo_log (fun _ => None) (fun _ => None)
    (fun _ => Some (demo_idm 17581447 254 5)) (fun _ => None) in
  let '(m2, _, written) := collect true false demo_empty (NewPointCoalescer 0) [([1], true, false)] in
  written = [] /\
  (collect true false (fst (NewMeterMap demo_decM demo_decL map_to_list (db m2))) (NewPointCoalescer 0)
     (replicate 2 ([1], true, true))).2 = replicate 2 [cumulative_point (demo_msg "IDM" 254) (demo_idm 17581447 254 5)].
Proof.
  pose proof (refused_batch_is_lost demo_encM demo_encL demo_decM demo_decL map_to_list ltac:(by intros []) ltac:(by intros []) ltac:(done)
    demo_log (fun _ => None) (fun _ => None) (fun _ => Some (demo_idm 17581447 254 5)) (fun _ => None) true demo_empty (NewPointCoalescer 0) 0 [1]
    (demo_msg "IDM" 254) (demo_idm 17581447 254 5) 2 eq_refl eq_refl
    ltac:(split; [done | by left | done | done | by vm_compute])) as H.
  cbv zeta in *. destruct (line_points _ _ _ _ _ _ _ _ _ _ _) as [m1 pts]. destruct (collect _ _ _ _ _ _ _ _ _ _ _ _) as [[m2 c2] written].
  destruct H as (_ & _ & Hw & Hn). by split.
Defined.
