(* ===== verification/Flags.v ===== *)
(** The command line (src/flags.go): the flags of the receiver, the comma-separated
    list of message types, and the checks of HandleFlags.  Package flag, which parses the
    command line, lower-casing and the creation of files are parameters. *)

From S2P Require Import Prelude Float64 Packet DutyModel Capture.

Definition DevNull : list Z := str "/dev/null".

(** The number of blocks of a batch, unless the kernel ring is given another (main.go). *)
Definition receiverReadBlocks : Z := 16.

(** The values of the flags; the two maps of numbers are those of the filters. *)
Record Flags := {
  sampleFile : list Z; continuousSampleFile : list Z; continuousSampleDuration : Z;
  inputSource : list Z; directDevice : list Z; directKernelRing : bool; directKernelBatchBlocks : Z;
  msgType : gset (list Z); symbolLength : Z; meterID : gset Z; meterType : gset Z; format : list Z; single : bool;
  dutySchedulerMode : list Z; dutySchedulerCaptureTarget : f64; dutySchedulerReport : list Z;
  dutySchedulerCheckpointDir : list Z; dutySchedulerPolicy : list Z }.

(** What HandleFlags stores back: the lower-case spelling of the format and the mode. *)
Definition with_names (f : Flags) (fmt mode : list Z) : Flags :=
  {| sampleFile := sampleFile f; continuousSampleFile := continuousSampleFile f; continuousSampleDuration := continuousSampleDuration f;
     inputSource := inputSource f; directDevice := directDevice f; directKernelRing := directKernelRing f;
     directKernelBatchBlocks := directKernelBatchBlocks f; msgType := msgType f; symbolLength := symbolLength f; meterID := meterID f;
     meterType := meterType f; format := fmt; single := single f; dutySchedulerMode := mode;
     dutySchedulerCaptureTarget := dutySchedulerCaptureTarget f; dutySchedulerReport := dutySchedulerReport f;
     dutySchedulerCheckpointDir := dutySchedulerCheckpointDir f; dutySchedulerPolicy := dutySchedulerPolicy f |}.

(** The encoders that newOutputEncoder chooses from. *)
Inductive Encoder := PlainEncoder (sampleFilename : list Z) | CsvEncoder | JsonEncoder | XmlEncoder.

(** A fatal message ends the program. *)
Abbreviation fatal := string.

Definition validateDirectKernelBatchBlocks (blocks : Z) : option fatal :=
  if (blocks <? 1) || (256 <? blocks) then Some "directkernelbatchblocks must be between 1 and 256"%string else None.

Definition symbol_lengths : list Z := [8; 32; 40; 48; 56; 64; 72; 80; 88; 96].

Section Flags.
(** [strings.ToLower], and whether a file can be created. *)
Context (ToLower : list Z -> list Z) (Create : list Z -> bool).

(** [StringMap.Set]: what was there is deleted; it never fails. *)
Definition StringMap_Set (value : list Z) (m : gset (list Z)) : gset (list Z) :=
  list_to_set (map ToLower (split_commas value [])).

Definition newOutputEncoder (outputFormat sampleFilename : list Z) : option Encoder :=
  let name := ToLower outputFormat in
  if bool_decide (name = str "plain") then Some (PlainEncoder sampleFilename)
  else if bool_decide (name = str "csv") then Some CsvEncoder
  else if bool_decide (name = str "json") then Some JsonEncoder
  else if bool_decide (name = str "xml") then Some XmlEncoder
  else None.

(** The writers: the files that were created, and the fatal error if there is one. *)
Definition open_writers (f : Flags) : list (list Z) * option fatal :=
  let sampled := negb (bool_decide (sampleFile f = DevNull)) in
  if sampled && negb (Create (sampleFile f)) then ([], Some "Error creating sample file"%string) else
  let created := if sampled then [sampleFile f] else [] in
  if negb (bool_decide (continuousSampleFile f = DevNull)) then
    if continuousSampleDuration f <=? 0 then
      (created, Some "continuoussampleduration must be positive when continuoussamplefile is set"%string)
    else if negb (Create (continuousSampleFile f)) then (created, Some "Error creating continuous sample file"%string)
    else (created ++ [continuousSampleFile f], None)
  else if negb (continuousSampleDuration f =? 0) then
    (created, Some "continuoussamplefile must be set when continuoussampleduration is non-zero"%string)
  else (created, None).

(** The checks of the source and of the duty scheduler; [mode] is in lower case. *)
Definition check_source (f : Flags) : option fatal :=
  if directKernelRing f && negb (bool_decide (ToLower (inputSource f) = str "direct")) then
    Some "directkernelring requires source=direct"%string
  else
    match validateDirectKernelBatchBlocks (directKernelBatchBlocks f) with
    | Some e => Some e
    | None =>
        if negb (directKernelBatchBlocks f =? receiverReadBlocks) && negb (directKernelRing f) then
          Some "directkernelbatchblocks requires directkernelring"%string
        else None
    end.

Definition check_duty (f : Flags) (mode : list Z) : option fatal :=
  if bool_decide (mode = str "off") then
    if negb (bool_decide (dutySchedulerReport f = [])) || negb (bool_decide (dutySchedulerCheckpointDir f = [])) ||
       negb (bool_decide (dutySchedulerPolicy f = []))
    then Some "dutyscheduler report and checkpoint directory require dutyscheduler=shadow or gated"%string else None
  else if bool_decide (mode = str "shadow") || bool_decide (mode = str "gated") then
    if bool_decide (dutySchedulerReport f = []) then Some "dutyschedulerreport is required when dutyscheduler is enabled"%string
    else if (size (meterID f) =? 0)%nat then Some "dutyscheduler requires an explicit filterid sender inventory"%string
    else if bool_decide (mode = str "gated") && (negb (bool_decide (sampleFile f = DevNull)) || single f) then
      Some "gated dutyscheduler is incompatible with samplefile and single"%string
    else None
  else Some "invalid dutyscheduler mode"%string.

(** [HandleFlags]: the files that were created, and a fatal error or the flags and the
    encoder. *)
Definition HandleFlags (f : Flags) : list (list Z) * (fatal + Flags * Encoder) :=
  if fle (dutySchedulerCaptureTarget f) fzero || fle (f64_of_int 100) (dutySchedulerCaptureTarget f) then
    ([], inl "dutyschedulercapturetarget must be greater than 0 and less than 100"%string)
  else if negb (bool_decide (symbolLength f ∈ symbol_lengths)) then ([], inl "invalid symbollength"%string)
  else
    let fmt := ToLower (format f) in
    match newOutputEncoder fmt (sampleFile f) with
    | None => ([], inl "invalid output format"%string)
    | Some encoder =>
        let '(created, err) := open_writers f in
        match err with
        | Some e => (created, inl e)
        | None =>
            let mode := ToLower (dutySchedulerMode f) in
            match check_source f, check_duty f mode with
            | Some e, _ | None, Some e => (created, inl e)
            | None, None => (created, inr (with_names f fmt mode, encoder))
            end
        end
    end.
End Flags.
