(* ===== verification/Device.v ===== *)
(** Opening the direct source (src/receiver_source_direct_linux.go): the device is looked
    up and configured call by call, and its reader started, through the kernel's ring when
    that is wanted and can be had, and otherwise through the synchronous ring.  The
    functions of librtlsdr and the system calls are parameters: what they return. *)

From S2P Require Import Prelude KernelRing Sources.

(** [directRTLConfig] (receiver_source.go) *)
Record directRTLConfig := {
  Device : list Z; dc_CenterFreq : Z; dc_SampleRate : Z; BlockBytes : Z; BatchBytes : Z;
  TunerGainModeSet : bool; TunerGainMode : bool; TunerGainSet : bool; TunerGainTenthsDB : Z;
  GainByIndexSet : bool; GainByIndex : Z; FreqCorrectionSet : bool; FreqCorrectionPPM : Z;
  TestModeSet : bool; TestMode : bool; AGCModeSet : bool; AGCMode : bool;
  DirectSamplingSet : bool; DirectSampling : bool; OffsetTuningSet : bool; OffsetTuning : bool;
  RTLXtalFreqSet : bool; RTLXtalFreq : Z; TunerXtalFreqSet : bool; TunerXtalFreq : Z;
  config_KernelRing : bool; RetainBatches : Z }.

(** The calls that change the device or ask it, with their arguments. *)
Inductive device_call :=
  | rtlsdr_open (index : Z)
  | rtlsdr_set_xtal_freq (rtl tuner : Z)
  | rtlsdr_set_freq_correction (ppm : Z)
  | rtlsdr_set_sample_rate (rate : Z)
  | rtlsdr_set_center_freq (freq : Z)
  | rtlsdr_set_tuner_gain_mode (manual : Z)
  | rtlsdr_set_tuner_gain (gain : Z)
  | rtlsdr_set_testmode (on : Z)
  | rtlsdr_set_agc_mode (on : Z)
  | rtlsdr_set_direct_sampling (on : Z)
  | rtlsdr_set_offset_tuning (on : Z)
  | rtlsdr_reset_buffer
  | rtlsdr_attach_kernel_driver
  | rtlsdr_detach_kernel_driver
  | rtlsdr_close.

Definition directRTLBool (value : bool) : Z := if value then 1 else 0.

(** What the kernel's ring says of itself. *)
Record rtlamr_usb_ring_info := { abi : Z; slot_count : Z; slot_bytes : Z }.

(** What the system answers while the kernel's ring is set up: the n-th open, the ioctls,
    the allocations and the mapping of a slot; negative codes are errors. *)
Record kernel_answers := {
  ka_open : nat -> Z; ka_info : Z + rtlamr_usb_ring_info; ka_memory : bool; ka_mmap : Z -> Z; ka_start : Z }.

Definition ENOENT : Z := -2.
Definition EACCES : Z := -13.
Definition ENOMEM : Z := -12.
Definition EPROTO : Z := -71.

(** RTLAMR_USB_RING_ABI and RTLAMR_DIRECT_RING_COUNT. *)
Definition RTLAMR_USB_RING_ABI : Z := 2.
Definition RTLAMR_DIRECT_RING_COUNT : Z := 4.

Inductive direct_failure :=
  | BadGeometry
  | NoDevice
  | DeviceError (operation : device_call) (code : Z)
  | GainError (code : Z)
  | NoIdentity
  | StartError (code : Z)
  | BadQueue.

(** The reader that runs: the kernel's ring with its slots, or the synchronous ring. *)
Inductive device_reader := KernelReader (slots : Z) | SyncReader (buffer_count buffer_length : Z).

(** The source that is returned: without the kernel's ring it retains nothing. *)
Inductive direct_source := KernelSource (s : directRTLSource) | SyncSource (blockBytes : Z) (buffer_count buffer_length : Z).

Definition RetainedInputBlocks (s : direct_source) : Z := match s with KernelSource s => ds_retainedBlocks s | SyncSource _ _ _ => 0 end.

Section Device.
(** The device, what a call does to it and returns, and its answers to the queries:
    the count of devices, the index of a serial number, the kind of tuner and the gains
    of the tuner, with the result of asking for them. *)
Context {Dev : Type} (rtlsdr : device_call -> Dev -> Dev * Z) (device_count : Z) (index_by_serial : list Z -> Z)
  (tuner_type : Dev -> Z) (gain_count : Dev -> Z) (tuner_gains : Dev -> Z * list Z).
(** Whether memory is had for the gains and for the slots, and what pthread_create returns. *)
Context (gains_memory slots_memory : bool) (pthread_create : Z) (kernel : kernel_answers).

(** [directRTLDeviceIndex] *)
Definition directRTLDeviceIndex (device : list Z) : option Z :=
  match ParseUint device 10 32 with
  | (index, None) => if u64 device_count <=? index then None else Some index
  | (_, Some _) => let index := index_by_serial device in if index <? 0 then None else Some (u32 index)
  end.

(** [rtlamr_direct_set_gain_by_index]: the device and the code. *)
Definition rtlamr_direct_set_gain_by_index (index : Z) (d : Dev) : Dev * Z :=
  let count := gain_count d in
  if count <? 0 then (d, count)
  else if u32 count <=? index then (d, errno_EINVAL)
  else if negb gains_memory then (d, ENOMEM)
  else
    let '(result, gains) := tuner_gains d in
    if 0 <=? result then rtlsdr (rtlsdr_set_tuner_gain (nth (Z.to_nat index) gains 0)) d else (d, result).

(** The settings, in the order of newDirectRTLSource. *)
Inductive setting := Call (c : device_call) | GainAt (index : Z).

Definition settings (config : directRTLConfig) : list setting :=
  (if RTLXtalFreqSet config || TunerXtalFreqSet config then [Call (rtlsdr_set_xtal_freq (RTLXtalFreq config) (TunerXtalFreq config))] else []) ++
  (if FreqCorrectionSet config then [Call (rtlsdr_set_freq_correction (FreqCorrectionPPM config))] else []) ++
  [Call (rtlsdr_set_sample_rate (dc_SampleRate config)); Call (rtlsdr_set_center_freq (dc_CenterFreq config))] ++
  (if TunerGainModeSet config then [Call (rtlsdr_set_tuner_gain_mode (directRTLBool (negb (TunerGainMode config))))] else []) ++
  (if TunerGainSet config then [Call (rtlsdr_set_tuner_gain (TunerGainTenthsDB config))] else []) ++
  (if GainByIndexSet config then [GainAt (GainByIndex config)] else []) ++
  (if TestModeSet config then [Call (rtlsdr_set_testmode (directRTLBool (TestMode config)))] else []) ++
  (if AGCModeSet config then [Call (rtlsdr_set_agc_mode (directRTLBool (AGCMode config)))] else []) ++
  (if DirectSamplingSet config then [Call (rtlsdr_set_direct_sampling (directRTLBool (DirectSampling config)))] else []) ++
  (if OffsetTuningSet config then [Call (rtlsdr_set_offset_tuning (directRTLBool (OffsetTuning config)))] else []).

(** They are made until one fails. *)
Fixpoint apply_settings (l : list setting) (d : Dev) : Dev * option direct_failure :=
  match l with
  | [] => (d, None)
  | s :: l =>
      let '(d, result) := match s with Call c => rtlsdr c d | GainAt index => rtlamr_direct_set_gain_by_index index d end in
      if result <? 0 then (d, Some (match s with Call c => DeviceError c result | GainAt _ => GainError result end))
      else apply_settings l d
  end.

(** The attempts to open the kernel's device: its node may be late. *)
Fixpoint open_ring (attempts : nat) (attempt : nat) : Z :=
  let fd := ka_open kernel attempt in
  match attempts with
  | O => fd
  | S attempts => if (0 <=? fd) || (negb (fd =? ENOENT) && negb (fd =? EACCES)) then fd else open_ring attempts (S attempt)
  end.

(** The mapping of the slots: the code of the first that fails. *)
Fixpoint map_slots (slots : list Z) : option Z :=
  match slots with
  | [] => None
  | slot :: slots => if ka_mmap kernel slot <? 0 then Some (ka_mmap kernel slot) else map_slots slots
  end.

(** The checks of rtlamr_direct_kernel_start behind the attachment: a code, or the number
    of slots. *)
Definition kernel_ring_setup (retain_batches buffer_length : Z) : Z + Z :=
  let fd := open_ring 99 0 in
  if fd <? 0 then inl fd else
  match ka_info kernel with
  | inl code => inl code
  | inr info =>
      if negb (abi info =? RTLAMR_USB_RING_ABI) || negb (slot_bytes info =? buffer_length) || (slot_count info <? u32 (retain_batches + 2))
      then inl EPROTO
      else if negb (ka_memory kernel) then inl ENOMEM
      else
        match map_slots (seqZ 0 (slot_count info)) with
        | Some code => inl code
        | None => if ka_start kernel <? 0 then inl (ka_start kernel) else inr (slot_count info)
        end
  end.

(** [rtlamr_direct_kernel_start]: where it fails the interface is taken back. *)
Definition rtlamr_direct_kernel_start (retain_batches buffer_length : Z) (d : Dev) : Dev * (Z + Z) :=
  let '(d, result) := rtlsdr rtlsdr_attach_kernel_driver d in
  if result <? 0 then (d, inl result) else
  match kernel_ring_setup retain_batches buffer_length with
  | inl code => (fst (rtlsdr rtlsdr_detach_kernel_driver d), inl code)
  | inr slots => (d, inr slots)
  end.

(** The reader of the synchronous ring: its memory, and its thread. *)
Definition sync_start (buffer_count buffer_length : Z) : Z + device_reader :=
  if negb slots_memory then inl ENOMEM else if negb (pthread_create =? 0) then inl (- pthread_create) else inr (SyncReader buffer_count buffer_length).

(** [rtlamr_direct_start] on a source that is not started. *)
Definition start_reader (kernel_ring : bool) (retain_batches buffer_count buffer_length : Z) (d : Dev) : Dev * (Z + device_reader) :=
  if (buffer_count <? 2) || (buffer_length =? 0) then (d, inl errno_EINVAL) else
  let '(d, result) := rtlsdr rtlsdr_reset_buffer d in
  if result <? 0 then (d, inl result)
  else if kernel_ring then
    match rtlamr_direct_kernel_start retain_batches buffer_length d with
    | (d, inr slots) => (d, inr (KernelReader slots))
    | (d, inl _) => (d, sync_start buffer_count buffer_length)
    end
  else (d, sync_start buffer_count buffer_length).

Definition failed (d : Dev) (e : direct_failure) : Dev * (direct_failure + direct_source) := (fst (rtlsdr rtlsdr_close d), inl e).

(** [newDirectRTLSource] *)
Definition newDirectRTLSource (config : directRTLConfig) (d : Dev) : Dev * (direct_failure + direct_source) :=
  if (BlockBytes config =? 0) || (BatchBytes config =? 0) || negb (Z.rem (BatchBytes config) (BlockBytes config) =? 0) ||
     negb (Z.rem (BatchBytes config) 512 =? 0) then (d, inl BadGeometry) else
  match directRTLDeviceIndex (Device config) with
  | None => (d, inl NoDevice)
  | Some index =>
      let '(d, result) := rtlsdr (rtlsdr_open index) d in
      if result <? 0 then (d, inl (DeviceError (rtlsdr_open index) result)) else
      match apply_settings (settings config) d with
      | (d, Some e) => failed d e
      | (d, None) =>
          if (tuner_type d <? 0) || (gain_count d <? 0) then failed d NoIdentity else
          match start_reader (config_KernelRing config) (RetainBatches config) RTLAMR_DIRECT_RING_COUNT (BatchBytes config) d with
          | (d, inl code) => failed d (StartError code)
          | (d, inr (SyncReader count length)) => (d, inr (SyncSource (BlockBytes config) count length))
          | (d, inr (KernelReader slots)) =>
              match new_kernel_source (BlockBytes config) (BatchBytes config) (RetainBatches config) slots with
              | None => failed (fst (rtlsdr rtlsdr_detach_kernel_driver d)) BadQueue
              | Some s => (d, inr (KernelSource s))
              end
          end
      end
  end.
End Device.
