(* ===== verification/DeviceSpec.v ===== *)
(** The direct source opens with the kernel's ring whenever it opens without it, and what
    it retains is what it was asked to. *)

From S2P Require Import Prelude KernelRing Sources Device.

Section Spec.
Context {Dev : Type} (rtlsdr : device_call -> Dev -> Dev * Z) (device_count : Z) (index_by_serial : list Z -> Z)
  (tuner_type : Dev -> Z) (gain_count : Dev -> Z) (tuner_gains : Dev -> Z * list Z).
Context (gains_memory slots_memory : bool) (pthread_create : Z) (kernel : kernel_answers).

Local Notation start_reader := (start_reader rtlsdr slots_memory pthread_create kernel).
Local Notation newDirectRTLSource :=
  (newDirectRTLSource rtlsdr device_count index_by_serial tuner_type gain_count tuner_gains gains_memory slots_memory pthread_create kernel).

(** What the kernel's ring promises when its setup succeeds. *)
Lemma kernel_start_slots retain length d d' slots :
  rtlamr_direct_kernel_start rtlsdr kernel retain length d = (d', inr slots) -> u32 (retain + 2) <= slots.
Proof.
  unfold rtlamr_direct_kernel_start, kernel_ring_setup. destruct (rtlsdr _ d) as [d1 r]. destruct (r <? 0); [done |].
  repeat case_match; intros E; simplify_eq/=; lia.
Qed.

(** The kernel's ring only changes which reader runs. *)
Lemma start_reader_kernel retain count length d :
  match start_reader true retain count length d, start_reader false retain count length d with
  | (_, inl code), (_, inl code') => code = code'
  | (_, inr (KernelReader slots)), (_, (inl _ | inr (SyncReader _ _))) => u32 (retain + 2) <= slots
  | (_, inr (SyncReader c l)), (_, inr (SyncReader c' l')) => c = c' /\ l = l'
  | _, _ => False
  end.
Proof.
  unfold Device.start_reader. destruct (_ || _); [done |]. destruct (rtlsdr _ d) as [d1 r]. destruct (r <? 0); [done |].
  assert (Hs : match sync_start slots_memory pthread_create count length with inr (KernelReader _) => False | _ => True end).
  { unfold sync_start. by repeat case_match. }
  destruct (rtlamr_direct_kernel_start _ _ _ _ _) as [d2 [code | slots]] eqn:Ek.
  - by destruct (sync_start _ _ _ _) as [|[]].
  - apply kernel_start_slots in Ek. by destruct (sync_start _ _ _ _) as [|[]].
Qed.

(** The synchronous reader fails for want of memory or of a thread, when the device
    could be reset. *)
Lemma start_reader_sync retain count length d :
  match start_reader true retain count length d, start_reader false retain count length d with
  | (_, inr _), (_, inl _) => slots_memory = false \/ pthread_create <> 0
  | _, _ => True
  end.
Proof.
  unfold Device.start_reader. destruct (_ || _); [done |]. destruct (rtlsdr _ d) as [d1 r]. destruct (r <? 0); [done |].
  destruct (rtlamr_direct_kernel_start _ _ _ _ _) as [d2 [code | slots]]; unfold sync_start;
    destruct slots_memory; simpl; auto; destruct (Z.eqb_spec pthread_create 0); simpl; auto.
Qed.

Lemma kernel_source_accepts config slots :
  (BlockBytes config =? 0) || (BatchBytes config =? 0) || negb (Z.rem (BatchBytes config) (BlockBytes config) =? 0) ||
    negb (Z.rem (BatchBytes config) 512 =? 0) = false ->
  RetainBatches config + 2 <= slots ->
  exists s, new_kernel_source (BlockBytes config) (BatchBytes config) (RetainBatches config) slots = Some s /\
    ds_retainedBlocks s = i64 (RetainBatches config * Z.quot (BatchBytes config) (BlockBytes config)).
Proof.
  intros Hg Hs. unfold new_kernel_source. rewrite Hg, (proj2 (Z.ltb_ge _ _)) by done. by eexists.
Qed.

Definition with_ring (ring : bool) (c : directRTLConfig) : directRTLConfig :=
  {| Device := Device c; dc_CenterFreq := dc_CenterFreq c; dc_SampleRate := dc_SampleRate c; BlockBytes := BlockBytes c; BatchBytes := BatchBytes c;
     TunerGainModeSet := TunerGainModeSet c; TunerGainMode := TunerGainMode c; TunerGainSet := TunerGainSet c;
     TunerGainTenthsDB := TunerGainTenthsDB c; GainByIndexSet := GainByIndexSet c; GainByIndex := GainByIndex c;
     FreqCorrectionSet := FreqCorrectionSet c; FreqCorrectionPPM := FreqCorrectionPPM c; TestModeSet := TestModeSet c; TestMode := TestMode c;
     AGCModeSet := AGCModeSet c; AGCMode := AGCMode c; DirectSamplingSet := DirectSamplingSet c; DirectSampling := DirectSampling c;
     OffsetTuningSet := OffsetTuningSet c; OffsetTuning := OffsetTuning c; RTLXtalFreqSet := RTLXtalFreqSet c; RTLXtalFreq := RTLXtalFreq c;
     TunerXtalFreqSet := TunerXtalFreqSet c; TunerXtalFreq := TunerXtalFreq c; config_KernelRing := ring; RetainBatches := RetainBatches c |}.

(** What a source retains. *)
Definition retains (c : directRTLConfig) (s : direct_source) : Prop :=
  RetainedInputBlocks s = 0 \/ RetainedInputBlocks s = i64 (RetainBatches c * Z.quot (BatchBytes c) (BlockBytes c)).

(** C20. The kernel's ring never costs the radio: a source that asks for it opens, on any
    device and whatever the kernel answers, whenever one that does not ask opens, and when it fails the other fails with the same
    error.  A source that opens retains all the blocks it was asked to, or, without the
    ring, none; with the ring it can open where memory or a thread is missing. *)
Theorem kernel_ring_costs_nothing (config : directRTLConfig) (d : Dev) :
  0 <= RetainBatches config < 2 ^ 32 - 2 ->
  match newDirectRTLSource (with_ring true config) d, newDirectRTLSource (with_ring false config) d with
  | (_, inl e), (_, inl e') => e = e'
  | (_, inr s), (_, inr s') => retains config s /\ RetainedInputBlocks s' = 0
  | (_, inr s), (_, inl e) => retains config s /\ exists code, e = StartError code /\ (slots_memory = false \/ pthread_create <> 0)
  | (_, inl _), (_, inr _) => False
  end.
Proof.
  intros Hr. unfold Device.newDirectRTLSource. simpl.
  destruct ((_ || _ || _) || _) eqn:Eg; [done |]. destruct (directRTLDeviceIndex _ _ _) as [index|]; [|done].
  destruct (rtlsdr _ d) as [d1 r]. destruct (r <? 0); [done |]. change (settings (with_ring _ config)) with (settings config).
  destruct (apply_settings _ _ _ _ _ _) as [d2 [e|]]; [done |].
  destruct ((tuner_type d2 <? 0) || (gain_count d2 <? 0)); [done |]. change (RetainBatches (with_ring _ config)) with (RetainBatches config). change (BatchBytes (with_ring _ config)) with (BatchBytes config).
  change (BlockBytes (with_ring _ config)) with (BlockBytes config).
  pose proof (start_reader_kernel (RetainBatches config) RTLAMR_DIRECT_RING_COUNT (BatchBytes config) d2) as Hs.
  pose proof (start_reader_sync (RetainBatches config) RTLAMR_DIRECT_RING_COUNT (BatchBytes config) d2) as Hf.
  destruct (Device.start_reader _ _ _ _ true _ _ _ _) as [d3 [e | [slots | c l]]], (Device.start_reader _ _ _ _ false _ _ _ _) as [d4 [e' | [slots' | c' l']]];
    try done; unfold failed; cbn [fst snd] in *; [by f_equal | ..].
  all: try (split; [by left | done]).
  all: unfold u32, wrap_u in Hs; rewrite Z.mod_small in Hs by lia; destruct (kernel_source_accepts config slots Eg Hs) as (s & -> & Hk).
  all: split; [by right |]; try done. eauto.
Qed.
End Spec.

(** ** An example: a device that records its calls, and a ring whose protocol is too old. *)

Definition demo_config : directRTLConfig :=
  {| Device := str "0"; dc_CenterFreq := 912600155; dc_SampleRate := 2359296; BlockBytes := 4096; BatchBytes := 65536;
     TunerGainModeSet := true; TunerGainMode := true; TunerGainSet := false; TunerGainTenthsDB := 0; GainByIndexSet := false; GainByIndex := 0;
     FreqCorrectionSet := false; FreqCorrectionPPM := 0; TestModeSet := false; TestMode := false; AGCModeSet := false; AGCMode := false;
     DirectSamplingSet := false; DirectSampling := false; OffsetTuningSet := false; OffsetTuning := false; RTLXtalFreqSet := false;
     RTLXtalFreq := 0; TunerXtalFreqSet := false; TunerXtalFreq := 0; config_KernelRing := true; RetainBatches := 8 |}.

Definition demo_kernel (version : Z) : kernel_answers :=
  {| ka_open := fun attempt => if (attempt <? 3)%nat then ENOENT else 5; ka_info := inr {| abi := version; slot_count := 32; slot_bytes := 65536 |};
     ka_memory := true; ka_mmap := fun _ => 0; ka_start := 0 |}.

Definition demo_rtlsdr (c : device_call) (trace : list device_call) : list device_call * Z := (trace ++ [c], 0).

Definition demo_source (version : Z) (ring : bool) : list device_call * (direct_failure + direct_source) :=
  newDirectRTLSource demo_rtlsdr 1 (fun _ => -1) (fun _ => 5) (fun _ => 29) (fun _ => (29, [])) true true 0 (demo_kernel version)
    (with_ring ring demo_config) [].

Example demo_source_falls_back : (demo_source 1 true).2 = inr (SyncSource 4096 4 65536).
Proof. vm_compute. reflexivity. Qed.

Example demo_source_retains : (match (demo_source 2 true).2 with inr s => RetainedInputBlocks s | inl _ => 0 end) = 128.
Proof. vm_compute. reflexivity. Qed.

Lemma kernel_ring_costs_nothing_witness :
  0 <= RetainBatches demo_config < 2 ^ 32 - 2 /\
  match demo_source 2 true, demo_source 2 false with
  | (_, inl e), (_, inl e') => e = e'
  | (_, inr s), (_, inr s') => retains demo_config s /\ RetainedInputBlocks s' = 0
  | (_, inr s), (_, inl e) => retains demo_config s /\ exists code, e = StartError code /\ (true = false \/ 0 <> 0)
  | (_, inl _), (_, inr _) => False
  end.
Proof.
  split; [by vm_compute |].
  apply (kernel_ring_costs_nothing demo_rtlsdr 1 (fun _ => -1) (fun _ => 5) (fun _ => 29) (fun _ => (29, [])) true true 0 (demo_kernel 2) demo_config []).
  by vm_compute.
Defined.
