(* ===== verification/Startup.v ===== *)
(** The start of the receiver (src/main.go, NewReceiver, and configureCheckpoints of
    src/duty_runtime.go): the decoder of the message types, the filters, the source of
    samples, the duty scheduler with its checkpoints and collar, and the capture.
    Package flag, the rtl_tcp client, the device, the file system and the policy's
    decoder are parameters. *)

From S2P Require Import Prelude Float64 Packet Layout Search Ring History Signal Register Decode R900 Update DutyMath DutyModel Scheduler DutyDefaults DutyState DutySnapshot DutyRuntime DutyCheckpoint DutyPolicy Capture KernelRing Sources Protocols Flags Device.

(** The flags of the rtl_tcp client, as integers: the gain in tenths of a decibel. *)
Record SDRFlags := {
  CenterFreqFlag : Z; SampleRateFlag : Z; TunerGainModeFlag : bool; TunerGainTenths : Z; GainByIndexFlag : Z; FreqCorrectionFlag : Z;
  TestModeFlag : bool; AgcModeFlag : bool; DirectSamplingFlag : bool; OffsetTuningFlag : bool; RtlXtalFreqFlag : Z; TunerXtalFreqFlag : Z }.

(** The calls of the rtl_tcp client. *)
Inductive tcp_call := Connect | ClientHandleFlags | SetCenterFreq (freq : Z) | SetSampleRate (rate : Z) | SetGainMode (on : bool).

(** The sources of a receiver. *)
Inductive source := TcpSource (blockBytes blocks : Z) | DirectSource (s : direct_source).

(** What NewReceiver leaves, or why the program ends. *)
Record Started := {
  st_d : Decode.Decoder Parser; st_fc : list filter_kind; st_source : source; st_duty : option dutyRuntime; st_capture : option blockCapture }.

Definition outcome := (fatal + Started)%type.

(** The settings that were given override the decoder's. *)
Definition visited_config (visited : gset (list Z)) (sdr : SDRFlags) (cfg : PacketConfig) : PacketConfig :=
  {| Protocol := Protocol cfg; Preamble := Preamble cfg; DataRate := DataRate cfg; BlockSize := BlockSize cfg; BlockSize2 := BlockSize2 cfg;
     ChipLength := ChipLength cfg; SymbolLength := SymbolLength cfg;
     SampleRate := if bool_decide (str "samplerate" ∈ visited) then SampleRateFlag sdr else SampleRate cfg;
     PreambleSymbols := PreambleSymbols cfg; PacketSymbols := PacketSymbols cfg; PreambleLength := PreambleLength cfg;
     PacketLength := PacketLength cfg; BufferLength := BufferLength cfg;
     CenterFreq := if bool_decide (str "centerfreq" ∈ visited) then u32 (CenterFreqFlag sdr) else CenterFreq cfg |}.

(** flag.Visit walks the flags by name, so the filters are in this order. *)
Definition visited_filters (visited : gset (list Z)) (unique : bool) : list filter_kind :=
  (if bool_decide (str "filterid" ∈ visited) then [ByMeterID] else []) ++
  (if bool_decide (str "filtertype" ∈ visited) then [ByMeterType] else []) ++
  (if bool_decide (str "unique" ∈ visited) && unique then [Unique] else []).

Definition gainFlagSet (visited : gset (list Z)) : bool :=
  bool_decide (str "gainbyindex" ∈ visited) || bool_decide (str "tunergainmode" ∈ visited) || bool_decide (str "tunergain" ∈ visited) ||
  bool_decide (str "agcmode" ∈ visited).

Definition directConfig (f : Flags) (visited : gset (list Z)) (sdr : SDRFlags) (cfg : PacketConfig) (batchBlocks retainBatches : Z) : directRTLConfig :=
  {| Device := directDevice f; dc_CenterFreq := CenterFreq cfg; dc_SampleRate := u32 (SampleRate cfg);
     BlockBytes := u32 (BlockSize2 cfg); BatchBytes := u32 (i64 (BlockSize2 cfg * batchBlocks));
     TunerGainModeSet := bool_decide (str "tunergainmode" ∈ visited) || negb (gainFlagSet visited);
     TunerGainMode := TunerGainModeFlag sdr || negb (gainFlagSet visited);
     TunerGainSet := bool_decide (str "tunergain" ∈ visited); TunerGainTenthsDB := TunerGainTenths sdr;
     GainByIndexSet := bool_decide (str "gainbyindex" ∈ visited); GainByIndex := u32 (GainByIndexFlag sdr);
     FreqCorrectionSet := bool_decide (str "freqcorrection" ∈ visited); FreqCorrectionPPM := FreqCorrectionFlag sdr;
     TestModeSet := bool_decide (str "testmode" ∈ visited); TestMode := TestModeFlag sdr;
     AGCModeSet := bool_decide (str "agcmode" ∈ visited); AGCMode := AgcModeFlag sdr;
     DirectSamplingSet := bool_decide (str "directsampling" ∈ visited); DirectSampling := DirectSamplingFlag sdr;
     OffsetTuningSet := bool_decide (str "offsettuning" ∈ visited); OffsetTuning := OffsetTuningFlag sdr;
     RTLXtalFreqSet := bool_decide (str "rtlxtalfreq" ∈ visited); RTLXtalFreq := u32 (RtlXtalFreqFlag sdr);
     TunerXtalFreqSet := bool_decide (str "tunerxtalfreq" ∈ visited); TunerXtalFreq := u32 (TunerXtalFreqFlag sdr);
     config_KernelRing := directKernelRing f; RetainBatches := u32 retainBatches |}.

Definition Second_ns : Z := 10 ^ 9.
Definition Hour_ns : Z := 3600 * Second_ns.

Section Startup.
Context `{QuantizerPlatform}.
Context (ToLower : list Z -> list Z) (walk_ids : gset Z -> list Z).
(** The client: whether a call succeeds.  The device, opened under a configuration. *)
Context (client : tcp_call -> bool) (direct_available : bool) (open_direct : directRTLConfig -> direct_failure + direct_source).
(** The policy's file and decoder. *)
Context (load_policy : Mode -> list Z -> f64 -> list Z -> Result Config).
(** The directory of the checkpoints: its absolute path, whether it is there and a
    directory, its entries; and the restoring of the best of them. *)
Context (Abs : list Z -> option (list Z)) (IsDir : list Z -> option bool) (ReadDir : list Z -> option (list dir_entry))
  (restoreBest : list dir_entry -> dutyRuntime -> option (dutyRuntime * Result unit)).

(** [configureCheckpoints]: [None] is a run-time panic. *)
Definition configureCheckpoints (path : list Z) (interval : Z) (d : dutyRuntime) : option (Result dutyRuntime) :=
  if bool_decide (path = []) || (interval <=? 0) then Some (inl (ErrInvalid (str "dutyscheduler: invalid checkpoint configuration"))) else
  match Abs path with
  | None => Some (inl (ErrInvalid (str "abs")))
  | Some canonical =>
      match IsDir canonical with
      | None => Some (inl (ErrInvalid (str "stat")))
      | Some false => Some (inl (ErrInvalid (str "dutyscheduler: checkpoint path is not a directory")))
      | Some true =>
          let d := d <| rt_checkpointDir := canonical |> <| rt_checkpointInterval := interval |> <| rt_nextCheckpointUTC := None |> in
          match ReadDir canonical with
          | None => Some (inl (ErrInvalid (str "read directory")))
          | Some entries => '(d, r) ← restoreBest entries d; Some (match r with inl e => inl e | inr tt => inr d end)
          end
      end
  end.

(** The rtl_tcp client: connected, configured, and its stream cut into batches. *)
Definition open_tcp (visited : gset (list Z)) (cfg : PacketConfig) : fatal + source :=
  if negb (client Connect) then inl "receiver connect"%string
  else if negb (client ClientHandleFlags) then inl "configure rtl_tcp"%string
  else if negb (client (SetCenterFreq (CenterFreq cfg)) && client (SetSampleRate (u32 (SampleRate cfg))) &&
                (gainFlagSet visited || client (SetGainMode true))) then inl "configure rtl_tcp defaults"%string
  else
    match newStreamReceiverSource (E := unit) (BlockSize2 cfg) receiverReadBlocks with
    | None => inl "configure rtl_tcp batches"%string
    | Some _ => inr (TcpSource (BlockSize2 cfg) receiverReadBlocks)
    end.

(** The device, with as many batches held back as the collar of a gated receiver needs. *)
Definition open_device (f : Flags) (visited : gset (list Z)) (sdr : SDRFlags) (cfg : PacketConfig) : option (fatal + source) :=
  if negb direct_available then Some (inl "direct RTL-SDR source is unavailable in this build"%string) else
  let batchBlocks := if directKernelRing f then directKernelBatchBlocks f else receiverReadBlocks in
  retainBatches ← retain_batches (directKernelRing f && bool_decide (dutySchedulerMode f = ModeGated)) cfg batchBlocks;
  Some (match open_direct (directConfig f visited sdr cfg batchBlocks retainBatches) with
        | inl _ => inl "open direct RTL-SDR source"%string
        | inr s => inr (DirectSource s)
        end).

Definition open_source (f : Flags) (visited : gset (list Z)) (sdr : SDRFlags) (cfg : PacketConfig) : option (fatal + source) :=
  let name := ToLower (inputSource f) in
  if bool_decide (name = str "tcp") then Some (open_tcp visited cfg)
  else if bool_decide (name = str "direct") then open_device f visited sdr cfg
  else Some (inl "invalid sample source"%string).

(** Only the direct source tells how many blocks it retains. *)
Definition retained_blocks (s : source) : Z := match s with TcpSource _ _ => 0 | DirectSource s => RetainedInputBlocks s end.

Definition borrow_collar (s : source) (d : dutyRuntime) : fatal + dutyRuntime :=
  if 0 <? retained_blocks s then
    match useBorrowedCollar (retained_blocks s) d with
    | inl _ => inl "configure zero-copy DSP duty collar"%string
    | inr d => inr d
    end
  else inr d.

(** The duty scheduler at the time [now]. *)
Definition open_duty (f : Flags) (now : Z) (cfg : PacketConfig) (s : source) : option (fatal + option dutyRuntime) :=
  if bool_decide (dutySchedulerMode f = ModeOff) then Some (inr None) else
  let ids := walk_ids (meterID f) in
  match load_policy (dutySchedulerMode f) ids (fdiv (dutySchedulerCaptureTarget f) (f64_of_int 100)) (dutySchedulerPolicy f) with
  | inl _ => Some (inl "load DSP duty scheduler policy"%string)
  | inr config =>
      r ← newDutyRuntimeWithConfig now cfg ids config;
      match r with
      | inl _ => Some (inl "configure DSP duty scheduler"%string)
      | inr d =>
          r ← (if bool_decide (dutySchedulerCheckpointDir f = []) then Some (inr d)
               else configureCheckpoints (dutySchedulerCheckpointDir f) Hour_ns d);
          match r with
          | inl _ => Some (inl "configure DSP duty scheduler checkpoints"%string)
          | inr d => Some (match borrow_collar s d with inl e => inl e | inr d => inr (Some d) end)
          end
      end
  end.

Definition open_capture (f : Flags) (cfg : PacketConfig) : fatal + option blockCapture :=
  if bool_decide (continuousSampleFile f = DevNull) then inr None
  else
    match newBlockCapture (SampleRate cfg) (BlockSize2 cfg) (continuousSampleDuration f) with
    | None => inl "configure continuous sample capture"%string
    | Some c => inr (Some c)
    end.

(** [rcvr.d.Cfg = cfg] *)
Definition with_config (d : Decode.Decoder Parser) (cfg : PacketConfig) : Decode.Decoder Parser :=
  {| registry := registry d; Cfg := cfg; decisions := decisions d; samples := samples d; packed := packed d; pkt := pkt d; sIdxA := sIdxA d;
     policy := policy d; probe := probe d; dispatchStatus := dispatchStatus d |}.

(** [NewReceiver]: the fatal error, or the receiver; [None] is a run-time panic. *)
Definition NewReceiver (probe : option (unit -> power16Platform)) (now : Z) (f : Flags) (visited : gset (list Z)) (unique : bool) (sdr : SDRFlags)
  : option outcome :=
  r ← newProtocolDecoder probe (symbolLength f) (sortedProtocolNames (expandAllMessageTypes (msgType f)));
  match r with
  | inr _ => Some (inl "message type"%string)
  | inl d =>
      let cfg := visited_config visited sdr (Cfg d) in
      r ← open_source f visited sdr cfg;
      match r with
      | inl e => Some (inl e)
      | inr s =>
          r ← open_duty f now cfg s;
          match r with
          | inl e => Some (inl e)
          | inr duty =>
              match open_capture f cfg with
              | inl e => Some (inl e)
              | inr capture =>
                  Some (inr {| st_d := with_config d cfg; st_fc := visited_filters visited unique; st_source := s; st_duty := duty;
                               st_capture := capture |})
              end
          end
      end
  end.
End Startup.
