(* ===== verification/StartupSpec.v ===== *)
(** The start of the receiver gives what the theorems about runs assume: a decoder fresh
    from Allocate, a duty runtime that has just been made on blocks of the decoder's
    geometry, and, when its collar is borrowed, a source that retains it. *)

From stdpp Require Import sorting.
From S2P Require Import Prelude Float64 Packet Layout Search Ring History Signal Register Decode R900 Receiver Update DutyMath DutyModel Scheduler SchedulerSpec DutyDefaults DutyState DutySnapshot DutyRuntime DutyCheckpoint DutyRuntimeSpec DutyPolicy Capture KernelRing Sources Protocols ProtocolsSpec ProtocolsTotal ReceiveSpec Flags Device DeviceSpec Startup.

(** ** The decoder *)

Lemma expand_nonempty types : types <> ∅ -> sortedProtocolNames (expandAllMessageTypes types) <> [].
Proof.
  intros Hne E. unfold sortedProtocolNames in E.
  assert (elements (expandAllMessageTypes types) = []) as El by (apply Permutation_nil; rewrite <- E; apply merge_sort_Permutation).
  apply elements_empty_iff, leibniz_equiv in El. revert El. unfold expandAllMessageTypes. case_match; [| done]. set_solver.
Qed.

Lemma fresh_packet `{QuantizerPlatform} c p : fresh c p -> PacketSymbols (Cfg_of p) <= 736 /\ DataRate (Cfg_of p) <= 32768.
Proof. destruct 1; cbn; lia. Qed.

Lemma merged_packet `{QuantizerPlatform} c ps : Forall (fresh c) ps ->
  let cfg := foldl merge_config empty_config (map Cfg_of ps) in PacketSymbols cfg <= 736 /\ DataRate cfg <= 32768.
Proof.
  induction ps as [|p ps IH] using rev_ind; [cbn; lia |]. intros [Hps [Hp%fresh_packet _]%Forall_cons]%Forall_app.
  rewrite map_app, foldl_app. cbn [map foldl merge_config PacketSymbols DataRate]. specialize (IH Hps). cbv zeta in IH. lia.
Qed.

(** The sizes of a decoder of the program. *)
Record program_sizes (cfg : PacketConfig) : Prop := {
  ps_block : 64 <= BlockSize cfg <= 8192;
  ps_block2 : BlockSize2 cfg = 2 * BlockSize cfg;
  ps_buffer : 0 < BufferLength cfg <= 149504 }.

Lemma program_sizes_same cfg cfg' : program_sizes cfg -> same_blocks cfg' cfg -> program_sizes cfg'.
Proof. intros [H1 H2 H3] (E1 & E2 & E3). by constructor; rewrite ?E1, ?E2, ?E3. Qed.

Lemma newProtocolDecoder_built `{QuantizerPlatform} `{SearchPlatform} `{DualPlatform} `{MagnitudePlatform} `{ManchesterPlatform} pr c names d :
  c ∈ symbol_lengths -> names <> [] -> probe_lawful pr -> newProtocolDecoder pr c names = Some (inl d) ->
  exists reg, allocatable reg /\ Allocate reg power16PolicyAutomatic pr = Some d /\ program_sizes (Cfg d) /\ SampleRate (Cfg d) < 2 ^ 32.
Proof.
  intros Hc Hne Hpr E.
  assert (8 <= c <= 96 /\ c mod 4 = 0) as [Hc1 Hc4].
  { unfold symbol_lengths in Hc. repeat (apply elem_of_cons in Hc as [-> | Hc]; [split; [lia | done] |]). by apply elem_of_nil in Hc. }
  destruct (decide (Forall known names)) as [Hk | Hk].
  - destruct (newProtocolDecoder_known pr c names ltac:(lia) Hc4 Hk Hne Hpr) as (ps & d' & power & hears & Hps & _ & Hps0 & E' & Ea & _).
    rewrite E in E'. injection E' as <-. exists (register_all ps). pose proof (fresh_allocatable c ps ltac:(lia) Hc4 Hps Hps0) as Hal.
    split; [done |]. split; [done |]. destruct (Allocate_ready _ power16PolicyAutomatic pr Hal Hpr) as (d' & E' & _ & _ & Ec). rewrite Ea in E'. injection E' as <-.
    destruct (register_all_registered ps) as [_ R2 _ _ _ _ _ _]. destruct (fresh_merged c ps ltac:(lia) Hps Hps0) as [M1 M2 M3 _ _].
    destruct (merged_packet c ps Hps) as [M6 M7]. rewrite <- R2 in M1, M2, M3, M6, M7.
    destruct (derive_lengths (r_Cfg (register_all ps))) as (L1 & L2 & L3 & L4 & L5 & _ & k & Hk0 & Ek & Hk1 & Hk2); [lia | lia |]. rewrite <- Ec in *.
    rewrite L1, M1 in *. assert (BlockSize (Cfg d) <= 8192) as Hmax.
    { rewrite Ek. change 8192 with (2 ^ 13). apply Z.pow_le_mono_r; [lia |]. destruct (Z.le_gt_cases k 13); [done |]. exfalso.
      assert (2 ^ 14 <= 2 ^ k) by (apply Z.pow_le_mono_r; lia). change (2 ^ 14) with 16384 in *. nia. }
    split; [split; [split; nia | lia | nia] |]. rewrite Ec. cbn [derive_config SampleRate]. rewrite M1. nia.
  - destruct (register_names_unknown c names newDecoder Hk) as (name & _ & _ & Eu). unfold newProtocolDecoder in E. by rewrite Eu in E.
Qed.

(** ** The collar *)

Lemma program_collar cfg : program_sizes cfg -> 0 < SampleRate cfg < 2 ^ 32 ->
  geometry_fits cfg /\ exists L, dutyCollarBlockCount cfg = Some L /\ 0 < L < 2 ^ 30.
Proof.
  intros [Hb Hb2 Hbuf] Hr. split.
  { split; [lia |]. unfold good_geometry, second. lia. }
  unfold dutyCollarBlockCount, warmup_blocks, go_quot. change dutyCollarDuration with 100000000. change second with 1000000000.
  rewrite (i64_id (1000000000 * BlockSize cfg)), (i64_id (SampleRate cfg * _)), (i64_id (BufferLength cfg + BlockSize cfg)) by lia.
  rewrite (i64_id (_ + 1000000000 * BlockSize cfg)), (i64_id (_ + 1000000000 * BlockSize cfg - 1)), (i64_id (_ - 1)) by lia.
  rewrite !(proj2 (Z.eqb_neq _ 0)) by lia. cbn [mbind option_bind].
  assert (0 <= Z.quot (SampleRate cfg * 100000000 + 1000000000 * BlockSize cfg - 1) (1000000000 * BlockSize cfg) < 2 ^ 29) as Hc.
  { rewrite Z.quot_div_nonneg by lia. split; [apply Z.div_pos; lia | apply Z.div_lt_upper_bound; lia]. }
  assert (0 <= Z.quot (BufferLength cfg + BlockSize cfg - 1) (BlockSize cfg) < 2 ^ 29) as Hw.
  { rewrite Z.quot_div_nonneg by lia. split; [apply Z.div_pos; lia | apply Z.div_lt_upper_bound; lia]. }
  rewrite !i64_id by (unfold i64; rewrite ?wrap_s_id by (done || (change (2 ^ (64 - 1)) with (2 ^ 63); lia)); lia).
  destruct (Z.leb_spec (Z.quot (SampleRate cfg * 100000000 + 1000000000 * BlockSize cfg - 1) (1000000000 * BlockSize cfg))
    (Z.quot (BufferLength cfg + BlockSize cfg - 1) (BlockSize cfg))); eexists; (split; [done | lia]).
Qed.

Section Collar.
Context `{GoMath} `{Fingerprint}.
Context (ParseTime : list Z -> option Z) (Lstat : list Z -> option file_info) (Unmarshal : list Z -> option dutyRuntimeReport)
  (sort_Slice : (dutyCheckpointCandidate -> dutyCheckpointCandidate -> bool) -> list dutyCheckpointCandidate -> list dutyCheckpointCandidate).

(** A restored checkpoint leaves the collar alone. *)
Lemma restoreBestCheckpoint_collar entries d d' r :
  restoreBestCheckpoint ParseTime Lstat Unmarshal sort_Slice entries d = Some (d', r) -> rt_collar d' = rt_collar d /\ rt_borrowRaw d' = rt_borrowRaw d.
Proof. unfold restoreBestCheckpoint. intros ([m skipped] & _ & E)%bind_Some. repeat case_match; by simplify_eq/=. Qed.

Lemma fresh_rate now cfg ids schedulerConfig d : newDutyRuntimeWithConfig now cfg ids schedulerConfig = Some (inr d) -> 0 < SampleRate cfg.
Proof.
  unfold newDutyRuntimeWithConfig. destruct (New schedulerConfig); [| intros [=]].
  destruct ((SampleRate cfg <=? 0) || _ || _ || _) eqn:Eg; [intros [=] |]. rewrite !orb_false_iff, !Z.leb_gt in Eg. intros _. lia.
Qed.

Lemma fresh_collar now cfg ids schedulerConfig d L :
  newDutyRuntimeWithConfig now cfg ids schedulerConfig = Some (inr d) -> dutyCollarBlockCount cfg = Some L -> 0 <= L ->
  len (rt_collar d) = L /\ rt_borrowRaw d = false.
Proof.
  intros E EL HL. apply newDutyRuntimeWithConfig_fresh in E as (s & L' & w & -> & EL' & _). rewrite EL in EL'. injection EL' as <-.
  cbn [fresh_runtime rt_collar rt_borrowRaw]. split; [by apply len_make | reflexivity].
Qed.
End Collar.

(** ** The source *)

(** What retain_batches asks for, in the widths of the configuration, covers the collar. *)
Lemma retained_enough gated cfg batch L retain :
  program_sizes cfg -> dutyCollarBlockCount cfg = Some L -> 0 < L < 2 ^ 30 -> 0 < batch <= 256 -> retain_batches gated cfg batch = Some retain ->
  let blocks := i64 (u32 retain * Z.quot (u32 (i64 (BlockSize2 cfg * batch))) (u32 (BlockSize2 cfg))) in
  0 <= retain < 2 ^ 32 - 2 /\ (if gated then L <= blocks else blocks = 0).
Proof.
  intros [Hb Hb2 _] EL HL Hbatch Hr blocks. unfold retain_batches in Hr. destruct gated; [| by injection Hr as <-].
  rewrite EL in Hr. cbn [mbind option_bind] in Hr. unfold go_quot in Hr. rewrite (proj2 (Z.eqb_neq _ 0)) in Hr by lia. injection Hr as Hr.
  rewrite (i64_id (L + batch)), (i64_id (_ - 1)), Z.quot_div_nonneg in Hr by lia.
  pose proof (Z.div_mod (L + batch - 1) batch ltac:(lia)) as Ed. pose proof (Z.mod_pos_bound (L + batch - 1) batch ltac:(lia)) as Hm.
  rewrite i64_id in Hr by nia. rewrite Hr in Ed. assert (0 <= retain <= L) by nia. split; [lia |].
  subst blocks. rewrite (i64_id (BlockSize2 cfg * batch)) by nia. unfold u32. rewrite !wrap_u_id by (unfold is_uint; nia).
  replace (Z.quot (BlockSize2 cfg * batch) (BlockSize2 cfg)) with batch by (rewrite Z.mul_comm, Z.quot_mul; lia).
  rewrite i64_id by nia. nia.
Qed.

(** A source that opens retains what it was asked to or nothing. *)
Lemma opened_retains {Dev} rtlsdr device_count index_by_serial tuner_type gain_count tuner_gains gains_memory slots_memory pthread_create kernel
    (config : directRTLConfig) (d d' : Dev) s :
  newDirectRTLSource rtlsdr device_count index_by_serial tuner_type gain_count tuner_gains gains_memory slots_memory pthread_create kernel config d = (d', inr s) ->
  retains config s /\ (config_KernelRing config = false -> RetainedInputBlocks s = 0).
Proof.
  unfold newDirectRTLSource. destruct (_ || _); [done |]. destruct (directRTLDeviceIndex _ _ _); [| done]. destruct (rtlsdr _ d) as [d1 r]. destruct (r <? 0); [done |].
  destruct (apply_settings _ _ _ _ _ _) as [d2 [e |]]; [done |]. destruct ((tuner_type d2 <? 0) || _); [done |].
  unfold start_reader. destruct ((RTLAMR_DIRECT_RING_COUNT <? 2) || _); [done |]. destruct (rtlsdr rtlsdr_reset_buffer d2) as [d3 r3]. destruct (r3 <? 0); [done |].
  assert (Hs : match sync_start slots_memory pthread_create RTLAMR_DIRECT_RING_COUNT (BatchBytes config) with inr (KernelReader _) => False | _ => True end).
  { unfold sync_start. by repeat case_match. }
  destruct (config_KernelRing config).
  - destruct (rtlamr_direct_kernel_start _ _ _ _ _) as [d4 [code | slots]].
    + destruct (sync_start _ _ _ _) as [| []]; try done. intros [= <- <-]. split; [by left | done].
    + destruct (new_kernel_source _ _ _ _) as [ks |] eqn:Ek; [| done]. intros [= <- <-]. split; [| done]. right.
      unfold new_kernel_source in Ek. repeat case_match; by simplify_eq/=.
  - destruct (sync_start _ _ _ _) as [| []]; try done. intros [= <- <-]. split; [by left | done].
Qed.

(** ** The duty scheduler *)

Section Duty.
Context `{GoMath} `{Fingerprint}.
Context (walk_ids : gset Z -> list Z) (load_policy : Mode -> list Z -> f64 -> list Z -> Result Config).
Context (Abs : list Z -> option (list Z)) (IsDir : list Z -> option bool) (ReadDir : list Z -> option (list dir_entry)).
Context (ParseTime : list Z -> option Z) (Lstat : list Z -> option file_info) (Unmarshal : list Z -> option dutyRuntimeReport)
  (sort_Slice : (dutyCheckpointCandidate -> dutyCheckpointCandidate -> bool) -> list dutyCheckpointCandidate -> list dutyCheckpointCandidate).
Hypothesis policy_mode : forall mode ids target path config, load_policy mode ids target path = inr config -> cfg_Mode config = mode.

Local Notation restoreBest := (restoreBestCheckpoint ParseTime Lstat Unmarshal sort_Slice).
Local Notation started := (started ParseTime Lstat Unmarshal sort_Slice).

Lemma configureCheckpoints_started path interval now cfg ids config d d' :
  started now cfg ids config d -> configureCheckpoints Abs IsDir ReadDir restoreBest path interval d = Some (inr d') ->
  started now cfg ids config d' /\ rt_collar d' = rt_collar d /\ rt_borrowRaw d' = rt_borrowRaw d.
Proof.
  intros Hs. unfold configureCheckpoints. destruct (_ || _); [done |]. destruct (Abs path) as [canonical |]; [| done].
  destruct (IsDir canonical) as [[] |]; try done. destruct (ReadDir canonical) as [entries |]; [| done].
  intros ([d1 [e | []]] & E & [= <-])%bind_Some. split; [by eapply started_resumed |].
  apply restoreBestCheckpoint_collar in E as [-> ->]. done.
Qed.

(** A source whose retained blocks are none, or cover the collar, is never refused. *)
Lemma borrow_collar_covered s d : retained_blocks s = 0 \/ 0 < len (rt_collar d) <= retained_blocks s ->
  exists d', borrow_collar s d = inr d' /\ (0 < retained_blocks s -> useBorrowedCollar (retained_blocks s) d = inr d' /\ rt_borrowRaw d' = true) /\
    (retained_blocks s = 0 -> d' = d) /\ len (rt_collar d') = len (rt_collar d).
Proof.
  unfold borrow_collar. intros [-> | Hc]; [by exists d |]. rewrite (proj2 (Z.ltb_lt 0 _)) by lia. unfold useBorrowedCollar.
  rewrite (proj2 (Z.ltb_ge _ _)) by lia. eexists. split; [done |]. split; [done |]. split; [lia |]. unfold len. cbn. by rewrite length_map.
Qed.

(** What the scheduler's runtime is when the receiver starts. *)
Record duty_started (f : Flags) (now : Z) (cfg : PacketConfig) (s : source) (duty : dutyRuntime) : Prop := {
  du_started : exists config, cfg_Mode config = dutySchedulerMode f /\ started now cfg (walk_ids (meterID f)) config duty;
  du_geometry : geometry_fits cfg;
  du_borrowed : rt_borrowRaw duty = true <-> 0 < retained_blocks s;
  du_covered : rt_borrowRaw duty = true -> len (rt_collar duty) <= retained_blocks s }.

Lemma open_duty_started f now cfg s L :
  program_sizes cfg -> SampleRate cfg < 2 ^ 32 ->
  (0 < SampleRate cfg -> dutyCollarBlockCount cfg = Some L /\ 0 < L /\ 0 <= retained_blocks s /\ (retained_blocks s = 0 \/ L <= retained_blocks s)) ->
  match open_duty walk_ids load_policy Abs IsDir ReadDir restoreBest f now cfg s with
  | None => True
  | Some (inl e) => e <> "configure zero-copy DSP duty collar"%string
  | Some (inr None) => dutySchedulerMode f = ModeOff
  | Some (inr (Some duty)) => duty_started f now cfg s duty /\ dutySchedulerMode f <> ModeOff
  end.
Proof.
  intros Hsize Hrate HL. unfold open_duty. case_bool_decide as Hoff; [done |].
  destruct (load_policy _ _ _ _) as [e | config] eqn:Ep; [done |]. apply policy_mode in Ep.
  destruct (newDutyRuntimeWithConfig _ _ _ _) as [[e | d] |] eqn:En; cbn [mbind option_bind]; [done | | done].
  pose proof (fresh_rate _ _ _ _ _ En) as Hr. destruct (HL Hr) as (EL & HL0 & Hpos & Hret).
  destruct (fresh_collar _ _ _ _ _ L En EL ltac:(lia)) as [Hlen Hown]. pose proof (started_fresh ParseTime Lstat Unmarshal sort_Slice _ _ _ _ _ En) as Hst.
  assert (forall d1, started now cfg (walk_ids (meterID f)) config d1 -> rt_collar d1 = rt_collar d -> rt_borrowRaw d1 = rt_borrowRaw d ->
    exists d2, borrow_collar s d1 = inr d2 /\ duty_started f now cfg s d2) as Hborrow.
  { intros d1 Hs1 Hc1 Hb1. destruct (borrow_collar_covered s d1) as (d2 & E2 & Hbor & Hnot & Hl2); [rewrite Hc1; lia |].
    exists d2. split; [done |]. rewrite Hc1, Hlen in Hl2. destruct (Z.lt_ge_cases 0 (retained_blocks s)) as [Hlt | Hge].
    - destruct (Hbor Hlt) as [Eb Ht]. constructor; [exists config; split; [done | by eapply started_borrowed] | by apply program_collar | done | lia].
    - rewrite (Hnot ltac:(lia)) in *. constructor; [by exists config | by apply program_collar | rewrite Hb1, Hown; split; [done | lia] | by rewrite Hb1, Hown]. }
  case_bool_decide as Hdir; cbn [mbind option_bind].
  - destruct (Hborrow d Hst eq_refl eq_refl) as (d2 & -> & Hd2). split; [exact Hd2 | exact Hoff].
  - destruct (configureCheckpoints _ _ _ _ _ _ d) as [[e | d1] |] eqn:Ec; cbn [mbind option_bind]; [done | | done].
    destruct (configureCheckpoints_started _ _ _ _ _ _ _ _ Hst Ec) as (Hs1 & Hc1 & Hb1). destruct (Hborrow d1 Hs1 Hc1 Hb1) as (d2 & -> & Hd2). split; [exact Hd2 | exact Hoff].
Qed.
End Duty.

(** ** The flags *)

(** What HandleFlags has checked. *)
Record flags_checked (f : Flags) : Prop := {
  fc_symbol : symbolLength f ∈ symbol_lengths;
  fc_batch : 0 < directKernelBatchBlocks f <= 256;
  fc_mode : dutySchedulerMode f = ModeOff \/
    (dutySchedulerMode f = ModeShadow \/ dutySchedulerMode f = ModeGated) /\ meterID f <> ∅ /\ dutySchedulerReport f <> [] /\
    (dutySchedulerMode f = ModeGated -> sampleFile f = DevNull /\ single f = false) }.

Lemma HandleFlags_checked ToLower Create f0 created f encoder :
  HandleFlags ToLower Create f0 = (created, inr (f, encoder)) -> flags_checked f /\ msgType f = msgType f0.
Proof.
  unfold HandleFlags. destruct (_ || _); [done |]. case_bool_decide as Hsym; [| done]. cbn [negb].
  destruct (newOutputEncoder _ _ _); [| done]. destruct (open_writers _ _) as [files [why |]]; [done |].
  destruct (check_source ToLower f0) eqn:Es; [done |]. destruct (check_duty f0 _) eqn:Ed; [done |]. intros [= <- <- <-].
  split; [| done]. constructor; [done | |].
  - unfold check_source in Es. destruct (_ && _); [done |]. unfold validateDirectKernelBatchBlocks in Es. cbn [with_names directKernelBatchBlocks].
    destruct (Z.ltb_spec (directKernelBatchBlocks f0) 1); [done |]. destruct (Z.ltb_spec 256 (directKernelBatchBlocks f0)); [done | lia].
  - unfold check_duty in Ed. cbn [with_names dutySchedulerMode meterID dutySchedulerReport sampleFile single].
    case_bool_decide as Hoff; [by left |]. right. destruct (_ || _) eqn:Em; [| done].
    apply orb_prop in Em. rewrite !bool_decide_eq_true in Em. case_bool_decide as Hrep; [done |].
    destruct (Nat.eqb_spec (size (meterID f0)) 0) as [| Hsize]; [done |]. destruct (_ && _) eqn:Eg; [done |].
    split; [done |]. split; [intros E; apply Hsize; by rewrite E, size_empty |]. split; [done |].
    intros Hg. rewrite (bool_decide_eq_true_2 _ Hg) in Eg. cbn in Eg. apply orb_false_elim in Eg as [E1 E2].
    split; [| done]. by apply negb_false_iff, bool_decide_eq_true in E1.
Qed.

(** ** The source and the collar *)

Section Source.
Context (ToLower : list Z -> list Z) (client : tcp_call -> bool) (direct_available : bool) (open_direct : directRTLConfig -> direct_failure + direct_source).
Hypothesis direct_retains : forall config s, open_direct config = inr s -> retains config s.

(** A source retains nothing, or enough for the collar. *)
Definition covers (cfg : PacketConfig) (s : source) : Prop :=
  0 <= retained_blocks s /\ forall L, dutyCollarBlockCount cfg = Some L -> 0 < L < 2 ^ 30 -> retained_blocks s = 0 \/ L <= retained_blocks s.

Lemma direct_covers f visited sdr cfg batch gated retain s L0 :
  program_sizes cfg -> dutyCollarBlockCount cfg = Some L0 -> 0 < L0 < 2 ^ 30 -> 0 < batch <= 256 -> retain_batches gated cfg batch = Some retain ->
  retains (directConfig f visited sdr cfg batch retain) s -> covers cfg (DirectSource s).
Proof.
  intros Hsize EL HL Hb Hr Hs. destruct (retained_enough gated cfg batch L0 retain Hsize EL HL Hb Hr) as [_ Hen]. unfold covers. cbn [retained_blocks].
  destruct Hs as [-> | ->]; [split; [done | by left] |]. cbn [directConfig RetainBatches BatchBytes BlockBytes].
  destruct gated; [split; [lia |] | rewrite Hen; split; [done | by left]]. intros L EL' _. rewrite EL in EL'. injection EL' as <-. by right.
Qed.

(** Without a positive sample rate there is no collar to cover. *)
Lemma open_source_covers f visited sdr cfg :
  flags_checked f -> program_sizes cfg -> SampleRate cfg < 2 ^ 32 ->
  match open_source ToLower client direct_available open_direct f visited sdr cfg with
  | None => True
  | Some (inl e) => e <> "configure zero-copy DSP duty collar"%string
  | Some (inr s) => 0 < SampleRate cfg -> covers cfg s
  end.
Proof.
  intros [_ Hbatch _] Hsize Hrate. unfold open_source. case_bool_decide.
  { unfold open_tcp. repeat case_match; simplify_eq; try done. intros _. split; [done | by left]. }
  case_bool_decide; [| done]. unfold open_device. destruct (negb direct_available); [done |].
  set (batch := if directKernelRing f then directKernelBatchBlocks f else receiverReadBlocks).
  assert (0 < batch <= 256) as Hb by (subst batch; destruct (directKernelRing f); [done | by vm_compute]).
  destruct (retain_batches _ cfg batch) as [retain |] eqn:Er; [| done]. cbn [mbind option_bind].
  destruct (open_direct _) as [e | s] eqn:Eo; [done |]. apply direct_retains in Eo. intros Hr.
  destruct (program_collar cfg Hsize ltac:(lia)) as (_ & L & EL & HL). by eapply direct_covers.
Qed.
End Source.

(** ** The property *)

Lemma visited_same_blocks visited sdr cfg : same_blocks (visited_config visited sdr cfg) cfg.
Proof. done. Qed.

(** C5. What the theorems about runs assume of a receiver is what NewReceiver builds.
    When the flags have passed HandleFlags, and whatever the device, the kernel's ring,
    the files and the checkpoint directory answer: the decoder is one that Allocate made
    of known parsers, with at most its rate and frequency overridden; a duty runtime, which
    exists exactly outside mode off, is newly constructed, perhaps resumed, in the mode and
    for the senders of the flags, and a gated one comes neither with a sample file nor with
    -single; its collar is borrowed exactly when the source retains blocks, and then the
    source retains as many as the collar has, so that the start never ends for want of them. *)
Theorem startup_establishes `{QuantizerPlatform} `{SearchPlatform} `{DualPlatform} `{MagnitudePlatform} `{ManchesterPlatform} `{GoMath} `{Fingerprint}
  ToLower Create walk_ids client direct_available
  {Dev} (rtlsdr : device_call -> Dev -> Dev * Z) device_count index_by_serial tuner_type gain_count tuner_gains gains_memory slots_memory pthread_create kernel dev
  ParseDuration LstatPolicy ReadFile DecodePolicy DecodeEOF Abs IsDir ReadDir ParseTime Lstat Unmarshal sort_Slice
  probe now f0 created f encoder visited unique sdr
  (Hflags : HandleFlags ToLower Create f0 = (created, inr (f, encoder))) (Htypes : msgType f0 <> ∅)
  (Hprobe : probe_lawful probe) (Hrate : SampleRateFlag sdr < 2 ^ 32) :
  let open_direct config :=
    snd (newDirectRTLSource rtlsdr device_count index_by_serial tuner_type gain_count tuner_gains gains_memory slots_memory pthread_create kernel config dev) in
  match NewReceiver ToLower walk_ids client direct_available open_direct
          (loadDutySchedulerConfig ParseDuration LstatPolicy ReadFile DecodePolicy DecodeEOF) Abs IsDir ReadDir
          (restoreBestCheckpoint ParseTime Lstat Unmarshal sort_Slice) probe now f visited unique sdr with
  | None => True
  | Some (inl e) => e <> "configure zero-copy DSP duty collar"%string
  | Some (inr r) =>
      (exists reg d, allocatable reg /\ Allocate reg power16PolicyAutomatic probe = Some d /\
         st_d r = with_config d (visited_config visited sdr (Cfg d)) /\ same_blocks (Cfg (st_d r)) (Cfg d)) /\
      match st_duty r with
      | None => dutySchedulerMode f = ModeOff
      | Some duty =>
          duty_started walk_ids ParseTime Lstat Unmarshal sort_Slice f now (Cfg (st_d r)) (st_source r) duty /\
          (dutySchedulerMode f = ModeShadow \/ dutySchedulerMode f = ModeGated) /\ meterID f <> ∅ /\
          (dutySchedulerMode f = ModeGated -> sampleFile f = DevNull /\ single f = false)
      end
  end.
Proof.
  intros open_direct. destruct (HandleFlags_checked _ _ _ _ _ _ Hflags) as [[F1 F2 F3] Ft]. rewrite <- Ft in Htypes.
  unfold NewReceiver. destruct (newProtocolDecoder _ _ _) as [[d | name] |] eqn:Ed; cbn [mbind option_bind]; [| done | done].
  destruct (newProtocolDecoder_built _ _ _ _ F1 (expand_nonempty _ Htypes) Hprobe Ed) as (reg & Hal & Ea & Hsize & Hdr).
  set (cfg := visited_config visited sdr (Cfg d)). assert (program_sizes cfg) as Hsize' by (by eapply program_sizes_same).
  assert (SampleRate cfg < 2 ^ 32) as Hr by (subst cfg; cbn; by case_bool_decide).
  pose proof (open_source_covers ToLower client direct_available open_direct) as Hsrc. specialize (Hsrc ltac:(
    intros config s E; unfold open_direct in E; destruct (newDirectRTLSource _ _ _ _ _ _ _ _ _ _ config dev) as [dev' o] eqn:Eo; cbn in E; subst o;
    by eapply opened_retains) f visited sdr cfg ltac:(by constructor) Hsize' Hr).
  destruct (open_source _ _ _ _ f visited sdr cfg) as [[e | s] |]; cbn [mbind option_bind]; [exact Hsrc | | done].
  pose proof (open_duty_started walk_ids (loadDutySchedulerConfig ParseDuration LstatPolicy ReadFile DecodePolicy DecodeEOF) Abs IsDir ReadDir ParseTime Lstat
    Unmarshal sort_Slice (loaded_mode ParseDuration LstatPolicy ReadFile DecodePolicy DecodeEOF) f now cfg s (default 0 (dutyCollarBlockCount cfg)) Hsize') as Hduty.
  specialize (Hduty Hr). match type of Hduty with ?P -> _ => assert P as Hcov end.
  { intros Hpos. destruct (program_collar cfg Hsize' ltac:(lia)) as (_ & L & EL & HL). rewrite EL. destruct (Hsrc Hpos) as [Hp0 Hc]. unfold default, from_option, id.
    split; [done |]. split; [lia |]. split; [done |]. by apply Hc. }
  specialize (Hduty Hcov). destruct (open_duty _ _ _ _ _ _ f now cfg s) as [[e | duty] |]; cbn [mbind option_bind]; [exact Hduty | | done].
  destruct (open_capture f cfg) as [e | capture] eqn:Ec; [unfold open_capture in Ec; repeat case_match; by simplify_eq |].
  cbn [st_d st_duty st_source with_config Cfg]. split; [by exists reg, d |].
  destruct duty as [duty |]; [| done]. destruct Hduty as [Hduty Hoff]. split; [done |]. destruct F3 as [Hoff' | F3]; [by destruct Hoff | tauto].
Qed.

(** ** An example: a gated receiver of two meters on the kernel's ring. *)

Definition demo_flags : Flags :=
  {| sampleFile := DevNull; continuousSampleFile := DevNull; continuousSampleDuration := 0; inputSource := str "direct"; directDevice := str "0";
     directKernelRing := true; directKernelBatchBlocks := 16; msgType := {[str "scm"]}; symbolLength := 72; meterID := {[17; 42]}; meterType := ∅;
     format := str "json"; single := false; dutySchedulerMode := str "gated"; dutySchedulerCaptureTarget := fdiv (f64_of_int 995) (f64_of_int 10);
     dutySchedulerReport := str "report.json"; dutySchedulerCheckpointDir := []; dutySchedulerPolicy := [] |}.

Definition demo_sdr : SDRFlags :=
  {| CenterFreqFlag := 0; SampleRateFlag := 0; TunerGainModeFlag := false; TunerGainTenths := 0; GainByIndexFlag := 0; FreqCorrectionFlag := 0;
     TestModeFlag := false; AgcModeFlag := false; DirectSamplingFlag := false; OffsetTuningFlag := false; RtlXtalFreqFlag := 0; TunerXtalFreqFlag := 0 |}.

Definition demo_ring : kernel_answers :=
  {| ka_open := fun _ => 5; ka_info := inr {| abi := 2; slot_count := 32; slot_bytes := 131072 |}; ka_memory := true; ka_mmap := fun _ => 0; ka_start := 0 |}.

Definition demo_direct (config : directRTLConfig) : direct_failure + direct_source :=
  snd (newDirectRTLSource demo_rtlsdr 1 (fun _ => -1) (fun _ => 5) (fun _ => 29) (fun _ => (29, [])) true true 0 demo_ring config []).

(** The policy, when there is none to read. *)
Definition demo_policy : Mode -> list Z -> f64 -> list Z -> Result Config :=
  loadDutySchedulerConfig (fun _ => None) (fun _ => None) (fun _ => None) (fun _ => None) (fun _ => true).

Definition demo_new : option outcome :=
  @NewReceiver portable_quantizer id elements (fun _ => true) true demo_direct demo_policy (fun _ => None) (fun _ => None) (fun _ => None)
    (@restoreBestCheckpoint SchedulerSpec.demo_math no_fingerprint (fun _ => None) (fun _ => None) (fun _ => None) (fun _ l => l)) None 0 demo_flags {[str "filterid"]} false demo_sdr.

Definition demo_summary : option (Z * option (bool * Z * Z)) :=
  match demo_new with
  | Some (inr r) => Some (retained_blocks (st_source r), (fun d => (rt_borrowRaw d, len (rt_collar d), len (map ID (Senders (rt_schedulerConfig d))))) <$> st_duty r)
  | _ => None
  end.

Example demo_starts : demo_summary = Some (64, Some (true, 58, 2)).
Proof. vm_compute. reflexivity. Qed.

Lemma startup_establishes_witness :
  exists created f encoder r,
    HandleFlags id (fun _ => true) demo_flags = (created, inr (f, encoder)) /\ f = demo_flags /\ encoder = JsonEncoder /\ demo_new = Some (inr r) /\
    exists duty, st_duty r = Some duty /\ rt_borrowRaw duty = true /\ len (rt_collar duty) <= 64.
Proof.
  pose proof (@startup_establishes portable_quantizer generic_platform portable_dual portable_magnitude portable_manchester SchedulerSpec.demo_math no_fingerprint
    id (fun _ => true) elements (fun _ => true) true _ demo_rtlsdr 1 (fun _ => -1) (fun _ => 5) (fun _ => 29) (fun _ => (29, [])) true true 0 demo_ring []
    (fun _ => None) (fun _ => None) (fun _ => None) (fun _ => None) (fun _ => true) (fun _ => None) (fun _ => None) (fun _ => None)
    (fun _ => None) (fun _ => None) (fun _ => None) (fun _ l => l) None 0 demo_flags [] demo_flags JsonEncoder {[str "filterid"]} false demo_sdr
    ltac:(vm_compute; reflexivity) ltac:(discriminate) ltac:(intros ? ? ? ? [=]) ltac:(vm_compute; reflexivity)) as K.
  cbv zeta in K. match type of K with match ?x with _ => _ end => change x with demo_new in K end.
  pose proof demo_starts as Hs. unfold demo_summary in Hs. destruct demo_new as [[e | r] |]; [discriminate Hs | | discriminate Hs].
  destruct (st_duty r) as [duty |] eqn:Ed; [| discriminate Hs]. injection Hs as Hret Hbor _ _. destruct K as [_ [[_ _ _ Hcov] _]].
  exists [], demo_flags, JsonEncoder, r. split; [vm_compute; reflexivity |]. do 3 (split; [reflexivity |]). exists duty. split; [exact Ed |].
  rewrite Hret in Hcov. split; [exact Hbor |]. by apply Hcov.
Defined.
