(* ===== verification/SingleSpec.v ===== *)
(** The end of a run: the receive loop beside the select of [main].  A receiver that does
    not record samples ends only by an error, a signal or the time limit, and so -single
    without -samplefile does not end it. *)

From S2P Require Import Prelude Float64 Packet Layout Search Ring History Signal Register Decode Receiver Update DutyMath DutyModel Scheduler SchedulerSpec DutyState DutySnapshot DutyRuntime DutyCheckpoint Capture Receive Replay DutyRuntimeSpec ReceiveSpec.

Section Single.
Context {S : Type} `{ParserOps S Message} `{SearchPlatform} `{DualPlatform} `{MagnitudePlatform} `{ManchesterPlatform}.
Context `{GoMath} `{Fingerprint}.
Context (RFC3339Nano : Z -> list Z) (walk_senders : nat -> gmap Z SenderSnapshot -> list (Z * SenderSnapshot))
  (store_report : dutyRuntimeReport -> bool) (world : World).

(** Neither the recording of samples nor the cancellation changes. *)
Definition quiet (r r' : Rcvr S) : Prop :=
  rs_recordSamples (rv_state r') = rs_recordSamples (rv_state r) /\ rv_cancelled r' = rv_cancelled r.

#[local] Instance quiet_refl : Reflexive quiet.
Proof. done. Qed.

#[local] Instance quiet_trans : Transitive quiet.
Proof. intros a b c [E1 E2] [E3 E4]. split; congruence. Qed.




















End Single.






