(* ===== verification/Native.v ===== *)
(** What the linux/arm64 build reads of its machine before it trusts a native leaf: the
    environment, the identification register and the feature list of the processor
    (src/protocol/search_platform_arm64.go: detectCortexA72R0P3;
    src/protocol/power16_platform_arm64.go: power16ReadMIDR, power16DetectASIMD;
    src/r900/power16_quantize_platform_linux_arm64.go: power16R900DetectASIMD). *)

From S2P Require Import Prelude.

(** The calls into the operating system: an unset variable is the empty string, and a
    file that cannot be read is [None]. *)
Record Machine := { Getenv : list Z -> list Z; ReadFile : list Z -> option (list Z) }.

(** ** Strings *)

Definition starts_with (w s : list Z) : bool := bool_decide (take (length w) s = w).

(** [strings.Contains] *)
Fixpoint Contains (s w : list Z) : bool :=
  starts_with w s || match s with [] => false | _ :: s => Contains s w end.

(** The UTF-8 encodings of the white space characters. *)
Definition white_space : list (list Z) :=
  map (fun c => [c]) [9; 10; 11; 12; 13; 32] ++ [[0xC2; 0x85]; [0xC2; 0xA0]; [0xE1; 0x9A; 0x80]] ++
  map (fun c => [0xE2; 0x80; c]) (seqZ 0x80 11 ++ [0xA8; 0xA9; 0xAF]) ++ [[0xE2; 0x81; 0x9F]; [0xE3; 0x80; 0x80]].

(** The length of the space that a string starts with, 0 for none. *)
Definition space_at (spaces : list (list Z)) (s : list Z) : nat :=
  match filter (fun w => starts_with w s = true) spaces with w :: _ => length w | [] => 0 end.

Fixpoint trim_left (fuel : nat) (spaces : list (list Z)) (s : list Z) : list Z :=
  match fuel with
  | O => s
  | S fuel => match space_at spaces s with O => s | n => trim_left fuel spaces (drop n s) end
  end.

(** [strings.TrimSpace] *)
Definition TrimSpace (s : list Z) : list Z :=
  let s := trim_left (length s) white_space s in
  rev (trim_left (length s) (map (@rev Z) white_space) (rev s)).

(** [strings.Split] at a single byte. *)
Fixpoint split_loop (sep : Z) (s current : list Z) : list (list Z) :=
  match s with
  | [] => [current]
  | c :: s => if c =? sep then current :: split_loop sep s [] else split_loop sep s (current ++ [c])
  end.

Definition Split (s : list Z) (sep : Z) : list (list Z) := split_loop sep s [].

(** [strings.Fields] *)
Fixpoint fields_loop (fuel : nat) (s current : list Z) : list (list Z) :=
  let emit rest := match current with [] => rest | _ => current :: rest end in
  match fuel, s with
  | O, _ | _, [] => emit []
  | S fuel, c :: s' =>
      match space_at white_space s with
      | O => fields_loop fuel s' (current ++ [c])
      | n => emit (fields_loop fuel (drop n s) [])
      end
  end.

Definition Fields (s : list Z) : list (list Z) := fields_loop (length s) s [].

(** [strings.TrimSuffix] *)
Definition TrimSuffix (s suffix : list Z) : list Z :=
  if starts_with (rev suffix) (rev s) then take (length s - length suffix) s else s.

(** ** The processor *)

Definition cortexA72R0P3MIDR : list Z := str "0x00000000410fd083".
Definition midr_path : list Z := str "/sys/devices/system/cpu/cpu0/regs/identification/midr_el1".
Definition cpuinfo_path : list Z := str "/proc/cpuinfo".
Definition is_set (m : Machine) (name : string) : bool := negb (bool_decide (Getenv m (str name) = [])).

Definition detectCortexA72R0P3 (m : Machine) : bool :=
  if is_set m "RTLAMR_DISABLE_NEON" then false else
  match ReadFile m midr_path with
  | None => false
  | Some midr =>
      if negb (bool_decide (TrimSpace midr = cortexA72R0P3MIDR)) then false else
      match ReadFile m cpuinfo_path with
      | None => false
      | Some cpuinfo => Contains cpuinfo (str "Features" ++ [9] ++ str ": fp asimd")
      end
  end.

Definition power16ReadMIDR (m : Machine) : list Z :=
  match ReadFile m midr_path with None => [] | Some midr => TrimSpace midr end.

(** A line that names the feature; [label] and [skip] are what the two readers of the
    feature list disagree on. *)
Definition names_asimd (label : list Z -> bool) (skip : nat) (line : list Z) : bool :=
  let fields := Fields line in
  match fields with
  | name :: _ =>
      (2 <? len fields) && label name && existsb (fun feature => bool_decide (feature = str "asimd")) (drop skip fields)
  | [] => false
  end.

Definition power16DetectASIMD (m : Machine) : bool :=
  match ReadFile m cpuinfo_path with
  | None => false
  | Some cpuinfo =>
      existsb (names_asimd (fun name => bool_decide (TrimSuffix name (str ":") = str "Features")) 1) (Split cpuinfo 10)
  end.

Definition power16R900DetectASIMD (m : Machine) : bool :=
  match ReadFile m cpuinfo_path with
  | None => false
  | Some cpuinfo =>
      existsb (names_asimd (fun name => bool_decide (name = str "Features") || bool_decide (name = str "flags")) 2) (Split cpuinfo 10)
  end.

(** ** Example machines *)

(** A Raspberry Pi 4, with the environment as given. *)
Definition pi4 (environment : list Z -> list Z) : Machine :=
  {| Getenv := environment;
     ReadFile := fun path =>
       if bool_decide (path = midr_path) then Some (cortexA72R0P3MIDR ++ [10])
       else if bool_decide (path = cpuinfo_path)
       then Some (str "processor" ++ [9] ++ str ": 0" ++ [10] ++ str "Features" ++ [9] ++ str ": fp asimd evtstrm crc32 cpuid" ++ [10])
       else None |}.

Example pi4_detected : let m := pi4 (fun _ => []) in
  detectCortexA72R0P3 m = true /\ power16ReadMIDR m = cortexA72R0P3MIDR /\ power16DetectASIMD m = true /\ power16R900DetectASIMD m = true.
Proof. vm_compute. auto. Qed.

Example pi4_disabled : detectCortexA72R0P3 (pi4 (fun name => if bool_decide (name = str "RTLAMR_DISABLE_NEON") then str "1" else [])) = false.
Proof. reflexivity. Qed.

Example trim_space : TrimSpace ([32; 9] ++ str "a b" ++ [0xC2; 0xA0; 10]) = str "a b".
Proof. reflexivity. Qed.

Example fields_of_a_line : Fields (str " Features" ++ [9] ++ str ":  fp asimd ") = [str "Features"; str ":"; str "fp"; str "asimd"].
Proof. reflexivity. Qed.
