(* ===== verification/NativeSearch.v ===== *)
(** The search kernels of the linux/arm64 build (src/protocol/search_platform_arm64.go):
    the guards in front of the native leaves, the start-up self tests that compare the
    leaves with the portable routines, and the proof that the build meets the interfaces
    [SearchPlatform] and [DualPlatform] when the leaves meet their contracts. *)

From S2P Require Import Prelude Packet Layout Search Float64 Ring History Signal Register Decode Native.

(** ** The native leaves

    Machine code (src/protocol/search_platform_arm64.s, search32_dual_platform_arm64.s):
    what a call leaves in the destination of [count] bytes, and the indices that it
    writes, whose number it returns. *)
Class SearchLeaves := {
  searchAlignedCandidates4A72 : forall (packed masks : list Z) (symLenByte count : Z), list Z;
  searchAlignedCandidatesSCMTailA72 : forall (masks packed : list Z) (count : Z), list Z;
  searchAlignedCandidatesSCMPlusTailA72 : forall (masks packed : list Z) (count : Z), list Z;
  searchAlignedCandidates32A72 : forall (packed masks : list Z) (symLenByte count : Z), list Z * list Z;
  searchAlignedCandidates32IDMA72 : forall (packed : list Z) (symLenByte count : Z), list Z;
  searchAlignedCandidates32R900A72 : forall (packed : list Z) (symLenByte count : Z), list Z;
  searchAlignedCandidates32IDMR900A72 : forall (packed : list Z) (count : Z), list Z * list Z }.

(** ** The fixed preambles *)

Definition searchAlignedCandidates32IDMPreamble : list Z :=
  [0; 1; 0; 1; 0; 1; 0; 1; 0; 1; 0; 1; 0; 1; 0; 1;
   0; 0; 0; 1; 0; 1; 1; 0; 1; 0; 1; 0; 0; 0; 1; 1].

Definition searchAlignedCandidates32R900Preamble : list Z :=
  [0; 0; 0; 0; 0; 0; 0; 0; 0; 0; 0; 0; 0; 0; 0; 0;
   1; 1; 1; 0; 0; 1; 0; 1; 0; 1; 1; 0; 0; 1; 0; 0].

Definition searchAlignedCandidatesSCMPreamble : list Z :=
  [1; 1; 1; 1; 1; 0; 0; 1; 0; 1; 0; 1; 0; 0; 1; 1; 0; 0; 0; 0; 0].

Definition searchAlignedCandidatesSCMPlusPreamble : list Z :=
  [0; 0; 0; 1; 0; 1; 1; 0; 1; 0; 1; 0; 0; 0; 1; 1].

(** ** The guards

    A destination is given by its length [count], an index buffer by its capacity; [None]
    is a panic. *)

(** [indices[:n]] of a buffer that holds the [n] indices the leaf wrote. *)
Definition written (capacity : Z) (indices : list Z) : option (list Z) :=
  if capacity <? len indices then None else Some indices.

Section Platform.
Context `{SearchLeaves}.

Definition searchAlignedCandidates4Platform (count : Z) (packed : list Z) (symLenByte : Z) (masks : list Z) : option (list Z) :=
  if count =? 0 then Some [] else
  if negb (Z.land count 15 =? 0) || (symLenByte <=? 0) || (len packed <? count + symLenByte * 3) then None else
  Some (searchAlignedCandidates4A72 packed masks symLenByte count).

Definition searchAlignedCandidates4FixedPlatform (enabled : bool) (preamble : list Z) (count : Z) (packed : list Z) (symLenByte : Z)
    (capacity : Z) : option (list Z * bool) :=
  if negb enabled || (negb (count =? 512) && negb (count =? 1024)) || negb (symLenByte =? 18) || (capacity <? count * 8)
  then Some ([], false) else
  let kind :=
    if (len preamble =? len searchAlignedCandidatesSCMPreamble) && bool_decide (preamble = searchAlignedCandidatesSCMPreamble)
    then Some ([0; 0; 0; 0], searchAlignedCandidatesSCMTailA72)
    else if (len preamble =? len searchAlignedCandidatesSCMPlusPreamble) && bool_decide (preamble = searchAlignedCandidatesSCMPlusPreamble)
    then Some ([0xff; 0xff; 0xff; 0], searchAlignedCandidatesSCMPlusTailA72)
    else None in
  match kind with
  | None => Some ([], false)
  | Some (masks, tail) =>
      if len packed <? count + symLenByte * (len preamble - 1) then Some ([], false) else
      let dst := searchAlignedCandidates4A72 packed masks symLenByte count in
      indices ← written capacity (tail dst packed count);
      Some (indices, true)
  end.

Definition searchAlignedCandidates32Platform (count : Z) (packed : list Z) (symLenByte : Z) (masks : list Z) (capacity : Z)
    : option (list Z) :=
  if count =? 0 then Some [] else
  if negb (Z.land count 15 =? 0) || negb (len masks =? 32) || (symLenByte <=? 0) || (len packed <? count + symLenByte * 31) ||
     (capacity <? count * 8) then None else
  written capacity (searchAlignedCandidates32A72 packed masks symLenByte count).2.

Definition searchAlignedCandidates32FixedPlatform (enabled : bool) (preamble : list Z) (dstLen : Z) (packed : list Z) (symLenByte : Z)
    (capacity : Z) : option (list Z * bool) :=
  let count := 1024 in
  if negb enabled || negb (dstLen =? count) || negb (symLenByte =? 18) || (len packed <? count + 18 * 31) || (capacity <? count * 8)
  then Some ([], false) else
  if bool_decide (preamble = searchAlignedCandidates32IDMPreamble) then
    indices ← written capacity (searchAlignedCandidates32IDMA72 packed symLenByte count); Some (indices, true)
  else if bool_decide (preamble = searchAlignedCandidates32R900Preamble) then
    indices ← written capacity (searchAlignedCandidates32R900A72 packed symLenByte count); Some (indices, true)
  else Some ([], false).

(** Unlike the others this one does not learn the size of the block. *)
Definition searchAlignedCandidates32DualFixedPlatform (enabled : bool) (packed : list Z) (symLenByte : Z) (idmCapacity r900Capacity : Z)
    : option (list Z * list Z * bool) :=
  let count := 1024 in
  if negb enabled || negb (symLenByte =? 18) || (len packed <? count + 18 * 31) || (idmCapacity <? count * 8) || (r900Capacity <? count * 8)
  then Some ([], [], false) else
  let '(idm, r900) := searchAlignedCandidates32IDMR900A72 packed count in
  idm ← written idmCapacity idm; r900 ← written r900Capacity r900;
  Some (idm, r900, true).

(** ** The self tests *)

(** A loop that is left with the first case that fails. *)
Fixpoint every {A} (test : A -> option bool) (cases : list A) : option bool :=
  match cases with
  | [] => Some true
  | c :: cases => ok ← test c; if negb ok then Some false else every test cases
  end.

(** One symbol of a planted preamble: the bit is set or cleared in its byte. *)
Definition put_symbol (bit symLenByte qByte : Z) (packed : list Z) (e : Z * Z) : option (list Z) :=
  let '(symbol, preambleBit) := e in
  let at_ := qByte + symbol * symLenByte in
  signal ← index packed at_;
  store packed at_ (if preambleBit =? 1 then Z.lor signal bit else Z.ldiff signal bit).

Definition plant (preamble : list Z) (symLenByte : Z) (packed : list Z) (candidate : Z * Z) : option (list Z) :=
  let '(qByte, phase) := candidate in
  foldM (put_symbol (u8 (Z.shiftr 0x80 phase)) symLenByte qByte) packed (zip (seqZ 0 (len preamble)) preamble).

Definition pattern (n : Z) (f : Z -> Z) : list Z := map (fun idx => u8 (f idx)) (seqZ 0 n).

Definition searchAlignedCandidates4SelfTest : option bool :=
  every (fun '(count, symLenByte, masks) =>
    let packed := pattern (count + symLenByte * 3) (fun idx => idx * 73 + 19) in
    want ← searchAlignedCandidates4Go count packed symLenByte masks;
    Some (bool_decide (searchAlignedCandidates4A72 packed masks symLenByte count = want)))
  [(32, 7, [0xff; 0; 0xff; 0]); (1024, 18, [0; 0; 0; 0]); (1024, 18, [0xff; 0xff; 0xff; 0])].

Definition fixed4_case (count : Z) (e : Z * (list Z * list Z * (list Z -> list Z -> Z -> list Z))) : option bool :=
  let '(caseIndex, (preamble, masks, tail)) := e in
  let packed := pattern (count + 18 * (len preamble - 1)) (fun idx => idx * 73 + Z.quot idx 17 * 29 + caseIndex * 41 + 11) in
  packed ← foldM (plant preamble 18) packed [(0, 0); (count - 1, 7)];
  prefixMasks ← searchAlignedCandidates4Go count packed 18 masks;
  want ← finishAlignedCandidates packed preamble 18 prefixMasks [];
  Some (bool_decide (tail prefixMasks packed count = want)).

Definition searchAlignedCandidates4FixedSelfTest : option bool :=
  every (fun count => every (fixed4_case count)
    [(0, (searchAlignedCandidatesSCMPreamble, [0; 0; 0; 0], searchAlignedCandidatesSCMTailA72));
     (1, (searchAlignedCandidatesSCMPlusPreamble, [0xff; 0xff; 0xff; 0], searchAlignedCandidatesSCMPlusTailA72))])
  [512; 1024].

(** The bytes under a mask of zero get both bits set, the others cleared. *)
Definition put_mask (symLenByte : Z) (packed : list Z) (e : Z * Z) : option (list Z) :=
  let '(idx, mask) := e in
  let at_ := idx * symLenByte in
  x ← index packed at_;
  packed ← store packed at_ (if mask =? 0 then Z.lor x 0x80 else Z.ldiff x 0x80);
  y ← index packed (at_ + 15);
  store packed (at_ + 15) (if mask =? 0 then Z.lor y 0x01 else Z.ldiff y 0x01).

Definition searchAlignedCandidates32SelfTest : option bool :=
  let count := 32 in let symLenByte := 18 in
  let masks := pattern 32 (fun idx => u8 (Z.lxor (Z.land idx 1) 1) * 0xff) in
  packed ← foldM (put_mask symLenByte) (pattern (count + symLenByte * 31) (fun idx => idx * 73 + 19)) (zip (seqZ 0 32) masks);
  want ← searchAlignedCandidates32Go count packed symLenByte masks;
  let wantIndices := expandAlignedCandidates want [] in
  let '(got, gotIndices) := searchAlignedCandidates32A72 packed masks symLenByte count in
  Some (bool_decide (got = want) && bool_decide (gotIndices = wantIndices)).

Definition fixed32_case (e : Z * (list Z * (list Z -> Z -> Z -> list Z))) : option bool :=
  let count := 1024 in let symLenByte := 18 in
  let '(caseIndex, (preamble, leaf)) := e in
  let packed := pattern (count + symLenByte * 31) (fun idx => idx * 73 + caseIndex * 41 + 19) in
  packed ← foldM (plant preamble symLenByte) packed [(0, 0); (63, 7); (1023, 4)];
  wantMasks ← searchAlignedCandidates32Go count packed symLenByte (map bit_mask preamble);
  Some (bool_decide (leaf packed symLenByte count = expandAlignedCandidates wantMasks [])).

Definition searchAlignedCandidates32FixedSelfTest : option bool :=
  every fixed32_case
    [(0, (searchAlignedCandidates32IDMPreamble, searchAlignedCandidates32IDMA72));
     (1, (searchAlignedCandidates32R900Preamble, searchAlignedCandidates32R900A72))].

Definition searchAlignedCandidates32DualFixedSelfTest : option bool :=
  let count := 1024 in let symLenByte := 18 in
  let packed := pattern (count + symLenByte * 31) (fun idx => idx * 73 + Z.quot idx 17 * 29 + 11) in
  packed ← foldM (fun packed '(preamble, candidate) => plant preamble symLenByte packed candidate) packed
    [(searchAlignedCandidates32IDMPreamble, (0, 0)); (searchAlignedCandidates32IDMPreamble, (63, 7));
     (searchAlignedCandidates32R900Preamble, (1023, 4)); (searchAlignedCandidates32R900Preamble, (511, 3))];
  let wantIDM := searchAlignedCandidates32IDMA72 packed symLenByte count in
  let wantR900 := searchAlignedCandidates32R900A72 packed symLenByte count in
  let '(gotIDM, gotR900) := searchAlignedCandidates32IDMR900A72 packed count in
  Some (bool_decide (gotIDM = wantIDM) && bool_decide (gotR900 = wantR900)).

(** ** Start-up *)

(** The package variables. *)
Record SearchFlags := {
  searchAlignedCandidates4Enabled : bool; searchAlignedCandidates32FixedEnabled : bool;
  searchAlignedCandidates32DualFixedEnabled : bool; searchAlignedCandidates4FixedEnabled : bool }.

(** [a && b()] *)
Definition both (a : bool) (b : option bool) : option bool := if a then b else Some false.

Definition search_start (m : Machine) : option SearchFlags :=
  four ← both (detectCortexA72R0P3 m) searchAlignedCandidates4SelfTest;
  four ← both four searchAlignedCandidates32SelfTest;
  fixed32 ← both (detectCortexA72R0P3 m) searchAlignedCandidates32FixedSelfTest;
  dual ← both fixed32 searchAlignedCandidates32DualFixedSelfTest;
  fixed4 ← both four searchAlignedCandidates4FixedSelfTest;
  Some {| searchAlignedCandidates4Enabled := four; searchAlignedCandidates32FixedEnabled := fixed32;
          searchAlignedCandidates32DualFixedEnabled := dual; searchAlignedCandidates4FixedEnabled := fixed4 |}.
End Platform.

(** ** The contracts of the leaves

    For the requests that the guards let through, a leaf computes what the portable
    routine computes that its self test compares it with. *)
Record search_leaves_lawful `{SearchLeaves} : Prop := {
  four_lawful : forall packed masks symLenByte count, 0 < count -> Z.land count 15 = 0 -> 0 < symLenByte ->
    count + symLenByte * 3 <= len packed -> len masks = 4 ->
    searchAlignedCandidates4Go count packed symLenByte masks = Some (searchAlignedCandidates4A72 packed masks symLenByte count);
  scm_tail_lawful : forall packed count dst, count = 512 \/ count = 1024 -> count + 18 * 20 <= len packed ->
    searchAlignedCandidates4Go count packed 18 [0; 0; 0; 0] = Some dst ->
    finishAlignedCandidates packed searchAlignedCandidatesSCMPreamble 18 dst [] = Some (searchAlignedCandidatesSCMTailA72 dst packed count);
  scmplus_tail_lawful : forall packed count dst, count = 512 \/ count = 1024 -> count + 18 * 15 <= len packed ->
    searchAlignedCandidates4Go count packed 18 [0xff; 0xff; 0xff; 0] = Some dst ->
    finishAlignedCandidates packed searchAlignedCandidatesSCMPlusPreamble 18 dst [] =
    Some (searchAlignedCandidatesSCMPlusTailA72 dst packed count);
  all_lawful : forall packed masks symLenByte count, 0 < count -> Z.land count 15 = 0 -> 0 < symLenByte ->
    count + symLenByte * 31 <= len packed -> len masks = 32 ->
    exists dst, searchAlignedCandidates32Go count packed symLenByte masks = Some dst /\
      searchAlignedCandidates32A72 packed masks symLenByte count = (dst, expandAlignedCandidates dst []);
  idm_lawful : forall packed, 1024 + 18 * 31 <= len packed ->
    exists dst, searchAlignedCandidates32Go 1024 packed 18 (map bit_mask searchAlignedCandidates32IDMPreamble) = Some dst /\
      searchAlignedCandidates32IDMA72 packed 18 1024 = expandAlignedCandidates dst [];
  r900_lawful : forall packed, 1024 + 18 * 31 <= len packed ->
    exists dst, searchAlignedCandidates32Go 1024 packed 18 (map bit_mask searchAlignedCandidates32R900Preamble) = Some dst /\
      searchAlignedCandidates32R900A72 packed 18 1024 = expandAlignedCandidates dst [];
  dual_lawful : forall packed, 1024 + 18 * 31 <= len packed ->
    searchAlignedCandidates32IDMR900A72 packed 1024 =
    (searchAlignedCandidates32IDMA72 packed 18 1024, searchAlignedCandidates32R900A72 packed 18 1024) }.

(** ** The portable routines are total on such requests *)

Lemma mapM_defined {A B} (f : A -> option B) l : (forall x, x ∈ l -> is_Some (f x)) -> is_Some (mapM f l).
Proof. intros Hf. by apply mapM_is_Some, Forall_forall. Qed.

Lemma first_four_total packed s masks q : 0 <= s -> 0 <= q -> q + s * 3 < len packed -> len masks = 4 -> is_Some (first_four packed s masks q).
Proof.
  intros Hs Hq Hl Hm. unfold first_four. assert (length masks = 4%nat) as Hm' by (unfold len in Hm; lia). clear Hm.
  destruct masks as [|m0 [|m1 [|m2 [|m3 [|]]]]]; try done. cbn [index].
  destruct (index_lt packed q ltac:(nia)) as [? ->], (index_lt packed (q + s) ltac:(nia)) as [? ->],
    (index_lt packed (q + s * 2) ltac:(nia)) as [? ->], (index_lt packed (q + s * 3) ltac:(nia)) as [? ->]. by eexists.
Qed.

Lemma search4_total count packed s masks : 0 < count -> 0 <= s -> count + s * 3 <= len packed -> len masks = 4 ->
  exists dst, searchAlignedCandidates4Go count packed s masks = Some dst /\ len dst = count.
Proof.
  intros Hc Hs Hl Hm. unfold searchAlignedCandidates4Go. rewrite (proj2 (Z.eqb_neq _ _)) by lia.
  destruct (index_lt packed (count - 1 + s * 3) ltac:(nia)) as [? ->]. cbn [mbind option_bind].
  destruct (mapM_defined (first_four packed s masks) (seqZ 0 count)) as [dst E].
  { intros q Hq%elem_of_seqZ. apply first_four_total; nia. }
  exists dst. split; [done|]. apply length_mapM in E. unfold len. rewrite <- E, length_seqZ. lia.
Qed.

Lemma all_symbols_total packed q s masks : 0 <= s -> 0 <= q -> q + s * (len masks - 1) < len packed -> is_Some (all_symbols packed q s masks).
Proof.
  intros Hs Hq Hl. unfold all_symbols. assert (forall k c, 0 <= k -> q + s * (k + len masks - 1) < len packed ->
    is_Some (foldM (fun candidates '(pIdx, mask) => signal ← index packed (q + pIdx * s); Some (Z.land candidates (Z.lxor signal mask)))
      c (zip (seqZ k (len masks)) masks))) as G; [|apply G; lia].
  clear Hl. induction masks as [|m masks IH]; intros k c Hk Hl; [by eexists|].
  rewrite len_cons in *. pose proof (len_nonneg masks). rewrite (seqZ_cons k) by lia. cbn [zip zip_with foldM].
  destruct (index_lt packed (q + k * s) ltac:(nia)) as [? ->]. cbn [mbind option_bind].
  replace (Z.pred (len masks + 1)) with (len masks) by lia. apply IH; [lia|]. replace (Z.succ k + len masks - 1) with (k + (len masks + 1) - 1) by lia. done.
Qed.

Lemma search32_total count packed s masks : 0 < count -> 0 <= s -> count + s * 31 <= len packed -> len masks = 32 ->
  exists dst, searchAlignedCandidates32Go count packed s masks = Some dst /\ len dst = count.
Proof.
  intros Hc Hs Hl Hm. unfold searchAlignedCandidates32Go. rewrite (proj2 (Z.eqb_neq _ _)), Hm, Z.eqb_refl by lia. cbn [negb].
  destruct (index_lt packed (count - 1 + s * (32 - 1)) ltac:(nia)) as [? ->]. cbn [mbind option_bind].
  destruct (mapM_defined (fun q => all_symbols packed q s masks) (seqZ 0 count)) as [dst E].
  { intros q Hq%elem_of_seqZ. apply all_symbols_total; rewrite ?Hm; nia. }
  exists dst. split; [done|]. apply length_mapM in E. unfold len. rewrite <- E, length_seqZ. lia.
Qed.

Lemma match_rest_total packed q s pIdx tail c : 0 <= s -> 0 <= q -> 0 <= pIdx -> q + s * (pIdx + len tail - 1) < len packed ->
  is_Some (match_rest packed q s pIdx tail c).
Proof.
  intros Hs Hq. revert pIdx c. induction tail as [|p tail IH]; intros pIdx c Hp Hl; [by eexists|]. cbn [match_rest].
  rewrite len_cons in Hl. pose proof (len_nonneg tail). destruct (index_lt packed (q + pIdx * s) ltac:(nia)) as [? ->]. cbn [mbind option_bind].
  destruct (_ =? 0); [by eexists|]. apply IH; [lia|]. replace (pIdx + 1 + len tail - 1) with (pIdx + (len tail + 1) - 1) by lia. done.
Qed.

(** A mask gives at most eight indices. *)
Lemma len_expand fuel q c acc : len (expand fuel q c acc) <= len acc + Z.of_nat fuel.
Proof.
  revert c acc. induction fuel as [|fuel IH]; intros c acc; cbn [expand]; [lia|]. destruct (c =? 0); [lia|].
  etransitivity; [apply IH|]. rewrite len_app. change (len [_]) with 1. lia.
Qed.

Lemma len_expand_masks masks : forall q acc, len (expand_masks q masks acc) <= len acc + 8 * len masks.
Proof.
  induction masks as [|c masks IH]; intros q acc; cbn [expand_masks]; [unfold len at 3; cbn; lia|]. rewrite len_cons.
  etransitivity; [apply IH|]. pose proof (len_expand 8 q c acc). lia.
Qed.

Lemma finish_total packed preamble s masks : forall q acc, 0 <= s -> 0 <= q -> 4 <= len preamble ->
  q + len masks + s * (len preamble - 1) <= len packed ->
  exists idx, finish_masks packed preamble s q masks acc = Some idx /\ len idx <= len acc + 8 * len masks.
Proof.
  induction masks as [|c masks IH]; intros q acc Hs Hq H4 Hl; cbn [finish_masks]; [exists acc; unfold len at 3; cbn; split; [done|lia]|].
  rewrite len_cons in *. pose proof (len_nonneg masks).
  assert (exists c', (if negb (c =? 0) then tail ← slice 4 (len preamble) preamble; match_rest packed q s 4 tail c else Some c) = Some c') as [c' ->].
  { destruct (negb _); [|by eexists]. rewrite slice_suffix by lia. cbn [mbind option_bind]. apply match_rest_total; [lia..|].
    unfold len at 1. rewrite length_drop. unfold len in *. nia. }
  cbn [mbind option_bind]. destruct (IH (q + 1) (expand 8 q c' acc)) as (idx & -> & Hi); [lia..|]. exists idx. split; [done|].
  pose proof (len_expand 8 q c' acc). lia.
Qed.

(** ** The buffers of the self tests *)

Lemma len_pattern n f : 0 <= n -> len (pattern n f) = n.
Proof. intros Hn. unfold pattern, len. rewrite length_map, length_seqZ. lia. Qed.

#[local] Opaque pattern.

Lemma foldM_len {B} (step : list Z -> B -> option (list Z)) (ok : list Z -> B -> Prop) l :
  (forall p e, ok p e -> exists p', step p e = Some p' /\ len p' = len p) ->
  (forall p p' e, len p' = len p -> ok p e -> ok p' e) ->
  forall p, (forall e, e ∈ l -> ok p e) -> exists p', foldM step p l = Some p' /\ len p' = len p.
Proof.
  intros Hstep Hok. induction l as [|e l IH]; intros p Hl; [by exists p|]. cbn [foldM].
  destruct (Hstep p e (Hl e ltac:(left))) as (p1 & -> & E1). cbn [mbind option_bind].
  destruct (IH p1) as (p2 & -> & E2). { intros x Hx. eapply Hok; [exact E1|]. apply Hl. by right. }
  exists p2. split; [done|lia].
Qed.

Lemma store_total (l : list Z) i x : 0 <= i < len l -> exists l', store l i x = Some l' /\ len l' = len l.
Proof.
  intros Hi. destruct (store l i x) as [l'|] eqn:E; [exists l'; split; [done|by eapply len_store]|].
  exfalso. unfold store in E. rewrite (proj2 (Z.leb_le _ _)), (proj2 (Z.ltb_lt _ _)) in E by lia. done.
Qed.

Lemma plant_total preamble s packed q phase : 0 <= s -> 0 <= q -> q + s * (len preamble - 1) < len packed ->
  exists p, plant preamble s packed (q, phase) = Some p /\ len p = len packed.
Proof.
  intros Hs Hq Hl. apply (foldM_len _ (fun p '(symbol, _) => 0 <= q + symbol * s < len p)).
  - intros p [symbol pb] Hp. unfold put_symbol. destruct (index_lt p _ Hp) as [x ->]. cbn [mbind option_bind]. by apply store_total.
  - by intros p p' [symbol pb] ->.
  - intros [symbol pb] Hin. apply list_elem_of_lookup in Hin as [i Hi]. apply lookup_zip_with_Some in Hi as (x & y & E & Hx & Hy).
    injection E as -> ->. apply lookup_seqZ in Hx as [-> Hi]. nia.
Qed.

Lemma put_mask_total s packed idx mask : 0 <= idx * s -> idx * s + 15 < len packed ->
  exists p, put_mask s packed (idx, mask) = Some p /\ len p = len packed.
Proof.
  intros Hi Hl. unfold put_mask. destruct (index_lt packed (idx * s) ltac:(lia)) as [x ->]. cbn [mbind option_bind].
  destruct (store_total packed (idx * s) (if mask =? 0 then Z.lor x 128 else Z.ldiff x 128) ltac:(lia)) as (p1 & -> & E1). cbn [mbind option_bind].
  destruct (index_lt p1 (idx * s + 15) ltac:(lia)) as [y ->]. cbn [mbind option_bind].
  destruct (store_total p1 (idx * s + 15) (if mask =? 0 then Z.lor y 1 else Z.ldiff y 1) ltac:(lia)) as (p2 & -> & E2). exists p2. split; [done|lia].
Qed.

Lemma plants_total preamble s l packed : 0 <= s ->
  (forall c, c ∈ l -> 0 <= c.1 /\ c.1 + s * (len preamble - 1) < len packed) ->
  exists p, foldM (plant preamble s) packed l = Some p /\ len p = len packed.
Proof.
  intros Hs Hl. apply (foldM_len _ (fun p (c : Z * Z) => 0 <= c.1 /\ c.1 + s * (len preamble - 1) < len p)); [|by intros p p' c ->|done].
  intros p [q phase] [H1 H2]. by apply plant_total.
Qed.

Lemma every_true {A} (test : A -> option bool) l : (forall c, c ∈ l -> test c = Some true) -> every test l = Some true.
Proof.
  induction l as [|c l IH]; intros Hl; [done|]. cbn [every]. rewrite Hl by left. cbn [mbind option_bind negb]. apply IH. intros x Hx. apply Hl. by right.
Qed.

(** Case analysis of the members of a concrete list. *)
Ltac members H := repeat (apply elem_of_cons in H as [->|H]); [..|by apply elem_of_nil in H].

(** ** Lawful leaves pass *)

Section Lawful.
Context `{SearchLeaves} (Hlaw : search_leaves_lawful).

Lemma self_test_4 : searchAlignedCandidates4SelfTest = Some true.
Proof using Hlaw.
  unfold searchAlignedCandidates4SelfTest. apply every_true. intros c Hc. members Hc; cbv beta iota zeta;
    (rewrite (four_lawful Hlaw); [|lia|done|lia|rewrite len_pattern; lia|done]); cbn [mbind option_bind]; by rewrite bool_decide_eq_true_2.
Qed.

Lemma self_test_32 : searchAlignedCandidates32SelfTest = Some true.
Proof using Hlaw.
  unfold searchAlignedCandidates32SelfTest. set (masks := pattern 32 _). set (packed := pattern (32 + _) _). cbv zeta.
  assert (len packed = 590) as Lp by (by apply len_pattern). assert (len masks = 32) as Lm by (by apply len_pattern).
  destruct (foldM_len (put_mask 18) (fun p '(idx, _) => 0 <= idx < 32 /\ len p = 590) (zip (seqZ 0 32) masks)) with (p := packed) as (p & -> & Ep).
  - intros p [idx mask] [H1 H2]. apply put_mask_total; lia.
  - intros p p' [idx mask] E [H1 H2]. lia.
  - intros [idx mask] Hin. apply list_elem_of_lookup in Hin as [i Hi]. apply lookup_zip_with_Some in Hi as (x & y & E & Hx & Hy).
    injection E as -> ->. apply lookup_seqZ in Hx as [-> Hi]. lia.
  - cbn [mbind option_bind]. destruct (all_lawful Hlaw p masks 18 32) as (dst & -> & ->); [lia|done|lia|lia|done|]. cbn [mbind option_bind].
    by rewrite !bool_decide_eq_true_2.
Qed.

Lemma self_test_fixed4 : searchAlignedCandidates4FixedSelfTest = Some true.
Proof using Hlaw.
  unfold searchAlignedCandidates4FixedSelfTest. apply every_true. intros count Hcount. assert (count = 512 \/ count = 1024) as Hc by (members Hcount; auto).
  assert (forall preamble masks, 4 <= len preamble -> len masks = 4 -> forall i, exists p dst,
    foldM (plant preamble 18) (pattern (count + 18 * (len preamble - 1)) (fun idx => idx * 73 + Z.quot idx 17 * 29 + i * 41 + 11)) [(0, 0); (count - 1, 7)] = Some p /\
    len p = count + 18 * (len preamble - 1) /\ searchAlignedCandidates4Go count p 18 masks = Some dst) as Hbuild.
  { intros preamble masks H4 Hm i. destruct (plants_total preamble 18 [(0, 0); (count - 1, 7)]
      (pattern (count + 18 * (len preamble - 1)) (fun idx => idx * 73 + Z.quot idx 17 * 29 + i * 41 + 11))) as (p & Ep & Lp); [lia| |].
    { intros c Hin. rewrite len_pattern by lia. members Hin; cbn [fst]; lia. }
    rewrite len_pattern in Lp by lia. destruct (search4_total count p 18 masks) as (dst & Ed & _); [lia..|done|]. by exists p, dst. }
  cbv beta. apply every_true. intros c Hin. members Hin; unfold fixed4_case.
  - destruct (Hbuild searchAlignedCandidatesSCMPreamble [0; 0; 0; 0] ltac:(done) eq_refl 0) as (p & dst & -> & Lp & Ed). cbn [mbind option_bind].
    rewrite Ed. cbn [mbind option_bind]. change (len searchAlignedCandidatesSCMPreamble) with 21 in Lp.
    rewrite (scm_tail_lawful Hlaw p count dst Hc) by (done || lia). cbn [mbind option_bind]. by rewrite bool_decide_eq_true_2.
  - destruct (Hbuild searchAlignedCandidatesSCMPlusPreamble [0xff; 0xff; 0xff; 0] ltac:(done) eq_refl 1) as (p & dst & -> & Lp & Ed). cbn [mbind option_bind].
    rewrite Ed. cbn [mbind option_bind]. change (len searchAlignedCandidatesSCMPlusPreamble) with 16 in Lp.
    rewrite (scmplus_tail_lawful Hlaw p count dst Hc) by (done || lia). cbn [mbind option_bind]. by rewrite bool_decide_eq_true_2.
Qed.

Lemma self_test_fixed32 : searchAlignedCandidates32FixedSelfTest = Some true.
Proof using Hlaw.
  assert (forall preamble i, len preamble = 32 -> exists p,
    foldM (plant preamble 18) (pattern (1024 + 18 * 31) (fun idx => idx * 73 + i * 41 + 19)) [(0, 0); (63, 7); (1023, 4)] = Some p /\ 1024 + 18 * 31 <= len p) as Hbuild.
  { intros preamble i H32. destruct (plants_total preamble 18 [(0, 0); (63, 7); (1023, 4)] (pattern (1024 + 18 * 31) (fun idx => idx * 73 + i * 41 + 19)))
      as (p & Ep & Lp); [lia| |exists p; split; [done|]; rewrite Lp, len_pattern; lia].
    intros c Hin. rewrite len_pattern, H32 by lia. members Hin; cbn [fst]; lia. }
  unfold searchAlignedCandidates32FixedSelfTest. apply every_true. intros c Hin. members Hin; unfold fixed32_case; cbv zeta.
  - destruct (Hbuild searchAlignedCandidates32IDMPreamble 0 eq_refl) as (p & -> & Lp). cbn [mbind option_bind].
    destruct (idm_lawful Hlaw p Lp) as (dst & -> & ->). cbn [mbind option_bind]. by rewrite bool_decide_eq_true_2.
  - destruct (Hbuild searchAlignedCandidates32R900Preamble 1 eq_refl) as (p & -> & Lp). cbn [mbind option_bind].
    destruct (r900_lawful Hlaw p Lp) as (dst & -> & ->). cbn [mbind option_bind]. by rewrite bool_decide_eq_true_2.
Qed.

Lemma self_test_dual : searchAlignedCandidates32DualFixedSelfTest = Some true.
Proof using Hlaw.
  unfold searchAlignedCandidates32DualFixedSelfTest. set (packed := pattern _ _). cbv zeta. assert (len packed = 1582) as Lp by (by apply len_pattern).
  destruct (foldM_len (fun packed '(preamble, candidate) => plant preamble 18 packed candidate)
    (fun p (e : list Z * (Z * Z)) => len p = 1582 /\ len e.1 = 32 /\ 0 <= e.2.1 < 1024)
    [(searchAlignedCandidates32IDMPreamble, (0, 0)); (searchAlignedCandidates32IDMPreamble, (63, 7));
     (searchAlignedCandidates32R900Preamble, (1023, 4)); (searchAlignedCandidates32R900Preamble, (511, 3))]) with (p := packed) as (p & -> & Ep).
  - intros p [preamble [q phase]] (H1 & H2 & H3). cbn [fst snd] in *. apply plant_total; rewrite ?H2; lia.
  - intros p p' e -> ?. done.
  - intros e Hin. split; [done|]. members Hin; cbn [fst snd]; (split; [done|lia]).
  - cbn [mbind option_bind]. rewrite (dual_lawful Hlaw p) by lia. by rewrite !bool_decide_eq_true_2.
Qed.

Lemma search_start_detected m : let on := detectCortexA72R0P3 m in
  search_start m = Some {| searchAlignedCandidates4Enabled := on; searchAlignedCandidates32FixedEnabled := on;
                           searchAlignedCandidates32DualFixedEnabled := on; searchAlignedCandidates4FixedEnabled := on |}.
Proof using Hlaw.
  unfold search_start. destruct (detectCortexA72R0P3 m); [|done]. cbn [both].
  rewrite self_test_4. cbn [mbind option_bind both]. rewrite self_test_32, self_test_fixed32. cbn [mbind option_bind both].
  by rewrite self_test_dual, self_test_fixed4.
Qed.
End Lawful.

(** ** The guards keep lawful leaves inside their contracts *)

Lemma written_ok capacity (indices : list Z) : len indices <= capacity -> written capacity indices = Some indices.
Proof. intros Hl. unfold written. by rewrite (proj2 (Z.ltb_ge _ _)). Qed.

Lemma len_expandAligned masks : len (expandAlignedCandidates masks []) <= 8 * len masks.
Proof. pose proof (len_expand_masks masks 0 []) as Hl. change (len []) with 0 in Hl. unfold expandAlignedCandidates. lia. Qed.

Section Guards.
Context `{SearchLeaves} (Hlaw : search_leaves_lawful).

(** A tail that finishes its prefix masks fits in the index buffer. *)
Lemma finished_fits packed preamble masks tail count capacity :
  0 < count -> count * 8 <= capacity -> 4 <= len preamble -> len masks = 4 -> count + 18 * (len preamble - 1) <= len packed ->
  (forall dst, searchAlignedCandidates4Go count packed 18 masks = Some dst -> finishAlignedCandidates packed preamble 18 dst [] = Some (tail dst)) ->
  forall dst, searchAlignedCandidates4Go count packed 18 masks = Some dst ->
  written capacity (tail dst) = Some (tail dst) /\
  (m ← searchAlignedCandidates4Go count packed 18 masks; finishAlignedCandidates packed preamble 18 m []) = Some (tail dst).
Proof.
  intros Hc Hcap H4 Hm Hl Htail dst Ed. pose proof (Htail dst Ed) as Ef. rewrite Ed. cbn [mbind option_bind]. split; [|done].
  destruct (search4_total count packed 18 masks) as (dst' & Ed' & Ld); [lia..|done|]. rewrite Ed in Ed'. injection Ed' as <-.
  destruct (finish_total packed preamble 18 dst 0 []) as (idx & Ei & Li); [lia..|]. unfold finishAlignedCandidates in Ef. rewrite Ef in Ei.
  injection Ei as <-. change (len []) with 0 in Li. apply written_ok. lia.
Qed.

Lemma fixed4_spec enabled preamble count packed symLenByte capacity : exists indices ok,
  searchAlignedCandidates4FixedPlatform enabled preamble count packed symLenByte capacity = Some (indices, ok) /\
  (ok = true -> enabled = true /\ 4 <= len preamble /\
    (m ← searchAlignedCandidates4Go count packed symLenByte (map bit_mask (take 4 preamble));
     finishAlignedCandidates packed preamble symLenByte m []) = Some indices).
Proof using Hlaw.
  unfold searchAlignedCandidates4FixedPlatform. destruct (_ || _) eqn:Eg; [by exists [], false|].
  rewrite !orb_false_iff, negb_false_iff, andb_false_iff, !negb_false_iff, !Z.eqb_eq, Z.ltb_ge in Eg. destruct Eg as [[[-> Hc] ->] Hcap].
  assert (Z.land count 15 = 0 /\ 0 < count) as [H15 Hpos] by (destruct Hc as [-> | ->]; done).
  destruct (_ && bool_decide (preamble = searchAlignedCandidatesSCMPreamble)) eqn:E1;
    [|destruct (_ && bool_decide (preamble = searchAlignedCandidatesSCMPlusPreamble)) eqn:E2; [|by exists [], false]].
  - apply andb_prop in E1 as [_ ->%bool_decide_eq_true]. change (len searchAlignedCandidatesSCMPreamble - 1) with 20.
    destruct (Z.ltb_spec (len packed) (count + 18 * 20)) as [|Hl]; [by exists [], false|]. cbv zeta.
    destruct (finished_fits packed searchAlignedCandidatesSCMPreamble [0; 0; 0; 0] (fun dst => searchAlignedCandidatesSCMTailA72 dst packed count)
      count capacity Hpos Hcap ltac:(done) eq_refl ltac:(done) (fun dst => scm_tail_lawful Hlaw packed count dst Hc Hl) _
      (four_lawful Hlaw packed [0; 0; 0; 0] 18 count Hpos H15 ltac:(lia) ltac:(lia) eq_refl)) as [-> Ef].
    cbn [mbind option_bind]. eexists _, true. split; [done|]. intros _. split; [done|]. split; [done|]. exact Ef.
  - apply andb_prop in E2 as [_ ->%bool_decide_eq_true]. change (len searchAlignedCandidatesSCMPlusPreamble - 1) with 15.
    destruct (Z.ltb_spec (len packed) (count + 18 * 15)) as [|Hl]; [by exists [], false|]. cbv zeta.
    destruct (finished_fits packed searchAlignedCandidatesSCMPlusPreamble [0xff; 0xff; 0xff; 0] (fun dst => searchAlignedCandidatesSCMPlusTailA72 dst packed count)
      count capacity Hpos Hcap ltac:(done) eq_refl ltac:(done) (fun dst => scmplus_tail_lawful Hlaw packed count dst Hc Hl) _
      (four_lawful Hlaw packed [0xff; 0xff; 0xff; 0] 18 count Hpos H15 ltac:(lia) ltac:(lia) eq_refl)) as [-> Ef].
    cbn [mbind option_bind]. eexists _, true. split; [done|]. intros _. split; [done|]. split; [done|]. exact Ef.
Qed.

(** The complete search of 32 symbols by the portable routine. *)
Abbreviation search32 count packed symLenByte masks :=
  (m ← searchAlignedCandidates32Go count packed symLenByte masks; Some (expandAlignedCandidates m [])).

Lemma indices_fit packed masks dst count s capacity : 0 < count -> 0 <= s -> count + s * 31 <= len packed -> len masks = 32 -> count * 8 <= capacity ->
  searchAlignedCandidates32Go count packed s masks = Some dst ->
  written capacity (expandAlignedCandidates dst []) = Some (expandAlignedCandidates dst []).
Proof.
  intros Hc Hs Hl Hm Hcap E. destruct (search32_total count packed s masks) as (dst' & E' & Ld); [done..|]. rewrite E in E'. injection E' as <-.
  apply written_ok. pose proof (len_expandAligned dst). lia.
Qed.

Lemma fixed32_spec enabled preamble count packed symLenByte capacity : exists indices ok,
  searchAlignedCandidates32FixedPlatform enabled preamble count packed symLenByte capacity = Some (indices, ok) /\
  (ok = true -> enabled = true /\ len preamble = 32 /\ search32 count packed symLenByte (map bit_mask preamble) = Some indices).
Proof using Hlaw.
  unfold searchAlignedCandidates32FixedPlatform. cbv zeta. destruct (_ || _) eqn:Eg; [by exists [], false|].
  rewrite !orb_false_iff, !negb_false_iff, !Z.eqb_eq, !Z.ltb_ge in Eg. destruct Eg as [[[[-> ->] ->] Hl] Hcap].
  destruct (bool_decide_reflect (preamble = searchAlignedCandidates32IDMPreamble)) as [->|];
    [|destruct (bool_decide_reflect (preamble = searchAlignedCandidates32R900Preamble)) as [->|]; [|by exists [], false]].
  - destruct (idm_lawful Hlaw packed ltac:(lia)) as (dst & Ed & ->). rewrite (indices_fit packed (map bit_mask searchAlignedCandidates32IDMPreamble) dst 1024 18 capacity) by (done || lia).
    cbn [mbind option_bind]. eexists _, true. split; [done|]. intros _. split; [done|]. split; [done|]. by rewrite Ed.
  - destruct (r900_lawful Hlaw packed ltac:(lia)) as (dst & Ed & ->). rewrite (indices_fit packed (map bit_mask searchAlignedCandidates32R900Preamble) dst 1024 18 capacity) by (done || lia).
    cbn [mbind option_bind]. eexists _, true. split; [done|]. intros _. split; [done|]. split; [done|]. by rewrite Ed.
Qed.

Lemma platform32_spec count packed s masks capacity : 0 <= count -> Z.land count 15 = 0 -> 0 < s -> count + s * 31 <= len packed -> len masks = 32 ->
  count * 8 <= capacity -> searchAlignedCandidates32Platform count packed s masks capacity = search32 count packed s masks.
Proof using Hlaw.
  intros Hc H15 Hs Hl Hm Hcap. unfold searchAlignedCandidates32Platform, searchAlignedCandidates32Go. destruct (Z.eqb_spec count 0) as [->|Hne]; [done|].
  destruct (all_lawful Hlaw packed masks s count) as (dst & Ed & El); [lia|done..|].
  rewrite H15, Hm, (proj2 (Z.leb_gt _ _)), !(proj2 (Z.ltb_ge _ _)) by lia. cbn [negb orb Z.eqb Pos.eqb]. rewrite El. cbn [snd].
  pose proof (indices_fit packed masks dst count s capacity ltac:(lia) ltac:(lia) Hl Hm Hcap Ed) as ->.
  unfold searchAlignedCandidates32Go in Ed. rewrite (proj2 (Z.eqb_neq _ _)), Hm in Ed by done. cbn [negb Z.eqb Pos.eqb] in Ed.
  change (32 =? 32) with true in *. cbn [negb] in *. by rewrite Ed.
Qed.

Lemma platform4_spec count packed s masks : 0 <= count -> Z.land count 15 = 0 -> 0 < s -> count + s * 3 <= len packed -> len masks = 4 ->
  searchAlignedCandidates4Platform count packed s masks = searchAlignedCandidates4Go count packed s masks.
Proof using Hlaw.
  intros Hc H15 Hs Hl Hm. unfold searchAlignedCandidates4Platform. destruct (Z.eqb_spec count 0) as [->|Hne]; [done|].
  rewrite H15, (proj2 (Z.leb_gt _ _)), (proj2 (Z.ltb_ge _ _)) by lia. cbn [negb orb Z.eqb]. symmetry. apply (four_lawful Hlaw); (done || lia).
Qed.

Lemma dual_spec enabled packed symLenByte idmCapacity r900Capacity : exists idm r900 ok,
  searchAlignedCandidates32DualFixedPlatform enabled packed symLenByte idmCapacity r900Capacity = Some (idm, r900, ok) /\
  (ok = true -> enabled = true /\ symLenByte = 18 /\ 1024 * 8 <= idmCapacity /\
    search32 1024 packed 18 (map bit_mask searchAlignedCandidates32IDMPreamble) = Some idm /\
    search32 1024 packed 18 (map bit_mask searchAlignedCandidates32R900Preamble) = Some r900).
Proof using Hlaw.
  unfold searchAlignedCandidates32DualFixedPlatform. cbv zeta. destruct (_ || _) eqn:Eg; [by exists [], [], false|].
  rewrite !orb_false_iff, !negb_false_iff, !Z.eqb_eq, !Z.ltb_ge in Eg. destruct Eg as [[[[-> ->] Hl] Hc1] Hc2].
  rewrite (dual_lawful Hlaw packed) by lia. destruct (idm_lawful Hlaw packed ltac:(lia)) as (d1 & E1 & ->), (r900_lawful Hlaw packed ltac:(lia)) as (d2 & E2 & ->).
  rewrite (indices_fit packed (map bit_mask searchAlignedCandidates32IDMPreamble) d1 1024 18 idmCapacity) by (done || lia). cbn [mbind option_bind].
  rewrite (indices_fit packed (map bit_mask searchAlignedCandidates32R900Preamble) d2 1024 18 r900Capacity) by (done || lia). cbn [mbind option_bind].
  eexists _, _, true. split; [done|]. intros _. by rewrite E1, E2.
Qed.
End Guards.

(** With room for the indices of 1024 bytes the dual search serves. *)
Lemma dual_serves `{SearchLeaves} (Hlaw : search_leaves_lawful) packed idmCapacity r900Capacity :
  1024 + 18 * 31 <= len packed -> 8192 <= idmCapacity -> 8192 <= r900Capacity -> exists idm r900,
  searchAlignedCandidates32DualFixedPlatform true packed 18 idmCapacity r900Capacity = Some (idm, r900, true) /\
  (m ← searchAlignedCandidates32Go 1024 packed 18 (map bit_mask searchAlignedCandidates32IDMPreamble); Some (expandAlignedCandidates m [])) = Some idm /\
  (m ← searchAlignedCandidates32Go 1024 packed 18 (map bit_mask searchAlignedCandidates32R900Preamble); Some (expandAlignedCandidates m [])) = Some r900.
Proof.
  intros Hl H1 H2. destruct (dual_spec Hlaw true packed 18 idmCapacity r900Capacity) as (idm & r900 & ok & E & Hok). exists idm, r900.
  destruct ok; [by destruct (Hok eq_refl) as (_ & _ & _ & E1 & E2)|]. exfalso.
  unfold searchAlignedCandidates32DualFixedPlatform in E. rewrite !(proj2 (Z.ltb_ge _ _)) in E by lia. cbn [negb orb Z.eqb Pos.eqb] in E.
  destruct (searchAlignedCandidates32IDMR900A72 packed 1024) as [i r]. unfold written in E. by repeat case_match.
Qed.

(** ** The build meets the interfaces *)

Section Instances.
Context `{SearchLeaves} (Hlaw : search_leaves_lawful) (f : SearchFlags).

Lemma finished_is_generic packed preamble s count indices :
  Forall is_byte packed -> Forall is_bit preamble -> 0 < s -> 0 <= count -> count + s * (len preamble - 1) <= len packed -> 4 <= len preamble ->
  (m ← searchAlignedCandidates4Go count packed s (map bit_mask (take 4 preamble)); finishAlignedCandidates packed preamble s m []) = Some indices ->
  searchPackedByteAlignedGeneric (8 * count) packed preamble s = Some indices.
Proof.
  intros Hb Hp Hs Hc Hl H4 E. rewrite <- (Z2Nat.id count) in * by done. rewrite finish4_correct in E by done. rewrite <- E. by apply generic_correct.
Qed.

Lemma search32_is_generic packed preamble s count indices :
  Forall is_byte packed -> Forall is_bit preamble -> 0 < s -> 0 <= count -> count + s * (len preamble - 1) <= len packed -> len preamble = 32 ->
  (m ← searchAlignedCandidates32Go count packed s (map bit_mask preamble); Some (expandAlignedCandidates m [])) = Some indices ->
  searchPackedByteAlignedGeneric (8 * count) packed preamble s = Some indices.
Proof.
  intros Hb Hp Hs Hc Hl H32 E. rewrite <- (Z2Nat.id count) in * by done. rewrite search32_correct in E by done. rewrite <- E. by apply generic_correct.
Qed.

(** The index buffers have the capacity of a block, eight indices for each byte. *)
Definition native_search : SearchPlatform.
Proof.
  refine {| Search.searchAlignedCandidates4Available := searchAlignedCandidates4Enabled f;
            Search.searchAlignedCandidates4Platform := searchAlignedCandidates4Platform;
            Search.searchAlignedCandidates4FixedPlatform := fun preamble count packed symLenByte =>
              default ([], false) (searchAlignedCandidates4FixedPlatform (searchAlignedCandidates4FixedEnabled f) preamble count packed symLenByte (count * 8));
            Search.searchAlignedCandidates32Platform := fun count packed symLenByte masks =>
              searchAlignedCandidates32Platform count packed symLenByte masks (count * 8);
            Search.searchAlignedCandidates32FixedPlatform := fun preamble count packed symLenByte =>
              default ([], false) (searchAlignedCandidates32FixedPlatform (searchAlignedCandidates32FixedEnabled f) preamble count packed symLenByte (count * 8)) |}.
  - intros count packed s masks _ Hc H15 Hs Hl Hm. by apply platform4_spec.
  - intros count packed s masks _ Hc H15 Hs Hl Hm. by apply platform32_spec.
  - intros preamble count packed s indices E Hb Hp Hs Hc Hl.
    destruct (fixed4_spec Hlaw (searchAlignedCandidates4FixedEnabled f) preamble count packed s (count * 8)) as (idx & ok & E' & Hok).
    rewrite E' in E. cbn [default] in E. injection E as -> ->. destruct (Hok eq_refl) as (_ & H4 & Ef). by apply finished_is_generic.
  - intros preamble count packed s indices E Hb Hp Hs Hc Hl.
    destruct (fixed32_spec Hlaw (searchAlignedCandidates32FixedEnabled f) preamble count packed s (count * 8)) as (idx & ok & E' & Hok).
    rewrite E' in E. cbn [default] in E. injection E as -> ->. destruct (Hok eq_refl) as (_ & H32 & Ef). by apply search32_is_generic.
Defined.

Lemma fixed_preamble_bytes :
  preamble_bytes fixedIDMPreambleASCII = searchAlignedCandidates32IDMPreamble /\
  preamble_bytes fixedR900PreambleASCII = searchAlignedCandidates32R900Preamble.
Proof. by vm_compute. Qed.

Lemma fixed_preamble_bits : Forall is_bit searchAlignedCandidates32IDMPreamble /\ Forall is_bit searchAlignedCandidates32R900Preamble.
Proof. split; apply uintsb_Forall; reflexivity. Qed.

Definition native_dual : DualPlatform.
Proof.
  refine {| Decode.searchAlignedCandidates32DualFixedPlatform := fun blockSize packed symLenByte =>
    match searchAlignedCandidates32DualFixedPlatform (searchAlignedCandidates32DualFixedEnabled f) packed symLenByte blockSize blockSize with
    | Some (idm, r900, true) => Some (idm, r900) | _ => None end |}.
  intros blockSize packed s idm r900 E H8 Hs Hb Hn Hl. destruct fixed_preamble_bytes as [-> ->]. destruct fixed_preamble_bits as [B1 B2].
  destruct (dual_spec Hlaw (searchAlignedCandidates32DualFixedEnabled f) packed s blockSize blockSize) as (i & r & ok & E' & Hok). rewrite E' in E.
  destruct ok; [|done]. injection E as -> ->. destruct (Hok eq_refl) as (_ & -> & Hcap & E1 & E2).
  assert (blockSize = 8 * 1024) as -> by (specialize (H8 eq_refl); lia). change (8 * 1024 / 8) with 1024 in Hl.
  split; by apply search32_is_generic.
Defined.
End Instances.

(** ** Reference leaves *)

(** The portable routines in the place of the native leaves. *)
Definition reference_leaves : SearchLeaves := {|
  searchAlignedCandidates4A72 := fun packed masks s count => default [] (searchAlignedCandidates4Go count packed s masks);
  searchAlignedCandidatesSCMTailA72 := fun masks packed _ => default [] (finishAlignedCandidates packed searchAlignedCandidatesSCMPreamble 18 masks []);
  searchAlignedCandidatesSCMPlusTailA72 := fun masks packed _ => default [] (finishAlignedCandidates packed searchAlignedCandidatesSCMPlusPreamble 18 masks []);
  searchAlignedCandidates32A72 := fun packed masks s count =>
    let dst := default [] (searchAlignedCandidates32Go count packed s masks) in (dst, expandAlignedCandidates dst []);
  searchAlignedCandidates32IDMA72 := fun packed s count =>
    expandAlignedCandidates (default [] (searchAlignedCandidates32Go count packed s (map bit_mask searchAlignedCandidates32IDMPreamble))) [];
  searchAlignedCandidates32R900A72 := fun packed s count =>
    expandAlignedCandidates (default [] (searchAlignedCandidates32Go count packed s (map bit_mask searchAlignedCandidates32R900Preamble))) [];
  searchAlignedCandidates32IDMR900A72 := fun packed count =>
    (expandAlignedCandidates (default [] (searchAlignedCandidates32Go count packed 18 (map bit_mask searchAlignedCandidates32IDMPreamble))) [],
     expandAlignedCandidates (default [] (searchAlignedCandidates32Go count packed 18 (map bit_mask searchAlignedCandidates32R900Preamble))) []) |}.

Lemma reference_lawful : @search_leaves_lawful reference_leaves.
Proof.
  assert (forall preamble packed count dst masks, 4 <= len preamble -> len masks = 4 -> 0 < count -> count + 18 * (len preamble - 1) <= len packed ->
    searchAlignedCandidates4Go count packed 18 masks = Some dst ->
    finishAlignedCandidates packed preamble 18 dst [] = Some (default [] (finishAlignedCandidates packed preamble 18 dst []))) as Htail.
  { intros preamble packed count dst masks H4 Hm Hc Hl Ed. destruct (search4_total count packed 18 masks) as (dst' & Ed' & Ld); [lia..|done|].
    rewrite Ed in Ed'. injection Ed' as <-. destruct (finish_total packed preamble 18 dst 0 []) as (idx & Ei & _); [lia..|].
    unfold finishAlignedCandidates. by rewrite Ei. }
  assert (forall packed preamble, len preamble = 32 -> 1024 + 18 * 31 <= len packed -> exists dst, searchAlignedCandidates32Go 1024 packed 18 (map bit_mask preamble) = Some dst) as H32.
  { intros packed preamble Hp Hl. destruct (search32_total 1024 packed 18 (map bit_mask preamble)) as (dst & E & _); [lia..| |by exists dst].
    unfold len in *. by rewrite length_map. }
  constructor; cbn [reference_leaves searchAlignedCandidates4A72 searchAlignedCandidatesSCMTailA72 searchAlignedCandidatesSCMPlusTailA72
    searchAlignedCandidates32A72 searchAlignedCandidates32IDMA72 searchAlignedCandidates32R900A72 searchAlignedCandidates32IDMR900A72].
  - intros packed masks s count Hc _ Hs Hl Hm. destruct (search4_total count packed s masks) as (dst & -> & _); (done || lia).
  - intros packed count dst Hc Hl Ed. apply (Htail _ _ count _ [0; 0; 0; 0]); (done || lia).
  - intros packed count dst Hc Hl Ed. apply (Htail _ _ count _ [0xff; 0xff; 0xff; 0]); (done || lia).
  - intros packed masks s count Hc _ Hs Hl Hm. destruct (search32_total count packed s masks) as (dst & E & _); [done || lia..|]. exists dst. by rewrite E.
  - intros packed Hl. destruct (H32 packed searchAlignedCandidates32IDMPreamble eq_refl Hl) as [dst E]. exists dst. by rewrite E.
  - intros packed Hl. destruct (H32 packed searchAlignedCandidates32R900Preamble eq_refl Hl) as [dst E]. exists dst. by rewrite E.
  - done.
Qed.

(** ** Properties *)

(** The dual leaf searches 1024 bytes whatever the block is: of a block of 16384
    samples it sees the first half, and an IDM preamble in the second is lost. *)
Definition two_blocks : list Z := default [] (plant searchAlignedCandidates32IDMPreamble 18 (make (2048 + 18 * 31) 0xff) (1500, 0)).

Lemma two_blocks_bytes : Forall is_byte two_blocks /\ len two_blocks = 2606.
Proof. split; [apply uintsb_Forall|]; vm_compute; reflexivity. Qed.

Lemma two_blocks_preamble : preamble_at (bytes_bits two_blocks) 144 12000 searchAlignedCandidates32IDMPreamble = true.
Proof. vm_compute. reflexivity. Qed.

#[local] Opaque two_blocks.

Lemma two_blocks_generic n : Z.of_nat n <= 2048 ->
  searchPackedByteAlignedGeneric (8 * Z.of_nat n) two_blocks searchAlignedCandidates32IDMPreamble 18 =
  Some (matches (bytes_bits two_blocks) 144 (8 * Z.of_nat n) searchAlignedCandidates32IDMPreamble).
Proof.
  intros Hn. destruct two_blocks_bytes as [Hb Hl], fixed_preamble_bits as [Hp _].
  apply (generic_correct two_blocks Hb 18 ltac:(lia) n _ Hp). rewrite Hl. change (len searchAlignedCandidates32IDMPreamble) with 32. lia.
Qed.

Lemma dual_ignores_block_size `{SearchLeaves} (Hlaw : search_leaves_lawful) : exists idm r900 all,
  searchAlignedCandidates32DualFixedPlatform true two_blocks 18 16384 16384 = Some (idm, r900, true) /\
  searchPackedByteAlignedGeneric 16384 two_blocks searchAlignedCandidates32IDMPreamble 18 = Some all /\ 12000 ∈ all /\ 12000 ∉ idm.
Proof.
  destruct two_blocks_bytes as [Hb Hl], fixed_preamble_bits as [Hp _].
  destruct (dual_serves Hlaw two_blocks 16384 16384) as (idm & r900 & E & Ei & _); [lia..|].
  apply (search32_is_generic two_blocks _ 18 1024) in Ei; [|done|done|lia|lia|change (len searchAlignedCandidates32IDMPreamble) with 32; lia|done].
  pose proof (two_blocks_generic (Z.to_nat 2048) ltac:(lia)) as G2. pose proof (two_blocks_generic (Z.to_nat 1024) ltac:(lia)) as G1.
  rewrite Z2Nat.id in G1, G2 by lia. rewrite Ei in G1. apply (inj Some) in G1 as ->. eexists _, r900, _. split; [exact E|]. split; [exact G2|]. unfold matches. split.
  - apply list_elem_of_filter. split; [apply two_blocks_preamble|]. apply elem_of_seqZ. lia.
  - intros [_ Hin%elem_of_seqZ]%list_elem_of_filter. lia.
Qed.

(** Leaves that write nothing do not pass. *)
Definition idle_leaves : SearchLeaves := {|
  searchAlignedCandidates4A72 := fun _ _ _ count => make count 0; searchAlignedCandidatesSCMTailA72 := fun _ _ _ => [];
  searchAlignedCandidatesSCMPlusTailA72 := fun _ _ _ => []; searchAlignedCandidates32A72 := fun _ _ _ count => (make count 0, []);
  searchAlignedCandidates32IDMA72 := fun _ _ _ => []; searchAlignedCandidates32R900A72 := fun _ _ _ => [];
  searchAlignedCandidates32IDMR900A72 := fun _ _ => ([], []) |}.

Lemma idle_leaves_rejected : @searchAlignedCandidates4SelfTest idle_leaves = Some false /\ @searchAlignedCandidates32SelfTest idle_leaves = Some false.
Proof. split; vm_compute; reflexivity. Qed.

(** C12. The native search of the linux/arm64 build is not visible.  With leaves that
    meet their contracts, start-up does not panic and enables every leaf exactly on the
    accepted processor with RTLAMR_DISABLE_NEON unset; the guards keep every request
    inside the contracts, so the search behind them returns what the portable build
    returns, for every block size, symbol length and preamble; the dual search of a
    block of 8192 samples gives the results of the two portable searches; and no
    request makes a fixed-preamble leaf overrun its index buffer. *)
Theorem native_search_refines `{SearchLeaves} (m : Machine) (Hlaw : search_leaves_lawful) :
  exists f, search_start m = Some f /\
    (searchAlignedCandidates4Enabled f = detectCortexA72R0P3 m /\ searchAlignedCandidates32FixedEnabled f = detectCortexA72R0P3 m /\
     searchAlignedCandidates32DualFixedEnabled f = detectCortexA72R0P3 m /\ searchAlignedCandidates4FixedEnabled f = detectCortexA72R0P3 m) /\
    (forall (n : nat) s packed preamble, Forall is_byte packed -> Forall is_bit preamble -> 0 < s ->
      Z.of_nat n + s * (len preamble - 1) <= len packed ->
      @searchPackedByteAligned (native_search Hlaw f) (8 * Z.of_nat n) (8 * s) packed preamble =
      @searchPackedByteAligned generic_platform (8 * Z.of_nat n) (8 * s) packed preamble) /\
    (forall packed, detectCortexA72R0P3 m = true -> Forall is_byte packed -> 1024 + 18 * 31 <= len packed -> exists idm r900,
      searchAlignedCandidates32DualFixedPlatform (searchAlignedCandidates32DualFixedEnabled f) packed 18 8192 8192 = Some (idm, r900, true) /\
      searchPackedByteAlignedGeneric 8192 packed searchAlignedCandidates32IDMPreamble 18 = Some idm /\
      searchPackedByteAlignedGeneric 8192 packed searchAlignedCandidates32R900Preamble 18 = Some r900) /\
    (forall enabled preamble count packed s capacity,
      is_Some (searchAlignedCandidates4FixedPlatform enabled preamble count packed s capacity) /\
      is_Some (searchAlignedCandidates32FixedPlatform enabled preamble count packed s capacity)).
Proof.
  eexists. split; [by apply search_start_detected|]. cbn [searchAlignedCandidates4Enabled searchAlignedCandidates32FixedEnabled
    searchAlignedCandidates32DualFixedEnabled searchAlignedCandidates4FixedEnabled]. split; [done|]. split; [|split].
  - intros n s packed preamble Hb Hp Hs Hl. by rewrite !byte_aligned_correct.
  - intros packed Hon Hb Hl. rewrite Hon. destruct (dual_serves Hlaw packed 8192 8192 Hl) as (idm & r900 & E & E1 & E2); [lia..|].
    destruct fixed_preamble_bits as [B1 B2]. exists idm, r900. split; [done|]. split; by apply (search32_is_generic packed _ 18 1024).
  - intros enabled preamble count packed s capacity.
    destruct (fixed4_spec Hlaw enabled preamble count packed s capacity) as (i & o & -> & _), (fixed32_spec Hlaw enabled preamble count packed s capacity) as (i' & o' & -> & _).
    by split; eexists.
Qed.

Lemma native_search_refines_witness :
  detectCortexA72R0P3 (pi4 (fun _ => [])) = true /\
  exists f, @search_start reference_leaves (pi4 (fun _ => [])) = Some f /\ searchAlignedCandidates4FixedEnabled f = true.
Proof.
  split; [reflexivity|].
  destruct (@native_search_refines reference_leaves (pi4 (fun _ => [])) reference_lawful) as (f & E & (_ & _ & _ & F) & _).
  exists f. split; [exact E|]. rewrite F. reflexivity.
Defined.
