(* ===== verification/NativeSignal.v ===== *)
(** The signal kernels of the linux/arm64 build and how they are chosen: magnitudes and the
    float64 filter (src/protocol/magnitude_platform_arm64.go, manchester_platform_arm64.go),
    the fused power backends with their probe (src/protocol/power16_platform_arm64.go,
    power16_packed_selector_s6_arm64.go, power16_validation_accepted_arm64.go), and the R900
    symbol quantizer (src/r900/power16_quantize_platform_linux_arm64.go).  The start-up self
    tests accept leaves that meet their contracts, and what is chosen then meets the
    interfaces that the portable code is proved against. *)

From S2P Require Import Prelude Float64 Packet Search Ring History Signal Register Decode Receiver R900 Native NativeSearch.

(** ** The native leaves

    Machine code (the .s files beside the sources above): what a call leaves in its
    outputs. *)
Class SignalLeaves := {
  magnitudeLUTFloat64A72 : forall (input : list Z) (lut : list f64) (count : Z), list f64;
  filterManchesterA72TBXSSRABalanced : forall input : list f64, list Z;
  fusedPowerManchesterU8Mul32A72 : forall window iq : list Z, list Z * list Z;
  fusedPowerManchesterPackedU8Mul32A72 : forall window iq : list Z, list Z * list Z * list Z;
  quantizePower16L72A72 : forall signal : list Z, Z }.

#[local] Instance f64_eq_dec : EqDecision f64.
Proof. solve_decision. Defined.

(** Half-open address ranges. *)
Definition power16RangesOverlap (leftStart leftEnd rightStart rightEnd : Z) : bool := (leftStart <? rightEnd) && (rightStart <? leftEnd).

Section Kernels.
Context `{SignalLeaves}.

(** ** Magnitudes *)

(** The loop when the output is part of the table's memory: output [i] is the table's
    entry [shift + i]. *)
Definition aliased_step (shift : Z) (input : list Z) (st : list f64 * list f64) (idx : Z) : option (list f64 * list f64) :=
  let '(output, lut) := st in
  x ← magnitude_at lut input idx;
  Some (output ++ [x], if (0 <=? shift + idx) && (shift + idx <? len lut) then <[Z.to_nat (shift + idx) := x]> lut else lut).

Definition magnitudeLUTGo_aliased (shift : Z) (input : list Z) (n : Z) (lut : list f64) : option (list f64) :=
  if n =? 0 then Some [] else
  _ ← index lut 255; _ ← index input (n * 2 - 1);
  fst <$> foldM (aliased_step shift input) ([], lut) (seqZ 0 n).

(** [outputAt] and [lutAt] are the addresses of the buffers. *)
Definition magnitudeLUTA72Platform (outputAt lutAt n : Z) (input : list Z) (lut : list f64) : option (list f64) :=
  if n =? 0 then Some [] else
  if negb (Z.land n 7 =? 0) || (len input <? n * 2) || (len lut <? 256) then None else
  if power16RangesOverlap outputAt (outputAt + n * 8) lutAt (lutAt + 256 * 8)
  then magnitudeLUTGo_aliased ((outputAt - lutAt) / 8) input n lut
  else Some (magnitudeLUTFloat64A72 input lut n).

Definition every_iq : list Z := concat (map (fun i => concat (map (fun q => [i; q]) (seqZ 0 256))) (seqZ 0 256)).

Definition magnitudeLUTA72SelfTest : option bool :=
  let count := 256 * 256 in
  want ← magnitudeLUTGo every_iq count NewMagLUT;
  Some (bool_decide (magnitudeLUTFloat64A72 every_iq NewMagLUT count = want)).

Definition magnitudeLUTA72Enabled (m : Machine) : option bool := both (detectCortexA72R0P3 m) magnitudeLUTA72SelfTest.

(** ** The filter in float64 *)

Definition filterManchesterA72InputSize : Z := 8192 + 2 * 72.

Definition filterManchesterA72Platform (enabled : bool) (outputAt inputAt : Z) (input : list f64) (n chipLength : Z) : option (list Z) :=
  if negb enabled || negb (chipLength =? 72) || negb (n =? 8192) || (len input <? filterManchesterA72InputSize) then None else
  if power16RangesOverlap outputAt (outputAt + n) inputAt (inputAt + filterManchesterA72InputSize * 8) then None else
  Some (filterManchesterA72TBXSSRABalanced input).

(** ** The fused power backends *)

(** The addresses of the buffers of a block. *)
Record Buffers := { decisionsAt : Z; packedAt : Z; windowAt : Z; inputAt : Z }.

Definition power16FusedA72 (at_ : Buffers) : run_fn := fun ndecisions window input =>
  if negb (ndecisions =? power16BlockSize) || negb (len window =? power16Window) || negb (len input =? power16BlockSize * 2) then Some None else
  let decisionEnd := decisionsAt at_ + ndecisions in
  let windowEnd := windowAt at_ + len window * 2 in
  let inputEnd := inputAt at_ + len input in
  if power16RangesOverlap (decisionsAt at_) decisionEnd (windowAt at_) windowEnd ||
     power16RangesOverlap (decisionsAt at_) decisionEnd (inputAt at_) inputEnd ||
     power16RangesOverlap (windowAt at_) windowEnd (inputAt at_) inputEnd then Some None else
  Some (Some (fusedPowerManchesterU8Mul32A72 window input)).

Definition power16FusedPackedA72 (at_ : Buffers) : runPacked_fn := fun ndecisions npacked window input =>
  if negb (ndecisions =? power16BlockSize) || negb (npacked =? Z.shiftr power16BlockSize 3) ||
     negb (len window =? power16Window) || negb (len input =? power16BlockSize * 2) then Some None else
  let decisionEnd := decisionsAt at_ + ndecisions in
  let packedEnd := packedAt at_ + npacked in
  let windowEnd := windowAt at_ + len window * 2 in
  let inputEnd := inputAt at_ + len input in
  if power16RangesOverlap (decisionsAt at_) decisionEnd (packedAt at_) packedEnd ||
     power16RangesOverlap (decisionsAt at_) decisionEnd (windowAt at_) windowEnd ||
     power16RangesOverlap (decisionsAt at_) decisionEnd (inputAt at_) inputEnd ||
     power16RangesOverlap (packedAt at_) packedEnd (windowAt at_) windowEnd ||
     power16RangesOverlap (packedAt at_) packedEnd (inputAt at_) inputEnd ||
     power16RangesOverlap (windowAt at_) windowEnd (inputAt at_) inputEnd then Some None else
  Some (Some (fusedPowerManchesterPackedU8Mul32A72 window input)).

(** The buffers of the self tests. *)
Definition self_test_input : list Z := pattern (power16BlockSize * 2) (fun idx => idx * 73 + Z.quot idx 31 * 19 + 7).

Definition self_test_window : list Z :=
  map (fun idx => if idx <? power16History then u16 (Z.rem (idx * 977 + Z.quot idx 7 * 313 + 11) (255 * 255) + 1) else 0) (seqZ 0 power16Window).

(** What the reference leaves behind; a refusal leaves the buffers as they were. *)
Definition reference_block : option (list Z * list Z) :=
  r ← power16ReferenceBlock power16BlockSize self_test_window self_test_input;
  Some (default (make power16BlockSize 0, self_test_window) r).

Definition power16FusedSelfTest : option bool :=
  '(wantDecisions, wantWindow) ← reference_block;
  let '(gotDecisions, gotWindow) := fusedPowerManchesterU8Mul32A72 self_test_window self_test_input in
  Some (bool_decide (gotDecisions = wantDecisions) && bool_decide (gotWindow = wantWindow)).

Definition power16FusedPackedSelfTest : option bool :=
  '(wantDecisions, wantWindow) ← reference_block;
  wantPacked ← packQuantized (Z.shiftr power16BlockSize 3) wantDecisions;
  let '(gotDecisions, gotPacked, gotWindow) := fusedPowerManchesterPackedU8Mul32A72 self_test_window self_test_input in
  Some (bool_decide (gotDecisions = wantDecisions) && bool_decide (gotPacked = wantPacked) && bool_decide (gotWindow = wantWindow)).

Definition power16SelectedSelfTest : option bool := power16FusedPackedSelfTest.

Definition with_run (p : power16Platform) (implementation : list Z) (r : run_fn) (rp : option runPacked_fn) : power16Platform :=
  {| Register.implementation := implementation; fallbackReason := fallbackReason p; midr := midr p; Register.nativeAvailable := Register.nativeAvailable p;
     genuineA72 := genuineA72 p; asimd := asimd p; selfTestPassed := selfTestPassed p; killSwitch := killSwitch p;
     validationOnly := validationOnly p; Register.run := Some r; runPacked := rp |}.

Definition power16SelectRun (at_ : Buffers) (p : power16Platform) : power16Platform :=
  with_run p (str "u8mul32-power-manchester-packed-a72-v1") (power16FusedA72 at_) (Some (power16FusedPackedA72 at_)).

Definition probePower16Platform (m : Machine) (at_ : Buffers) : option power16Platform :=
  let midr := power16ReadMIDR m in
  let asimd := power16DetectASIMD m in
  let kill := is_set m "RTLAMR_DISABLE_NEON" || is_set m "RTLAMR_DISABLE_POWER16" in
  let genuine := bool_decide (midr = cortexA72R0P3MIDR) in
  let platform (reason : list Z) (passed native : bool) :=
    {| Register.implementation := str "u8mul32-power-manchester-a72-v1"; fallbackReason := reason; Register.midr := midr;
       Register.nativeAvailable := native; genuineA72 := genuine; Register.asimd := asimd; selfTestPassed := passed; killSwitch := kill;
       validationOnly := false; Register.run := None; runPacked := None |} in
  if kill then Some (platform (str "kill-switch") false false)
  else if negb asimd then Some (platform (str "asimd-unavailable") false false)
  else if negb genuine then Some (platform (str "unsupported-cpu") false false)
  else
    passed ← power16SelectedSelfTest;
    if negb passed then Some (platform (str "self-test-failed") false false)
    else Some (power16SelectRun at_ (platform [] true true)).

(** The deployed leaf as a control for validation. *)
Definition probePower16AcceptedA72Validation (m : Machine) (at_ : Buffers) : option power16Platform :=
  p ← probePower16Platform m at_;
  if negb (Register.nativeAvailable p) || negb (genuineA72 p) || negb (asimd p) || killSwitch p || negb (selfTestPassed p) then Some p else
  let p := with_run p (str "u8mul32-power-manchester-a72-v1") (power16FusedA72 at_) None in
  passed ← power16FusedSelfTest;
  Some {| Register.implementation := Register.implementation p;
          fallbackReason := if (passed : bool) then fallbackReason p else str "accepted-d4-self-test-failed"; midr := midr p;
          Register.nativeAvailable := passed && Register.nativeAvailable p; genuineA72 := genuineA72 p; asimd := asimd p; selfTestPassed := passed;
          killSwitch := killSwitch p; validationOnly := validationOnly p; Register.run := Register.run p; runPacked := runPacked p |}.

(** ** The R900 quantizer *)

Definition power16R900SelectPlatform (p : power16R900Platform) (midr : list Z) (asimd : bool) (selfTest : option bool)
    : option power16R900Platform :=
  let genuine := bool_decide (midr = cortexA72R0P3MIDR) in
  let platform (implementation reason : list Z) (passed native : bool) (run : list Z -> option Z) :=
    {| q_implementation := implementation; q_fallbackReason := reason; q_midr := midr; q_asimd := asimd; q_genuineA72 := genuine;
       q_selfTestPassed := passed; q_killSwitch := q_killSwitch p; q_killSwitchName := q_killSwitchName p; nativeAvailable := native; run := run |} in
  let fallback (reason : list Z) := Some (platform (q_implementation p) reason (q_selfTestPassed p) (nativeAvailable p) (run p)) in
  if q_killSwitch p then fallback (str "kill-switch")
  else if negb genuine then fallback (str "unsupported-cpu")
  else if negb asimd then fallback (str "asimd-unavailable")
  else
    passed ← selfTest;
    if negb passed then Some (platform (q_implementation p) (str "self-test-failed") false (nativeAvailable p) (run p))
    else Some (platform (str "power16-r900-l72-a72-v1") (q_fallbackReason p) true true
      (fun signal => _ ← index signal 0; Some (u8 (quantizePower16L72A72 signal)))).

(** A pseudo-random window; the state is carried from sample to sample. *)
Fixpoint lcg_window (n : nat) (state : Z) : list Z :=
  match n with
  | O => []
  | S n => let state := u64 (u64 (state * 6364136223846793005) + 1442695040888963407) in u16 (Z.rem state 65026) :: lcg_window n state
  end.

Definition power16R900SelfTest : option bool :=
  every (fun residue =>
    let window := lcg_window 288 (u64 (0x523353454c465431 + residue)) in
    want ← quantizePower16WindowGo window 72;
    Some (bool_decide (u8 (quantizePower16L72A72 window) = want))) (seqZ 0 8).

(** The first variable that is set. *)
Fixpoint first_set (m : Machine) (names : list string) : list Z :=
  match names with
  | [] => []
  | name :: names => if is_set m name then str name else first_set m names
  end.

Definition power16R900ProbePlatform (m : Machine) : option power16R900Platform :=
  let killSwitchName := first_set m ["RTLAMR_DISABLE_NEON"; "RTLAMR_DISABLE_POWER16"; "RTLAMR_DISABLE_R900_POWER16_SIMD"]%string in
  let midr := match ReadFile m midr_path with Some value => TrimSpace value | None => [] end in
  power16R900SelectPlatform
    {| q_implementation := str "go-power16-r900"; q_fallbackReason := []; q_midr := midr; q_asimd := false; q_genuineA72 := false;
       q_selfTestPassed := false; q_killSwitch := negb (bool_decide (killSwitchName = [])); q_killSwitchName := killSwitchName;
       nativeAvailable := false; run := fun _ => None |}
    midr (power16R900DetectASIMD m) power16R900SelfTest.
End Kernels.

(** ** The contracts of the leaves

    For the requests that the guards let through, a leaf computes what the portable
    routine computes that its self test compares it with. *)
Record signal_leaves_lawful `{SignalLeaves} : Prop := {
  magnitude_leaf : forall n input lut, 0 < n -> Z.land n 7 = 0 -> len input = 2 * n -> 256 <= len lut -> Forall is_byte input ->
    magnitudeLUTGo input n lut = Some (magnitudeLUTFloat64A72 input lut n);
  manchester_leaf : forall input, filterManchesterA72InputSize <= len input ->
    FilterGo input 8192 72 = Some (filterManchesterA72TBXSSRABalanced input);
  fused_leaf : forall window input, len window = power16Window -> Forall (is_uint 16) window -> len input = power16BlockSize * 2 ->
    Forall is_byte input -> power16ReferenceBlock power16BlockSize window input = Some (Some (fusedPowerManchesterU8Mul32A72 window input));
  packed_leaf : forall window input, len window = power16Window -> Forall (is_uint 16) window -> len input = power16BlockSize * 2 ->
    Forall is_byte input -> exists decisions bytes w, fusedPowerManchesterPackedU8Mul32A72 window input = (decisions, bytes, w) /\
      power16ReferenceBlock power16BlockSize window input = Some (Some (decisions, w)) /\ packQuantized 1024 decisions = Some bytes;
  quantizer_leaf : forall signal, 72 * 4 <= len signal -> quantizePower16WindowGo signal 72 = Some (u8 (quantizePower16L72A72 signal)) }.

(** Different allocations do not share memory. *)
Record disjoint_buffers (b : Buffers) : Prop := {
  dj_decisions_packed : power16RangesOverlap (decisionsAt b) (decisionsAt b + 8192) (packedAt b) (packedAt b + 1024) = false;
  dj_decisions_window : power16RangesOverlap (decisionsAt b) (decisionsAt b + 8192) (windowAt b) (windowAt b + 16672) = false;
  dj_decisions_input : power16RangesOverlap (decisionsAt b) (decisionsAt b + 8192) (inputAt b) (inputAt b + 16384) = false;
  dj_packed_window : power16RangesOverlap (packedAt b) (packedAt b + 1024) (windowAt b) (windowAt b + 16672) = false;
  dj_packed_input : power16RangesOverlap (packedAt b) (packedAt b + 1024) (inputAt b) (inputAt b + 16384) = false;
  dj_window_input : power16RangesOverlap (windowAt b) (windowAt b + 16672) (inputAt b) (inputAt b + 16384) = false }.

(** ** The guards let the decoder's blocks through *)

Section Guards.
Context `{SignalLeaves}.

Lemma power16FusedA72_runs b window input : disjoint_buffers b -> len window = power16Window -> len input = power16BlockSize * 2 ->
  power16FusedA72 b power16BlockSize window input = Some (Some (fusedPowerManchesterU8Mul32A72 window input)).
Proof.
  intros [_ D1 D2 _ _ D3] Hw Hi. unfold power16FusedA72. rewrite Hw, Hi. cbv zeta.
  change (power16Window * 2) with 16672. change (power16BlockSize * 2) with 16384. change power16BlockSize with 8192. by rewrite D1, D2, D3.
Qed.

Lemma power16FusedPackedA72_runs b window input : disjoint_buffers b -> len window = power16Window -> len input = power16BlockSize * 2 ->
  power16FusedPackedA72 b power16BlockSize 1024 window input = Some (Some (fusedPowerManchesterPackedU8Mul32A72 window input)).
Proof.
  intros [D1 D2 D3 D4 D5 D6] Hw Hi. unfold power16FusedPackedA72. rewrite Hw, Hi. cbv zeta.
  change (power16Window * 2) with 16672. change (power16BlockSize * 2) with 16384. change power16BlockSize with 8192. by rewrite D1, D2, D3, D4, D5, D6.
Qed.
End Guards.

(** ** Lawful leaves pass their self tests *)

Lemma pattern_bytes n f : Forall is_byte (pattern n f).
Proof. apply Forall_fmap, Forall_true. intros idx. by apply wrap_u_range. Qed.

Lemma self_test_input_bytes : len self_test_input = power16BlockSize * 2 /\ Forall is_byte self_test_input.
Proof. split; [by apply len_pattern|apply pattern_bytes]. Qed.

Lemma self_test_window_powers : len self_test_window = power16Window /\ Forall (is_uint 16) self_test_window.
Proof.
  split; [unfold self_test_window, len; rewrite length_map, length_seqZ; by apply Z2Nat.id|].
  apply Forall_fmap, Forall_true. intros idx. cbn. destruct (_ <? _); [by apply wrap_u_range|by split].
Qed.

#[local] Opaque self_test_input self_test_window.

Lemma len_concat_map {A B} (f : A -> list B) k l : (forall x, len (f x) = k) -> len (concat (map f l)) = k * len l.
Proof.
  intros Hf. induction l as [|x l IH]; [unfold len; cbn; lia|]. cbn [map concat]. rewrite len_app, Hf, IH, len_cons. lia.
Qed.

Lemma every_iq_bytes : len every_iq = 2 * 65536 /\ Forall is_byte every_iq.
Proof.
  assert (len (seqZ 0 256) = 256) as L by (unfold len; by rewrite length_seqZ). split.
  - unfold every_iq. rewrite (len_concat_map _ (2 * 256)), L; [done|]. intros i. by rewrite (len_concat_map _ 2), L.
  - unfold every_iq. apply Forall_concat, Forall_fmap, Forall_forall. intros i Hi%elem_of_seqZ. cbn.
    apply Forall_concat, Forall_fmap, Forall_forall. intros q Hq%elem_of_seqZ. cbn. repeat constructor; lia.
Qed.

#[local] Opaque every_iq.

Lemma length_lcg_window n state : length (lcg_window n state) = n.
Proof. revert state. induction n as [|n IH]; intros state; cbn [lcg_window length]; [done|]. by rewrite IH. Qed.

Section Lawful.
Context `{SignalLeaves} (Hlaw : signal_leaves_lawful).

Lemma magnitude_self_test : magnitudeLUTA72SelfTest = Some true.
Proof using Hlaw.
  unfold magnitudeLUTA72SelfTest. change (256 * 256) with 65536. cbv zeta. destruct every_iq_bytes as [Hl Hb].
  rewrite (magnitude_leaf Hlaw 65536 every_iq NewMagLUT) by (done || lia). cbn [mbind option_bind]. by rewrite bool_decide_eq_true_2.
Qed.

Lemma packed_self_test : power16FusedPackedSelfTest = Some true.
Proof using Hlaw.
  unfold power16FusedPackedSelfTest, reference_block. destruct self_test_input_bytes as [Li Bi], self_test_window_powers as [Lw Bw].
  destruct (packed_leaf Hlaw self_test_window self_test_input Lw Bw Li Bi) as (d & b & w & -> & -> & Ep). cbn [mbind option_bind default id].
  change (Z.shiftr power16BlockSize 3) with 1024. rewrite Ep. cbn [mbind option_bind]. by rewrite !bool_decide_eq_true_2.
Qed.

Lemma fused_self_test : power16FusedSelfTest = Some true.
Proof using Hlaw.
  unfold power16FusedSelfTest, reference_block. destruct self_test_input_bytes as [Li Bi], self_test_window_powers as [Lw Bw].
  rewrite (fused_leaf Hlaw self_test_window self_test_input Lw Bw Li Bi). cbn [mbind option_bind default id].
  destruct (fusedPowerManchesterU8Mul32A72 _ _). by rewrite !bool_decide_eq_true_2.
Qed.

Lemma r900_self_test : power16R900SelfTest = Some true.
Proof using Hlaw.
  unfold power16R900SelfTest. apply every_true. intros residue _. cbv zeta.
  rewrite (quantizer_leaf Hlaw) by (unfold len; by rewrite length_lcg_window). cbn [mbind option_bind]. by rewrite bool_decide_eq_true_2.
Qed.

(** ** What the probes choose *)

(** The fused backends are taken on the accepted processor with neither switch set. *)
Definition power16_accepted (m : Machine) : bool :=
  negb (is_set m "RTLAMR_DISABLE_NEON" || is_set m "RTLAMR_DISABLE_POWER16") && power16DetectASIMD m &&
  bool_decide (power16ReadMIDR m = cortexA72R0P3MIDR).

Lemma probe_chooses m b : exists p, probePower16Platform m b = Some p /\ platform_refused p = negb (power16_accepted m) /\
  (power16_accepted m = true -> Register.run p = Some (power16FusedA72 b) /\ runPacked p = Some (power16FusedPackedA72 b)) /\
  (power16_accepted m = false -> Register.run p = None) /\
  (is_set m "RTLAMR_DISABLE_NEON" || is_set m "RTLAMR_DISABLE_POWER16" = true -> killSwitch p = true /\ fallbackReason p = str "kill-switch").
Proof using Hlaw.
  unfold probePower16Platform, power16_accepted, platform_refused. destruct (is_set _ _ || is_set _ _); [by eexists|].
  destruct (power16DetectASIMD m); [|by eexists]. destruct (bool_decide (power16ReadMIDR m = cortexA72R0P3MIDR)); [|by eexists].
  cbn [negb]. unfold power16SelectedSelfTest. rewrite packed_self_test. cbn [mbind option_bind negb]. by eexists.
Qed.

Lemma native_run_lawful b p : disjoint_buffers b -> Register.run p = Some (power16FusedA72 b) -> runPacked p = Some (power16FusedPackedA72 b) ->
  probe_lawful (Some (fun _ => p)).
Proof using Hlaw.
  intros Hd Er Erp f fr cfg ov Ef Efr. injection Ef as <-. rewrite Er in Efr. injection Efr as <-. unfold allocatePower16. constructor; cbn [p_run p_runPacked].
  - intros window input Lw Bw Li Bi. rewrite power16FusedA72_runs by done. symmetry. by apply (fused_leaf Hlaw).
  - intros g window input E Lw Bw Li Bi. rewrite Erp in E. injection E as <-. rewrite power16FusedPackedA72_runs by done.
    destruct (packed_leaf Hlaw window input Lw Bw Li Bi) as (d & bytes & w & -> & -> & Ep). cbn [mbind option_bind]. by rewrite Ep.
Qed.

Definition r900_accepted (m : Machine) : bool :=
  negb (is_set m "RTLAMR_DISABLE_NEON" || is_set m "RTLAMR_DISABLE_POWER16" || is_set m "RTLAMR_DISABLE_R900_POWER16_SIMD") &&
  power16R900DetectASIMD m && bool_decide (power16ReadMIDR m = cortexA72R0P3MIDR).

Lemma r900_chooses m : exists q, power16R900ProbePlatform m = Some q /\ nativeAvailable q = r900_accepted m /\
  forall signal, nativeAvailable q = true -> 72 * 4 <= len signal -> run q signal = quantizePower16WindowGo signal 72.
Proof using Hlaw.
  unfold power16R900ProbePlatform, power16R900SelectPlatform, r900_accepted. change (match ReadFile m midr_path with Some v => TrimSpace v | None => [] end) with (power16ReadMIDR m).
  cbn [first_set]. destruct (is_set m "RTLAMR_DISABLE_NEON"); [by eexists|]. destruct (is_set m "RTLAMR_DISABLE_POWER16"); [by eexists|].
  destruct (is_set m "RTLAMR_DISABLE_R900_POWER16_SIMD"); [by eexists|]. cbn [q_killSwitch orb negb andb]. rewrite (bool_decide_eq_true_2 ([] = [])) by done.
  cbn [negb]. destruct (bool_decide (power16ReadMIDR m = _)), (power16R900DetectASIMD m); cbn [negb andb]; try by eexists.
  rewrite r900_self_test. cbn [mbind option_bind negb]. eexists. split; [done|]. split; [done|]. intros signal _ Hl. cbn [run].
  destruct (index_lt signal 0 ltac:(lia)) as [x ->]. cbn [mbind option_bind]. symmetry. by apply (quantizer_leaf Hlaw).
Qed.
End Lawful.

(** ** The build meets the interfaces *)

Section Instances.
Context `{SignalLeaves} (Hlaw : signal_leaves_lawful).

Lemma native_magnitude_agrees outputAt lutAt n input lut :
  power16RangesOverlap outputAt (outputAt + n * 8) lutAt (lutAt + 256 * 8) = false ->
  0 < n -> n mod 8 = 0 -> len input = 2 * n -> 256 <= len lut -> Forall is_byte input ->
  magnitudeLUTA72Platform outputAt lutAt n input lut = magnitudeLUTGo input n lut.
Proof using Hlaw.
  intros Hd Hn H8 Hl Hlut Hb. assert (Z.land n 7 = 0) as H7 by (change 7 with (Z.ones 3); rewrite Z.land_ones by lia; exact H8).
  unfold magnitudeLUTA72Platform. rewrite (proj2 (Z.eqb_neq _ _)), H7, !(proj2 (Z.ltb_ge _ _)), Hd by lia. cbn [negb orb Z.eqb].
  symmetry. by apply (magnitude_leaf Hlaw).
Qed.

(** The address of the output of each length, and of the table, which is allocated apart
    from it, above or below. *)
Definition native_magnitude (enabled : bool) (outputAt : Z -> Z) (lutAt : Z)
  (Hd : forall n, 0 < n -> power16RangesOverlap (outputAt n) (outputAt n + n * 8) lutAt (lutAt + 256 * 8) = false) : MagnitudePlatform.
Proof.
  refine {| magnitudeLUTA72Available := enabled; Signal.magnitudeLUTA72Platform := fun n => magnitudeLUTA72Platform (outputAt n) lutAt n |}.
  intros n input lut _ Hn. by apply native_magnitude_agrees, Hn; apply Hd.
Defined.

Definition native_manchester (enabled : bool) (outputAt inputAt : Z) : ManchesterPlatform.
Proof.
  refine {| Signal.filterManchesterA72Platform := filterManchesterA72Platform enabled outputAt inputAt |}.
  intros input n chipLength out. unfold filterManchesterA72Platform. destruct (_ || _) eqn:Eg; [done|].
  rewrite !orb_false_iff, !negb_false_iff, !Z.eqb_eq, Z.ltb_ge in Eg. destruct Eg as [[[_ ->] ->] Hl]. destruct (power16RangesOverlap _ _ _ _); [done|].
  intros [= <-]. by apply (manchester_leaf Hlaw).
Defined.

Definition native_quantizer (m : Machine) : QuantizerPlatform.
Proof.
  refine {| power16R900CurrentPlatform := default power16R900PortablePlatform (power16R900ProbePlatform m) |}.
  destruct (r900_chooses Hlaw m) as (q & -> & _ & Hrun). exact Hrun.
Defined.
End Instances.

(** ** Reference leaves *)

Definition reference_signal_leaves : SignalLeaves := {|
  magnitudeLUTFloat64A72 := fun input lut n => default [] (magnitudeLUTGo input n lut);
  filterManchesterA72TBXSSRABalanced := fun input => default [] (FilterGo input 8192 72);
  fusedPowerManchesterU8Mul32A72 := fun window input =>
    match power16ReferenceBlock power16BlockSize window input with Some (Some r) => r | _ => ([], []) end;
  fusedPowerManchesterPackedU8Mul32A72 := fun window input =>
    match power16ReferenceBlock power16BlockSize window input with Some (Some (d, w)) => (d, default [] (packQuantized 1024 d), w) | _ => ([], [], []) end;
  quantizePower16L72A72 := fun signal => default 0 (quantizePower16WindowGo signal 72) |}.

(** The reference block runs on the decoder's sizes, and its decisions are bits. *)
Lemma reference_block_runs window input : len window = power16Window -> Forall (is_uint 16) window -> len input = power16BlockSize * 2 ->
  Forall is_byte input -> exists d w, power16ReferenceBlock power16BlockSize window input = Some (Some (d, w)) /\ len d = 8192 /\ Forall is_bit d.
Proof.
  intros Lw Bw Li Bi. unfold power16ReferenceBlock. rewrite Lw, Li, !Z.eqb_refl. cbn [negb orb]. change (power16Window - power16History) with 8192.
  set (n := Z.to_nat 8192). assert (Z.of_nat n = 8192) as En by done. rewrite <- En.
  destruct (power16IQReference_exact input n Bi) as (powers & -> & Lp & Rp & _); [by rewrite Li, En|]. cbn [mbind option_bind].
  set (w := take (Z.to_nat power16History) window ++ powers).
  assert (Forall (is_uint 16) w) as Rw by (apply Forall_app; auto with go).
  assert (len w = 8336) as Hlw.
  { unfold w, len in *. rewrite length_app, length_take. change (Z.to_nat power16History) with 144%nat. change power16Window with 8336 in Lw. lia. }
  pose proof (power16Manchester_exact w 72 Rw ltac:(reflexivity) n ltac:(lia)) as HM. change (Z.of_nat 72) with power16ChipLength in HM.
  replace power16BlockSize with (Z.of_nat n) by done. rewrite HM by (unfold len in Hlw; lia). cbn [mbind option_bind]. eexists _, w. split; [reflexivity|].
  split; [unfold len; by rewrite length_map, length_seq|]. apply Forall_fmap, Forall_true. intros k. unfold compose. by destruct (_ <=? _); split.
Qed.

Lemma reference_signal_lawful : @signal_leaves_lawful reference_signal_leaves.
Proof.
  constructor; cbn [reference_signal_leaves magnitudeLUTFloat64A72 filterManchesterA72TBXSSRABalanced fusedPowerManchesterU8Mul32A72
    fusedPowerManchesterPackedU8Mul32A72 quantizePower16L72A72].
  - intros n input lut Hn _ Hl Hlut Hb. destruct (magnitudeLUTGo_spec input (Z.to_nat n) lut Hb ltac:(lia) Hlut) as (out & E & _).
    rewrite Z2Nat.id in E by lia. by rewrite E.
  - intros input Hl. unfold filterManchesterA72InputSize in Hl. pose proof (FilterGo_total input (Z.to_nat 8192) (Z.to_nat 72)) as HF.
    rewrite !Z2Nat.id in HF by done. destruct (HF ltac:(lia)) as (out & E & _). by rewrite E.
  - intros window input Lw Bw Li Bi. destruct (reference_block_runs window input Lw Bw Li Bi) as (d & w & -> & _). done.
  - intros window input Lw Bw Li Bi. destruct (reference_block_runs window input Lw Bw Li Bi) as (d & w & -> & Hd & Hb).
    destruct (packQuantized_spec 1024 d Hb) as (bytes & E & _); [unfold len in Hd; lia|]. change (Z.of_nat 1024) with 1024 in E. rewrite E.
    by exists d, bytes, w.
  - intros signal Hl. destruct (quantizePower16WindowGo_total signal 72 ltac:(lia) ltac:(lia)) as [v E]. rewrite E. cbn [default id]. f_equal.
    apply quantizePower16WindowGo_range in E. symmetry. apply wrap_u_id. uints. lia.
Qed.

(** ** Properties *)

(** C13. The native signal kernels of the linux/arm64 build are chosen on the accepted
    processor only and are not visible.  With leaves that meet their contracts no probe
    panics; the fused backend is selectable exactly when the processor is the accepted
    one and neither switch is set, a set switch is named as the reason, and what is
    selected meets the contract of the fused backends; the R900 quantizer likewise, and
    returns what the Go routine returns; the magnitude and filter kernels, whenever
    their guards let a request through, give the portable loop's samples. *)
Theorem native_signal_refines `{SignalLeaves} (m : Machine) (b : Buffers) (Hlaw : signal_leaves_lawful) (Hbuffers : disjoint_buffers b) :
  exists p q e, probePower16Platform m b = Some p /\ power16R900ProbePlatform m = Some q /\ magnitudeLUTA72Enabled m = Some e /\
    platform_refused p = negb (power16_accepted m) /\ probe_lawful (Some (fun _ => p)) /\
    (is_set m "RTLAMR_DISABLE_NEON" || is_set m "RTLAMR_DISABLE_POWER16" = true -> killSwitch p = true /\ fallbackReason p = str "kill-switch") /\
    nativeAvailable q = r900_accepted m /\
    (forall signal, nativeAvailable q = true -> 72 * 4 <= len signal -> run q signal = quantizePower16WindowGo signal 72) /\
    e = detectCortexA72R0P3 m /\
    (forall outputAt lutAt n input lut,
      power16RangesOverlap outputAt (outputAt + n * 8) lutAt (lutAt + 256 * 8) = false ->
      0 < n -> n mod 8 = 0 -> len input = 2 * n -> 256 <= len lut -> Forall is_byte input ->
      magnitudeLUTA72Platform outputAt lutAt n input lut = magnitudeLUTGo input n lut) /\
    (forall enabled outputAt inputAt input n chipLength out,
      filterManchesterA72Platform enabled outputAt inputAt input n chipLength = Some out -> FilterGo input n chipLength = Some out).
Proof.
  destruct (probe_chooses Hlaw m b) as (p & Ep & Href & Hon & Hoff & Hkill), (r900_chooses Hlaw m) as (q & Eq & Hq & Hrun).
  exists p, q, (detectCortexA72R0P3 m). do 2 (split; [done|]). split.
  { unfold magnitudeLUTA72Enabled. destruct (detectCortexA72R0P3 m); [|done]. cbn [both]. by apply magnitude_self_test. }
  split; [done|]. split.
  { destruct (power16_accepted m); [destruct (Hon eq_refl); by apply (native_run_lawful Hlaw b)|].
    intros g fr cfg ov E Er. injection E as <-. by rewrite (Hoff eq_refl) in Er. }
  do 4 (split; [done|]). split; [intros; by apply native_magnitude_agrees|].
  intros enabled outputAt inputAt. exact (@manchester_agrees (native_manchester Hlaw enabled outputAt inputAt)).
Qed.

Definition example_buffers : Buffers := {| decisionsAt := 0x10000; packedAt := 0x20000; windowAt := 0x30000; inputAt := 0x40000 |}.

Lemma native_signal_refines_witness :
  power16_accepted (pi4 (fun _ => [])) = true /\
  exists p, @probePower16Platform reference_signal_leaves (pi4 (fun _ => [])) example_buffers = Some p /\ platform_refused p = false.
Proof.
  split; [reflexivity|].
  destruct (@native_signal_refines reference_signal_leaves (pi4 (fun _ => [])) example_buffers reference_signal_lawful)
    as (p & q & e & Ep & _ & _ & Er & _).
  - constructor; reflexivity.
  - exists p. split; [exact Ep|]. rewrite Er. reflexivity.
Defined.
